(* ===== verification/_CoqProject ===== *)
-Q . S2P
Prelude.v
GoStrings.v
GoSort.v
GoTime.v
Clock.v
GoFloat.v
FloatRatio.v
Headers.v
AtomicFile.v
DailySpend.v
Traffic.v
Yaml.v
Namespace.v
CustomRules.v
Proxies.v
Subscriptions.v
ServerConfig.v
Tokens.v
Http.v
OwnProxies.v
Cache.v
Refresh.v
Scheduler.v
SchedulerProofs.v
Rules.v
ProxyGroups.v
Fanout.v
RuleSet.v
Prune.v
Region.v
Pipeline.v
Output.v
OutputProofs.v
Server.v
ServerProofs.v
Main.v
BuildProofs.v
BuildLog.v
Closure.v
SpendStore.v
SpendRace.v
Served.v
