(* ===== verification/Prelude.v ===== *)
(** * honkai-rule-server: a verification library

    The program serves one Mihomo (Clash) configuration assembled from several
    upstream subscriptions, the operator's own proxies and groups, and custom
    rule files.  This library models its Go code and proves what makes the
    served configuration correct, from the environment read at start-up to the
    bytes and headers of a response.

    ** The program's parts and the files that model them

    All paths are under src/.  Function and type names are the source's.

    - [Prelude]: tactics, hint databases, list lemmas, 64-bit wrap-around.
    - [GoStrings], [GoSort], [GoTime], [GoFloat]: what the code uses of Go's
      language and standard library (package strings on bytes, UTF-8 decoding,
      strconv, sort.SliceStable, time with a zone table, IEEE binary64 through
      SpecFloat).  Strings are byte strings.  [FloatRatio] is about rounding:
      the quotient of two counters.  [Clock] is internal/clock.
    - Start-up: [ServerConfig], [Tokens], [OwnProxies], [Subscriptions] (the
      files of internal/config: server, tokens, own_proxies, subscriptions),
      [CustomRules] (internal/customrules) and [Main] (cmd/server/main.go, which
      composes them).
    - Upstreams: [Headers], [Http], [Cache] (internal/fetcher: headers, http,
      cache); [Refresh] is the concurrent part of cache.go, and [Scheduler] is
      scheduler.go, with its lemmas in [SchedulerProofs].
    - The merge: [Yaml] (yaml.v3 nodes and yamlutil.go), [Namespace], [Proxies],
      [ProxyGroups], [Rules], [RuleSet], [Region], [Fanout], [Prune], [Traffic]:
      the files of internal/merge of those names; [DailySpend]
      (internal/dailyspend/snapshot.go); [Pipeline] (pipeline.go), whose [Build]
      composes all of these, with the events it logs in [BuildLog].
      [AtomicFile] is how Save of internal/dailyspend and persist of cache.go
      replace a file, system call by system call.
    - Serving: [Output] (internal/output/subscription_mode.go), [Server]
      (internal/auth, internal/server and its routes, SanitizeToken of
      internal/observability), with lemmas in [OutputProofs], [ServerProofs].
    - Composition: [BuildProofs] and [Closure] are about [Build] as a whole,
      [SpendStore] about a sequence of builds over a snapshot store and
      [SpendRace] about concurrent ones, [Served] about a started process that
      answers a request.

    ** How the state corresponds

    A [yaml.Node] is a value ([Yaml.node]): the pipeline clones a node before it
    writes to it, so no write is seen through another pointer.  A Go map is a
    [gmap string]; where the code ranges over one and the order could matter,
    the order is an argument, and where it sorts first the map is read with
    [map_to_list] and sorted.  int and int64 are [Z] with [wrap64] where the
    code can overflow.  Errors are sums or options.

    Goroutines are program counters.  In [Refresh] a system is the cache, the
    clock, the flights of the single-flight group and one counter per call of
    RefreshIfStale; a step runs one of them up to its next access to shared
    state, and any interleaving of steps and delays is allowed.  In [Scheduler]
    a world is the coordinator, the clock and one counter per source from the
    bootstrap loop to the ticker; its events are steps of a goroutine (with what
    the upstream answers and what the disk does as arguments), delays, ticks,
    cancellation and the signal of readiness; there each RefreshIfStale is one
    caller alone, which [Refresh.solo_RefreshIfStale] justifies.  [Tokens] has
    the same form for the watcher's loop, its debounce timer and the runs of the
    timer's function, which may overlap; [AtomicFile] for writers on a disk, one
    system call a step, with faults, crashes and losses of power; [SpendRace]
    for the loads of concurrent builds among those calls of their saves.  An HTTP
    handler is a function from the request and the snapshot store to the reply,
    the log lines and the store.

    Code outside src/ is an argument, in a type class where several definitions
    share it: [net/url] ([Subscriptions.UrlParser]), the Unicode case tables
    ([GoStrings.UnicodeTables]), the zone data ([GoTime.Location],
    [ServerConfig.TimeZones]), the implementation-defined conversion of
    out-of-range floats ([GoFloat.FloatConversion]), the YAML reader and writer
    ([YamlDecoder], [Output.YamlEncoder], [OwnProxies.NodeDecoder]), the JSON text
    of a snapshot ([SpendRace.SnapshotCodec]), SHA-256 ([Server.TokenHash]).
    The snapshot store is an interface of the program itself ([Pipeline.Snapshotter], with its laws in [SpendStore]).

    ** What the theorems show

    - The served configuration as a whole: no dangling member but those that
      dangle in their own source or in the operator's file, so none when the
      inputs are closed ([Closure.Build_closed]); every RULE-SET rule backed by a served provider
      and every served provider referenced ([BuildProofs.Build_rulesets_backed]);
      parallel rule slices ending in the fallback ([BuildProofs.Build_rules]);
      every rule of a source served, or announced in the log as redirected or
      dropped, or trailing ([BuildLog.Build_rules_accounted]); and what a 200 of
      a started process therefore is ([Served.served_closed]).
    - Concurrency: one fetch of a source at a time, each a TTL after those that
      succeeded before it whatever fails, no call that waits for ever, one caller
      alone behaves as the sequential reading of the function ([Refresh]);
      bootstrap ends, readiness comes after every source has been tried or at
      shutdown, success is kept, a payload is dropped only when its refresh fails
      and it is too old, no panic of the scheduler within the stated bounds
      ([SchedulerProofs]).  ForceRefresh, which only tests call, is a function of
      [Scheduler] and no event of its worlds.
    - Each step of the merge: namespacing ([Namespace]), proxy union without
      collisions ([Proxies]), group union ([ProxyGroups]), the rule stream
      ([Rules]), rule providers ([RuleSet]), region and continent groups
      ([Region]), fan-out ([Fanout]), pruning ([Prune]).
    - Rendering: which keys are replaced, the order of fields, the bucket
      comments against a reference, the escapes, the headers as a client parses
      them ([OutputProofs]).
    - Access: who is answered and what, tokens kept out of the logs but for an
      accepted one's label and a rejected one's fingerprint, the routes
      ([ServerProofs]); loading and hot reload of the tokens, and the null record
      on which the watcher panics ([Tokens]).
    - Traffic: aggregation, daily allowance, midnight, rollover once per local
      day, the upload/download split ([Traffic], [DailySpend]); with sane
      counters the builds of a process over either store refine a day book, the
      allowance and readings each local day was opened with ([SpendStore]); on
      the snapshot file, concurrent requests settle on one valid snapshot a day,
      if no save opens the temporary file another one has open
      ([SpendRace]); the header format round-trips ([Headers]).
    - Files: a replaced file is never seen half written, whatever is interleaved
      and fails, if saves of one name do not overlap ([AtomicFile]); the cache
      survives a restart ([Cache]).
    - Configuration: what loads is well formed ([ServerConfig]), accepted
      subscription rows are valid and distinct ([Subscriptions]), the operator's
      file is accepted exactly when it is valid ([OwnProxies]), custom rule sets
      are exactly the well-formed files ([CustomRules]), and a process is wired
      as its configuration says ([Main]).

    ** Bounds and fuel

    The loops over the runes of a string, over the digits of a number, over the
    occurrences [Http.replaceAll] replaces and over the buckets of
    [Output.commentBuckets] take fuel: a string's length in bytes is enough for
    the first and third, because every decoded rune and every occurrence has at
    least one byte ([Region.drop_rune_shorter], [Http.replaceLoop_pieces]); a
    number's bit length bounds its digits; the number of annotated rules bounds
    the buckets ([OutputProofs.commentBuckets_spec]).  No other definition
    needs fuel.  Durations are 64-bit: [Main.setup_safe] asks that intervals in
    seconds stay below 2^63 nanoseconds, and without that bound the ticker
    panics.

    ** What is not modelled

    The text of JSON, YAML and CSV; the sockets behind [Server.Run], whose select
    takes as an argument which case fires, and likewise the signals behind
    [Main.run]; what a mount prefix with wildcards matches; the configuration of
    slog; errors of reading the snapshot file while requests race ([SpendRace]).
    [Save] is one step in [DailySpend] and [SpendStore]: [AtomicFile] says when
    it may be read so, and its [shared_tmp_race] shows two overlapping saves.  Log calls are modelled where they carry data: [Build] ([BuildLog])
    and the handlers ([Server]), not the start-up and scheduler messages. *)
From stdpp Require Import base gmap sets list strings sorting.
From Stdlib Require Import ZArith Lia.

(** Notations of the development live in their own scope. *)
Declare Scope go_scope.
Delimit Scope go_scope with go.

(** ** Hint databases

    [golib] collects the lemmas that close the common side goals (membership,
    prefixes, permutations); [gorw] the rewriting rules that normalise lists
    and strings. *)
Create HintDb golib.
Create Rewrite HintDb gorw.

(** ** Tactics *)

(** Split every boolean conjunction/disjunction test that is in the goal. *)
Ltac case_if :=
  match goal with
  | |- context [if ?b then _ else _] => destruct b eqn:?
  end.

Ltac case_if_in H :=
  match type of H with
  | context [if ?b then _ else _] => destruct b eqn:?
  end.

(** Turn string equality tests into equations. *)
Ltac string_eqb :=
  repeat match goal with
  | H : String.eqb _ _ = true |- _ => apply String.eqb_eq in H
  | H : String.eqb _ _ = false |- _ => apply String.eqb_neq in H
  | H : Ascii.eqb _ _ = true |- _ => apply Ascii.eqb_eq in H
  | H : Ascii.eqb _ _ = false |- _ => apply Ascii.eqb_neq in H
  | H : negb _ = true |- _ => apply negb_true_iff in H
  | H : negb _ = false |- _ => apply negb_false_iff in H
  | H : (_ && _) = true |- _ => apply andb_true_iff in H; destruct H
  | H : (_ || _) = false |- _ => apply orb_false_iff in H; destruct H
  end.

(** Prove a decidable closed proposition by evaluating its decision. *)
Ltac vm_compute_decide := refine (bool_decide_unpack _ _); vm_compute; exact I.

(** ** Machine integers

    Go's [int] and [int64] are 64-bit two's complement: arithmetic wraps. *)
Definition wrap64 (z : Z) : Z := (z + 2 ^ 63) mod 2 ^ 64 - 2 ^ 63.
Definition in_int64 (z : Z) : Prop := (- 2 ^ 63 <= z < 2 ^ 63)%Z.
Definition in_int64b (z : Z) : bool := ((- 2 ^ 63 <=? z) && (z <? 2 ^ 63))%Z.

(** ** Lists *)
Lemma filter_all {A : Type} (P : A -> Prop) `{!forall x, Decision (P x)} (l : list A) :
  Forall P l -> filter P l = l.
Proof. induction 1; [done|]. rewrite filter_cons_True by done. by f_equal. Qed.

(** Splitting a list by a key. *)
Lemma partition_by_key {A K : Type} `{EqDecision K} (f : A -> K) (ks : list K) (l : list A) :
  NoDup ks -> Forall (fun x => f x ∈ ks) l ->
  mjoin (map (fun k => filter (fun x => f x = k) l) ks) ≡ₚ l.
Proof.
  intros Hnd. revert l. induction Hnd as [|k ks Hk Hnd IH]; intros l Hl.
  - destruct l as [|x l]; [done|]. apply Forall_cons in Hl as [Hx _]. by apply elem_of_nil in Hx.
  - change (mjoin (map ?g (k :: ks))) with (g k ++ mjoin (map g ks)). cbv beta.
    trans (filter (fun x => f x = k) l ++ filter (fun x => ¬ f x = k) l); [f_equiv|apply filter_app_complement].
    rewrite <- (IH (filter (fun x => ¬ f x = k) l)).
    + assert (map (fun k' => filter (fun x => f x = k') l) ks
              = map (fun k' => filter (fun x => f x = k') (filter (fun x => ¬ f x = k) l)) ks) as ->; [|done].
      change (map ?g ?x) with (g <$> x). apply list_fmap_ext. intros i k' Hk'.
      rewrite list_filter_filter. apply list_filter_iff. intros x.
      apply list_elem_of_lookup_2 in Hk'. naive_solver.
    + rewrite Forall_forall in Hl |- *. intros x [Hne Hx]%list_elem_of_filter.
      apply Hl in Hx. set_solver.
Qed.

Lemma StronglySorted_filter {A : Type} (R : A -> A -> Prop) (P : A -> Prop) `{!forall x, Decision (P x)} (l : list A) :
  StronglySorted R l -> StronglySorted R (filter P l).
Proof.
  induction 1 as [|x l Hl IH Hx]; [constructor|]. rewrite filter_cons. case_decide; [|done].
  constructor; [done|]. rewrite Forall_forall in *. intros y [_ Hy]%list_elem_of_filter. by apply Hx.
Qed.

(** ** Sums over a finite map *)
Section map_sum.
Context {K A : Type} `{Countable K}.
Implicit Types (f : A -> nat) (m : gmap K A).

Definition map_sum f m : nat := map_fold (fun _ x n => f x + n) 0 m.

Lemma map_sum_insert f m i x : m !! i = None -> map_sum f (<[i := x]> m) = f x + map_sum f m.
Proof. intros Hi. unfold map_sum. rewrite map_fold_insert_L; [done|intros; lia|done]. Qed.

(** Changing one entry changes the sum by the difference. *)
Lemma map_sum_update f m i x y : m !! i = Some x -> map_sum f (<[i := y]> m) + f x = map_sum f m + f y.
Proof.
  intros Hi. rewrite <- (insert_id m i x) at 2 by done. rewrite <- !(insert_delete_eq m i).
  rewrite !map_sum_insert by apply lookup_delete_eq. lia.
Qed.

Lemma map_sum_fmap_le f (g : A -> A) m : (forall x, f (g x) <= f x) -> map_sum f (g <$> m) <= map_sum f m.
Proof.
  intros Hg. induction m as [|i x m Hi IH] using map_ind; [done|].
  rewrite fmap_insert, !map_sum_insert by (done || by rewrite lookup_fmap, Hi). specialize (Hg x). lia.
Qed.

(** A sum is at least each of its terms. *)
Lemma map_sum_lookup f m i x : m !! i = Some x -> f x <= map_sum f m.
Proof.
  intros Hi. rewrite <- (insert_id m i x) by done. rewrite <- (insert_delete_eq m i).
  rewrite map_sum_insert by apply lookup_delete_eq. lia.
Qed.

Lemma map_sum_zero f m : (forall i x, m !! i = Some x -> f x = 0) -> map_sum f m = 0.
Proof.
  induction m as [|i x m Hi IH] using map_ind; intros Hz; [done|]. rewrite map_sum_insert by done.
  rewrite (Hz i x) by apply lookup_insert_eq. apply IH. intros j y Hj. apply (Hz j).
  rewrite lookup_insert_ne; [done|congruence].
Qed.

(** The sum of a constant over distinct keys. *)
Lemma map_sum_list f (l : list (K * A)) (k : nat) :
  NoDup l.*1 -> Forall (fun ix => f ix.2 = k) l -> map_sum f (list_to_map l) = length l * k.
Proof.
  intros Hnd Hk. induction Hk as [|[i x] l Hx _ IH]; [done|]. cbn in Hx. inversion Hnd as [|? ? Hn Hnd']; subst.
  cbn [list_to_map foldr]. simpl. rewrite map_sum_insert by (by apply not_elem_of_list_to_map_1). rewrite IH by done. done.
Qed.
End map_sum.
