(* ===== verification/GoStrings.v ===== *)
(** * The parts of Go's [strings], [strconv] and [unicode/utf8] the program uses

    A Go string is a sequence of bytes; a Rocq [string] is a sequence of
    [ascii], which is the same thing.  The functions keep the names of the Go
    standard library. *)
From stdpp Require Import base gmap sets list strings sorting.
From Stdlib Require Import ZArith Lia Ascii.
From S2P Require Import Prelude.

(** ** Bytes *)
Definition byte_val (c : ascii) : Z := Z.of_N (N_of_ascii c).
Definition byte_chr (z : Z) : ascii := ascii_of_N (Z.to_N z).

Definition comma : ascii := ","%char.
Definition semicolon : ascii := ";"%char.
Definition underscore : ascii := "_"%char.
Definition slash : ascii := "/"%char.
Definition dot : ascii := "."%char.

(** ** Slicing: [s[:n]] and [s[n:]], used by the code in range only. *)
Fixpoint str_take (n : nat) (s : string) : string :=
  match n, s with
  | S n', String c s' => String c (str_take n' s')
  | _, _ => ""
  end.

Fixpoint str_drop (n : nat) (s : string) : string :=
  match n, s with
  | S n', String _ s' => str_drop n' s'
  | _, _ => s
  end.

(** ** Prefixes, suffixes, search *)
Fixpoint HasPrefix (s prefix : string) {struct prefix} : bool :=
  match prefix, s with
  | "", _ => true
  | String p prefix', String c s' => Ascii.eqb c p && HasPrefix s' prefix'
  | String _ _, "" => false
  end.

Fixpoint HasSuffix (s suffix : string) : bool :=
  String.eqb s suffix ||
  match s with "" => false | String _ s' => HasSuffix s' suffix end.

Definition TrimSuffix (s suffix : string) : string :=
  if HasSuffix s suffix then str_take (String.length s - String.length suffix) s else s.

Fixpoint Contains (s sub : string) : bool :=
  HasPrefix s sub || match s with "" => false | String _ s' => Contains s' sub end.

(** [strings.IndexByte] / [strings.Index] with a one-byte needle; [None] is -1. *)
Fixpoint IndexByte (s : string) (b : ascii) : option nat :=
  match s with
  | "" => None
  | String c s' => if Ascii.eqb c b then Some 0 else S <$> IndexByte s' b
  end.

(** [strings.LastIndex] with a one-byte needle; [None] is -1. *)
Fixpoint LastIndexByte (s : string) (b : ascii) : option nat :=
  match s with
  | "" => None
  | String c s' =>
      match LastIndexByte s' b with
      | Some i => Some (S i)
      | None => if Ascii.eqb c b then Some 0 else None
      end
  end.

(** ** [strings.Split] and [strings.Join] with a one-byte separator *)
Fixpoint Split (s : string) (sep : ascii) : list string :=
  match s with
  | "" => [""]
  | String c s' =>
      if Ascii.eqb c sep then "" :: Split s' sep
      else match Split s' sep with
           | [] => [String c ""]
           | h :: t => String c h :: t
           end
  end.

Fixpoint Join (parts : list string) (sep : string) : string :=
  match parts with
  | [] => ""
  | [p] => p
  | p :: rest => p +:+ sep +:+ Join rest sep
  end.

(** ** [strings.TrimSpace]

    [unicode.IsSpace] holds of six ASCII bytes and of these runes, written as
    their UTF-8 bytes: U+0085, U+00A0, U+1680, U+2000..U+200A, U+2028, U+2029,
    U+202F, U+205F, U+3000.  Each starts with a UTF-8 lead byte, so decoding
    forwards ([TrimLeftFunc]) or backwards ([TrimRightFunc]) finds exactly
    these byte sequences at the end of the string. *)
Definition is_space1 (c : ascii) : bool :=
  let b := byte_val c in ((9 <=? b) && (b <=? 13) || (b =? 32))%Z.
Definition is_space2 (c1 c2 : ascii) : bool :=
  ((byte_val c1 =? 194) && ((byte_val c2 =? 133) || (byte_val c2 =? 160)))%Z.
Definition is_space3 (c1 c2 c3 : ascii) : bool :=
  let b1 := byte_val c1 in let b2 := byte_val c2 in let b3 := byte_val c3 in
  ((b1 =? 225) && (b2 =? 154) && (b3 =? 128)
   || (b1 =? 226) && (b2 =? 128) && ((128 <=? b3) && (b3 <=? 138) || (b3 =? 168) || (b3 =? 169) || (b3 =? 175))
   || (b1 =? 226) && (b2 =? 129) && (b3 =? 159)
   || (b1 =? 227) && (b2 =? 128) && (b3 =? 128))%Z.

Fixpoint TrimLeftSpace (s : string) : string :=
  match s with
  | "" => ""
  | String c1 s1 =>
      if is_space1 c1 then TrimLeftSpace s1
      else match s1 with
           | "" => s
           | String c2 s2 =>
               if is_space2 c1 c2 then TrimLeftSpace s2
               else match s2 with
                    | "" => s
                    | String c3 s3 => if is_space3 c1 c2 c3 then TrimLeftSpace s3 else s
                    end
           end
  end.

(** The same on the reversed string: the bytes of a rune come last first. *)
Fixpoint TrimLeftSpaceRev (s : string) : string :=
  match s with
  | "" => ""
  | String c1 s1 =>
      if is_space1 c1 then TrimLeftSpaceRev s1
      else match s1 with
           | "" => s
           | String c2 s2 =>
               if is_space2 c2 c1 then TrimLeftSpaceRev s2
               else match s2 with
                    | "" => s
                    | String c3 s3 => if is_space3 c3 c2 c1 then TrimLeftSpaceRev s3 else s
                    end
           end
  end.

Definition TrimSpace (s : string) : string :=
  String.rev (TrimLeftSpaceRev (String.rev (TrimLeftSpace s))).

(** [strings.TrimRight(s, "/")] *)
Fixpoint TrimRightByte (s : string) (b : ascii) : string :=
  match s with
  | "" => ""
  | String c s' =>
      match TrimRightByte s' b with
      | "" => if Ascii.eqb c b then "" else String c ""
      | r => String c r
      end
  end.

(** ** [unicode/utf8] *)
Definition RuneError : Z := 65533.

Definition in_rng (lo b hi : Z) : bool := ((lo <=? b) && (b <=? hi))%Z.
Definition is_cont (b : Z) : bool := in_rng 128 b 191.

(** [utf8.DecodeRuneInString]: the first rune and its width in bytes; an
    invalid encoding gives [(RuneError, 1)], the empty string [(RuneError, 0)]. *)
Definition DecodeRune (s : string) : Z * nat :=
  match s with
  | "" => (RuneError, 0)
  | String c0 s0 =>
      let b0 := byte_val c0 in
      if (b0 <? 128)%Z then (b0, 1)
      else match s0 with
      | "" => (RuneError, 1)
      | String c1 s1 =>
          let b1 := byte_val c1 in
          if in_rng 194 b0 223 && is_cont b1
          then (((b0 - 192) * 64 + (b1 - 128))%Z, 2)
          else match s1 with
          | "" => (RuneError, 1)
          | String c2 s2 =>
              let b2 := byte_val c2 in
              let ok3 :=
                (b0 =? 224)%Z && in_rng 160 b1 191
                || in_rng 225 b0 236 && is_cont b1
                || (b0 =? 237)%Z && in_rng 128 b1 159
                || in_rng 238 b0 239 && is_cont b1 in
              if ok3 && is_cont b2
              then (((b0 - 224) * 4096 + (b1 - 128) * 64 + (b2 - 128))%Z, 3)
              else match s2 with
              | "" => (RuneError, 1)
              | String c3 _ =>
                  let b3 := byte_val c3 in
                  let ok4 :=
                    (b0 =? 240)%Z && in_rng 144 b1 191
                    || in_rng 241 b0 243 && is_cont b1
                    || (b0 =? 244)%Z && in_rng 128 b1 143 in
                  if ok4 && is_cont b2 && is_cont b3
                  then (((b0 - 240) * 262144 + (b1 - 128) * 4096 + (b2 - 128) * 64 + (b3 - 128))%Z, 4)
                  else (RuneError, 1)
              end
          end
      end
  end.

Definition bytes_of (l : list Z) : string := foldr (fun z s => String (byte_chr z) s) "" l.

(** [utf8.EncodeRune]: a value that is not a Unicode scalar value is encoded
    as [RuneError]. *)
Definition EncodeRune (r : Z) : string :=
  let enc3 r := bytes_of [224 + r / 4096; 128 + (r / 64) mod 64; 128 + r mod 64]%Z in
  if in_rng 0 r 127 then bytes_of [r]
  else if in_rng 128 r 2047 then bytes_of [192 + r / 64; 128 + r mod 64]%Z
  else if (r <? 0)%Z || (1114111 <? r)%Z || in_rng 55296 r 57343 then enc3 RuneError
  else if (r <? 65536)%Z then enc3 r
  else bytes_of [240 + r / 262144; 128 + (r / 4096) mod 64; 128 + (r / 64) mod 64; 128 + r mod 64]%Z.

(** The runes of a string, as [for _, r := range s] yields them.  The fuel is
    the byte length: each step consumes at least one byte. *)
Fixpoint runes_fuel (fuel : nat) (s : string) : list Z :=
  match fuel with
  | 0 => []
  | S fuel' =>
      match s with
      | "" => []
      | String _ _ => let '(r, sz) := DecodeRune s in r :: runes_fuel fuel' (str_drop sz s)
      end
  end.
Definition runes (s : string) : list Z := runes_fuel (String.length s) s.

(** ** Case mapping

    [unicode.ToLower] is a table of the Go release.  Its ASCII part is written
    out; the part above U+007F is a parameter, and no theorem of the library
    assumes anything about it. *)
Class UnicodeTables := { unicode_ToLower : Z -> Z }.

(** The table restricted to the runes that lower into ASCII (U+0130 and
    U+212A), used to evaluate examples. *)
#[export] Instance ascii_tables : UnicodeTables | 100 :=
  {| unicode_ToLower r := if (r =? 304)%Z then 105%Z else if (r =? 8490)%Z then 107%Z else r |}.

Definition lower_rune {U : UnicodeTables} (r : Z) : Z :=
  if (r <? 128)%Z then (if in_rng 65 r 90 then r + 32 else r)%Z else unicode_ToLower r.

(** [strings.ToLower] maps every rune; an invalid byte becomes U+FFFD. *)
Definition ToLower {U : UnicodeTables} (s : string) : string :=
  foldr (fun r acc => EncodeRune (lower_rune r) +:+ acc) "" (runes s).

(** [strings.EqualFold(s, t)] for an ASCII [t]: two runes fold together when
    they are equal, differ by ASCII case, or are the two non-ASCII runes whose
    fold orbit contains an ASCII letter (U+017F with s, U+212A with k). *)
Definition upper_ascii (r : Z) : Z := if in_rng 97 r 122 then (r - 32)%Z else r.
Definition fold_eq (r t : Z) : bool :=
  ((upper_ascii r =? upper_ascii t) || (r =? 383) && (upper_ascii t =? 83)
   || (r =? 8490) && (upper_ascii t =? 75))%Z.
Fixpoint fold_eq_list (rs ts : list Z) : bool :=
  match rs, ts with
  | [], [] => true
  | r :: rs', t :: ts' => fold_eq r t && fold_eq_list rs' ts'
  | _, _ => false
  end.
Definition EqualFold (s t : string) : bool := fold_eq_list (runes s) (runes t).

(** ** [strconv]: decimal integers *)
Definition is_digit (c : ascii) : bool := in_rng 48 (byte_val c) 57.

Fixpoint parse_digits (acc : Z) (s : string) : option Z :=
  match s with
  | "" => Some acc
  | String c s' =>
      if is_digit c then parse_digits (10 * acc + (byte_val c - 48))%Z s' else None
  end.

(** At least one digit, digits only. *)
Definition parse_udec (s : string) : option Z :=
  match s with "" => None | _ => parse_digits 0 s end.

(** [strconv.ParseInt(s, 10, 64)] and, [int] being 64 bits wide,
    [strconv.Atoi(s)]: an optional sign, then digits; [None] is an error
    (syntax or range). *)
Definition ParseInt (s : string) : option Z :=
  let signed :=
    match s with
    | String c s' =>
        if Ascii.eqb c "-"%char then Z.opp <$> parse_udec s'
        else if Ascii.eqb c "+"%char then parse_udec s'
        else parse_udec s
    | "" => None
    end in
  match signed with
  | Some z => if in_int64b z then Some z else None
  | None => None
  end.

(** [strconv.Itoa] / [%d]. *)
Fixpoint digits_fuel (fuel : nat) (z : Z) (acc : string) : string :=
  match fuel with
  | 0 => acc
  | S fuel' =>
      let acc' := String (byte_chr (48 + z mod 10)) acc in
      if (z <? 10)%Z then acc' else digits_fuel fuel' (z / 10) acc'
  end.
(** A decimal numeral has at most as many digits as a binary one. *)
Definition digits (z : Z) : string := digits_fuel (S (Z.to_nat (Z.log2 z))) z "".
Definition Itoa (z : Z) : string := if (z <? 0)%Z then "-" +:+ digits (- z) else digits z.

(** [strconv.FormatBool] and [strconv.ParseBool]. *)
Definition FormatBool (b : bool) : string := if b then "true" else "false".
Definition ParseBool (s : string) : option bool :=
  if decide (s ∈ ["1"; "t"; "T"; "TRUE"; "true"; "True"]) then Some true
  else if decide (s ∈ ["0"; "f"; "F"; "FALSE"; "false"; "False"]) then Some false
  else None.

(** * Lemmas *)

(** ** Append *)
Lemma str_app_nil_r (s : string) : s +:+ "" = s.
Proof. induction s as [|c s IH]; [done|]. change (String c (s +:+ "") = String c s). by rewrite IH. Qed.

Lemma str_app_cons (c : ascii) (s t : string) : String c s +:+ t = String c (s +:+ t).
Proof. done. Qed.

Lemma str_app_assoc (s t u : string) : (s +:+ t) +:+ u = s +:+ (t +:+ u).
Proof. induction s as [|c s IH]; [done|]. rewrite !str_app_cons. by rewrite IH. Qed.

Lemma str_app_eq_nil (s t : string) : s +:+ t = "" <-> s = "" /\ t = "".
Proof. destruct s; [by split; [|intros [_ ->]]|]. split; [discriminate|by intros []]. Qed.

Lemma str_length_app (s t : string) : String.length (s +:+ t) = String.length s + String.length t.
Proof. induction s as [|c s IH]; [done|]. rewrite str_app_cons. simpl. by rewrite IH. Qed.

Lemma str_app_inj_l (p s t : string) : p +:+ s = p +:+ t -> s = t.
Proof. apply (inj (String.app p)). Qed.

#[export] Hint Rewrite str_app_nil_r str_app_assoc str_app_cons : gorw.

(** ** Slices *)
Lemma str_take_all (n : nat) (s : string) : String.length s <= n -> str_take n s = s.
Proof. revert s. induction n as [|n IH]; intros [|c s] H; simpl in *; [done|lia|done|]. by rewrite IH by lia. Qed.

Lemma str_drop_all (n : nat) (s : string) : String.length s <= n -> str_drop n s = "".
Proof. revert s. induction n as [|n IH]; intros [|c s] H; simpl in *; [done|lia|done|]. by rewrite IH by lia. Qed.

Lemma length_str_take (n : nat) (s : string) : String.length (str_take n s) = Nat.min n (String.length s).
Proof. revert s. induction n as [|n IH]; intros [|c s]; simpl; [done..|]. by rewrite IH. Qed.

(** Taking a prefix, then the bytes after it. *)
Lemma str_take_add (n k : nat) (s : string) : str_take n s +:+ str_take k (str_drop n s) = str_take (n + k) s.
Proof. revert s. induction n as [|n IH]; intros [|c s]; simpl; [done..|by destruct k|]. by rewrite str_app_cons, IH. Qed.

Lemma str_take_app (s t : string) : str_take (String.length s) (s +:+ t) = s.
Proof. induction s as [|c s IH]; [by destruct t|]. simpl. by f_equal. Qed.

Lemma str_drop_app (s t : string) : str_drop (String.length s) (s +:+ t) = t.
Proof. induction s as [|c s IH]; [by destruct t|]. simpl. done. Qed.

Lemma str_take_drop (n : nat) (s : string) : str_take n s +:+ str_drop n s = s.
Proof.
  revert s. induction n as [|n IH]; intros [|c s]; simpl; try done.
  rewrite str_app_cons. by rewrite IH.
Qed.

Lemma HasSuffix_app (q s : string) : HasSuffix (q +:+ s) s = true.
Proof.
  induction q as [|c q IH].
  { change ("" +:+ s) with s. destruct s as [|c s]; [done|]. cbn [HasSuffix]. by rewrite String.eqb_refl. }
  rewrite str_app_cons. cbn [HasSuffix]. by rewrite IH, orb_true_r.
Qed.

(** ** Prefixes *)
Lemma HasPrefix_spec (s p : string) : HasPrefix s p = true <-> exists t, s = p +:+ t.
Proof.
  revert s. induction p as [|a p IH]; intros s; simpl.
  - split; [intros _; by exists s|done].
  - destruct s as [|c s]; [split; [done|intros [t Ht]; discriminate Ht]|].
    rewrite andb_true_iff, IH. split.
    + intros [->%Ascii.eqb_eq [t ->]]. by exists t.
    + intros [t Ht]. rewrite str_app_cons in Ht. simplify_eq. rewrite Ascii.eqb_refl. split; [done|by exists t].
Qed.

Lemma HasPrefix_app (p t : string) : HasPrefix (p +:+ t) p = true.
Proof. apply HasPrefix_spec. by exists t. Qed.

#[export] Hint Resolve HasPrefix_app : golib.

Lemma Contains_prefix (s sub : string) : HasPrefix s sub = true -> Contains s sub = true.
Proof. intros H. destruct s; simpl; [destruct sub; [done|discriminate H]|]. simpl in H. by rewrite H. Qed.

(** [strings.Contains] finds exactly the substrings. *)
Lemma Contains_spec (s sub : string) : Contains s sub = true <-> exists p t, s = p +:+ sub +:+ t.
Proof.
  split.
  - induction s as [|c s IH].
    + destruct sub; [intros _; by exists "", ""|discriminate].
    + change (HasPrefix (String c s) sub || Contains s sub = true -> exists p t, String c s = p +:+ sub +:+ t).
      intros [[t Ht]%HasPrefix_spec|(p & t & ->)%IH]%orb_true_iff.
      * by exists "", t.
      * exists (String c p), t. done.
  - intros (p & t & ->). induction p as [|c p IH].
    + apply Contains_prefix. exact (HasPrefix_app sub t).
    + change (HasPrefix (String c (p +:+ sub +:+ t)) sub || Contains (p +:+ sub +:+ t) sub = true).
      by rewrite IH, orb_true_r.
Qed.

(** ** Bytes that do not occur *)
Fixpoint byte_free (b : ascii) (s : string) : bool :=
  match s with "" => true | String c s' => negb (Ascii.eqb c b) && byte_free b s' end.

Lemma byte_free_app (b : ascii) (s t : string) :
  byte_free b (s +:+ t) = byte_free b s && byte_free b t.
Proof. induction s as [|c s IH]; [done|]. rewrite str_app_cons. simpl. by rewrite IH, andb_assoc. Qed.

(** ** Split and Join *)
Lemma Split_cons (s : string) (sep : ascii) : exists h t, Split s sep = h :: t.
Proof.
  destruct s as [|c s]; simpl; [eauto|].
  case_if; [eauto|]. destruct (Split s sep); eauto.
Qed.

Lemma Split_nonnil (s : string) (sep : ascii) : Split s sep <> [].
Proof. destruct (Split_cons s sep) as (h & t & ->). done. Qed.

(** Joining what [Split] cut gives the string back. *)
Lemma Join_Split (s : string) (sep : ascii) : Join (Split s sep) (String sep "") = s.
Proof.
  induction s as [|c s IH]; [done|]. simpl.
  destruct (Split_cons s sep) as (h & t & Hs). rewrite Hs in *.
  case_if; string_eqb.
  - rewrite Heqb. change ("" +:+ String sep "" +:+ Join (h :: t) (String sep "") = String sep s). by rewrite IH.
  - destruct t as [|h' t]; simpl in *; [by rewrite IH|].
    rewrite str_app_cons. by rewrite IH.
Qed.

Lemma Split_byte_free (s : string) (sep : ascii) : Forall (fun p => byte_free sep p = true) (Split s sep).
Proof.
  induction s as [|c s IH]; simpl; [by repeat constructor|].
  case_if; [by constructor|].
  destruct (Split s sep) as [|h t]; [by repeat constructor; simpl; rewrite Heqb|].
  apply Forall_cons in IH as [Hh Ht]. constructor; [|done]. simpl. by rewrite Heqb.
Qed.

Lemma Split_app_sep (p s : string) (sep : ascii) :
  byte_free sep p = true -> Split (p +:+ String sep s) sep = p :: Split s sep.
Proof.
  induction p as [|c p IH]; intros Hp.
  - simpl. by rewrite Ascii.eqb_refl.
  - simpl in Hp. apply andb_true_iff in Hp as [Hc Hp]. apply negb_true_iff in Hc.
    rewrite str_app_cons. simpl. rewrite Hc. by rewrite (IH Hp).
Qed.

Lemma Split_free (p : string) (sep : ascii) : byte_free sep p = true -> Split p sep = [p].
Proof.
  induction p as [|c p IH]; intros Hp; [done|].
  simpl in Hp. apply andb_true_iff in Hp as [Hc Hp]. apply negb_true_iff in Hc.
  simpl. by rewrite Hc, (IH Hp).
Qed.

Lemma Split_snoc (s : string) (sep : ascii) : Split (s +:+ String sep "") sep = Split s sep ++ [""].
Proof.
  induction s as [|c s IH]; simpl; [by rewrite Ascii.eqb_refl|]. case_if; [by rewrite IH|].
  rewrite IH. by destruct (Split_cons s sep) as (h & t & ->).
Qed.

(** Only a string that ends with the separator has an empty last part. *)
Lemma Split_last_empty (s : string) (sep : ascii) :
  last (Split s sep) = Some "" -> s = "" \/ exists q, s = q +:+ String sep "".
Proof.
  induction s as [|c s IH]; [by left|]. simpl. destruct (Split_cons s sep) as (h & t & Hs). rewrite Hs in *. case_if.
  - apply Ascii.eqb_eq in Heqb as ->. rewrite last_cons_cons. intros [->|[q ->]]%IH; right; [by exists ""|by exists (String sep q)].
  - destruct t as [|h' t]; [done|]. rewrite last_cons_cons. intros Hl.
    destruct IH as [->|[q ->]]; [by rewrite last_cons_cons|done|right; by exists (String c q)].
Qed.

(** Splitting a joined list of separator-free parts gives the parts back. *)
Lemma Split_Join (parts : list string) (sep : ascii) :
  parts <> [] -> Forall (fun p => byte_free sep p = true) parts ->
  Split (Join parts (String sep "")) sep = parts.
Proof.
  induction parts as [|p parts IH]; [done|]. intros _ [Hp Hps]%Forall_cons.
  destruct parts as [|q parts]; [by apply Split_free|].
  change (Split (p +:+ String sep (Join (q :: parts) (String sep ""))) sep = p :: q :: parts).
  rewrite Split_app_sep by done. by rewrite IH.
Qed.

(** ** Injectivity of prefixing with a separator-free name *)
Lemma prefix_sep_inj (sep : ascii) (s1 s2 x y : string) :
  byte_free sep s1 = true -> byte_free sep s2 = true ->
  s1 +:+ String sep x = s2 +:+ String sep y -> s1 = s2 /\ x = y.
Proof.
  revert s2. induction s1 as [|c s1 IH]; intros [|d s2]; intros H1 H2 Heq.
  - by simplify_eq.
  - injection Heq as <- _. simpl in H2. by rewrite Ascii.eqb_refl in H2.
  - injection Heq as -> _. simpl in H1. by rewrite Ascii.eqb_refl in H1.
  - simpl in H1, H2. apply andb_true_iff in H1 as [_ H1]. apply andb_true_iff in H2 as [_ H2].
    rewrite !str_app_cons in Heq. injection Heq as -> Heq.
    destruct (IH s2 H1 H2 Heq) as [-> ->]. done.
Qed.

(** ** Searching a byte *)
Lemma IndexByte_app (p s : string) (b : ascii) :
  byte_free b p = true -> IndexByte (p +:+ String b s) b = Some (String.length p).
Proof.
  induction p as [|c p IH]; intros Hp.
  - simpl. by rewrite Ascii.eqb_refl.
  - simpl in Hp. apply andb_true_iff in Hp as [Hc%negb_true_iff Hp].
    rewrite str_app_cons. simpl. by rewrite Hc, (IH Hp).
Qed.

Lemma IndexByte_None (s : string) (b : ascii) : IndexByte s b = None <-> byte_free b s = true.
Proof.
  induction s as [|c s IH]; [done|]. simpl.
  destruct (Ascii.eqb c b); simpl; [done|].
  rewrite <- IH. by destruct (IndexByte s b).
Qed.

(** The last occurrence splits the string at a byte that does not occur after it. *)
Lemma LastIndexByte_Some (s : string) (b : ascii) (i : nat) :
  LastIndexByte s b = Some i ->
  s = str_take i s +:+ String b (str_drop (S i) s) /\ byte_free b (str_drop (S i) s) = true.
Proof.
  revert i. induction s as [|c s IH]; intros i Hi; [discriminate Hi|].
  simpl in Hi. destruct (LastIndexByte s b) as [j|] eqn:Hj.
  - simplify_eq. destruct (IH j eq_refl) as [H1 H2].
    change (str_drop (S (S j)) (String c s)) with (str_drop (S j) s). split; [|done].
    simpl str_take. rewrite str_app_cons. by f_equal.
  - case_if_in Hi; simplify_eq. string_eqb; subst. simpl. split; [done|].
    clear IH. induction s as [|c s IH]; [done|]. simpl in Hj.
    destruct (LastIndexByte s b) eqn:E; [discriminate Hj|].
    destruct (Ascii.eqb c b) eqn:Ec; [discriminate Hj|]. simpl. rewrite Ec. by apply IH.
Qed.

Lemma LastIndexByte_None (s : string) (b : ascii) : LastIndexByte s b = None -> byte_free b s = true.
Proof.
  induction s as [|c s IH]; [done|]. simpl.
  destruct (LastIndexByte s b); [done|]. destruct (Ascii.eqb c b); [done|]. simpl. auto.
Qed.

(** ** Decimal numerals *)
Lemma byte_val_chr (z : Z) : (0 <= z < 256)%Z -> byte_val (byte_chr z) = z.
Proof. intros H. unfold byte_val, byte_chr. rewrite N_ascii_embedding by lia. lia. Qed.

Lemma byte_val_range (c : ascii) : (0 <= byte_val c < 256)%Z.
Proof. unfold byte_val. pose proof (N_ascii_bounded c). lia. Qed.

Lemma is_digit_chr (d : Z) : (0 <= d < 10)%Z -> is_digit (byte_chr (48 + d)) = true.
Proof. intros H. unfold is_digit, in_rng. rewrite byte_val_chr by lia. lia. Qed.

Lemma parse_digit_cons (acc d : Z) (s : string) :
  (0 <= d < 10)%Z ->
  parse_digits acc (String (byte_chr (48 + d)) s) = parse_digits (10 * acc + d) s.
Proof.
  intros H. simpl. rewrite is_digit_chr by done. rewrite byte_val_chr by lia. f_equal. lia.
Qed.

(** The number read from a printed numeral, whatever was read before it. *)
Lemma parse_digits_fuel (fuel : nat) (z acc : Z) (s : string) :
  (0 <= z < 2 ^ Z.of_nat fuel)%Z ->
  exists k, parse_digits acc (digits_fuel fuel z s) = parse_digits (acc * 10 ^ Z.of_nat k + z)%Z s.
Proof.
  revert z acc s. induction fuel as [|fuel IH]; intros z acc s Hz.
  - exists 0. simpl in *. f_equal. lia.
  - simpl. case_if.
    + exists 1. rewrite Z.mod_small by lia. rewrite parse_digit_cons by lia. f_equal. lia.
    + assert (0 <= z / 10 < 2 ^ Z.of_nat fuel)%Z as Hd.
      { split; [apply Z.div_pos; lia|]. apply Z.div_lt_upper_bound; [lia|].
        replace (Z.of_nat (S fuel)) with (Z.succ (Z.of_nat fuel)) in Hz by lia.
        rewrite Z.pow_succ_r in Hz by lia. lia. }
      destruct (IH (z / 10)%Z acc (String (byte_chr (48 + z mod 10)) s) Hd) as (k & Hk).
      exists (S k). rewrite Hk.
      pose proof (Z.mod_pos_bound z 10 ltac:(lia)). rewrite parse_digit_cons by done.
      f_equal. rewrite Nat2Z.inj_succ, Z.pow_succ_r by lia.
      pose proof (Z.div_mod z 10 ltac:(lia)). lia.
Qed.

(** A numeral starts with a digit. *)
Lemma digits_fuel_head (fuel : nat) (z : Z) (s : string) :
  (0 <= z)%Z -> exists c s', digits_fuel (S fuel) z s = String c s' /\ is_digit c = true.
Proof.
  revert z s. induction fuel as [|fuel IH]; intros z s Hz;
    pose proof (Z.mod_pos_bound z 10 ltac:(lia)).
  - simpl. case_if; eexists _, _; (split; [done|by apply is_digit_chr]).
  - change (exists c s', (let acc' := String (byte_chr (48 + z mod 10)) s in
      if (z <? 10)%Z then acc' else digits_fuel (S fuel) (z / 10) acc') = String c s' /\ is_digit c = true).
    cbv zeta. case_if; [eexists _, _; (split; [done|by apply is_digit_chr])|].
    apply IH, Z.div_pos; lia.
Qed.

Lemma parse_udec_digits (z : Z) : (0 <= z)%Z -> parse_udec (digits z) = Some z.
Proof.
  intros Hz. unfold digits.
  destruct (digits_fuel_head (Z.to_nat (Z.log2 z)) z "" Hz) as (c & s & Hs & _).
  unfold parse_udec. rewrite Hs, <- Hs.
  destruct (parse_digits_fuel (S (Z.to_nat (Z.log2 z))) z 0 "") as (k & ->); [|simpl; f_equal; lia].
  split; [done|]. rewrite Nat2Z.inj_succ, Z2Nat.id by apply Z.log2_nonneg.
  destruct (decide (z = 0)%Z) as [->|]; [by vm_compute|].
  apply Z.log2_spec. lia.
Qed.

Lemma in_int64b_spec (z : Z) : in_int64b z = true <-> in_int64 z.
Proof. unfold in_int64b, in_int64. lia. Qed.

(** Printing an [int64] and parsing it back gives the same number. *)
Lemma ParseInt_Itoa (z : Z) : in_int64 z -> ParseInt (Itoa z) = Some z.
Proof.
  intros Hz%in_int64b_spec. unfold ParseInt, Itoa. case_if.
  - change ("-" +:+ digits (- z)) with (String "-"%char (digits (- z))). cbv iota zeta.
    rewrite Ascii.eqb_refl, parse_udec_digits by lia. simpl.
    rewrite Z.opp_involutive. by rewrite Hz.
  - destruct (digits_fuel_head (Z.to_nat (Z.log2 z)) z "" ltac:(lia)) as (c & s & Hs & Hc).
    pose proof (parse_udec_digits z ltac:(lia)) as Hp. unfold digits in *. rewrite Hs in *.
    destruct (Ascii.eqb c "-"%char) eqn:E1; [apply Ascii.eqb_eq in E1; subst c; discriminate Hc|].
    destruct (Ascii.eqb c "+"%char) eqn:E2; [apply Ascii.eqb_eq in E2; subst c; discriminate Hc|].
    rewrite Hp. by rewrite Hz.
Qed.

(** What [ParseInt] returns fits the width. *)
Lemma ParseInt_range (s : string) (z : Z) : ParseInt s = Some z -> in_int64 z.
Proof. unfold ParseInt. intros H. repeat case_match; simplify_eq; by apply in_int64b_spec. Qed.

(** ** Trimming text that starts and ends with printable ASCII *)
Definition graphic (c : ascii) : bool := in_rng 33 (byte_val c) 126.

Fixpoint all_bytes (P : ascii -> bool) (s : string) : bool :=
  match s with "" => true | String c s' => P c && all_bytes P s' end.

Lemma all_bytes_app (P : ascii -> bool) (s t : string) : all_bytes P (s +:+ t) = all_bytes P s && all_bytes P t.
Proof. induction s as [|c s IH]; [done|]. rewrite str_app_cons. simpl. by rewrite IH, andb_assoc. Qed.

Lemma all_bytes_free (P : ascii -> bool) (b : ascii) (s : string) :
  P b = false -> all_bytes P s = true -> byte_free b s = true.
Proof.
  intros Hb. induction s as [|c s IH]; [done|]. simpl. intros [Hc Hs]%andb_true_iff. rewrite IH by done.
  destruct (Ascii.eqb_spec c b); [congruence|]. done.
Qed.

Lemma TrimLeftSpace_graphic (c : ascii) (s : string) : graphic c = true -> TrimLeftSpace (String c s) = String c s.
Proof.
  unfold graphic, in_rng. intros H. cbn [TrimLeftSpace].
  assert (is_space1 c = false) as -> by (unfold is_space1; lia).
  destruct s as [|c2 [|c3 s]]; [done| |];
    (assert (is_space2 c c2 = false) as -> by (unfold is_space2; lia)); [done|].
  by assert (is_space3 c c2 c3 = false) as -> by (unfold is_space3; lia).
Qed.

Lemma TrimLeftSpaceRev_graphic (c : ascii) (s : string) :
  graphic c = true -> TrimLeftSpaceRev (String c s) = String c s.
Proof.
  unfold graphic, in_rng. intros H. cbn [TrimLeftSpaceRev].
  assert (is_space1 c = false) as -> by (unfold is_space1; lia).
  destruct s as [|c2 [|c3 s]]; [done| |];
    (assert (is_space2 c2 c = false) as -> by (unfold is_space2; lia)); [done|].
  by assert (is_space3 c3 c2 c = false) as -> by (unfold is_space3; lia).
Qed.

Lemma str_rev_app (s acc : string) : String.rev_app s acc = String.rev s +:+ acc.
Proof.
  unfold String.rev. revert acc. induction s as [|c s IH]; intros acc; [done|]. cbn [String.rev_app].
  rewrite (IH (String c acc)), (IH (String c "")). by rewrite str_app_assoc.
Qed.

Lemma str_rev_snoc (s : string) (c : ascii) : String.rev (s +:+ String c "") = String c (String.rev s).
Proof.
  induction s as [|d s IH]; [done|]. rewrite str_app_cons. unfold String.rev in *. cbn [String.rev_app].
  rewrite (str_rev_app (s +:+ String c "")), (str_rev_app s). unfold String.rev. by rewrite IH, str_app_cons.
Qed.

Lemma str_rev_involutive (s : string) : String.rev (String.rev s) = s.
Proof.
  induction s as [|c s IH]; [done|]. change (String.rev (String c s)) with (String.rev_app s (String c "")).
  by rewrite str_rev_app, str_rev_snoc, IH.
Qed.

Lemma TrimSpace_id (a b : ascii) (s : string) :
  graphic a = true -> graphic b = true -> TrimSpace (String a s +:+ String b "") = String a s +:+ String b "".
Proof.
  intros Ha Hb. unfold TrimSpace. rewrite str_app_cons, TrimLeftSpace_graphic by done. rewrite <- str_app_cons, str_rev_snoc.
  rewrite TrimLeftSpaceRev_graphic by done. by rewrite <- str_rev_snoc, str_rev_involutive.
Qed.

Lemma str_snoc (s : string) : s <> "" -> exists t c, s = t +:+ String c "".
Proof.
  induction s as [|c s IH]; [done|]. intros _. destruct s as [|d s]; [by exists "", c|].
  destruct IH as (t & e & E); [done|]. exists (String c t), e. by rewrite E.
Qed.

(** A printable word between a printable first byte and its own end. *)
Lemma TrimSpace_word (a : ascii) (s w : string) :
  graphic a = true -> w <> "" -> all_bytes graphic w = true -> TrimSpace (String a s +:+ w) = String a s +:+ w.
Proof.
  intros Ha Hw Hg. destruct (str_snoc w Hw) as (t & c & ->). rewrite all_bytes_app in Hg.
  apply andb_true_iff in Hg as [_ Hc]. simpl in Hc. rewrite andb_true_r in Hc.
  rewrite <- str_app_assoc. change (String a s +:+ t) with (String a (s +:+ t)). by apply TrimSpace_id.
Qed.

Lemma TrimSpace_graphic (w : string) : all_bytes graphic w = true -> TrimSpace w = w.
Proof.
  destruct w as [|a w]; [done|]. intros H. pose proof H as [Ha Hw]%andb_true_iff.
  destruct w as [|b w]; [|by apply (TrimSpace_word a "" (String b w))].
  unfold TrimSpace. rewrite TrimLeftSpace_graphic by done. change (String.rev (String a "")) with (String a "").
  by rewrite TrimLeftSpaceRev_graphic.
Qed.

Lemma TrimSpace_leading (s : string) : TrimSpace (String " " s) = TrimSpace s.
Proof. done. Qed.

(** ** The bytes of a numeral *)
Lemma graphic_digit (d : Z) : (0 <= d < 10)%Z -> graphic (byte_chr (48 + d)) = true.
Proof. intros H. unfold graphic, in_rng. rewrite byte_val_chr by lia. lia. Qed.

Definition numeral_byte (c : ascii) : bool := is_digit c || Ascii.eqb c "-".

Lemma digits_fuel_bytes (fuel : nat) (z : Z) (acc : string) :
  (0 <= z)%Z -> all_bytes numeral_byte acc = true -> all_bytes numeral_byte (digits_fuel fuel z acc) = true.
Proof.
  revert z acc. induction fuel as [|fuel IH]; intros z acc Hz Ha; [done|]. cbn [digits_fuel].
  assert (all_bytes numeral_byte (String (byte_chr (48 + z mod 10)) acc) = true) as H.
  { simpl. rewrite Ha, andb_true_r. unfold numeral_byte.
    by rewrite is_digit_chr by (pose proof (Z.mod_pos_bound z 10 ltac:(lia)); lia). }
  case_if; [done|]. apply IH; [|done]. apply Z.div_pos; lia.
Qed.

Lemma Itoa_bytes (z : Z) : all_bytes numeral_byte (Itoa z) = true.
Proof.
  unfold Itoa, digits. destruct (z <? 0)%Z eqn:E.
  - rewrite all_bytes_app. apply andb_true_iff. split; [done|]. apply digits_fuel_bytes; [lia|done].
  - apply digits_fuel_bytes; [lia|done].
Qed.

Lemma all_bytes_impl (P Q : ascii -> bool) (s : string) :
  (forall c, P c = true -> Q c = true) -> all_bytes P s = true -> all_bytes Q s = true.
Proof. intros H. induction s as [|c s IH]; [done|]. simpl. rewrite !andb_true_iff. naive_solver. Qed.

Lemma numeral_graphic (c : ascii) : numeral_byte c = true -> graphic c = true.
Proof.
  unfold numeral_byte, is_digit, graphic, in_rng. intros [H|H]%orb_true_iff; [lia|].
  apply Ascii.eqb_eq in H as ->. done.
Qed.

(** ** The last index of a byte *)
Lemma LastIndexByte_free (b : ascii) (s : string) : byte_free b s = true -> LastIndexByte s b = None.
Proof.
  induction s as [|c s IH]; [done|]. simpl. intros [Hc%negb_true_iff Hs]%andb_true_iff.
  by rewrite (IH Hs), Hc.
Qed.

Lemma LastIndexByte_app (b : ascii) (p s : string) :
  byte_free b s = true -> LastIndexByte (p +:+ String b s) b = Some (String.length p).
Proof.
  intros Hs. induction p as [|c p IH].
  - simpl. by rewrite (LastIndexByte_free b s Hs), Ascii.eqb_refl.
  - rewrite str_app_cons. simpl. by rewrite IH.
Qed.

Lemma str_drop_S_app (p s : string) (c : ascii) : str_drop (S (String.length p)) (p +:+ String c s) = s.
Proof. induction p as [|d p IH]; [done|]. by rewrite str_app_cons. Qed.
