(* ===== verification/GoSort.v ===== *)
(** * Go's [sort] package

    [sort.SliceStable] with a strict comparison [less], as a stable insertion
    sort: a stable sort by a strict weak order has one possible result, so the
    algorithm chosen is not observable.  [sort.Strings] is the instance at the
    byte-wise order of strings; equal strings are indistinguishable, so its
    result does not depend on the order of the input either. *)
From stdpp Require Import base gmap sets list strings sorting.
From Stdlib Require Import ZArith Lia Ascii.
From S2P Require Import Prelude GoStrings.

Section stable_sort.
Context {A : Type} (less : A -> A -> bool).

(** Insert before the first element that is not smaller. *)
Fixpoint insert_stable (x : A) (l : list A) : list A :=
  match l with
  | [] => [x]
  | y :: l' => if less y x then y :: insert_stable x l' else x :: y :: l'
  end.

Definition SliceStable (l : list A) : list A := foldr insert_stable [] l.

Definition sort_le (a b : A) : Prop := less b a = false.
Definition sort_equiv (a b : A) : bool := negb (less a b) && negb (less b a).

Lemma insert_stable_perm (x : A) (l : list A) : insert_stable x l ≡ₚ x :: l.
Proof.
  induction l as [|y l IH]; [done|]. simpl. case_if; [|done].
  rewrite IH. apply Permutation_swap.
Qed.

Lemma SliceStable_perm (l : list A) : SliceStable l ≡ₚ l.
Proof. induction l as [|x l IH]; [done|]. simpl. by rewrite insert_stable_perm, IH. Qed.

Lemma elem_of_SliceStable (x : A) (l : list A) : x ∈ SliceStable l <-> x ∈ l.
Proof. by rewrite (SliceStable_perm l). Qed.

Lemma length_SliceStable (l : list A) : length (SliceStable l) = length l.
Proof. by rewrite (SliceStable_perm l). Qed.

(** [less] is a strict weak order. *)
Context (le_trans : forall a b c, sort_le a b -> sort_le b c -> sort_le a c).
Context (less_asym : forall a b, less a b = true -> less b a = false).

Lemma insert_stable_sorted (x : A) (l : list A) :
  StronglySorted sort_le l -> StronglySorted sort_le (insert_stable x l).
Proof.
  induction 1 as [|y l Hl IH Hy]; simpl; [by repeat constructor|].
  case_if.
  - constructor; [done|]. rewrite insert_stable_perm. constructor; [by apply less_asym|done].
  - repeat constructor; try done. eapply Forall_impl; [done|]. intros z Hz. by eapply le_trans.
Qed.

Lemma SliceStable_sorted (l : list A) : StronglySorted sort_le (SliceStable l).
Proof. induction l as [|x l IH]; simpl; [constructor|]. by apply insert_stable_sorted. Qed.

(** Elements that compare equal keep their order. *)
Lemma insert_stable_equiv (k x : A) (l : list A) :
  StronglySorted sort_le l ->
  filter (fun y => sort_equiv k y = true) (insert_stable x l)
  = filter (fun y => sort_equiv k y = true) (x :: l).
Proof.
  induction 1 as [|y l Hl IH Hy]; [done|]. simpl insert_stable. case_if; [|done].
  rewrite filter_cons, IH, !filter_cons.
  destruct (decide (sort_equiv k x = true)) as [Hx|Hx], (decide (sort_equiv k y = true)) as [Hy'|Hy']; try done.
  exfalso. unfold sort_equiv in *. string_eqb.
  (* y < x while both are equivalent to k *)
  assert (sort_le x k) as Hxk by done. assert (sort_le k y) as Hky by done.
  pose proof (le_trans _ _ _ Hxk Hky) as Hxy. unfold sort_le in Hxy. congruence.
Qed.

Lemma SliceStable_stable (k : A) (l : list A) :
  filter (fun y => sort_equiv k y = true) (SliceStable l) = filter (fun y => sort_equiv k y = true) l.
Proof.
  induction l as [|x l IH]; [done|]. simpl SliceStable.
  rewrite insert_stable_equiv by apply SliceStable_sorted. by rewrite !filter_cons, IH.
Qed.

End stable_sort.

(** ** [sort.Strings] and [<] on strings *)
Definition str_less (s t : string) : bool := negb (bool_decide (String.le t s)).

Definition Strings (l : list string) : list string := SliceStable str_less l.

Lemma str_sort_le (s t : string) : sort_le str_less s t <-> String.le s t.
Proof. unfold sort_le, str_less. rewrite negb_false_iff. apply bool_decide_eq_true. Qed.

Lemma str_less_irrefl (s : string) : str_less s s = false.
Proof. apply str_sort_le. done. Qed.

Lemma str_less_trans (s t u : string) :
  sort_le str_less s t -> sort_le str_less t u -> sort_le str_less s u.
Proof. rewrite !str_sort_le. intros. by trans t. Qed.

Lemma str_less_asym (s t : string) : str_less s t = true -> str_less t s = false.
Proof.
  unfold str_less. rewrite negb_true_iff, negb_false_iff, bool_decide_eq_true, bool_decide_eq_false.
  intros H. destruct (total String.le s t); [done|contradiction].
Qed.

Lemma Strings_perm (l : list string) : Strings l ≡ₚ l.
Proof. apply SliceStable_perm. Qed.

Lemma Strings_sorted (l : list string) : StronglySorted String.le (Strings l).
Proof.
  unfold Strings. generalize (SliceStable_sorted str_less str_less_trans str_less_asym l).
  generalize (SliceStable str_less l). intros l'. induction 1 as [|x l1 H IH Hx]; constructor; [done|].
  eapply Forall_impl; [done|]. intros y. apply str_sort_le.
Qed.

(** The sorted keys of a map do not depend on the iteration order. *)
Lemma Strings_perm_eq (l1 l2 : list string) : l1 ≡ₚ l2 -> Strings l1 = Strings l2.
Proof.
  intros H. apply (StronglySorted_unique String.le); [apply Strings_sorted..|].
  by rewrite !Strings_perm.
Qed.

Lemma elem_of_Strings (x : string) (l : list string) : x ∈ Strings l <-> x ∈ l.
Proof. apply elem_of_SliceStable. Qed.

Lemma NoDup_Strings (l : list string) : NoDup (Strings l) <-> NoDup l.
Proof. by rewrite Strings_perm. Qed.

#[export] Hint Resolve Strings_sorted Strings_perm : golib.
