(* ===== verification/GoTime.v ===== *)
(** * The parts of Go's [time] package the program uses

    An instant is a number of nanoseconds since the Unix epoch.  A
    [*time.Location] is its zone lookup: for an instant in Unix seconds, the
    offset in force and the interval [start, end) it is in force for; the zone
    database itself is data outside the program, so locations are arguments. *)
From stdpp Require Import base list strings.
From Stdlib Require Import ZArith Lia Ascii.
From S2P Require Import Prelude GoStrings.

Local Open Scope Z_scope.

Definition Time : Type := Z.
Definition Duration : Type := Z.
Definition Second : Duration := 1000000000.

Definition Unix (t : Time) : Z := t / Second.
Definition of_unix (s : Z) : Time := s * Second.

(** The zero [time.Time], midnight of January 1 of year 1, and [Time.IsZero]. *)
Definition zeroTime : Time := of_unix (-62135596800).
Definition IsZero (t : Time) : bool := t =? zeroTime.

(** [Time.Sub] saturates at the bounds of a Duration. *)
Definition maxDuration : Duration := 2 ^ 63 - 1.
Definition minDuration : Duration := - 2 ^ 63.
Definition Sub (t u : Time) : Duration := Z.max minDuration (Z.min maxDuration (t - u)).

(** [time.Duration(n) * time.Second], in 64 bits. *)
Definition seconds (n : Z) : Duration := wrap64 (n * Second).

Record Location := MkLocation { zone_lookup : Z -> Z * Z * Z }.

(** The bounds of [time.utcLoc]: always. *)
Definition alpha : Z := - 2 ^ 63.
Definition omega : Z := 2 ^ 63 - 1.
Definition UTC : Location := MkLocation (fun _ => (0, alpha, omega)).

(** A zone with one fixed offset, [time.FixedZone]. *)
Definition FixedZone (offset : Z) : Location := MkLocation (fun _ => (offset, alpha, omega)).

Definition offset_at (loc : Location) (sec : Z) : Z := (zone_lookup loc sec).1.1.

(** ** The proleptic Gregorian calendar: day number (day 0 is 1970-01-01) and date *)
Definition days_from_civil (y m d : Z) : Z :=
  let y := if m <=? 2 then y - 1 else y in
  let era := y / 400 in
  let yoe := y - era * 400 in
  let doy := (153 * (if 2 <? m then m - 3 else m + 9) + 2) / 5 + d - 1 in
  let doe := yoe * 365 + yoe / 4 - yoe / 100 + doy in
  era * 146097 + doe - 719468.

Definition civil_from_days (z : Z) : Z * Z * Z :=
  let z := z + 719468 in
  let era := z / 146097 in
  let doe := z - era * 146097 in
  let yoe := (doe - doe / 1460 + doe / 36524 - doe / 146096) / 365 in
  let doy := doe - (365 * yoe + yoe / 4 - yoe / 100) in
  let mp := (5 * doy + 2) / 153 in
  let d := doy - (153 * mp + 2) / 5 + 1 in
  let m := if mp <? 10 then mp + 3 else mp - 9 in
  (yoe + era * 400 + (if m <=? 2 then 1 else 0), m, d).

(** The local day number and date of an instant. *)
Definition local_day (loc : Location) (t : Time) : Z := (Unix t + offset_at loc (Unix t)) / 86400.
Definition local_date (loc : Location) (t : Time) : Z * Z * Z := civil_from_days (local_day loc t).

(** [time.Date(y, m, d, 0, 0, 0, 0, loc)] for a month in 1..12; the day may be
    out of range.  The zone offset is looked up at the wall-clock reading taken
    as UTC, and again at the corrected instant when that one falls outside the
    interval the first offset is valid for. *)
Definition Date (y m d : Z) (loc : Location) : Time :=
  let unix := (days_from_civil y m 1 + (d - 1)) * 86400 in
  let '(offset, start, stop) := zone_lookup loc unix in
  if offset =? 0 then of_unix unix
  else
    let utc := unix - offset in
    let offset := if (utc <? start) || (stop <=? utc) then offset_at loc utc else offset in
    of_unix (unix - offset).

(** ** Layout "2006-01-02" *)

(** [appendInt(b, x, width)]: zero padded, the sign in front. *)
Definition zero_pad (width : nat) (s : string) : string :=
  foldr (fun _ acc => String "0" acc) s (replicate (width - String.length s) tt).
Definition appendInt (width : nat) (x : Z) : string :=
  if x <? 0 then "-" +:+ zero_pad width (digits (- x)) else zero_pad width (digits x).

Definition Format_date (date : Z * Z * Z) : string :=
  let '(y, m, d) := date in
  appendInt 4 y +:+ "-" +:+ appendInt 2 m +:+ "-" +:+ appendInt 2 d.

Definition isLeap (y : Z) : bool := (y mod 4 =? 0) && (negb (y mod 100 =? 0) || (y mod 400 =? 0)).
Definition daysIn (m y : Z) : Z :=
  if m =? 2 then (if isLeap y then 29 else 28)
  else if (m =? 4) || (m =? 6) || (m =? 9) || (m =? 11) then 30 else 31.

(** [time.Parse] with this layout: exactly four digits, two digits, two digits,
    a month in 1..12, a day of that month, and nothing after. *)
Definition Parse_date (s : string) : option (Z * Z * Z) :=
  let fixed (n : nat) (s : string) :=
    if Nat.ltb (String.length s) n then None
    else match parse_udec (str_take n s) with Some z => Some (z, str_drop n s) | None => None end in
  match fixed 4%nat s with
  | Some (y, String "-" s1) =>
      match fixed 2%nat s1 with
      | Some (m, String "-" s2) =>
          match fixed 2%nat s2 with
          | Some (d, "") =>
              if (1 <=? m) && (m <=? 12) && (1 <=? d) && (d <=? daysIn m y) then Some (y, m, d) else None
          | _ => None
          end
      | _ => None
      end
  | _ => None
  end.

(** * Lemmas *)

(** ** Calendar *)

(** The year of an era, from the day of the era. *)
Lemma yoe_range (doe : Z) : 0 <= doe < 146097 ->
  let yoe := (doe - doe / 1460 + doe / 36524 - doe / 146096) / 365 in
  0 <= yoe < 400 /\ 0 <= doe - (365 * yoe + yoe / 4 - yoe / 100) < 366.
Proof.
  intros H yoe. subst yoe. Z.div_mod_to_equations. lia.
Qed.

Lemma civil_roundtrip (z : Z) :
  let '(y, m, d) := civil_from_days z in
  days_from_civil y m d = z /\ 1 <= m <= 12 /\ 1 <= d <= 31.
Proof.
  unfold civil_from_days. cbv zeta.
  set (era := (z + 719468) / 146097). set (doe := z + 719468 - era * 146097).
  assert (0 <= doe < 146097) as Hdoe by (subst doe era; Z.div_mod_to_equations; lia).
  destruct (yoe_range doe Hdoe) as [Hy Hdoy].
  set (yoe := (doe - doe / 1460 + doe / 36524 - doe / 146096) / 365) in *.
  set (doy := doe - (365 * yoe + yoe / 4 - yoe / 100)) in *.
  set (mp := (5 * doy + 2) / 153).
  assert (0 <= mp <= 11) as Hmp by (subst mp; Z.div_mod_to_equations; lia).
  assert (0 <= doy - (153 * mp + 2) / 5 <= 30) as Hd by (subst mp; Z.div_mod_to_equations; lia).
  assert (forall y', y' = yoe + era * 400 -> y' / 400 = era /\ y' - y' / 400 * 400 = yoe) as Hera
    by (intros y' ->; Z.div_mod_to_equations; lia).
  unfold days_from_civil.
  destruct (mp <? 10) eqn:Em; [apply Z.ltb_lt in Em|apply Z.ltb_ge in Em].
  - assert ((mp + 3 <=? 2) = false) as -> by lia. assert ((2 <? mp + 3) = true) as -> by lia.
    replace (yoe + era * 400 + 0) with (yoe + era * 400) by lia. cbv zeta.
    destruct (Hera _ eq_refl) as [-> _].
    replace (yoe + era * 400 - era * 400) with yoe by lia. replace (mp + 3 - 3) with mp by lia. lia.
  - assert ((mp - 9 <=? 2) = true) as -> by lia. assert ((2 <? mp - 9) = false) as -> by lia.
    replace (yoe + era * 400 + 1 - 1) with (yoe + era * 400) by lia. cbv zeta.
    destruct (Hera _ eq_refl) as [-> _].
    replace (yoe + era * 400 - era * 400) with yoe by lia. replace (mp - 9 + 9) with mp by lia. lia.
Qed.

Lemma days_from_civil_shift (y m d : Z) : days_from_civil y m 1 + (d - 1) = days_from_civil y m d.
Proof. unfold days_from_civil. cbv zeta. lia. Qed.

(** The date decides the day. *)
Lemma civil_inj (a b : Z) : civil_from_days a = civil_from_days b -> a = b.
Proof.
  intros E. pose proof (civil_roundtrip a) as Ha. pose proof (civil_roundtrip b) as Hb. rewrite E in Ha.
  destruct (civil_from_days b) as [[y m] d]. lia.
Qed.

(** ** Midnights *)

(** [Date] with the day after a date, in UTC and in a fixed zone. *)
Lemma Date_next_day (z offset : Z) :
  let '(y, m, d) := civil_from_days z in
  alpha <= (z + 1) * 86400 - offset < omega ->
  Date y m (d + 1) (FixedZone offset) = of_unix ((z + 1) * 86400 - offset).
Proof.
  pose proof (civil_roundtrip z) as H. destruct (civil_from_days z) as [[y m] d]. destruct H as (H & _).
  intros Hr. unfold Date. rewrite days_from_civil_shift.
  assert (days_from_civil y m (d + 1) = z + 1) as ->
    by (rewrite <- H; unfold days_from_civil; cbv zeta; lia).
  unfold FixedZone. simpl. destruct (offset =? 0) eqn:E; [f_equal; lia|].
  unfold offset_at. simpl. by case_if.
Qed.

(** ** Dates as text *)
Lemma digits_len (z : Z) : (forall n, 0 <= z < 10 ^ Z.of_nat (S n) -> (String.length (digits z) <= S n)%nat).
Proof.
  unfold digits. intros n.
  cut (forall fuel acc z, 0 <= z < 10 ^ Z.of_nat (S n) ->
    (String.length (digits_fuel fuel z acc) <= S n + String.length acc)%nat).
  { intros H Hz. specialize (H (S (Z.to_nat (Z.log2 z))) "" z Hz). simpl in *. lia. }
  induction n as [|n IH]; intros fuel acc x Hx.
  - destruct fuel as [|fuel]; simpl; [lia|].
    assert ((x <? 10) = true) as -> by lia. simpl. lia.
  - destruct fuel as [|fuel]; simpl; [lia|].
    destruct (x <? 10) eqn:E; simpl; [lia|].
    etrans; [apply IH|simpl; lia].
    rewrite Nat2Z.inj_succ, Z.pow_succ_r in Hx by lia. Z.div_mod_to_equations. lia.
Qed.

(** The 366th day of a March-based year exists in leap years only. *)
Lemma leap_day (doe : Z) : 0 <= doe < 146097 ->
  let yoe := (doe - doe / 1460 + doe / 36524 - doe / 146096) / 365 in
  doe - (365 * yoe + yoe / 4 - yoe / 100) = 365 ->
  (yoe + 1) mod 4 = 0 /\ ((yoe + 1) mod 100 <> 0 \/ (yoe + 1) mod 400 = 0).
Proof. intros H yoe Hl. subst yoe. Z.div_mod_to_equations. lia. Qed.

Lemma civil_valid (z : Z) :
  let '(y, m, d) := civil_from_days z in d <= daysIn m y.
Proof.
  unfold civil_from_days. cbv zeta.
  set (era := (z + 719468) / 146097). set (doe := z + 719468 - era * 146097).
  assert (0 <= doe < 146097) as Hdoe by (subst doe era; Z.div_mod_to_equations; lia).
  destruct (yoe_range doe Hdoe) as [Hy Hdoy]. pose proof (leap_day doe Hdoe) as Hleap. cbv zeta in Hleap.
  set (yoe := (doe - doe / 1460 + doe / 36524 - doe / 146096) / 365) in *.
  set (doy := doe - (365 * yoe + yoe / 4 - yoe / 100)) in *. clearbody doy. clearbody yoe.
  set (mp := (5 * doy + 2) / 153).
  assert (mp = 0 \/ mp = 1 \/ mp = 2 \/ mp = 3 \/ mp = 4 \/ mp = 5 \/ mp = 6 \/ mp = 7 \/ mp = 8 \/ mp = 9 \/ mp = 10 \/ mp = 11)
    as Hmp by (subst mp; Z.div_mod_to_equations; lia).
  assert (153 * mp <= 5 * doy + 2 < 153 * mp + 153) as Hb by (subst mp; Z.div_mod_to_equations; lia).
  clearbody mp.
  repeat destruct Hmp as [->|Hmp]; [..|subst mp]; simpl; unfold daysIn; simpl;
    try (clear -Hb Hdoy; Z.div_mod_to_equations; lia).
  destruct (isLeap (yoe + era * 400 + 1)) eqn:El.
  - clear -Hb Hdoy. Z.div_mod_to_equations. lia.
  - assert (doy <> 365) as Hn; [|clear -Hb Hdoy Hn; Z.div_mod_to_equations; lia]. intros E. destruct (Hleap E) as [H4 H100].
    unfold isLeap in El. apply andb_false_iff in El as [El|El]; [apply Z.eqb_neq in El; apply El|].
    + Z.div_mod_to_equations; lia.
    + apply orb_false_iff in El as [E1 E2]. apply negb_false_iff, Z.eqb_eq in E1. apply Z.eqb_neq in E2.
      Z.div_mod_to_equations; lia.
Qed.

Lemma digits_nonempty (z : Z) : digits z <> "".
Proof.
  unfold digits. cut (forall fuel x acc, digits_fuel (S fuel) x acc <> ""); [by auto|].
  induction fuel as [|fuel IH]; intros x acc; simpl; case_if; [done|done|done|]. apply (IH (x / 10)).
Qed.

Lemma zero_pad_parse (n : nat) (s : string) : s <> "" ->
  parse_udec (zero_pad n s) = parse_udec s /\ String.length (zero_pad n s) = Nat.max n (String.length s).
Proof.
  intros Hs. unfold zero_pad. remember (n - String.length s)%nat as k eqn:Hk.
  assert (Nat.max n (String.length s) = (k + String.length s)%nat) as -> by lia. clear Hk.
  assert (forall k, foldr (fun (_ : unit) acc => String "0" acc) s (replicate k tt) <> "") as Hne by (by intros []).
  induction k as [|k [IHp IHl]]; [done|]. cbn [replicate foldr]. split; [|simpl; lia].
  rewrite <- IHp. specialize (Hne k). unfold parse_udec at 1. cbn [parse_digits].
  change (is_digit "0") with true. cbv iota. change (10 * 0 + (byte_val "0" - 48)) with 0.
  unfold parse_udec. by destruct (foldr _ _ _).
Qed.

Lemma appendInt_parse (n : nat) (x : Z) : 0 <= x < 10 ^ Z.of_nat (S n) ->
  parse_udec (appendInt (S n) x) = Some x /\ String.length (appendInt (S n) x) = S n.
Proof.
  intros Hx. unfold appendInt. assert ((x <? 0) = false) as -> by lia.
  destruct (zero_pad_parse (S n) (digits x) (digits_nonempty x)) as [-> ->].
  split; [apply parse_udec_digits; lia|]. pose proof (digits_len x n Hx). lia.
Qed.

(** A date of the years 0 to 9999 is read back from its text. *)
Lemma Parse_Format_date (y m d : Z) :
  0 <= y <= 9999 -> 1 <= m <= 12 -> 1 <= d <= daysIn m y -> Parse_date (Format_date (y, m, d)) = Some (y, m, d).
Proof.
  intros Hy Hm Hd.
  assert (daysIn m y <= 31) by (unfold daysIn; repeat case_if; lia).
  destruct (appendInt_parse 3 y) as [Py Ly]; [lia|]. destruct (appendInt_parse 1 m) as [Pm Lm]; [lia|].
  destruct (appendInt_parse 1 d) as [Pd Ld]; [lia|].
  assert (forall n s t, String.length s = n -> str_take n (s +:+ t) = s /\ str_drop n (s +:+ t) = t
    /\ Nat.ltb (String.length (s +:+ t)) n = false) as Hsplit.
  { intros n s t <-. rewrite str_take_app, str_drop_app, str_length_app. split_and!; [done|done|].
    apply Nat.ltb_ge. lia. }
  unfold Parse_date, Format_date.
  destruct (Hsplit 4%nat (appendInt 4 y) ("-" +:+ appendInt 2 m +:+ "-" +:+ appendInt 2 d) Ly) as (-> & -> & ->).
  rewrite Py. cbn [String.append].
  destruct (Hsplit 2%nat (appendInt 2 m) ("-" +:+ appendInt 2 d) Lm) as (T & D & L).
  change (("-" +:+ appendInt 2 m +:+ "-" +:+ appendInt 2 d)) with (String "-" (appendInt 2 m +:+ "-" +:+ appendInt 2 d)).
  cbv iota beta. rewrite T, D, L, Pm.
  change ("-" +:+ appendInt 2 d) with (String "-" (appendInt 2 d)). cbv iota beta.
  destruct (Hsplit 2%nat (appendInt 2 d) "" Ld) as (T2 & D2 & L2). rewrite str_app_nil_r in *. rewrite T2, D2, L2, Pd.
  assert ((1 <=? m) && (m <=? 12) && (1 <=? d) && (d <=? daysIn m y) = true) as -> by lia. done.
Qed.

(** The days whose date has a four-digit year: 0000-01-01 to 9999-12-31. *)
Definition four_digit_year (z : Z) : Prop := let '(y, _, _) := civil_from_days z in 0 <= y <= 9999.

Lemma Parse_Format_day (z : Z) :
  four_digit_year z -> Parse_date (Format_date (civil_from_days z)) = Some (civil_from_days z).
Proof.
  unfold four_digit_year. pose proof (civil_roundtrip z) as H1. pose proof (civil_valid z) as H2.
  destruct (civil_from_days z) as [[y m] d]. intros Hy. apply Parse_Format_date; lia.
Qed.

Lemma Format_day_inj (a b : Z) :
  four_digit_year a -> four_digit_year b ->
  Format_date (civil_from_days a) = Format_date (civil_from_days b) -> a = b.
Proof.
  intros Ha Hb E. apply civil_inj. pose proof (Parse_Format_day a Ha) as Pa. pose proof (Parse_Format_day b Hb) as Pb.
  rewrite E in Pa. congruence.
Qed.
