(* ===== verification/Clock.v ===== *)
(** * internal/clock: the time source

    Everywhere else the library takes the times the program reads as arguments;
    here is the interface they come from and the clock the tests drive. *)
From stdpp Require Import base list.
From Stdlib Require Import ZArith Lia.
From S2P Require Import Prelude GoTime.

Local Open Scope Z_scope.

(** [Clock] *)
Class Clock (C : Type) := { Now : C -> Time }.

Record FakeClock := MkFakeClock { fcNow : Time }.
Definition NewFakeClock (t : Time) : FakeClock := MkFakeClock t.
#[export] Instance FakeClock_Clock : Clock FakeClock := {| Now := fcNow |}.
Definition Advance (c : FakeClock) (d : Duration) : FakeClock := MkFakeClock (Now c + d).
Definition Set_ (_ : FakeClock) (t : Time) : FakeClock := MkFakeClock t.

(** What the tests rely on: a run of calls shows the last time set plus the
    durations advanced since. *)
Inductive clockCall := CallAdvance (d : Duration) | CallSet (t : Time).
Definition call (c : FakeClock) (x : clockCall) : FakeClock :=
  match x with CallAdvance d => Advance c d | CallSet t => Set_ c t end.

Lemma advances (c : FakeClock) (ds : list Duration) :
  Now (foldl Advance c ds) = Now c + foldr Z.add 0 ds.
Proof. revert c. induction ds as [|d ds IH]; intros c; simpl; [lia|]. rewrite IH. simpl. lia. Qed.

Lemma set_then_advances (c : FakeClock) (calls : list clockCall) (t : Time) (ds : list Duration) :
  Now (foldl Advance (Set_ (foldl call c calls) t) ds) = t + foldr Z.add 0 ds.
Proof. apply advances. Qed.
