(* ===== verification/GoFloat.v ===== *)
(** * float64: the operations the traffic code uses

    IEEE-754 binary64 with the Standard Library's executable [SpecFloat]
    (precision 53, maximal exponent 1024, rounding to nearest even).  Go leaves
    the conversion of an out-of-range float to [int64] to the implementation:
    that result is a parameter. *)
From stdpp Require Import base list strings.
From Stdlib Require Import ZArith Lia SpecFloat.
From S2P Require Import Prelude.

Local Open Scope Z_scope.

Definition float64 : Type := spec_float.

Definition float_of_int (z : Z) : float64 := binary_normalize 53 1024 z 0 false.
Definition fadd : float64 -> float64 -> float64 := SFadd 53 1024.
Definition fmul : float64 -> float64 -> float64 := SFmul 53 1024.
Definition fdiv : float64 -> float64 -> float64 := SFdiv 53 1024.
Definition fzero : float64 := S754_zero false.
Definition fone : float64 := float_of_int 1.

(** [x < y]: false when one of them is NaN. *)
Definition flt (x y : float64) : bool := match SFcompare x y with Some Lt => true | _ => false end.
Definition IsNaN (x : float64) : bool := match x with S754_nan => true | _ => false end.

(** The magnitude [m * 2^e] rounded down and up to an integer, and to the
    nearest one with halves away from zero; [e] is negative. *)
Definition mag_floor (m : positive) (e : Z) : Z := Z.pos m / 2 ^ (- e).
Definition mag_ceil (m : positive) (e : Z) : Z := - (Z.neg m / 2 ^ (- e)).
Definition mag_round (m : positive) (e : Z) : Z := (2 * Z.pos m + 2 ^ (- e)) / (2 * 2 ^ (- e)).

(** An integer below 2^53 in magnitude as a float, keeping the sign of zero. *)
Definition signed_int (s : bool) (n : Z) : float64 :=
  if n =? 0 then S754_zero s else float_of_int (if s then - n else n).

(** [math.Ceil] *)
Definition Ceil (x : float64) : float64 :=
  match x with
  | S754_finite s m e => if 0 <=? e then x else signed_int s (if s then mag_floor m e else mag_ceil m e)
  | _ => x
  end.

(** [math.Round] *)
Definition Round (x : float64) : float64 :=
  match x with
  | S754_finite s m e => if 0 <=? e then x else signed_int s (mag_round m e)
  | _ => x
  end.

(** The integer part, towards zero; [None] for an infinity or a NaN. *)
Definition ftrunc (x : float64) : option Z :=
  match x with
  | S754_zero _ => Some 0
  | S754_finite s m e =>
      let n := if 0 <=? e then Z.pos m * 2 ^ e else mag_floor m e in
      Some (if s then - n else n)
  | _ => None
  end.

Class FloatConversion := { out_of_range_int64 : float64 -> Z }.

(** What amd64 does; used to evaluate examples. *)
#[export] Instance amd64_conversion : FloatConversion | 100 := {| out_of_range_int64 _ := - 2 ^ 63 |}.

(** [int64(x)] *)
Definition int64_of_float {F : FloatConversion} (x : float64) : Z :=
  match ftrunc x with
  | Some z => if in_int64b z then z else wrap64 (out_of_range_int64 x)
  | None => wrap64 (out_of_range_int64 x)
  end.

(** * Lemmas *)
Lemma wrap64_range (z : Z) : in_int64 (wrap64 z).
Proof. unfold in_int64, wrap64. pose proof (Z.mod_pos_bound (z + 2 ^ 63) (2 ^ 64) ltac:(lia)). lia. Qed.

Lemma wrap64_id (z : Z) : in_int64 z -> wrap64 z = z.
Proof. unfold in_int64, wrap64. intros H. rewrite Z.mod_small by lia. lia. Qed.

Lemma int64_of_float_range {F : FloatConversion} (x : float64) : in_int64 (int64_of_float x).
Proof.
  unfold int64_of_float. case_match; [|apply wrap64_range]. case_if; [|apply wrap64_range].
  unfold in_int64b in *. unfold in_int64. lia.
Qed.
