(* ===== verification/FloatRatio.v ===== *)
(** * The quotient of two counters as a float64

    [float64(a) / float64(b)] lies between 0 and 1 when the integers
    [0 <= a <= b < 2^63] do, [0 < b]: both conversions and the division round,
    so this is a fact about rounding.  A non-zero counter converts to a
    mantissa of 53 bits; the conversion is monotone, by the monotonicity of the
    shift that drops the low bits; a quotient of two such mantissas has 53 or
    54 bits and cannot round past 1. *)
From stdpp Require Import base list.
From Stdlib Require Import ZArith Lia SpecFloat.
From S2P Require Import Prelude GoFloat.

Local Open Scope Z_scope.

(** ** Digits *)
Lemma digits2_pos_bounds (p : positive) : 2 ^ (Z.pos (digits2_pos p) - 1) <= Z.pos p < 2 ^ Z.pos (digits2_pos p).
Proof.
  induction p as [p IH|p IH|]; cbn [digits2_pos]; [| |done];
    rewrite Pos2Z.inj_succ; replace (Z.succ (Z.pos (digits2_pos p)) - 1) with (Z.succ (Z.pos (digits2_pos p) - 1)) by lia;
    rewrite !Z.pow_succ_r by lia; lia.
Qed.

Lemma Zdigits2_unique (z k : Z) : 0 < k -> 2 ^ (k - 1) <= z < 2 ^ k -> Zdigits2 z = k.
Proof.
  intros Hk Hz. destruct z as [|p|p]; [pose proof (Z.pow_pos_nonneg 2 (k - 1)); lia| |pose proof (Z.pow_pos_nonneg 2 (k - 1)); lia].
  cbn [Zdigits2]. pose proof (digits2_pos_bounds p) as Hp. set (d := Z.pos (digits2_pos p)) in *.
  destruct (Z.lt_trichotomy d k) as [H|[->|H]]; [|done|].
  - pose proof (Z.pow_le_mono_r 2 d (k - 1)). lia.
  - pose proof (Z.pow_le_mono_r 2 k (d - 1)). lia.
Qed.

(** ** Dropping low bits *)

(** A shift record as a number: the mantissa, the round bit, the sticky bit. *)
Definition shr_value (r : shr_record) : Z := 4 * shr_m r + 2 * Z.b2z (shr_r r) + Z.b2z (shr_s r).

Definition shr_le (a b : shr_record) : Prop := 0 <= shr_m a /\ shr_value a <= shr_value b.

Lemma shr_1_spec (r : shr_record) : 0 <= shr_m r ->
  shr_m (shr_1 r) = shr_m r / 2 /\ shr_value (shr_1 r) = 2 * shr_m r + Z.b2z (shr_r r || shr_s r).
Proof.
  intros H. destruct r as [[|[p|p|]|p] r s]; cbn in H; unfold shr_value; [| | | |lia]; (split; [|by destruct r, s; cbn; lia]); cbn [shr_1 shr_m].
  - done.
  - apply (Z.div_unique (Z.pos p~1) 2 (Z.pos p) 1); lia.
  - apply (Z.div_unique (Z.pos p~0) 2 (Z.pos p) 0); lia.
  - done.
Qed.

Lemma shr_1_mono (a b : shr_record) : shr_le a b -> shr_le (shr_1 a) (shr_1 b).
Proof.
  intros [Ha Hab]. unfold shr_value in Hab. assert (0 <= shr_m b) as Hb.
  { destruct (shr_r a), (shr_s a), (shr_r b), (shr_s b); cbn -[Z.mul Z.add] in Hab; lia. }
  destruct (shr_1_spec a Ha) as [Ma Va], (shr_1_spec b Hb) as [Mb Vb]. unfold shr_le. rewrite Ma, Va, Vb.
  split; [apply Z.div_pos; lia|]. destruct (shr_r a), (shr_s a), (shr_r b), (shr_s b); cbn -[Z.mul Z.add] in *; lia.
Qed.

Lemma iter_shr_mono (n : positive) (a b : shr_record) : shr_le a b -> shr_le (iter_pos shr_1 n a) (iter_pos shr_1 n b).
Proof.
  revert a b. induction n as [n IH|n IH|]; intros a b Hab; cbn; [apply IH, IH, shr_1_mono, Hab|apply IH, IH, Hab|apply shr_1_mono, Hab].
Qed.

Lemma iter_shr_m (n : positive) (r : shr_record) : 0 <= shr_m r -> shr_m (iter_pos shr_1 n r) = shr_m r / 2 ^ Z.pos n.
Proof.
  revert r. assert (forall r p, 0 <= shr_m r -> 0 <= shr_m r / 2 ^ Z.pos p) as Hpos by (intros; by apply Z.div_pos; [|apply Z.pow_pos_nonneg]).
  induction n as [n IH|n IH|]; intros r Hr; cbn [iter_pos].
  - destruct (shr_1_spec r Hr) as [E _]. assert (0 <= shr_m (shr_1 r)) as H1 by (rewrite E; apply Z.div_pos; lia).
    rewrite IH, IH, E, !Z.div_div by (rewrite ?IH by done; (lia || auto)).
    f_equal. rewrite Pos2Z.inj_xI, Z.pow_add_r by lia. replace (2 * Z.pos n) with (Z.pos n + Z.pos n) by lia.
    rewrite Z.pow_add_r by lia. lia.
  - rewrite IH, IH, Z.div_div by (rewrite ?IH by done; (lia || auto)). f_equal. rewrite <- Z.pow_add_r by lia. f_equal; lia.
  - by destruct (shr_1_spec r Hr) as [-> _].
Qed.

(** The mantissa rounded to nearest, halves to even. *)
Definition rounded (r : shr_record) : Z := round_nearest_even (shr_m r) (loc_of_shr_record r).

Lemma rounded_bounds (r : shr_record) : shr_m r <= rounded r <= shr_m r + 1.
Proof. unfold rounded. destruct r as [m [] []]; cbn -[Z.add]; try case_match; lia. Qed.

Lemma rounded_mono (a b : shr_record) : shr_le a b -> rounded a <= rounded b.
Proof.
  intros [_ Hab]. unfold shr_value in Hab. destruct a as [m r s], b as [m' r' s']; unfold rounded; cbn -[Z.add Z.mul Z.even] in *.
  destruct (Z.eq_dec m m') as [->|Hm].
  - destruct r, s, r', s'; cbn -[Z.add Z.mul Z.even] in *; try lia; case_match; lia.
  - assert (m + 1 <= m') as H by (destruct r, s, r', s'; cbn -[Z.add Z.mul] in Hab; lia).
    destruct r, s, r', s'; cbn -[Z.add Z.mul Z.even]; repeat case_match; lia.
Qed.

(** ** Rounding to 53 bits *)
Definition shifted (q : Z) (l : location) (n : Z) : shr_record := (shr (shr_record_of_loc q l) 0 n).1.

(** The mantissa and exponent of [r * 2^k], [r] having 53 bits or being 2^53. *)
Definition carry (r k : Z) : Z * Z := if r =? 2 ^ 53 then (2 ^ 52, k + 1) else (r, k).

Lemma shifted_m (q : Z) (l : location) (n : Z) : 0 <= q -> 0 <= n -> shr_m (shifted q l n) = q / 2 ^ n.
Proof.
  intros Hq Hn. assert (shr_m (shr_record_of_loc q l) = q) as E by by destruct l as [|[]].
  unfold shifted, shr. destruct n as [|p|p]; [by rewrite Z.div_1_r|cbn [fst]; by rewrite iter_shr_m, E by (by rewrite E)|lia].
Qed.

Lemma shifted_bounds (q : Z) (l : location) (n : Z) :
  0 <= n -> 2 ^ (52 + n) <= q < 2 ^ (53 + n) -> 2 ^ 52 <= rounded (shifted q l n) <= 2 ^ 53.
Proof.
  intros Hn Hq. rewrite !Z.pow_add_r in Hq by lia. pose proof (Z.pow_pos_nonneg 2 n ltac:(lia) Hn) as Hp.
  pose proof (rounded_bounds (shifted q l n)) as Hr. rewrite shifted_m in Hr by lia.
  pose proof (Z.div_le_lower_bound q (2 ^ n) (2 ^ 52) Hp ltac:(lia)). pose proof (Z.div_lt_upper_bound q (2 ^ n) (2 ^ 53) Hp ltac:(lia)). lia.
Qed.

Lemma shr_exponent (a : shr_record) (e n : Z) : 0 <= n -> (shr a e n).2 = e + n.
Proof. destruct n; cbn; lia. Qed.

Lemma binary_round_aux_norm (q e n : Z) (l : location) :
  0 <= n -> 2 ^ (52 + n) <= q < 2 ^ (53 + n) -> -1074 <= e + n -> e + n <= 970 ->
  exists m k, binary_round_aux 53 1024 false q e l = S754_finite false m k
    /\ (Z.pos m, k) = carry (rounded (shifted q l n)) (e + n).
Proof.
  intros Hn Hq He1 He2. pose proof (shifted_bounds q l n Hn Hq) as Hr.
  unfold binary_round_aux, shr_fexp. rewrite (Zdigits2_unique q (53 + n)) by (replace (53 + n - 1) with (52 + n) by lia; lia).
  replace (fexp 53 1024 (53 + n + e) - e) with n by (unfold fexp, emin; lia).
  assert (shr (shr_record_of_loc q l) e n = (shifted q l n, e + n)) as ->.
  { rewrite (surjective_pairing (shr _ e n)), shr_exponent by done. f_equal. unfold shifted. by destruct n. }
  fold (rounded (shifted q l n)). set (r := rounded (shifted q l n)) in *. unfold carry. destruct (Z.eqb_spec r (2 ^ 53)) as [->|Hne].
  - rewrite (Zdigits2_unique (2 ^ 53) 54) by lia. replace (fexp 53 1024 (54 + (e + n)) - (e + n)) with 1 by (unfold fexp, emin; lia).
    change (1024 - 53) with 971. cbn -[Z.add Z.leb Z.sub]. destruct (Z.leb_spec (e + n + 1) 971); [|lia]. by eexists _, _.
  - rewrite (Zdigits2_unique r 53) by lia. replace (fexp 53 1024 (53 + (e + n)) - (e + n)) with 0 by (unfold fexp, emin; lia).
    cbn [shr shr_record_of_loc shr_m]. destruct r as [|r|r]; [lia| |lia]. change (1024 - 53) with 971.
    destruct (Z.leb_spec (e + n) 971); [|lia]. by eexists _, _.
Qed.

(** ** Integers below 2^63 *)
Lemma pos_iter_xO (p k : positive) : Z.pos (Pos.iter xO p k) = Z.pos p * 2 ^ Z.pos k.
Proof.
  induction k as [|k IH] using Pos.peano_ind; [cbn; lia|]. rewrite Pos.iter_succ, Pos2Z.inj_succ, Z.pow_succ_r by lia. lia.
Qed.

(** The 53 bits an integer of [53 + n] bits is rounded to. *)
Definition mantissa (z n : Z) : Z := if n <=? 0 then z * 2 ^ (- n) else rounded (shifted z loc_Exact n).

Lemma float_of_int_spec (z : Z) : 0 < z < 2 ^ 63 ->
  exists n m e, float_of_int z = S754_finite false m e /\ 2 ^ (52 + n) <= z < 2 ^ (53 + n) /\ -52 <= n <= 10
    /\ 2 ^ 52 <= mantissa z n <= 2 ^ 53 /\ (Z.pos m, e) = carry (mantissa z n) n.
Proof.
  intros Hz. destruct z as [|p|p]; [lia| |lia]. unfold float_of_int, binary_normalize, binary_round.
  pose proof (digits2_pos_bounds p) as Hd. set (d := Z.pos (digits2_pos p)) in *.
  assert (1 <= d <= 63) as Hd63. { split; [lia|]. destruct (Z.le_gt_cases d 63) as [|H]; [done|]. pose proof (Z.pow_le_mono_r 2 63 (d - 1)). lia. }
  replace (fexp 53 1024 (d + 0)) with (d - 53) by (unfold fexp, emin; lia). unfold shl_align. rewrite Z.sub_0_r.
  exists (d - 53). replace (52 + (d - 53)) with (d - 1) by lia. replace (53 + (d - 53)) with d by lia. unfold mantissa.
  destruct (Z.leb_spec (d - 53) 0) as [Hle|Hgt].
  - assert (2 ^ 52 <= Z.pos p * 2 ^ (- (d - 53)) < 2 ^ 53) as Hm.
    { pose proof (Z.pow_pos_nonneg 2 (- (d - 53)) ltac:(lia) ltac:(lia)). replace (2 ^ 52) with (2 ^ (d - 1) * 2 ^ (- (d - 53)))
        by (rewrite <- Z.pow_add_r by lia; f_equal; lia). replace (2 ^ 53) with (2 ^ d * 2 ^ (- (d - 53)))
        by (rewrite <- Z.pow_add_r by lia; f_equal; lia). nia. }
    assert (match d - 53 with Z.neg k => (Pos.iter xO p k, d - 53) | _ => (p, 0) end
      = (Z.to_pos (Z.pos p * 2 ^ (- (d - 53))), d - 53)) as ->.
    { destruct (d - 53) as [|k|k] eqn:E; [cbn [Z.opp]; by rewrite Z.mul_1_r|lia|]. f_equal. apply Pos2Z.inj. rewrite Z2Pos.id by lia. apply (pos_iter_xO p k). }
    destruct (binary_round_aux_norm (Z.pos (Z.to_pos (Z.pos p * 2 ^ (- (d - 53))))) (d - 53) 0 loc_Exact)
      as (m & k & -> & Hc); [lia|rewrite Z2Pos.id by lia; lia|lia|lia|].
    exists m, k. split_and!; [done|lia|lia|lia|lia|lia|lia|]. rewrite Hc. rewrite Z2Pos.id by lia. unfold rounded, shifted. cbn.
    by rewrite Z.add_0_r.
  - destruct (d - 53) as [|k|k] eqn:E; [lia| |lia]. rewrite <- E in *.
    destruct (binary_round_aux_norm (Z.pos p) 0 (d - 53) loc_Exact) as (m & e & -> & Hc);
      [lia|replace (52 + (d - 53)) with (d - 1) by lia; replace (53 + (d - 53)) with d by lia; lia|lia|lia|].
    exists m, e. split_and!; [done|lia|lia|lia|lia| | |by rewrite Hc];
    apply (shifted_bounds (Z.pos p) loc_Exact (d - 53)); [lia| |lia|];
      replace (52 + (d - 53)) with (d - 1) by lia; replace (53 + (d - 53)) with d by lia; lia.
Qed.

(** The order of positive floats with 53-bit mantissas. *)
Definition mant_le (a b : Z * Z) : Prop := a.2 < b.2 \/ (a.2 = b.2 /\ a.1 <= b.1).

Lemma carry_range (r k : Z) : 2 ^ 52 <= r <= 2 ^ 53 -> 2 ^ 52 <= (carry r k).1 < 2 ^ 53 /\ k <= (carry r k).2 <= k + 1.
Proof. intros H. unfold carry. destruct (Z.eqb_spec r (2 ^ 53)); cbn [fst snd]; lia. Qed.

Lemma carry_mono (r r' k k' : Z) :
  2 ^ 52 <= r <= 2 ^ 53 -> 2 ^ 52 <= r' <= 2 ^ 53 -> k < k' \/ (k = k' /\ r <= r') -> mant_le (carry r k) (carry r' k').
Proof.
  intros H H' Hk. unfold carry, mant_le. destruct (Z.eqb_spec r (2 ^ 53)), (Z.eqb_spec r' (2 ^ 53)); cbn [fst snd]; lia.
Qed.

Lemma mantissa_mono (x y n : Z) : 0 <= x <= y -> mantissa x n <= mantissa y n.
Proof.
  intros H. unfold mantissa. destruct (Z.leb_spec n 0) as [Hn|Hn].
  - pose proof (Z.pow_pos_nonneg 2 (- n)). nia.
  - apply rounded_mono. unfold shifted, shr. destruct n as [|p|p]; [lia| |lia]. cbn [fst]. apply iter_shr_mono.
    unfold shr_le, shr_value. cbn -[Z.mul Z.add]. lia.
Qed.

Lemma bits_mono (x y n n' : Z) :
  0 <= 52 + n -> 0 <= 52 + n' -> 2 ^ (52 + n) <= x -> y < 2 ^ (53 + n') -> x <= y -> n <= n'.
Proof. intros H H' Hx Hy Hxy. destruct (Z.le_gt_cases n n') as [|G]; [done|]. pose proof (Z.pow_le_mono_r 2 (53 + n') (52 + n)). lia. Qed.

(** A positive float with a 53-bit mantissa. *)
Definition is_normal (x : float64) (me : Z * Z) : Prop :=
  2 ^ 52 <= me.1 < 2 ^ 53 /\ x = S754_finite false (Z.to_pos me.1) me.2.

Lemma float_of_int_mono (x y : Z) : 0 < x <= y -> y < 2 ^ 63 ->
  exists a b, is_normal (float_of_int x) a /\ is_normal (float_of_int y) b /\ mant_le a b /\ -52 <= a.2 /\ b.2 <= 11.
Proof.
  intros Hxy Hy. destruct (float_of_int_spec x) as (n & m & e & E & Hn & Hn2 & Hr & Hc); [lia|].
  destruct (float_of_int_spec y) as (n' & m' & e' & E' & Hn' & Hn2' & Hr' & Hc'); [lia|].
  pose proof (carry_range _ n Hr) as R. pose proof (carry_range _ n' Hr') as R'. rewrite <- Hc in R. rewrite <- Hc' in R'. cbn [fst snd] in *.
  exists (Z.pos m, e), (Z.pos m', e'). unfold is_normal. cbn [fst snd]. rewrite !Pos2Z.id. split_and!; try done; try lia.
  rewrite Hc, Hc'. apply carry_mono; [done|done|]. pose proof (bits_mono x y n n') as Hb.
  destruct (Z.lt_trichotomy n n') as [|[<-|]]; [by left| |lia]. right. split; [done|]. apply mantissa_mono. lia.
Qed.

(** ** Division *)
Lemma new_location_0 (p : Z) : 0 < p -> new_location p 0 = loc_Exact.
Proof. intros H. unfold new_location. destruct (Z.even p); [|unfold new_location_odd]; cbn; done. Qed.

Lemma fdiv_le_one (x y : float64) (a b : Z * Z) :
  is_normal x a -> is_normal y b -> mant_le a b -> -52 <= a.2 -> b.2 <= 11 ->
  exists me, is_normal (fdiv x y) me /\ mant_le me (2 ^ 52, -52).
Proof.
  destruct a as [m1 e1], b as [m2 e2]. intros [Hm1 ->] [Hm2 ->] Hle He1 He2. unfold mant_le in Hle. cbn [fst snd] in *.
  unfold fdiv, SFdiv, SFdiv_core_binary. rewrite !Z2Pos.id by lia.
  rewrite (Zdigits2_unique m1 53), (Zdigits2_unique m2 53) by lia.
  replace (Z.min (fexp 53 1024 (53 + e1 - (53 + e2))) (e1 - e2)) with (e1 - e2 - 53) by (unfold fexp, emin; lia).
  replace (e1 - e2 - (e1 - e2 - 53)) with 53 by lia. cbn [xorb]. rewrite Z.shiftl_mul_pow2 by lia.
  pose proof (Z.div_eucl_eq (m1 * 2 ^ 53) m2 ltac:(lia)) as Hq. pose proof (Z.mod_pos_bound (m1 * 2 ^ 53) m2 ltac:(lia)) as Hr.
  unfold Z.modulo in Hr. destruct (Z.div_eucl (m1 * 2 ^ 53) m2) as [q r].
  assert (2 ^ 52 <= q < 2 ^ 54) as Hq54 by nia.
  destruct (Z.lt_ge_cases q (2 ^ 53)) as [Hlt|Hge].
  - destruct (binary_round_aux_norm q (e1 - e2 - 53) 0 (new_location m2 r)) as (m & k & -> & Hc); [lia|lia|lia|lia|].
    pose proof (shifted_bounds q (new_location m2 r) 0 ltac:(lia) ltac:(lia)) as Hb.
    pose proof (carry_range _ (e1 - e2 - 53 + 0) Hb) as R. rewrite <- Hc in R. cbn [fst snd] in R. exists (Z.pos m, k). split; [by split; cbn [fst snd]; [lia|rewrite Pos2Z.id]|].
    unfold carry in Hc. unfold mant_le. cbn [fst snd]. destruct (Z.eqb_spec (rounded (shifted q (new_location m2 r) 0)) (2 ^ 53)); injection Hc as Hm Hk; lia.
  - destruct (binary_round_aux_norm q (e1 - e2 - 53) 1 (new_location m2 r)) as (m & k & -> & Hc); [lia|lia|lia|lia|].
    pose proof (shifted_bounds q (new_location m2 r) 1 ltac:(lia) ltac:(lia)) as Hb.
    pose proof (carry_range _ (e1 - e2 - 53 + 1) Hb) as R. rewrite <- Hc in R. cbn [fst snd] in R. exists (Z.pos m, k). split; [by split; cbn [fst snd]; [lia|rewrite Pos2Z.id]|].
    unfold mant_le. cbn [fst snd]. destruct (Z.lt_ge_cases e1 e2) as [He|He].
    + unfold carry in Hc. destruct (Z.eqb_spec (rounded (shifted q (new_location m2 r) 1)) (2 ^ 53)); injection Hc as Hm Hk; lia.
    + assert (m1 = m2 /\ q = 2 ^ 53 /\ r = 0) as (-> & -> & ->) by nia. rewrite new_location_0 in Hc by lia. cbn in Hc. injection Hc as Hm Hk. lia.
Qed.

(** ** The quotient *)
Lemma float_ratio (a b : Z) : 0 <= a <= b -> 0 < b < 2 ^ 63 ->
  flt (fdiv (float_of_int a) (float_of_int b)) fzero = false /\ flt fone (fdiv (float_of_int a) (float_of_int b)) = false
  /\ IsNaN (fdiv (float_of_int a) (float_of_int b)) = false.
Proof.
  intros Ha Hb. destruct (Z.eq_dec a 0) as [->|Hne].
  - destruct (float_of_int_mono b b) as (n & ? & [_ ->] & _); [lia|lia|]. done.
  - destruct (float_of_int_mono a b) as (x & y & Hx & Hy & Hxy & ? & ?); [lia|lia|].
    destruct (fdiv_le_one _ _ x y Hx Hy Hxy) as ([m e] & [Hm ->] & Hle); [done|done|]. cbn [fst snd] in *.
    split_and!; [done| |done]. change fone with (S754_finite false 4503599627370496 (-52)). unfold flt. cbn [SFcompare].
    unfold mant_le in Hle. cbn [fst snd] in Hle. destruct (Z.compare_spec (-52) e) as [He|He|He]; [|lia|done].
    change (Pos.compare_cont Eq 4503599627370496 (Z.to_pos m)) with (Pos.compare 4503599627370496 (Z.to_pos m)).
    destruct (Pos.compare_spec 4503599627370496 (Z.to_pos m)) as [|G|]; [done| |done]. apply Pos2Z.pos_lt_pos in G. rewrite Z2Pos.id in G; lia.
Qed.
