(* ===== verification/Headers.v ===== *)
(** * internal/fetcher/headers.go: the upstream response headers *)
From stdpp Require Import base gmap sets list strings sorting.
From Stdlib Require Import ZArith Lia Ascii.
From S2P Require Import Prelude GoStrings.

Record SubscriptionUserinfo := MkUserinfo { Upload : Z; Download : Z; Total : Z; Expire : Z }.

(** The three ways the header is unparseable. *)
Inductive userinfoError :=
  | EmptyHeader
  | MalformedPair (field : string)
  | NotAnInteger (key val : string)
  | NoRecognizedFields (s : string).

Section parse.
Context {U : UnicodeTables}.

(** One field: [None] when it is blank, else the outcome. *)
Definition parseField (raw : string) : option (userinfoError + string * Z) :=
  let field := TrimSpace raw in
  if String.eqb field "" then None
  else match IndexByte field "="%char with
       | None | Some 0 => Some (inl (MalformedPair field))
       | Some eq =>
           let key := ToLower (TrimSpace (str_take eq field)) in
           let val := TrimSpace (str_drop (S eq) field) in
           match ParseInt val with
           | None => Some (inl (NotAnInteger key val))
           | Some n => Some (inr (key, n))
           end
       end.

(** The [switch] on the key. *)
Definition setField (out : SubscriptionUserinfo) (seen : gset string) (key : string) (n : Z)
    : SubscriptionUserinfo * gset string :=
  let '(MkUserinfo u d t e) := out in
  if String.eqb key "upload" then (MkUserinfo n d t e, {["upload"]} ∪ seen)
  else if String.eqb key "download" then (MkUserinfo u n t e, {["download"]} ∪ seen)
  else if String.eqb key "total" then (MkUserinfo u d n e, {["total"]} ∪ seen)
  else if String.eqb key "expire" then (MkUserinfo u d t n, {["expire"]} ∪ seen)
  else (out, seen).

Fixpoint parseFields (raws : list string) (out : SubscriptionUserinfo) (seen : gset string)
    : userinfoError + SubscriptionUserinfo * gset string :=
  match raws with
  | [] => inr (out, seen)
  | raw :: rest =>
      match parseField raw with
      | None => parseFields rest out seen
      | Some (inl e) => inl e
      | Some (inr (key, n)) => let '(out', seen') := setField out seen key n in parseFields rest out' seen'
      end
  end.

Definition wantedFields : list string := ["upload"; "download"; "total"; "expire"].

Definition ParseSubscriptionUserinfo (s : string) : userinfoError + SubscriptionUserinfo * list string :=
  let s := TrimSpace s in
  if String.eqb s "" then inl EmptyHeader
  else match parseFields (Split s semicolon) (MkUserinfo 0 0 0 0) ∅ with
       | inl e => inl e
       | inr (out, seen) =>
           let missing := filter (fun want => want ∉ seen) wantedFields in
           if length missing =? 4 then inl (NoRecognizedFields s) else inr (out, missing)
       end.
End parse.

Definition ParseProfileUpdateInterval (s : string) : option Z :=
  let s := TrimSpace s in
  if String.eqb s "" then None
  else match ParseInt s with
       | Some n => if (n <? 0)%Z then None else Some n
       | None => None
       end.

(** * Lemmas *)

(** The wire format the server itself emits. *)
Definition userinfoHeader (ui : SubscriptionUserinfo) : string :=
  "upload=" +:+ Itoa (Upload ui) +:+ "; download=" +:+ Itoa (Download ui)
  +:+ "; total=" +:+ Itoa (Total ui) +:+ "; expire=" +:+ Itoa (Expire ui).

Definition ui_in_range (ui : SubscriptionUserinfo) : Prop :=
  in_int64 (Upload ui) /\ in_int64 (Download ui) /\ in_int64 (Total ui) /\ in_int64 (Expire ui).

Lemma Itoa_graphic (z : Z) : all_bytes graphic (Itoa z) = true.
Proof. eapply all_bytes_impl; [apply numeral_graphic|apply Itoa_bytes]. Qed.

Lemma Itoa_free (b : ascii) (z : Z) : numeral_byte b = false -> byte_free b (Itoa z) = true.
Proof. intros Hb. eapply all_bytes_free; [exact Hb|apply Itoa_bytes]. Qed.

Lemma Itoa_nonempty (z : Z) : in_int64 z -> Itoa z <> "".
Proof. intros Hz E. pose proof (ParseInt_Itoa z Hz) as H. by rewrite E in H. Qed.

Section parse_lemmas.
Context {U : UnicodeTables}.

Definition lower_word (s : string) : bool := all_bytes (fun c => in_rng 97 (byte_val c) 122) s.

(** A field [key=N] with optional leading blank. *)
Lemma parseField_ok (key : string) (n : Z) :
  key ∈ wantedFields -> in_int64 n ->
  parseField (key +:+ "=" +:+ Itoa n) = Some (inr (key, n))
  /\ parseField (" " +:+ key +:+ "=" +:+ Itoa n) = Some (inr (key, n)).
Proof.
  intros Hk Hn.
  assert (TrimSpace (key +:+ "=" +:+ Itoa n) = key +:+ "=" +:+ Itoa n) as Ht.
  { apply TrimSpace_graphic. rewrite !all_bytes_app, Itoa_graphic. unfold wantedFields in Hk.
    repeat (apply elem_of_cons in Hk as [->|Hk]; [done|]). by apply elem_of_nil in Hk. }
  assert (forall raw, TrimSpace raw = key +:+ "=" +:+ Itoa n -> parseField raw = Some (inr (key, n))) as H.
  { intros raw Hr. unfold parseField. rewrite Hr.
    assert (byte_free "=" key = true /\ key <> "" /\ TrimSpace key = key /\ ToLower key = key) as (Hf & Hne & Htk & Hl).
    { unfold wantedFields in Hk. repeat (apply elem_of_cons in Hk as [->|Hk]; [by vm_compute|]).
      by apply elem_of_nil in Hk. }
    destruct (String.eqb_spec (key +:+ "=" +:+ Itoa n) "") as [E|_]; [by destruct key|].
    change ("=" +:+ Itoa n) with (String "=" (Itoa n)).
    rewrite (IndexByte_app key (Itoa n) "="%char) by done.
    destruct (String.length key) as [|k] eqn:Ek; [by destruct key|]. rewrite <- Ek, str_take_app, Htk, Hl.
    replace (str_drop (S (String.length key)) (key +:+ String "=" (Itoa n))) with (Itoa n).
    - by rewrite TrimSpace_graphic, ParseInt_Itoa by (done || apply Itoa_graphic).
    - change (String "=" (Itoa n)) with ("=" +:+ Itoa n). rewrite <- str_app_assoc.
      assert (S (String.length key) = String.length (key +:+ "=")) as -> by (rewrite str_length_app; simpl; lia).
      by rewrite str_drop_app. }
  split; apply H; [done|]. exact Ht.
Qed.

Lemma userinfoHeader_parses (ui : SubscriptionUserinfo) :
  ui_in_range ui -> ParseSubscriptionUserinfo (userinfoHeader ui) = inr (ui, []).
Proof.
  intros (Hu & Hd & Ht & He). unfold ParseSubscriptionUserinfo.
  assert (userinfoHeader ui = Join ["upload" +:+ "=" +:+ Itoa (Upload ui); " " +:+ "download" +:+ "=" +:+ Itoa (Download ui);
    " " +:+ "total" +:+ "=" +:+ Itoa (Total ui); " " +:+ "expire" +:+ "=" +:+ Itoa (Expire ui)] (String semicolon "")) as Ej.
  { unfold userinfoHeader. cbn [Join]. by rewrite !str_app_assoc. }
  assert (TrimSpace (userinfoHeader ui) = userinfoHeader ui) as ->.
  { unfold userinfoHeader. rewrite <- !str_app_assoc.
    match goal with |- TrimSpace (?p +:+ Itoa ?e) = _ => change p with (String "u" (str_drop 1 p)) end.
    apply TrimSpace_word; [done|by apply Itoa_nonempty|apply Itoa_graphic]. }
  destruct (String.eqb_spec (userinfoHeader ui) "") as [E|_]; [done|].
  rewrite Ej, Split_Join; [|done|].
  - destruct (parseField_ok "upload" (Upload ui)) as [F1 _]; [set_solver|done|].
    destruct (parseField_ok "download" (Download ui)) as [_ F2]; [set_solver|done|].
    destruct (parseField_ok "total" (Total ui)) as [_ F3]; [set_solver|done|].
    destruct (parseField_ok "expire" (Expire ui)) as [_ F4]; [set_solver|done|].
    cbn [parseFields]. rewrite F1. cbn [setField]. rewrite F2. cbn [setField]. rewrite F3. cbn [setField]. rewrite F4.
    destruct ui. by vm_compute.
  - repeat (apply Forall_cons; split; [by rewrite !byte_free_app, Itoa_free by done|]). constructor.
Qed.

(** The header the server emits parses back, with no field missing, to the
    values it was rendered from, for every 64-bit value of the four fields. *)
Theorem ParseSubscriptionUserinfo_roundtrip (ui : SubscriptionUserinfo) :
  ui_in_range ui -> ParseSubscriptionUserinfo (userinfoHeader ui) = inr (ui, []).
Proof. apply userinfoHeader_parses. Qed.
End parse_lemmas.

Lemma ParseSubscriptionUserinfo_roundtrip_witness :
  ParseSubscriptionUserinfo "upload=23398198706; download=203036431271; total=654791671808; expire=-1"
  = inr (MkUserinfo 23398198706 203036431271 654791671808 (-1), []).
Proof.
  apply (ParseSubscriptionUserinfo_roundtrip (MkUserinfo 23398198706 203036431271 654791671808 (-1))).
  unfold ui_in_range, in_int64. simpl. lia.
Defined.

(** Every accepted value is a 64-bit integer. *)
Lemma setField_range (out : SubscriptionUserinfo) (seen : gset string) (key : string) (n : Z) :
  ui_in_range out -> in_int64 n -> ui_in_range (setField out seen key n).1.
Proof.
  destruct out as [u d t e]. intros (Hu & Hd & Ht & He) Hn. unfold setField, ui_in_range.
  repeat case_if; simpl; auto.
Qed.

Lemma parseFields_range {U : UnicodeTables} (raws : list string) (out out' : SubscriptionUserinfo) (seen seen' : gset string) :
  ui_in_range out -> parseFields raws out seen = inr (out', seen') -> ui_in_range out'.
Proof.
  revert out seen. induction raws as [|raw raws IH]; intros out seen Ho H; simpl in H; [by simplify_eq|].
  destruct (parseField raw) as [[e|[key n]]|] eqn:Ef; [done| |by eapply IH].
  pose proof (setField_range out seen key n Ho) as Hs. destruct (setField out seen key n) as [o s].
  eapply IH; [|exact H]. apply Hs. unfold parseField in Ef. repeat (case_match; simplify_eq).
  all: by eapply ParseInt_range.
Qed.

Lemma ParseSubscriptionUserinfo_range {U : UnicodeTables} (s : string) (ui : SubscriptionUserinfo) (missing : list string) :
  ParseSubscriptionUserinfo s = inr (ui, missing) -> ui_in_range ui.
Proof.
  unfold ParseSubscriptionUserinfo. intros H. case_if_in H; [done|].
  destruct (parseFields _ _ _) as [e|[out seen]] eqn:Ef; [done|]. case_if_in H; [done|]. simplify_eq.
  eapply parseFields_range; [|exact Ef]. unfold ui_in_range, in_int64. simpl. lia.
Qed.
