(* ===== verification/AtomicFile.v ===== *)
(** * Replacing a file by renaming a temporary one

    The system calls of [FileSnapshotter.Save] (internal/dailyspend) and of
    [Cache.persist] (internal/fetcher/cache.go), any number of callers
    interleaved call by call.  Both write the new content to a temporary file
    and rename it over the target; [Save] names that file after the target and
    syncs it, [persist] lets [os.CreateTemp] pick a name not in use.  A crash
    ends all callers; a power loss also scrambles what was not synced. *)
From stdpp Require Import base gmap list strings.
From Stdlib Require Import Lia.
From S2P Require Import Prelude GoStrings.

(** ** The disk *)
Record inode := MkInode { inContent : string; inSynced : bool }.
Record disk := MkDisk { dkNames : gmap string nat; dkInodes : gmap nat inode }.

Definition readFile (d : disk) (p : string) : option string := i ← dkNames d !! p; inContent <$> dkInodes d !! i.

Fixpoint zeros (n : nat) : string := match n with 0 => "" | S n => String (Ascii.ascii_of_nat 0) (zeros n) end.

(** [write] at an offset; a gap before it reads as zeros. *)
Definition writeAt (content : string) (off : nat) (data : string) : string :=
  str_take off (content +:+ zeros (off - String.length content)) +:+ data +:+ str_drop (off + String.length data) content.

Definition setInode (d : disk) (i : nat) (n : inode) : disk := MkDisk (dkNames d) (<[i := n]> (dkInodes d)).

(** ** Writers *)
Inductive mode := SharedTmp | FreshTmp.

Inductive ioError := ErrOpen | ErrWrite | ErrSync | ErrClose | ErrRename.

Inductive wpc :=
| WOpen
| WWrite (tmp : string) (i off : nat)       (** [off] bytes are written *)
| WSync (tmp : string) (i : nat)
| WClose (tmp : string) (i : nat)
| WRename (tmp : string) (i : nat)
| WRemove (tmp : string) (i : nat) (e : ioError)
| WDone (res : option ioError).

#[export] Instance ioError_eq_dec : EqDecision ioError.
Proof. solve_decision. Defined.
#[export] Instance wpc_eq_dec : EqDecision wpc.
Proof. solve_decision. Defined.

Record writer := MkWriter { wrTarget : string; wrData : string; wrPC : wpc }.

(** What a call is given: whether it fails, the name [os.CreateTemp] picks, the
    number of a new inode, the size of a write. *)
Record ioArg := MkArg { aFault : bool; aName : string; aInode : nat; aSize : nat }.

Definition tmpSuffix : string := ".tmp".
Definition is_tmp (p : string) : bool := HasSuffix p tmpSuffix.

Section machine.
Context (m : mode).

(** The temporary file, open and empty: its name, its inode and the disk;
    [None] when the argument does not fit the disk. *)
Definition openTmp (d : disk) (target : string) (a : ioArg) : option (string * nat * disk) :=
  let create tmp :=
    match dkInodes d !! aInode a with
    | Some _ => None
    | None => Some (tmp, aInode a, MkDisk (<[tmp := aInode a]> (dkNames d)) (<[aInode a := MkInode "" false]> (dkInodes d)))
    end in
  match m with
  | SharedTmp =>
      let tmp := target +:+ tmpSuffix in
      match dkNames d !! tmp with
      | Some i => Some (tmp, i, setInode d i (MkInode "" false))
      | None => create tmp
      end
  | FreshTmp =>
      if negb (is_tmp (aName a)) then None
      else match dkNames d !! aName a with Some _ => None | None => create (aName a) end
  end.

(** One call of a writer. *)
Definition writerStep (d : disk) (w : writer) (a : ioArg) : option (disk * writer) :=
  let at_ d pc := Some (d, MkWriter (wrTarget w) (wrData w) pc) in
  match wrPC w with
  | WOpen =>
      if aFault a then at_ d (WDone (Some ErrOpen))
      else '(tmp, i, d) ← openTmp d (wrTarget w) a; at_ d (WWrite tmp i 0)
  | WWrite tmp i off =>
      if aFault a then at_ d (WRemove tmp i ErrWrite)
      else if String.length (wrData w) <=? off
      then at_ d (match m with SharedTmp => WSync tmp i | FreshTmp => WClose tmp i end)
      else if (aSize a =? 0) || (String.length (wrData w) <? off + aSize a) then None
      else n ← dkInodes d !! i;
           at_ (setInode d i (MkInode (writeAt (inContent n) off (str_take (aSize a) (str_drop off (wrData w)))) false))
             (WWrite tmp i (off + aSize a))
  | WSync tmp i =>
      if aFault a then at_ d (WRemove tmp i ErrSync)
      else n ← dkInodes d !! i; at_ (setInode d i (MkInode (inContent n) true)) (WClose tmp i)
  | WClose tmp i => at_ d (if aFault a then WRemove tmp i ErrClose else WRename tmp i)
  | WRename tmp i =>
      if aFault a then at_ d (WRemove tmp i ErrRename)
      else match dkNames d !! tmp with
           | None => at_ d (WRemove tmp i ErrRename)
           | Some j => at_ (MkDisk (<[wrTarget w := j]> (delete tmp (dkNames d))) (dkInodes d)) (WDone None)
           end
  | WRemove tmp i e => at_ (MkDisk (delete tmp (dkNames d)) (dkInodes d)) (WDone (Some e))
  | WDone _ => None
  end.

(** ** The system; [fsCommits] records the renames, latest first *)
Record fsys := MkFsys { fsDisk : disk; fsWriters : gmap nat writer; fsCommits : list (string * string) }.

Inductive fevent :=
| FStart (t : nat) (target data : string)
| FStep (t : nat) (a : ioArg)
| FCrash
| FPowerLoss (garbage : nat -> string).

Definition scramble (garbage : nat -> string) (d : disk) : disk :=
  MkDisk (dkNames d) (map_imap (fun i n => Some (if inSynced n then n else MkInode (garbage i) true)) (dkInodes d)).

Definition fstep (s : fsys) (e : fevent) : option fsys :=
  match e with
  | FStart t target data =>
      match fsWriters s !! t with
      | Some _ => None
      | None => Some (MkFsys (fsDisk s) (<[t := MkWriter target data WOpen]> (fsWriters s)) (fsCommits s))
      end
  | FStep t a =>
      w ← fsWriters s !! t;
      '(d, w') ← writerStep (fsDisk s) w a;
      Some (MkFsys d (<[t := w']> (fsWriters s))
              (match wrPC w' with WDone None => (wrTarget w, wrData w) :: fsCommits s | _ => fsCommits s end))
  | FCrash => Some (MkFsys (fsDisk s) ∅ (fsCommits s))
  | FPowerLoss garbage => Some (MkFsys (scramble garbage (fsDisk s)) ∅ (fsCommits s))
  end.

Fixpoint fruns (s : fsys) (es : list fevent) : option fsys :=
  match es with [] => Some s | e :: es' => s' ← fstep s e; fruns s' es' end.

Definition boot (d : disk) : fsys := MkFsys d ∅ [].

(** The temporary file a writer holds. *)
Definition held (w : writer) : option (string * nat) :=
  match wrPC w with
  | WWrite tmp i _ | WSync tmp i | WClose tmp i | WRename tmp i | WRemove tmp i _ => Some (tmp, i)
  | WOpen | WDone _ => None
  end.

(** What every target holds by the abstract account: the data of the latest
    rename over it. *)
Definition committed (d0 : disk) (commits : list (string * string)) (p : string) : option string :=
  match list_find (fun c => c.1 = p) commits with
  | Some (_, c) => Some c.2
  | None => readFile d0 p
  end.
End machine.

(** * Lemmas *)

Lemma zeros_0 : zeros 0 = "".
Proof. done. Qed.

(** Writing where the content ends appends. *)
Lemma writeAt_end (content data : string) : writeAt content (String.length content) data = content +:+ data.
Proof.
  unfold writeAt. rewrite Nat.sub_diag, zeros_0, str_app_nil_r, str_take_all by lia. by rewrite str_drop_all, str_app_nil_r by lia.
Qed.

(** What a writer has written, while its content is the business of its file. *)
Definition written (w : writer) : option string :=
  match wrPC w with
  | WWrite _ _ off => Some (str_take off (wrData w))
  | WSync _ _ | WClose _ _ | WRename _ _ => Some (wrData w)
  | WOpen | WRemove _ _ _ | WDone _ => None
  end.
Definition past_sync (w : writer) : bool := match wrPC w with WClose _ _ | WRename _ _ => true | _ => false end.

(** No hard links, and every name has its inode. *)
Record disk_ok (d : disk) : Prop := {
  dk_inj : forall p q i, dkNames d !! p = Some i -> dkNames d !! q = Some i -> p = q;
  dk_inode : forall p i, dkNames d !! p = Some i -> is_Some (dkInodes d !! i)
}.

Section lemmas.
Context (m : mode) (d0 : disk).

(** A writer and the file it holds. *)
Record holds (d : disk) (w : writer) (tmp : string) (i : nat) : Prop := {
  hd_name : dkNames d !! tmp = Some i;
  hd_tmp : is_tmp tmp = true;
  hd_inode : forall c, written w = Some c -> exists sy, dkInodes d !! i = Some (MkInode c sy) /\ (m = SharedTmp -> past_sync w = true -> sy = true)
}.

Record fs_ok (s : fsys) : Prop := {
  ok_disk : disk_ok (fsDisk s);
  ok_target : forall t w, fsWriters s !! t = Some w -> is_tmp (wrTarget w) = false;
  ok_off : forall t w tmp i off, fsWriters s !! t = Some w -> wrPC w = WWrite tmp i off -> off <= String.length (wrData w);
  ok_held : forall t w tmp i, fsWriters s !! t = Some w -> held w = Some (tmp, i) -> holds (fsDisk s) w tmp i;
  ok_excl : forall t t' w w' tmp i i', fsWriters s !! t = Some w -> fsWriters s !! t' = Some w' ->
    held w = Some (tmp, i) -> held w' = Some (tmp, i') -> t = t';
  ok_content : forall p, is_tmp p = false -> readFile (fsDisk s) p = committed d0 (fsCommits s) p;
  ok_synced : m = SharedTmp -> forall p i n, is_tmp p = false -> dkNames (fsDisk s) !! p = Some i ->
    dkInodes (fsDisk s) !! i = Some n -> inSynced n = true
}.

(** Starting targets that are not temporary names; opening a shared temporary
    file nobody holds; losing power only where [Sync] is called. *)
Definition admissible (s : fsys) (e : fevent) : Prop :=
  match e with
  | FStart _ target _ => is_tmp target = false
  | FStep t _ => forall w t' w' i, m = SharedTmp -> fsWriters s !! t = Some w -> wrPC w = WOpen ->
      fsWriters s !! t' = Some w' -> held w' <> Some (wrTarget w +:+ tmpSuffix, i)
  | FCrash => True
  | FPowerLoss _ => m = SharedTmp
  end.

Inductive freach : fsys -> Prop :=
| freach_boot : freach (boot d0)
| freach_step s e s' : freach s -> admissible s e -> fstep m s e = Some s' -> freach s'.

(** The same, computed. *)
Definition admissibleb (s : fsys) (e : fevent) : bool :=
  match e with
  | FStart _ target _ => negb (is_tmp target)
  | FStep t _ =>
      match m, fsWriters s !! t with
      | SharedTmp, Some (MkWriter target _ WOpen) =>
          forallb (fun kv => match held kv.2 with Some (tmp, _) => negb (String.eqb tmp (target +:+ tmpSuffix)) | None => true end)
            (map_to_list (fsWriters s))
      | _, _ => true
      end
  | FCrash => true
  | FPowerLoss _ => match m with SharedTmp => true | FreshTmp => false end
  end.

Lemma admissibleb_sound (s : fsys) (e : fevent) : admissibleb s e = true -> admissible s e.
Proof.
  destruct e as [t target data|t a| |g]; cbn; [by destruct (is_tmp target)| |done|by destruct m].
  intros H w t' w' i Em Hw Hpc Hw' Hh. rewrite Em, Hw in H. destruct w as [target data pc]. cbn in Hpc, Hh. subst pc.
  rewrite forallb_forall in H. specialize (H (t', w')). rewrite <- list_elem_of_In, elem_of_map_to_list in H. specialize (H Hw').
  cbn in H. rewrite Hh, String.eqb_refl in H. done.
Qed.

(** A run whose every step is admissible. *)
Fixpoint orderly_runs (s : fsys) (es : list fevent) : option fsys :=
  match es with
  | [] => Some s
  | e :: es' => if admissibleb s e then s' ← fstep m s e; orderly_runs s' es' else None
  end.

Lemma orderly_runs_reach (s s' : fsys) (es : list fevent) : freach s -> orderly_runs s es = Some s' -> freach s'.
Proof.
  revert s. induction es as [|e es IH]; intros s Hs; cbn; [by intros [= <-]|].
  destruct (admissibleb s e) eqn:Ha; [|done]. destruct (fstep m s e) as [s1|] eqn:E; [|done]. cbn. apply IH.
  eapply freach_step; [exact Hs|by apply admissibleb_sound|exact E].
Qed.

(** An inode of a target is held by no writer. *)
Lemma target_not_held (s : fsys) (t : nat) (w : writer) (tmp p : string) (i j : nat) :
  fs_ok s -> fsWriters s !! t = Some w -> held w = Some (tmp, i) -> is_tmp p = false -> dkNames (fsDisk s) !! p = Some j -> j <> i.
Proof.
  intros Hs Hw Hh Hp Hj ->. destruct (ok_held _ Hs _ _ _ _ Hw Hh) as [Hn Ht _].
  rewrite (dk_inj _ (ok_disk _ Hs) _ _ _ Hj Hn) in Hp. congruence.
Qed.

Lemma held_inode_inj (s : fsys) (t t' : nat) (w w' : writer) (tmp tmp' : string) (i : nat) :
  fs_ok s -> fsWriters s !! t = Some w -> fsWriters s !! t' = Some w' ->
  held w = Some (tmp, i) -> held w' = Some (tmp', i) -> t = t'.
Proof.
  intros Hs Hw Hw' Hh Hh'. destruct (ok_held _ Hs _ _ _ _ Hw Hh) as [Hn _ _]. destruct (ok_held _ Hs _ _ _ _ Hw' Hh') as [Hn' _ _].
  rewrite (dk_inj _ (ok_disk _ Hs) _ _ _ Hn' Hn) in Hh'. by eapply ok_excl.
Qed.

Lemma readFile_setInode (d : disk) (i : nat) (n : inode) (p : string) :
  dkNames d !! p <> Some i -> readFile (setInode d i n) p = readFile d p.
Proof.
  intros Hp. unfold readFile, setInode. cbn. destruct (dkNames d !! p) as [j|]; [|done]. cbn.
  rewrite lookup_insert_ne by congruence. done.
Qed.

(** A writer that keeps its file may change its inode. *)
Lemma fs_ok_own (s : fsys) (t : nat) (w w' : writer) (tmp : string) (i : nat) (n : inode) :
  fs_ok s -> fsWriters s !! t = Some w -> held w = Some (tmp, i) -> held w' = Some (tmp, i) -> wrTarget w' = wrTarget w ->
  (forall off, wrPC w' = WWrite tmp i off -> off <= String.length (wrData w')) ->
  (forall c, written w' = Some c -> inContent n = c /\ (m = SharedTmp -> past_sync w' = true -> inSynced n = true)) ->
  fs_ok (MkFsys (setInode (fsDisk s) i n) (<[t := w']> (fsWriters s)) (fsCommits s)).
Proof.
  intros Hs Hw Hh Hh' Htg Hoff Hn. destruct (ok_held _ Hs _ _ _ _ Hw Hh) as [H1 H2 _].
  split; cbn [fsDisk fsWriters fsCommits].
  - split; cbn; [apply (ok_disk _ Hs)|]. intros p j Hp. rewrite lookup_insert. case_decide; [by eexists|].
    by apply (dk_inode _ (ok_disk _ Hs) p).
  - intros t1 w1. rewrite lookup_insert. case_decide; [intros [= <-]; rewrite Htg; by apply (ok_target _ Hs t)|by apply (ok_target _ Hs)].
  - intros t1 w1 tmp1 i1 off. rewrite lookup_insert. case_decide; [|apply (ok_off _ Hs)]. intros [= <-] Hpc.
    assert (held w' = Some (tmp1, i1)) as E by (unfold held; by rewrite Hpc). rewrite Hh' in E. injection E as <- <-. by apply Hoff.
  - intros t1 w1 tmp1 i1. rewrite lookup_insert. case_decide as Ht.
    + intros [= <-] E. rewrite Hh' in E. injection E as <- <-. split; [done|done|]. intros c Hc. cbn. rewrite lookup_insert_eq.
      destruct (Hn c Hc) as [<- Hsy]. exists (inSynced n). by destruct n.
    + intros Hw1 E. destruct (ok_held _ Hs _ _ _ _ Hw1 E) as [G1 G2 G3]. split; [done|done|]. intros c Hc. cbn.
      rewrite lookup_insert_ne; [by apply G3|]. intros ->. apply Ht. by eapply held_inode_inj.
  - assert (forall t1 w1 tmp1 i1, <[t := w']> (fsWriters s) !! t1 = Some w1 -> held w1 = Some (tmp1, i1) ->
      exists w1', fsWriters s !! t1 = Some w1' /\ held w1' = Some (tmp1, i1)) as Hback.
    { intros t1 w1 tmp1 i1. rewrite lookup_insert. case_decide as Ht; [|by eauto]. intros [= <-] E. exists w. rewrite <- Ht.
      split; [done|congruence]. }
    intros t1 t2 w1 w2 tmp1 i1 i2 Hw1 Hw2 Hh1 Hh2. destruct (Hback _ _ _ _ Hw1 Hh1) as (w1' & ? & ?).
    destruct (Hback _ _ _ _ Hw2 Hh2) as (w2' & ? & ?). by eapply (ok_excl _ Hs t1 t2).
  - intros p Hp. rewrite readFile_setInode; [by apply (ok_content _ Hs)|]. intros E. by apply (target_not_held _ _ _ _ _ _ _ Hs Hw Hh Hp E).
  - intros Hm p j n' Hp Hj. cbn in *. rewrite lookup_insert_ne; [by apply (ok_synced _ Hs Hm p)|]. intros <-.
    by apply (target_not_held _ _ _ _ _ _ _ Hs Hw Hh Hp Hj).
Qed.

(** Opening: the file is new, or was left over and is held by nobody. *)
Lemma openTmp_spec (d : disk) (target tmp : string) (a : ioArg) (i : nat) (d' : disk) :
  openTmp m d target a = Some (tmp, i, d') -> disk_ok d -> is_tmp target = false ->
  is_tmp tmp = true /\ (m = SharedTmp -> tmp = target +:+ tmpSuffix) /\ (m = FreshTmp -> dkNames d !! tmp = None)
  /\ dkNames d' = <[tmp := i]> (dkNames d) /\ dkInodes d' = <[i := MkInode "" false]> (dkInodes d)
  /\ (forall p, dkNames d !! p = Some i -> p = tmp).
Proof.
  intros Ho Hd Ht. unfold openTmp in Ho.
  assert (forall tmp', is_tmp tmp' = true -> dkNames d !! tmp' = None ->
    match dkInodes d !! aInode a with
    | Some _ => None
    | None => Some (tmp', aInode a, MkDisk (<[tmp':=aInode a]> (dkNames d)) (<[aInode a:=MkInode "" false]> (dkInodes d)))
    end = Some (tmp, i, d') ->
    tmp = tmp' /\ dkNames d' = <[tmp := i]> (dkNames d) /\ dkInodes d' = <[i := MkInode "" false]> (dkInodes d)
    /\ (forall p, dkNames d !! p = Some i -> p = tmp)) as Hnew.
  { intros tmp' _ _ H. destruct (dkInodes d !! aInode a) eqn:Hi; [done|]. injection H as <- <- <-. split_and!; [done..|].
    intros p Hp. apply (dk_inode _ Hd) in Hp as [? Hp]. congruence. }
  destruct m.
  - assert (is_tmp (target +:+ tmpSuffix) = true) as Hs by apply HasSuffix_app.
    destruct (dkNames d !! (target +:+ tmpSuffix)) as [j|] eqn:Hj.
    + injection Ho as <- <- <-. split_and!; [done|done|done| |done|].
      * cbn. by rewrite insert_id.
      * intros p Hp. by apply (dk_inj _ Hd _ _ _ Hp Hj).
    + destruct (Hnew _ Hs Hj Ho) as (-> & ? & ? & ?). done.
  - destruct (is_tmp (aName a)) eqn:Hs; [|done]. cbn [negb] in Ho. destruct (dkNames d !! aName a) eqn:Hj; [done|].
    destruct (Hnew _ Hs Hj Ho) as (-> & ? & ? & ?). done.
Qed.

(** A writer that holds nothing, in place of another one or none. *)
Lemma fs_ok_writer (s : fsys) (t : nat) (w' : writer) :
  fs_ok s -> held w' = None -> is_tmp (wrTarget w') = false ->
  fs_ok (MkFsys (fsDisk s) (<[t := w']> (fsWriters s)) (fsCommits s)).
Proof.
  intros Hs Hh Ht.
  assert (forall t1 w1 x, <[t := w']> (fsWriters s) !! t1 = Some w1 -> held w1 = Some x -> fsWriters s !! t1 = Some w1) as Hback.
  { intros t1 w1 x. rewrite lookup_insert. case_decide; [|done]. intros [= <-]. congruence. }
  split; cbn [fsDisk fsWriters fsCommits]; try apply Hs.
  - intros t1 w1. rewrite lookup_insert. case_decide; [by intros [= <-]|apply (ok_target _ Hs)].
  - intros t1 w1 tmp i off Hw Hpc. apply (ok_off _ Hs t1 w1 tmp i off); [|done]. eapply Hback; [exact Hw|]. unfold held. by rewrite Hpc.
  - intros t1 w1 tmp i Hw Hh1. apply (ok_held _ Hs t1); [|done]. by eapply Hback.
  - intros t1 t2 w1 w2 tmp i1 i2 Hw1 Hw2 Hh1 Hh2. eapply (ok_excl _ Hs t1 t2 w1 w2); eauto.
Qed.

(** The names change at [tmp], which only [w] may hold, and at targets: the
    other writers still hold their files. *)
Lemma holds_names (s : fsys) (t t1 : nat) (w w1 : writer) (tmp tmp1 : string) (i i1 : nat) (names : gmap string nat) :
  fs_ok s -> fsWriters s !! t = Some w -> held w = Some (tmp, i) -> t1 <> t -> fsWriters s !! t1 = Some w1 -> held w1 = Some (tmp1, i1) ->
  (forall p, p <> tmp -> is_tmp p = true -> names !! p = dkNames (fsDisk s) !! p) ->
  holds (MkDisk names (dkInodes (fsDisk s))) w1 tmp1 i1.
Proof.
  intros Hs Hw Hh Hne Hw1 Hh1 Hn. destruct (ok_held _ Hs _ _ _ _ Hw1 Hh1) as [G1 G2 G3]. split; [|done|done].
  cbn. rewrite Hn; [done| |done]. intros ->. apply Hne. by eapply (ok_excl _ Hs t1 t).
Qed.

(** A writer lets go of its file, which is removed or renamed. *)
Lemma fs_ok_release (s : fsys) (t : nat) (w w' : writer) (tmp : string) (i : nat) (names : gmap string nat)
    (commits : list (string * string)) :
  fs_ok s -> fsWriters s !! t = Some w -> held w = Some (tmp, i) -> held w' = None -> wrTarget w' = wrTarget w ->
  disk_ok (MkDisk names (dkInodes (fsDisk s))) ->
  (forall p, p <> tmp -> is_tmp p = true -> names !! p = dkNames (fsDisk s) !! p) ->
  (forall p, is_tmp p = false -> readFile (MkDisk names (dkInodes (fsDisk s))) p = committed d0 commits p) ->
  (m = SharedTmp -> forall p j n, is_tmp p = false -> names !! p = Some j -> dkInodes (fsDisk s) !! j = Some n -> inSynced n = true) ->
  fs_ok (MkFsys (MkDisk names (dkInodes (fsDisk s))) (<[t := w']> (fsWriters s)) commits).
Proof.
  intros Hs Hw Hh Hh' Htg Hd Hn Hc Hy.
  assert (forall t1 w1 x, <[t := w']> (fsWriters s) !! t1 = Some w1 -> held w1 = Some x -> t1 <> t /\ fsWriters s !! t1 = Some w1) as Hback.
  { intros t1 w1 x. rewrite lookup_insert. case_decide as Ht; [intros [= <-]; congruence|]. by intros. }
  split; cbn [fsDisk fsWriters fsCommits]; [done| | | | |done|done].
  - intros t1 w1. rewrite lookup_insert. case_decide; [intros [= <-]; rewrite Htg; by apply (ok_target _ Hs t)|apply (ok_target _ Hs)].
  - intros t1 w1 tmp1 i1 off Hw1 Hpc. apply (ok_off _ Hs t1 w1 tmp1 i1 off); [|done].
    apply (Hback t1 w1 (tmp1, i1) Hw1). unfold held. by rewrite Hpc.
  - intros t1 w1 tmp1 i1 Hw1 Hh1. destruct (Hback _ _ _ Hw1 Hh1). by eapply (holds_names s t t1 w w1).
  - intros t1 t2 w1 w2 tmp1 i1 i2 Hw1 Hw2 Hh1 Hh2. eapply (ok_excl _ Hs t1 t2 w1 w2); [| |done|done]; by eapply Hback.
Qed.

Lemma disk_ok_delete (d : disk) (p : string) : disk_ok d -> disk_ok (MkDisk (delete p (dkNames d)) (dkInodes d)).
Proof.
  intros [H1 H2]. split; cbn.
  - intros p1 q i [_ Hp]%lookup_delete_Some [_ Hq]%lookup_delete_Some. by eapply H1.
  - intros p1 i [_ Hp]%lookup_delete_Some. by eapply H2.
Qed.

Lemma disk_ok_rename (d : disk) (tmp p : string) (i : nat) :
  disk_ok d -> dkNames d !! tmp = Some i -> disk_ok (MkDisk (<[p := i]> (delete tmp (dkNames d))) (dkInodes d)).
Proof.
  intros [H1 H2] Ht. assert (forall q, delete tmp (dkNames d) !! q <> Some i) as Hno.
  { intros q [Hq Hi]%lookup_delete_Some. apply Hq. by eapply H1. }
  split; cbn.
  - intros p1 q j. rewrite !lookup_insert. case_decide; case_decide; subst; [done|by intros [= <-] ?%Hno|by intros Hx [= <-]; apply Hno in Hx|].
    intros [_ Hp]%lookup_delete_Some [_ Hq]%lookup_delete_Some. by eapply H1.
  - intros p1 j. rewrite lookup_insert. case_decide; [intros [= <-]; by eapply H2|]. intros [_ Hp]%lookup_delete_Some. by eapply H2.
Qed.

Lemma fs_ok_open (s : fsys) (t : nat) (w : writer) (a : ioArg) (tmp : string) (i : nat) (d' : disk) :
  fs_ok s -> fsWriters s !! t = Some w -> wrPC w = WOpen -> openTmp m (fsDisk s) (wrTarget w) a = Some (tmp, i, d') ->
  (forall t' w' i', fsWriters s !! t' = Some w' -> held w' <> Some (tmp, i')) ->
  fs_ok (MkFsys d' (<[t := MkWriter (wrTarget w) (wrData w) (WWrite tmp i 0)]> (fsWriters s)) (fsCommits s)).
Proof.
  intros Hs Hw Hpc Ho Hfree. pose proof (ok_disk _ Hs) as Hd. pose proof (ok_target _ Hs _ _ Hw) as Htg.
  destruct (openTmp_spec _ _ _ _ _ _ Ho Hd Htg) as (Htmp & _ & _ & HN & HI & Hi). destruct d' as [names inodes]. cbn in HN, HI. subst.
  assert (forall p j, dkNames (fsDisk s) !! p = Some j -> p <> tmp -> j <> i) as Hne by (intros p j Hp Hn ->; by apply Hn, Hi).
  set (w' := MkWriter (wrTarget w) (wrData w) (WWrite tmp i 0)).
  split; cbn [fsDisk fsWriters fsCommits].
  - split; cbn.
    + intros p q j. rewrite !lookup_insert. case_decide; case_decide; subst; [done| | |by apply (dk_inj _ Hd)].
      * intros [= <-] Hq. symmetry. by apply Hi.
      * intros Hp [= <-]. by apply Hi.
    + intros p j. rewrite !lookup_insert. case_decide; [intros [= <-]; rewrite decide_True by done; by eexists|].
      intros Hp. rewrite decide_False by (by intros <-; apply (Hne p i)). by apply (dk_inode _ Hd p).
  - intros t1 w1. rewrite lookup_insert. case_decide; [by intros [= <-]|apply (ok_target _ Hs)].
  - intros t1 w1 tmp1 i1 off. rewrite lookup_insert. case_decide; [|apply (ok_off _ Hs)]. intros [= <-] [= <- <- <-]. cbn. lia.
  - intros t1 w1 tmp1 i1. rewrite lookup_insert. case_decide as Ht.
    + intros [= <-] [= <- <-]. split; cbn; [by rewrite lookup_insert_eq|done|].
      intros c [= <-]. rewrite lookup_insert_eq. exists false. by destruct (wrData w).
    + intros Hw1 Hh1. destruct (ok_held _ Hs _ _ _ _ Hw1 Hh1) as [G1 G2 G3].
      assert (tmp1 <> tmp) as Hnt by (intros ->; by apply (Hfree _ _ _ Hw1 Hh1)).
      split; cbn; [by rewrite lookup_insert_ne|done|]. intros c Hc. rewrite lookup_insert_ne; [by apply G3|].
      apply not_eq_sym. by apply (Hne tmp1).
  - intros t1 t2 w1 w2 tmp1 i1 i2. rewrite !lookup_insert. intros Hw1 Hw2 Hh1 Hh2.
    case_decide as E1; case_decide as E2; [congruence| | |by eapply (ok_excl _ Hs t1 t2 w1 w2)].
    + injection Hw2 as <-. injection Hh2 as <- <-. by destruct (Hfree _ _ _ Hw1 Hh1).
    + injection Hw1 as <-. injection Hh1 as <- <-. by destruct (Hfree _ _ _ Hw2 Hh2).
  - intros p Hp. rewrite <- (ok_content _ Hs p Hp). unfold readFile. cbn.
    assert (p <> tmp) as Hnt by congruence. rewrite lookup_insert_ne by done.
    destruct (dkNames (fsDisk s) !! p) as [j|] eqn:Hj; [|done]. cbn. rewrite lookup_insert_ne; [done|].
    apply not_eq_sym. by apply (Hne p).
  - intros Hm p j n Hp. cbn. assert (p <> tmp) as Hnt by congruence. rewrite lookup_insert_ne by done. intros Hj.
    rewrite lookup_insert_ne by (apply not_eq_sym; by apply (Hne p)). by apply (ok_synced _ Hs Hm p).
Qed.

(** The disk before anything is written. *)
Record disk_start : Prop := {
  ds_ok : disk_ok d0;
  ds_synced : m = SharedTmp -> forall p i n, is_tmp p = false -> dkNames d0 !! p = Some i -> dkInodes d0 !! i = Some n -> inSynced n = true
}.

Lemma fs_ok_boot : disk_start -> fs_ok (boot d0).
Proof.
  intros [H1 H2]. split; cbn; try done; try (by intros ? ? H; rewrite lookup_empty in H).
Qed.

Lemma committed_cons (commits : list (string * string)) (p data q : string) :
  committed d0 ((p, data) :: commits) q = if decide (p = q) then Some data else committed d0 commits q.
Proof. unfold committed. cbn. case_decide; [done|]. destruct (list_find _ commits) as [[? ?]|]; done. Qed.

(** All callers gone. *)
Lemma fs_ok_crash (s : fsys) : fs_ok s -> fs_ok (MkFsys (fsDisk s) ∅ (fsCommits s)).
Proof.
  intros Hs. split; cbn; try apply Hs; by intros *; rewrite lookup_empty.
Qed.

Lemma fs_ok_power (s : fsys) (garbage : nat -> string) :
  m = SharedTmp -> fs_ok s -> fs_ok (MkFsys (scramble garbage (fsDisk s)) ∅ (fsCommits s)).
Proof.
  intros Hm Hs.
  assert (forall i, dkInodes (scramble garbage (fsDisk s)) !! i
    = (fun n => if inSynced n then n else MkInode (garbage i) true) <$> dkInodes (fsDisk s) !! i) as Hl.
  { intros i. unfold scramble. cbn. rewrite map_lookup_imap. by destruct (dkInodes (fsDisk s) !! i). }
  split; cbn [fsDisk fsWriters fsCommits]; try (by intros *; rewrite lookup_empty).
  - split; [apply (ok_disk _ Hs)|]. intros p i Hp. rewrite Hl. destruct (dk_inode _ (ok_disk _ Hs) p i Hp) as [n ->]. by eexists.
  - intros p Hp. rewrite <- (ok_content _ Hs p Hp). unfold readFile. change (dkNames (scramble garbage (fsDisk s))) with (dkNames (fsDisk s)).
    destruct (dkNames (fsDisk s) !! p) as [i|] eqn:Hi; [|done]. cbn [mbind option_bind]. rewrite Hl.
    destruct (dkInodes (fsDisk s) !! i) as [n|] eqn:Hn; [|done]. cbn. by rewrite (ok_synced _ Hs Hm p i n Hp Hi Hn).
  - intros _ p i n Hp Hi. rewrite Hl. destruct (dkInodes (fsDisk s) !! i) as [n'|] eqn:Hn; [|done]. cbn. intros [= <-].
    by rewrite (ok_synced _ Hs Hm p i n' Hp Hi Hn), (ok_synced _ Hs Hm p i n' Hp Hi Hn).
Qed.

Lemma fs_ok_writerStep (s : fsys) (t : nat) (w w' : writer) (a : ioArg) (d : disk) :
  fs_ok s -> admissible s (FStep t a) -> fsWriters s !! t = Some w -> writerStep m (fsDisk s) w a = Some (d, w') ->
  fs_ok (MkFsys d (<[t := w']> (fsWriters s))
    (match wrPC w' with WDone None => (wrTarget w, wrData w) :: fsCommits s | _ => fsCommits s end)).
Proof.
  intros Hs Ha Hw Hst. pose proof (ok_target _ Hs _ _ Hw) as Htg. unfold writerStep in Hst.
  assert (forall tmp i, held w = Some (tmp, i) -> holds (fsDisk s) w tmp i) as Hh by (intros tmp i; by apply (ok_held _ Hs t)).
  assert (forall tmp i pc, held w = Some (tmp, i) -> held (MkWriter (wrTarget w) (wrData w) pc) = Some (tmp, i) ->
    (forall off, pc <> WWrite tmp i off) ->
    (forall c, written (MkWriter (wrTarget w) (wrData w) pc) = Some c -> written w = Some c
       /\ (m = SharedTmp -> past_sync (MkWriter (wrTarget w) (wrData w) pc) = true -> past_sync w = true)) ->
    fs_ok (MkFsys (fsDisk s) (<[t := MkWriter (wrTarget w) (wrData w) pc]> (fsWriters s)) (fsCommits s))) as Hmove.
  { intros tmp i pc H1 H2 H3 H4. destruct (Hh _ _ H1) as [G1 G2 G3].
    destruct (dk_inode _ (ok_disk _ Hs) _ _ G1) as [n Hn].
    replace (fsDisk s) with (setInode (fsDisk s) i n) by (destruct (fsDisk s); unfold setInode; cbn in *; by rewrite insert_id).
    apply (fs_ok_own s t w _ tmp i n); try done; [intros off Hpc; by destruct (H3 off)|].
    intros c Hc. destruct (H4 c Hc) as [Hc' Hp]. destruct (G3 c Hc') as (sy & E & Hsy). rewrite Hn in E. injection E as ->.
    cbn. split; [done|]. intros Hm Hps. by apply Hsy, Hp. }
  destruct w as [target data pc]. cbn [wrTarget wrData wrPC] in *.
  destruct pc as [|tmp i off|tmp i|tmp i|tmp i|tmp i err|res]; cbn -[orb Nat.leb Nat.eqb Nat.ltb] in Hst.
  - destruct (aFault a); [injection Hst as <- <-; by apply fs_ok_writer|].
    destruct (openTmp m (fsDisk s) target a) as [[[tmp i] d']|] eqn:Ho; [|done]. cbn in Hst. injection Hst as <- <-. cbn.
    eapply (fs_ok_open s t _ a tmp i d' Hs Hw eq_refl Ho). intros t' w1 i' Hw1.
    destruct (openTmp_spec _ _ _ _ _ _ Ho (ok_disk _ Hs) Htg) as (_ & Hsh & Hfr & _).
    assert (m = SharedTmp \/ m = FreshTmp) as [Em|Em] by (destruct m; auto).
    { rewrite (Hsh Em). by apply (Ha _ t' w1 i' Em Hw). }
    intros Hh1. destruct (ok_held _ Hs _ _ _ _ Hw1 Hh1) as [Hn _ _]. by rewrite (Hfr Em) in Hn.
  - destruct (Hh tmp i eq_refl) as [G1 G2 G3]. pose proof (ok_off _ Hs _ _ _ _ _ Hw eq_refl) as Hoff. cbn in Hoff.
    destruct (aFault a); [injection Hst as <- <-; by apply (Hmove tmp i)|].
    destruct (Nat.leb_spec (String.length data) off) as [Hle|Hlt].
    + injection Hst as <- <-. assert (str_take off data = data) as Hall by (apply str_take_all; lia).
      assert (m = SharedTmp \/ m = FreshTmp) as [Em|Em] by (destruct m; auto); rewrite Em;
        (apply (Hmove tmp i); [done|done|done|]); cbn; rewrite Hall; intros c [= <-]; (split; [reflexivity|intros; congruence]).
    + destruct ((aSize a =? 0) || (String.length data <? off + aSize a)) eqn:Hsz; [done|].
      apply orb_false_iff in Hsz as [_ Hsz%Nat.ltb_ge]. destruct (G3 _ eq_refl) as (sy & E & _). rewrite E in Hst. cbn in Hst.
      injection Hst as <- <-. eapply (fs_ok_own s t _ _ tmp i); try done; cbn.
      * by intros o [= <-].
      * intros c [= <-]. split; [|done]. rewrite <- (str_take_add off (aSize a) data).
        rewrite <- (writeAt_end (str_take off data)). f_equal. rewrite length_str_take. lia.
  - destruct (aFault a); [injection Hst as <- <-; by apply (Hmove tmp i)|].
    destruct (Hh tmp i eq_refl) as [G1 G2 G3]. destruct (G3 _ eq_refl) as (sy & E & _). rewrite E in Hst. cbn in Hst.
    injection Hst as <- <-. eapply (fs_ok_own s t _ _ tmp i); try done. cbn. by intros c [= <-].
  - injection Hst as <- <-. destruct (aFault a); by apply (Hmove tmp i).
  - destruct (aFault a); [injection Hst as <- <-; by apply (Hmove tmp i)|].
    destruct (Hh tmp i eq_refl) as [G1 G2 G3]. rewrite G1 in Hst. injection Hst as <- <-. cbn.
    destruct (G3 _ eq_refl) as (sy & E & Hsy).
    eapply (fs_ok_release s t _ _ tmp i); try done; [by apply disk_ok_rename; [apply Hs|]| | |].
    + intros p Hp Hpt. rewrite lookup_insert_ne by congruence. by rewrite lookup_delete_ne.
    + intros p Hp. rewrite committed_cons. unfold readFile. cbn. rewrite lookup_insert. case_decide as Hpt; [cbn; by rewrite E|].
      rewrite lookup_delete_ne by congruence. by apply (ok_content _ Hs p).
    + intros Hm p j n Hp. rewrite lookup_insert. case_decide.
      * intros [= <-]. rewrite E. intros [= <-]. by apply Hsy.
      * rewrite lookup_delete_ne by congruence. by apply (ok_synced _ Hs Hm p).
  - injection Hst as <- <-. cbn. destruct (Hh tmp i eq_refl) as [G1 G2 G3].
    eapply (fs_ok_release s t _ _ tmp i); try done; [apply disk_ok_delete, Hs| | |].
    + intros p Hp _. by rewrite lookup_delete_ne.
    + intros p Hp. rewrite <- (ok_content _ Hs p Hp). unfold readFile. cbn. rewrite lookup_delete_ne by congruence. done.
    + intros Hm p j n Hp. rewrite lookup_delete_ne by congruence. by apply (ok_synced _ Hs Hm p).
  - done.
Qed.

(** ** The invariant *)
Lemma fs_ok_step (s s' : fsys) (e : fevent) : fs_ok s -> admissible s e -> fstep m s e = Some s' -> fs_ok s'.
Proof.
  intros Hs Ha Hst. destruct e as [t target data|t a| |garbage]; cbn [fstep] in Hst.
  - destruct (fsWriters s !! t); [done|]. injection Hst as <-. by apply fs_ok_writer.
  - destruct (fsWriters s !! t) as [w|] eqn:Hw; [|done]. cbn in Hst.
    destruct (writerStep m (fsDisk s) w a) as [[d w']|] eqn:Hstep; [|done]. cbn in Hst. injection Hst as <-.
    by apply (fs_ok_writerStep s t w w' a d).
  - injection Hst as <-. by apply fs_ok_crash.
  - injection Hst as <-. by apply fs_ok_power.
Qed.

Lemma fs_ok_reach (s : fsys) : disk_start -> freach s -> fs_ok s.
Proof. intros H0. induction 1 as [|s e s' _ IH Ha Hst]; [by apply fs_ok_boot|by apply (fs_ok_step s s' e)]. Qed.

(** ** Progress *)

(** Calls a writer has left at most. *)
Definition callsLeft (w : writer) : nat :=
  let n := String.length (wrData w) in
  match wrPC w with
  | WOpen => n + 6 | WWrite _ _ off => n - off + 5 | WSync _ _ => 4 | WClose _ _ => 3 | WRename _ _ => 2 | WRemove _ _ _ => 1 | WDone _ => 0
  end.

Lemma callsLeft_step (d d' : disk) (w w' : writer) (a : ioArg) :
  writerStep m d w a = Some (d', w') ->
  callsLeft w' < callsLeft w /\ wrTarget w' = wrTarget w /\ wrData w' = wrData w.
Proof.
  destruct w as [target data [|tmp i off|tmp i|tmp i|tmp i|tmp i e|res]]; unfold writerStep; cbn -[orb Nat.leb Nat.eqb Nat.ltb]; intros H.
  - destruct (aFault a); [|destruct (openTmp _ _ _ _) as [[[tmp i] d1]|]; [|done]; cbn in H]; injection H as <- <-; cbn; split_and!; (done || lia).
  - destruct (aFault a); [injection H as <- <-; cbn; split_and!; (done || lia)|].
    destruct (Nat.leb_spec (String.length data) off).
    + injection H as <- <-. destruct m; cbn; split_and!; (done || lia).
    + destruct ((aSize a =? 0) || _) eqn:Hsz; [done|]. apply orb_false_iff in Hsz as [?%Nat.eqb_neq ?%Nat.ltb_ge].
      destruct (dkInodes d !! i); [|done]. cbn in H. injection H as <- <-. cbn. split_and!; (done || lia).
  - destruct (aFault a); [|destruct (dkInodes d !! i); [|done]; cbn in H]; injection H as <- <-; cbn; split_and!; (done || lia).
  - injection H as <- <-. destruct (aFault a); cbn; split_and!; (done || lia).
  - destruct (aFault a); [|destruct (dkNames d !! tmp)]; injection H as <- <-; cbn; split_and!; (done || lia).
  - injection H as <- <-. cbn. split_and!; (done || lia).
  - done.
Qed.

(** A temporary name that is not in use. *)
Lemma fresh_tmp (names : gmap string nat) : exists tmp, is_tmp tmp = true /\ names !! tmp = None.
Proof.
  set (X := list_to_set (C := gset string) ((fun p => str_take (String.length p - 4) p) <$> elements (dom names))).
  exists (fresh X +:+ tmpSuffix). split; [apply HasSuffix_app|].
  destruct (names !! (fresh X +:+ tmpSuffix)) as [i|] eqn:E; [|done]. exfalso. apply (is_fresh X). unfold X.
  apply elem_of_list_to_set, list_elem_of_fmap. exists (fresh X +:+ tmpSuffix). split.
  - fold X. rewrite str_length_app. cbn [tmpSuffix String.length]. rewrite Nat.add_sub. by rewrite str_take_app.
  - apply elem_of_elements, elem_of_dom. by eexists.
Qed.

(** A caller that has not returned can go on, and fails only by a fault. *)
Lemma writer_progress (s : fsys) (t : nat) (w : writer) :
  fs_ok s -> fsWriters s !! t = Some w -> (forall res, wrPC w <> WDone res) ->
  (exists a d w', aFault a = false /\ writerStep m (fsDisk s) w a = Some (d, w'))
  /\ (forall a d w', aFault a = false -> writerStep m (fsDisk s) w a = Some (d, w') ->
        (forall tmp i e, wrPC w' = WRemove tmp i e -> False)
        /\ (forall e, wrPC w' = WDone (Some e) -> exists tmp i, wrPC w = WRemove tmp i e)).
Proof.
  intros Hs Hw Hnd. assert (forall tmp i, held w = Some (tmp, i) -> holds (fsDisk s) w tmp i) as Hh by (intros tmp i; by apply (ok_held _ Hs t)).
  pose (arg name size := MkArg false name (fresh (dom (dkInodes (fsDisk s)))) size).
  assert (forall name size, dkInodes (fsDisk s) !! aInode (arg name size) = None) as Hino.
  { intros name size. apply not_elem_of_dom, is_fresh. }
  destruct (fresh_tmp (dkNames (fsDisk s))) as (tmp0 & Ht0 & Hf0).
  destruct w as [target data [|tmp i off|tmp i|tmp i|tmp i|tmp i e|res]]; unfold writerStep; cbn -[orb Nat.leb Nat.eqb Nat.ltb fresh].
  - split.
    + assert (exists r, openTmp m (fsDisk s) target (arg tmp0 0) = Some r) as [[[tmp i] d] Hr].
      { unfold openTmp. cbn [aName arg]. fold (arg tmp0 0). rewrite (Hino tmp0 0), Ht0, Hf0. cbn [negb].
        destruct m; [|by eexists]. destruct (dkNames (fsDisk s) !! (target +:+ tmpSuffix)); by eexists. }
      exists (arg tmp0 0). rewrite Hr. cbn. by eexists _, _.
    + intros a d w' ->. destruct (openTmp _ _ _ _) as [[[tmp i] d1]|]; [|done]. cbn. by intros [= <- <-].
  - destruct (Hh tmp i eq_refl) as [G1 G2 G3]. destruct (G3 _ eq_refl) as (sy & E & _). rewrite E. split.
    + exists (arg tmp0 1). cbn -[orb Nat.leb Nat.eqb Nat.ltb fresh]. destruct (Nat.leb_spec (String.length data) off); [by eexists _, _|].
      destruct (Nat.ltb_spec (String.length data) (off + 1)); [lia|]. cbn. by eexists _, _.
    + intros a d w' ->. case_if; [intros [= <- <-]; by destruct m|]. case_if; [done|]. cbn. by intros [= <- <-].
  - destruct (Hh tmp i eq_refl) as [G1 G2 G3]. destruct (G3 _ eq_refl) as (sy & E & _). rewrite E. cbn.
    split; [exists (arg tmp0 0); by eexists _, _|]. intros a d w' ->. by intros [= <- <-].
  - split; [exists (arg tmp0 0); by eexists _, _|]. intros a d w' ->. by intros [= <- <-].
  - destruct (Hh tmp i eq_refl) as [G1 G2 G3]. rewrite G1. split; [exists (arg tmp0 0); by eexists _, _|].
    intros a d w' ->. by intros [= <- <-].
  - split; [exists (arg tmp0 0); by eexists _, _|]. intros a d w' _ [= <- <-]. split; [done|]. cbn. intros e' [= ->]. by eexists _, _.
  - by destruct (Hnd res).
Qed.
End lemmas.

(** ** Examples *)
Definition demoDisk : disk := MkDisk {["spend" := 0]} {[0 := MkInode "old" true]}.
Definition ioOk : ioArg := MkArg false "x.tmp" 1 1.

(** Two [Save]s at once share [spend.tmp]: the second truncates what the first
    then renames, writes on in the target itself, and its own rename finds
    nothing.  Without the second the target holds the new content. *)
Example shared_tmp_race :
  let run es := s ← fruns SharedTmp (boot demoDisk) (FStart 0 "spend" "n" :: FStart 1 "spend" "n" :: map (fun t => FStep t ioOk) es);
    Some (readFile (fsDisk s) "spend", wrPC <$> fsWriters s !! 1) in
  run [0; 0; 0; 0; 0; 0] = Some (Some "n", Some WOpen)
  /\ run [0; 0; 0; 0; 0; 1; 0] = Some (Some "", Some (WWrite "spend.tmp" 1 0))
  /\ run [0; 0; 0; 0; 0; 1; 0; 1; 1; 1; 1; 1; 1] = Some (Some "n", Some (WDone (Some ErrRename))).
Proof. vm_compute. split_and!; reflexivity. Qed.

(** [persist] does not sync: what it renamed may be lost with the power. *)
Example unsynced_power_loss :
  (s ← fruns FreshTmp (boot demoDisk) [FStart 0 "spend" "a"; FStep 0 ioOk; FStep 0 ioOk; FStep 0 ioOk; FStep 0 ioOk; FStep 0 ioOk;
    FPowerLoss (fun _ => "??")]; readFile (fsDisk s) "spend") = Some "??".
Proof. vm_compute. reflexivity. Qed.

(** * Properties *)


(** A save in progress on a disk that holds an older snapshot. *)

(** [persist]: two writers of one target at once; the first is renamed over it,
    the second fails to write and removes its file; a third one is cut short by a
    crash. *)
Definition persist_run : list fevent :=
  [FStart 0 "spend" "ab"; FStart 1 "spend" "cd"; FStep 0 (MkArg false "x.tmp" 1 1); FStep 1 (MkArg false "y.tmp" 2 1);
   FStep 0 ioOk; FStep 1 ioOk; FStep 0 ioOk; FStep 0 ioOk; FStep 0 ioOk; FStep 0 ioOk;
   FStep 1 (MkArg true "" 0 0); FStep 1 ioOk; FStart 2 "spend" "ef"; FStep 2 (MkArg false "z.tmp" 3 1); FStep 2 ioOk; FCrash].

Lemma demoDisk_start (m : mode) : disk_start m demoDisk.
Proof.
  split; [split|]; cbn.
  - intros p q i Hp Hq. apply lookup_singleton_Some in Hp as [<- _], Hq as [<- _]. done.
  - intros p i Hp. apply lookup_singleton_Some in Hp as [<- <-]. by eexists.
  - intros _ p i n _ Hp Hn. apply lookup_singleton_Some in Hp as [<- <-]. by apply lookup_singleton_Some in Hn as [_ <-].
Qed.

