(* ===== verification/DailySpend.v ===== *)
(** * internal/dailyspend/snapshot.go: today's spend

    The snapshot holds the traffic counters at the local midnight.  Go leaves
    the iteration order of a map open; where the result can depend on it
    ([SplitUsedToday] sums floats) the order is an argument. *)
From stdpp Require Import base gmap sets list strings sorting.
From Stdlib Require Import ZArith Lia.
From S2P Require Import Prelude GoStrings GoTime GoFloat Headers.

Local Open Scope Z_scope.

Record Snapshot := MkSnapshot {
  LocalDate : string;
  SnapshotUnix : Z;
  AllowanceTodayBytes : Z;
  Baselines : gmap string Z;
  BaselineUploadRatios : gmap string float64
}.

(** ** FileSnapshotter

    The file as its reader sees it: [FileGarbage] does not decode as a
    snapshot, [FileSnapshot] is the JSON text of one. *)
Inductive fileData := FileGarbage | FileSnapshot (s : Snapshot).
Record snapshotFS := MkFS { fsTarget : option fileData; fsTmp : option fileData }.

(** Which call of [Save] fails, if any. *)
Inductive saveFault := FaultOpen | FaultEncode | FaultSync | FaultClose | FaultRename.
Inductive saveError := ErrNilSnapshot | ErrFault (f : saveFault).

#[export] Instance saveFault_eq_dec : EqDecision saveFault.
Proof. solve_decision. Defined.

(** JSON has no NaN and no infinity: the encoder refuses them. *)
Definition finite (x : float64) : bool :=
  match x with SpecFloat.S754_nan | SpecFloat.S754_infinity _ => false | _ => true end.
Definition encodable (s : Snapshot) : bool :=
  forallb (fun kv => finite kv.2) (map_to_list (BaselineUploadRatios s)).

(** [Save]: open the temporary file, encode, sync, close, rename; a failure
    after the open removes the temporary file.  [None] is success. *)
Definition Save (fs : snapshotFS) (s : option Snapshot) (fault : option saveFault) : snapshotFS * option saveError :=
  match s with
  | None => (fs, Some ErrNilSnapshot)
  | Some s =>
      let removed := MkFS (fsTarget fs) None in
      if decide (fault = Some FaultOpen) then (fs, Some (ErrFault FaultOpen))
      else if negb (encodable s) || bool_decide (fault = Some FaultEncode) then (removed, Some (ErrFault FaultEncode))
      else match fault with
           | None => (MkFS (Some (FileSnapshot s)) None, None)
           | Some f => (removed, Some (ErrFault f))
           end
  end.

Definition validateSnapshot (s : option Snapshot) : bool :=
  match s with
  | None => false
  | Some s =>
      match Parse_date (LocalDate s) with
      | None => false
      | Some _ =>
          negb (AllowanceTodayBytes s <? 0)
          && forallb (fun kv => negb (flt kv.2 fzero || flt fone kv.2 || IsNaN kv.2)) (map_to_list (BaselineUploadRatios s))
      end
  end.

(** [Load]: [None] in the second component is no error.  [ioError] is a read
    that fails for another reason than the file missing. *)
Definition Load (fs : snapshotFS) (ioError : bool) : option Snapshot * bool :=
  if ioError then (None, true)
  else match fsTarget fs with
       | None | Some FileGarbage => (None, false)
       | Some (FileSnapshot s) => if validateSnapshot (Some s) then (Some s, false) else (None, false)
       end.

(** ** MapSnapshotter *)
Definition deepCopySnapshot (s : Snapshot) : Snapshot :=
  MkSnapshot (LocalDate s) (SnapshotUnix s) (AllowanceTodayBytes s)
    (list_to_map (map_to_list (Baselines s))) (list_to_map (map_to_list (BaselineUploadRatios s))).

(** The held snapshot; [Load] and [Save] copy it, [Current] is [Load] without
    its error. *)
Record MapSnapshotter := MkMapSnapshotter { current : option Snapshot }.
Definition MapSave (m : MapSnapshotter) (s : option Snapshot) : MapSnapshotter * option saveError :=
  match s with
  | None => (m, Some ErrNilSnapshot)
  | Some s => (MkMapSnapshotter (Some (deepCopySnapshot s)), None)
  end.
Definition NewMapSnapshotter (initial : option Snapshot) : MapSnapshotter :=
  match initial with
  | None => MkMapSnapshotter None
  | Some s => (MapSave (MkMapSnapshotter None) (Some s)).1
  end.
Definition MapLoad (m : MapSnapshotter) : option Snapshot := deepCopySnapshot <$> current m.

(** ** The computations *)
Definition loc_or_UTC (loc : option Location) : Location := default UTC loc.

Definition today (now : Time) (loc : option Location) : string := Format_date (local_date (loc_or_UTC loc) now).

Definition IsRolloverNeeded (s : option Snapshot) (now : Time) (loc : option Location) : bool :=
  match s with
  | None => true
  | Some s => negb (String.eqb (LocalDate s) (today now loc))
  end.

(** [ui.Upload + ui.Download] *)
Definition counter (ui : SubscriptionUserinfo) : Z := wrap64 (Upload ui + Download ui).

(** The clamped delta of one source; [None] when it has no baseline. *)
Definition delta (s : Snapshot) (name : string) (ui : SubscriptionUserinfo) : option Z :=
  match Baselines s !! name with
  | None => None
  | Some baseline => Some (wrap64 (counter ui - baseline))
  end.

(** The loop, over the entries in iteration order. *)
Definition usedStep (s : Snapshot) (total : Z) (kv : string * SubscriptionUserinfo) : Z :=
  match delta s kv.1 kv.2 with
  | Some d => if 0 <? d then wrap64 (total + d) else total
  | None => total
  end.
Definition ComputeUsedToday (perSource : list (string * SubscriptionUserinfo)) (s : option Snapshot) : Z :=
  match s with
  | None => 0
  | Some s => foldl (usedStep s) 0 perSource
  end.

Definition splitStep (s : Snapshot) (acc : float64 * Z) (kv : string * SubscriptionUserinfo) : float64 * Z :=
  let '(weightedSum, totalDelta) := acc in
  match delta s kv.1 kv.2 with
  | Some d =>
      if d <=? 0 then acc
      else (fadd weightedSum (fmul (float_of_int d) (default fzero (BaselineUploadRatios s !! kv.1))),
            wrap64 (totalDelta + d))
  | None => acc
  end.

Definition SplitUsedToday {F : FloatConversion} (usedToday : Z) (perSource : list (string * SubscriptionUserinfo))
    (s : option Snapshot) : Z * Z :=
  match s with
  | None => (0, 0)
  | Some s =>
      if usedToday <=? 0 then (0, 0)
      else
        let '(weightedSum, totalDelta) := foldl (splitStep s) (fzero, 0) perSource in
        if totalDelta =? 0 then (0, usedToday)
        else
          let avgRatio := fdiv weightedSum (float_of_int totalDelta) in
          let upload := int64_of_float (Round (fmul (float_of_int usedToday) avgRatio)) in
          let upload := if upload <? 0 then 0 else upload in
          let upload := if usedToday <? upload then usedToday else upload in
          (upload, wrap64 (usedToday - upload))
  end.

Definition uploadRatio (ui : SubscriptionUserinfo) : float64 :=
  if 0 <? counter ui then fdiv (float_of_int (Upload ui)) (float_of_int (counter ui)) else fzero.

Definition CaptureSnapshot (perSource : gmap string SubscriptionUserinfo) (allowance : Z) (now : Time)
    (loc : option Location) : Snapshot :=
  MkSnapshot (today now loc) (Unix now) allowance (counter <$> perSource) (uploadRatio <$> perSource).

(** * Lemmas *)

(** ** Sums modulo 2^64 *)
Definition zsum (l : list Z) : Z := foldr Z.add 0 l.

Lemma zsum_cons (x : Z) (l : list Z) : zsum (x :: l) = x + zsum l.
Proof. done. Qed.

Lemma zsum_perm (l1 l2 : list Z) : l1 ≡ₚ l2 -> zsum l1 = zsum l2.
Proof. induction 1; simpl; lia. Qed.

Lemma wrap64_add_l (a b : Z) : wrap64 (wrap64 a + b) = wrap64 (a + b).
Proof.
  unfold wrap64.
  replace ((a + 2 ^ 63) mod 2 ^ 64 - 2 ^ 63 + b + 2 ^ 63) with ((a + 2 ^ 63) mod 2 ^ 64 + b) by lia.
  rewrite Zplus_mod_idemp_l. do 2 f_equal. lia.
Qed.

(** The positive deltas of the sources. *)
Definition spent (s : Snapshot) (kv : string * SubscriptionUserinfo) : Z :=
  match delta s kv.1 kv.2 with Some d => Z.max 0 d | None => 0 end.

Lemma ComputeUsedToday_sum (perSource : list (string * SubscriptionUserinfo)) (s : Snapshot) :
  ComputeUsedToday perSource (Some s) = wrap64 (zsum (map (spent s) perSource)).
Proof.
  unfold ComputeUsedToday.
  cut (forall total, wrap64 total = total ->
    foldl (usedStep s) total perSource = wrap64 (total + zsum (map (spent s) perSource))).
  { intros H. by rewrite H. }
  induction perSource as [|kv l IH]; intros total Ht; simpl; [by rewrite Z.add_0_r|].
  unfold usedStep at 2, spent at 1. destruct (delta s kv.1 kv.2) as [d|]; [|by rewrite IH].
  destruct (Z.ltb_spec 0 d).
  - rewrite IH by (apply wrap64_id, wrap64_range). rewrite wrap64_add_l, Z.max_r by lia. f_equal. lia.
  - rewrite IH, Z.max_l by lia. f_equal.
Qed.

(** ** The split *)
Lemma SplitUsedToday_eq {F : FloatConversion} (used : Z) (order : list (string * SubscriptionUserinfo)) (s : option Snapshot) :
  in_int64 used ->
  let '(up, down) := SplitUsedToday used order s in
  0 <= up /\ 0 <= down /\ (is_Some s -> 0 < used -> up + down = used) /\ (used <= 0 -> up = 0 /\ down = 0).
Proof.
  intros Hu. unfold SplitUsedToday. destruct s as [s|]; [|split_and!; [lia|lia|by intros []|done]].
  destruct (Z.leb_spec used 0); [split_and!; lia|].
  destruct (foldl (splitStep s) (fzero, 0) order) as [w t]. destruct (t =? 0); [split_and!; lia|].
  set (u0 := int64_of_float _). pose proof (int64_of_float_range (Round (fmul (float_of_int used) (fdiv w (float_of_int t)))) : in_int64 u0) as Hr.
  clearbody u0. unfold in_int64 in *. cbv zeta.
  destruct (Z.ltb_spec u0 0); [|destruct (Z.ltb_spec used u0)].
  - destruct (Z.ltb_spec used 0); [lia|]. rewrite wrap64_id by (unfold in_int64; lia). split_and!; lia.
  - rewrite wrap64_id by (unfold in_int64; lia). split_and!; lia.
  - rewrite wrap64_id by (unfold in_int64; lia). split_and!; lia.
Qed.

(** ** Rollover *)
Lemma today_inj (t1 t2 : Time) (loc : option Location) :
  four_digit_year (local_day (loc_or_UTC loc) t1) -> four_digit_year (local_day (loc_or_UTC loc) t2) ->
  today t1 loc = today t2 loc <-> local_day (loc_or_UTC loc) t1 = local_day (loc_or_UTC loc) t2.
Proof.
  intros H1 H2. unfold today, local_date. split; [by apply Format_day_inj|by intros ->].
Qed.

(** Nothing is spent against a snapshot of the same state. *)
Lemma spent_capture (perSource : gmap string SubscriptionUserinfo) (allowance : Z) (now : Time) (loc : option Location)
    (order : list (string * SubscriptionUserinfo)) :
  order ≡ₚ map_to_list perSource -> ComputeUsedToday order (Some (CaptureSnapshot perSource allowance now loc)) = 0.
Proof.
  intros Hp. rewrite ComputeUsedToday_sum.
  assert (zsum (map (spent (CaptureSnapshot perSource allowance now loc)) order) = 0) as ->; [|done].
  assert (Forall (fun kv => spent (CaptureSnapshot perSource allowance now loc) kv = 0) order) as HF.
  { apply Forall_forall. intros [k ui] Hin. rewrite Hp in Hin. apply elem_of_map_to_list in Hin.
    unfold spent, delta. simpl. rewrite lookup_fmap, Hin. simpl. by rewrite Z.sub_diag. }
  clear Hp. induction HF as [|kv l Hkv _ IH]; [done|]. simpl. by rewrite Hkv, IH.
Qed.

(** The day's spend is the sum, over the sources that have a baseline, of
    the growth of their counter since the snapshot, counters that went back
    counting as nothing, modulo 2^64: the iteration order of the map does not
    matter. *)
Theorem ComputeUsedToday_order (perSource : gmap string SubscriptionUserinfo) (s : Snapshot)
    (order : list (string * SubscriptionUserinfo)) :
  order ≡ₚ map_to_list perSource ->
  ComputeUsedToday order (Some s) = ComputeUsedToday (map_to_list perSource) (Some s)
  /\ ComputeUsedToday order (Some s) = wrap64 (zsum (map (spent s) (map_to_list perSource))).
Proof.
  intros H. rewrite !ComputeUsedToday_sum. assert (zsum (map (spent s) order) = zsum (map (spent s) (map_to_list perSource))) as ->; [|done].
  apply zsum_perm. by rewrite H.
Qed.

Definition demo_userinfo : gmap string SubscriptionUserinfo :=
  {["a" := MkUserinfo 30 70 1000 0; "b" := MkUserinfo 5 5 100 0]}.
Definition demo_snapshot : Snapshot :=
  MkSnapshot "2024-05-01" 0 500 {["a" := 40; "b" := 20]} {["a" := fdiv fone (float_of_int 2)]}.

Lemma ComputeUsedToday_order_witness :
  ComputeUsedToday (reverse (map_to_list demo_userinfo)) (Some demo_snapshot) = 60.
Proof.
  rewrite (proj1 (ComputeUsedToday_order demo_userinfo demo_snapshot (reverse (map_to_list demo_userinfo))
    ltac:(apply reverse_Permutation))). by vm_compute.
Defined.

(** The upload/download split of the day's spend is non-negative and adds
    up to it, for every iteration order, every ratio in the snapshot and
    whatever the float conversions give. *)
Theorem SplitUsedToday_sum {F : FloatConversion} (used : Z) (order : list (string * SubscriptionUserinfo)) (s : Snapshot) :
  in_int64 used -> 0 < used ->
  let '(up, down) := SplitUsedToday used order (Some s) in 0 <= up <= used /\ 0 <= down <= used /\ up + down = used.
Proof.
  intros Hu Hp. pose proof (SplitUsedToday_eq used order (Some s) Hu) as H.
  destruct (SplitUsedToday used order (Some s)) as [up down]. destruct H as (H1 & H2 & H3 & _).
  specialize (H3 (ltac:(by eexists)) Hp). lia.
Qed.

Lemma SplitUsedToday_sum_witness :
  let '(up, down) := SplitUsedToday 60 (map_to_list demo_userinfo) (Some demo_snapshot) in
  up = 30 /\ down = 30 /\ up + down = 60.
Proof.
  pose proof (SplitUsedToday_sum 60 (map_to_list demo_userinfo) demo_snapshot ltac:(unfold in_int64; lia) ltac:(lia)) as H.
  destruct (SplitUsedToday _ _ _) as [up down] eqn:E. vm_compute in E. injection E as <- <-.
  split_and!; [done|done|apply H].
Defined.

(** [Save] is atomic towards readers: when it reports success the file
    holds the snapshot, when it reports an error (whichever call failed) the
    file is as before; a later [Load] returns the new snapshot exactly when it
    passes validation. *)
Theorem Save_atomic (fs : snapshotFS) (s : option Snapshot) (fault : option saveFault) :
  match Save fs s fault with
  | (fs', None) => exists s', s = Some s' /\ fsTarget fs' = Some (FileSnapshot s')
      /\ Load fs' false = (if validateSnapshot (Some s') then Some s' else None, false)
  | (fs', Some _) => fsTarget fs' = fsTarget fs /\ Load fs' false = Load fs false
  end.
Proof.
  unfold Save. destruct s as [s|]; [|done].
  case_decide; [done|]. case_if; [done|]. destruct fault as [f|]; [done|].
  exists s. split_and!; [done|done|]. unfold Load. simpl. by case_if.
Qed.

(** A snapshot captured from a source that reports a negative upload does not
    pass validation: every reload starts the day again. *)
Theorem capture_negative_upload_invalid :
  match ParseSubscriptionUserinfo "upload=-5; download=10; total=100; expire=0" with
  | inr (ui, _) => validateSnapshot (Some (CaptureSnapshot {["a" := ui]} 95 (of_unix 1714521600) None)) = false
  | inl _ => False
  end.
Proof. by vm_compute. Qed.

(** ** Iteration order *)
Definition order_midnight : gmap string SubscriptionUserinfo :=
  {["a" := MkUserinfo 1 5 0 0; "b" := MkUserinfo 4 2 0 0; "c" := MkUserinfo 1 2 0 0]}.
Definition order_now : gmap string SubscriptionUserinfo :=
  {["a" := MkUserinfo 1 12 0 0; "b" := MkUserinfo 4 8 0 0; "c" := MkUserinfo 1 9 0 0]}.

(** The split of the same state is 7/13 or 8/12 depending on the order in which
    the map is iterated: the float sum is not associative. *)
Theorem SplitUsedToday_order_dependent :
  exists o1 o2, o1 ≡ₚ map_to_list order_now /\ o2 ≡ₚ map_to_list order_now /\
    SplitUsedToday 20 o1 (Some (CaptureSnapshot order_midnight 0 0 None)) = (7, 13) /\
    SplitUsedToday 20 o2 (Some (CaptureSnapshot order_midnight 0 0 None)) = (8, 12).
Proof.
  exists (reverse (map_to_list order_now)), (map_to_list order_now).
  split_and!; [apply reverse_Permutation|done|by vm_compute|by vm_compute].
Qed.
