(* ===== verification/Traffic.v ===== *)
(** * internal/merge/traffic.go: aggregated traffic and the served header *)
From stdpp Require Import base gmap sets list strings sorting.
From Stdlib Require Import ZArith Lia.
From S2P Require Import Prelude GoStrings GoSort GoTime GoFloat Headers DailySpend.

Local Open Scope Z_scope.

Record ServedTrafficHeader := MkServed {
  DailyAllowanceBytes : Z;
  ExpireUnix : Z;
  UsedTodayBytes : Z;
  TotalBytes : Z;
  UploadBytes : Z;
  DownloadBytes : Z;
  SnapshotLocalDate : string;
  RolloverFired : bool
}.

Record DailyAllowance := MkAllowance {
  PerDayRateBytes : Z;
  NoExpiryRemainingBytes : Z;
  ExpiredSourceFlags : list string
}.

(** ** Midnights *)
Definition NextMidnightUTC (now : Time) : Time :=
  let '(y, m, d) := local_date UTC now in Date y m (d + 1) UTC.

Definition nextMidnightInLocation (now : Time) (loc : option Location) : Time :=
  let loc := loc_or_UTC loc in
  let '(y, m, d) := local_date loc now in Date y m (d + 1) loc.

(** ** Aggregation

    [sortedKeys] and [sortedStringKeys]: the keys of the map, sorted. *)
Definition sortedKeys {A : Type} (m : gmap string A) : list string := Strings (map fst (map_to_list m)).

Definition aggregateStep (perSource : gmap string SubscriptionUserinfo) (out : SubscriptionUserinfo) (name : string)
    : SubscriptionUserinfo :=
  let ui := default (MkUserinfo 0 0 0 0) (perSource !! name) in
  let expire :=
    if Expire ui =? 0 then Expire out
    else if (Expire out =? 0) || (Expire ui <? Expire out) then Expire ui else Expire out in
  MkUserinfo (wrap64 (Upload out + Upload ui)) (wrap64 (Download out + Download ui))
    (wrap64 (Total out + Total ui)) expire.

Definition AggregateSubscriptionUserinfo (perSource : gmap string SubscriptionUserinfo) : SubscriptionUserinfo :=
  foldl (aggregateStep perSource) (MkUserinfo 0 0 0 0) (sortedKeys perSource).

(** An entry of the map is a pointer: [None] is nil. *)
Definition intervalStep (perSource : gmap string (option Z)) (minHours : Z) (name : string) : Z :=
  match perSource !! name with
  | Some (Some hours) =>
      if hours <=? 0 then minHours
      else if (minHours =? -1) || (hours <? minHours) then hours else minHours
  | _ => minHours
  end.

Definition AggregateProfileUpdateInterval (perSource : gmap string (option Z)) (defaultHours : Z) : Z :=
  let minHours := foldl (intervalStep perSource) (-1) (sortedKeys perSource) in
  if minHours =? -1 then defaultHours else minHours.

Section with_floats.
Context {F : FloatConversion}.

(** [int64(math.Ceil(float64(secondsRemaining) / 86400.0))], at least 1 *)
Definition daysRemaining (secondsRemaining : Z) : Z :=
  let days := int64_of_float (Ceil (fdiv (float_of_int secondsRemaining) (float_of_int 86400))) in
  if days <? 1 then 1 else days.

Definition allowanceStep (perSource : gmap string SubscriptionUserinfo) (now : Z) (out : DailyAllowance) (name : string)
    : DailyAllowance :=
  let ui := default (MkUserinfo 0 0 0 0) (perSource !! name) in
  let remaining := wrap64 (wrap64 (Total ui - Upload ui) - Download ui) in
  let remaining := if remaining <? 0 then 0 else remaining in
  let '(MkAllowance rate noExpiry expired) := out in
  if Expire ui =? 0 then MkAllowance rate (wrap64 (noExpiry + remaining)) expired
  else if Expire ui <=? now then MkAllowance rate noExpiry (expired ++ [name])
  else
    let secondsRemaining := wrap64 (Expire ui - now) in
    MkAllowance (wrap64 (rate + Z.quot remaining (daysRemaining secondsRemaining))) noExpiry expired.

Definition ComputeDailyAllowance (perSource : gmap string SubscriptionUserinfo) (now : Time) : DailyAllowance :=
  let '(MkAllowance rate noExpiry expired) :=
    foldl (allowanceStep perSource (Unix now)) (MkAllowance 0 0 []) (sortedKeys perSource) in
  MkAllowance rate noExpiry (Strings expired).

(** The header (nil as [None]) and the snapshot to keep; [order] is the order
    the maps are iterated in.  The clock is read twice: [nowAllowance] for the
    allowance, then [now]. *)
Definition ComposeServedTrafficHeaderWithSpend (perSource : gmap string SubscriptionUserinfo)
    (order : list (string * SubscriptionUserinfo)) (nowAllowance now : Time) (snapshot : option Snapshot)
    (loc : option Location) : option ServedTrafficHeader * option Snapshot :=
  if Nat.eqb (size perSource) 0 then (None, snapshot)
  else
    let da := ComputeDailyAllowance perSource nowAllowance in
    let allowance := wrap64 (PerDayRateBytes da + NoExpiryRemainingBytes da) in
    let rolloverFired := IsRolloverNeeded snapshot now loc in
    let snapshot := if rolloverFired then Some (CaptureSnapshot perSource allowance now loc) else snapshot in
    match snapshot with
    | None => (None, None)
    | Some s =>
        let used := ComputeUsedToday order (Some s) in
        let '(upload, download) := SplitUsedToday used order (Some s) in
        (Some (MkServed (AllowanceTodayBytes s) (Unix (nextMidnightInLocation now loc)) used
                 (wrap64 (AllowanceTodayBytes s + used)) upload download (LocalDate s) rolloverFired), Some s)
    end.

Definition ComposeServedTrafficHeader (perSource : gmap string SubscriptionUserinfo)
    (order : list (string * SubscriptionUserinfo)) (nowAllowance now : Time) : option ServedTrafficHeader :=
  (ComposeServedTrafficHeaderWithSpend perSource order nowAllowance now None (Some UTC)).1.
End with_floats.

(** * Lemmas *)

(** ** Folding over the sorted keys *)
Lemma sortedKeys_perm {A : Type} (m : gmap string A) : sortedKeys m ≡ₚ (map_to_list m).*1.
Proof. apply Strings_perm. Qed.

Lemma sortedKeys_values {A : Type} (m : gmap string A) (dflt : A) :
  map (fun k => default dflt (m !! k)) (sortedKeys m) ≡ₚ (map_to_list m).*2.
Proof.
  change (map ?f ?l) with (f <$> l). rewrite (sortedKeys_perm m), <- list_fmap_compose.
  match goal with |- ?a ≡ₚ ?b => assert (a = b) as ->; [|done] end. apply list_fmap_ext. intros i [k v] Hi. simpl.
  apply list_elem_of_lookup_2, elem_of_map_to_list in Hi. by rewrite Hi.
Qed.

Lemma zsum_values {A : Type} (m : gmap string A) (dflt : A) (f : A -> Z) :
  zsum (map (fun k => f (default dflt (m !! k))) (sortedKeys m)) = zsum (map f (map_to_list m).*2).
Proof.
  apply zsum_perm. change (map f ?l) with (f <$> l). rewrite <- (sortedKeys_values m dflt).
  change (map ?g ?l) with (g <$> l). by rewrite <- list_fmap_compose.
Qed.

(** A wrapping accumulation is the wrapped sum. *)
Lemma foldl_wrap {A : Type} (f : A -> Z) (l : list A) (acc : Z) :
  foldl (fun acc x => wrap64 (acc + f x)) (wrap64 acc) l = wrap64 (acc + zsum (map f l)).
Proof.
  revert acc. induction l as [|x l IH]; intros acc; simpl; [by rewrite Z.add_0_r|].
  rewrite wrap64_add_l, IH. f_equal. lia.
Qed.

(** ** Aggregated userinfo *)
Definition no_ui : SubscriptionUserinfo := MkUserinfo 0 0 0 0.

(** The earliest non-zero value so far; 0 when there is none. *)
Definition earliest (acc e : Z) : Z :=
  if e =? 0 then acc else if (acc =? 0) || (e <? acc) then e else acc.

Lemma earliest_foldl (l : list Z) (acc : Z) :
  let e := foldl earliest acc l in
  (e = 0 <-> acc = 0 /\ Forall (fun x => x = 0) l)
  /\ (e <> 0 -> e ∈ acc :: l)
  /\ (forall x, x ∈ acc :: l -> x <> 0 -> e <= x).
Proof.
  revert acc. induction l as [|x l IH]; intros acc; simpl.
  { split_and!; [split; [by intros ->|tauto]|by left|]. intros x [->|Hx]%elem_of_cons _; [lia|by apply elem_of_nil in Hx]. }
  destruct (IH (earliest acc x)) as (H0 & Hin & Hle).
  assert (earliest acc x = 0 <-> acc = 0 /\ x = 0) as He
    by (unfold earliest; destruct (Z.eqb_spec x 0); [tauto|]; case_if; lia).
  split_and!.
  - rewrite H0, He, Forall_cons. tauto.
  - intros Hne. specialize (Hin Hne). apply elem_of_cons in Hin as [E|Hin]; [|by do 2 right].
    rewrite E. unfold earliest. repeat case_if; [by left|right; by left|by left].
  - intros y Hy Hne. rewrite !elem_of_cons in Hy. destruct (decide (earliest acc x = 0)) as [E|E].
    + apply Hle; [right|done]. destruct Hy as [->|[->|Hy]]; [naive_solver|naive_solver|done].
    + assert (y ∈ l \/ earliest acc x <= y) as [Hl|Hl].
      { destruct Hy as [->|[->|Hy]]; [right|right|by left];
          unfold earliest in *; destruct (Z.eqb_spec x 0); try lia; case_if; lia. }
      * apply Hle; [by right|done].
      * etrans; [|exact Hl]. apply Hle; [by left|done].
Qed.

Lemma aggregate_foldl (perSource : gmap string SubscriptionUserinfo) (names : list string) (out : SubscriptionUserinfo) :
  let uis := map (fun n => default no_ui (perSource !! n)) names in
  let r := foldl (aggregateStep perSource) out names in
  Upload r = foldl (fun acc ui => wrap64 (acc + Upload ui)) (Upload out) uis
  /\ Download r = foldl (fun acc ui => wrap64 (acc + Download ui)) (Download out) uis
  /\ Total r = foldl (fun acc ui => wrap64 (acc + Total ui)) (Total out) uis
  /\ Expire r = foldl earliest (Expire out) (map Expire uis).
Proof. revert out. induction names as [|n names IH]; intros out; [done|]. simpl. apply (IH (aggregateStep perSource out n)). Qed.

(** The aggregated userinfo sums upload, download and total over the
    sources (modulo 2^64) and takes the earliest non-zero expiry, 0 only when
    every source reports 0. *)
Theorem AggregateSubscriptionUserinfo_spec (perSource : gmap string SubscriptionUserinfo) :
  let uis := (map_to_list perSource).*2 in
  let out := AggregateSubscriptionUserinfo perSource in
  Upload out = wrap64 (zsum (map Upload uis)) /\ Download out = wrap64 (zsum (map Download uis))
  /\ Total out = wrap64 (zsum (map Total uis))
  /\ (Expire out = 0 <-> Forall (fun ui => Expire ui = 0) uis)
  /\ (Expire out <> 0 -> exists ui, ui ∈ uis /\ Expire ui = Expire out)
  /\ (forall ui, ui ∈ uis -> Expire ui <> 0 -> Expire out <= Expire ui).
Proof.
  intros uis out. destruct (aggregate_foldl perSource (sortedKeys perSource) no_ui) as (Hu & Hd & Ht & He).
  pose proof (sortedKeys_values perSource no_ui : _ ≡ₚ uis) as Hp. set (vs := map _ _) in *. 
  change (foldl (aggregateStep perSource) no_ui (sortedKeys perSource)) with out in *.
  assert (forall f : SubscriptionUserinfo -> Z, zsum (map f vs) = zsum (map f uis)) as Hs
    by (intros f; apply zsum_perm; by rewrite Hp).
  change (Upload no_ui) with (wrap64 0) in Hu. change (Download no_ui) with (wrap64 0) in Hd.
  change (Total no_ui) with (wrap64 0) in Ht. rewrite foldl_wrap, Hs in Hu, Hd, Ht.
  destruct (earliest_foldl (map Expire vs) 0) as (H0 & Hin & Hle). change (Expire no_ui) with 0 in He. rewrite <- He in H0, Hin, Hle.
  split_and!; [done|done|done| | |].
  - rewrite H0, <- Hp, Forall_map. tauto.
  - intros Hne. specialize (Hin Hne). apply elem_of_cons in Hin as [?|Hin]; [done|].
    apply list_elem_of_fmap in Hin as (ui & E & Hui). exists ui. by rewrite <- Hp.
  - intros ui Hui Hne. apply Hle; [|done]. right. apply list_elem_of_fmap. exists ui. by rewrite Hp.
Qed.

(** ** Update interval *)
Lemma interval_foldl (perSource : gmap string (option Z)) (names : list string) (acc : Z) :
  acc = -1 \/ 0 < acc ->
  let r := foldl (intervalStep perSource) acc names in
  let vals := omap (fun n => mjoin (perSource !! n)) names in
  (r = -1 <-> acc = -1 /\ Forall (fun h => h <= 0) vals)
  /\ (r <> -1 -> 0 < r /\ r ∈ acc :: vals)
  /\ (forall h, h ∈ acc :: vals -> 0 < h -> r <= h).
Proof.
  revert acc. induction names as [|n names IH]; intros acc Hacc; cbn [foldl omap list_omap].
  { split_and!; [split; [by intros ->|tauto]|intros ?; split; [lia|by left]|]. intros h [->|H]%elem_of_cons _; [lia|by apply elem_of_nil in H]. }
  set (acc' := intervalStep perSource acc n). assert (acc' = -1 \/ 0 < acc') as Hacc'.
  { unfold acc', intervalStep. destruct (perSource !! n) as [[h|]|]; [|done|done]. repeat case_if; lia. }
  destruct (IH acc' Hacc') as (H1 & H2 & H3). cbv zeta. clear IH Hacc'.
  set (r := foldl (intervalStep perSource) acc' names) in *. clearbody r. unfold acc', intervalStep in *.
  destruct (perSource !! n) as [[h|]|]; simpl in *; [|done|done].
  destruct (Z.leb_spec h 0).
  - split_and!.
    + rewrite H1, Forall_cons. naive_solver lia.
    + intros Hr. destruct (H2 Hr) as [? [?|?]%elem_of_cons]; subst; (split; [done|]); [by left|by do 2 right].
    + intros x [->|[->|Hx]%elem_of_cons]%elem_of_cons Hpos; [apply H3; [by left|done]|lia|apply H3; [by right|done]].
  - destruct ((acc =? -1) || (h <? acc)) eqn:E.
    + split_and!.
      * rewrite H1, Forall_cons. split; intros; lia.
      * intros Hr. destruct (H2 Hr) as [? Hin]. split; [done|]. by right.
      * intros x [->|Hx]%elem_of_cons Hpos; [|by apply H3]. etrans; [apply H3; [by left|done]|lia].
    + split_and!.
      * rewrite H1, Forall_cons. split; intros; lia.
      * intros Hr. destruct (H2 Hr) as [? [?|?]%elem_of_cons]; subst; (split; [done|]); [by left|by do 2 right].
      * intros x [->|[->|Hx]%elem_of_cons]%elem_of_cons Hpos; [apply H3; [by left|done]| |apply H3; [by right|done]].
        etrans; [apply H3; [by left|lia]|lia].
Qed.

(** The aggregated update interval is the smallest positive interval any
    source reports; the default when none does. *)
Theorem AggregateProfileUpdateInterval_spec (perSource : gmap string (option Z)) (defaultHours : Z) :
  let h := AggregateProfileUpdateInterval perSource defaultHours in
  (h = defaultHours /\ forall k v, perSource !! k = Some (Some v) -> v <= 0)
  \/ (0 < h /\ (exists k, perSource !! k = Some (Some h)) /\
      forall k v, perSource !! k = Some (Some v) -> 0 < v -> h <= v).
Proof.
  intros h. destruct (interval_foldl perSource (sortedKeys perSource) (-1) ltac:(by left)) as (H1 & H2 & H3).
  unfold h, AggregateProfileUpdateInterval. set (r := foldl _ _ _) in *.
  assert (forall v, v ∈ omap (fun n => mjoin (perSource !! n)) (sortedKeys perSource)
    <-> exists k, perSource !! k = Some (Some v)) as Hv.
  { intros v. rewrite list_elem_of_omap. split.
    - intros (k & _ & Hk). exists k. by destruct (perSource !! k) as [[w|]|]; simplify_eq/=.
    - intros (k & Hk). exists k. rewrite (sortedKeys_perm perSource), list_elem_of_fmap, Hk. split; [|done].
      exists (k, Some v). split; [done|]. by apply elem_of_map_to_list. }
  destruct (Z.eqb_spec r (-1)) as [E|E].
  - left. split; [done|]. intros k v Hk. apply H1 in E as [_ HF]. rewrite Forall_forall in HF. apply HF, Hv. by exists k.
  - right. destruct (H2 E) as [Hpos Hin]. split_and!; [done| |].
    + apply Hv. apply elem_of_cons in Hin as [?|?]; [done|done].
    + intros k v Hk Hv0. apply H3; [|done]. right. apply Hv. by exists k.
Qed.

(** ** Midnights *)
Lemma nextMidnight_fixed (now : Time) (offset : Z) :
  let z := local_day (FixedZone offset) now in
  alpha <= (z + 1) * 86400 - offset < omega ->
  nextMidnightInLocation now (Some (FixedZone offset)) = of_unix ((z + 1) * 86400 - offset).
Proof.
  intros z Hz. unfold nextMidnightInLocation, local_date. change (loc_or_UTC (Some ?l)) with l. fold z.
  pose proof (Date_next_day z offset) as H. destruct (civil_from_days z) as [[y m] d]. by apply H.
Qed.

(** In UTC and in every zone of a fixed offset, the served expiry is the
    next local midnight: strictly after now, at most 24 hours away, and the
    first instant of the local day that follows. *)
Theorem nextMidnight_spec (now : Time) (offset : Z) :
  alpha + 2 * 86400 <= Unix now < omega - 2 * 86400 -> -86400 < offset < 86400 ->
  let t := nextMidnightInLocation now (Some (FixedZone offset)) in
  now < t <= now + 86400 * Second
  /\ (Unix t + offset) mod 86400 = 0
  /\ local_day (FixedZone offset) t = local_day (FixedZone offset) now + 1
  /\ (offset = 0 -> NextMidnightUTC now = t).
Proof.
  intros Hnow Hoff t. set (z := local_day (FixedZone offset) now).
  assert (z * 86400 <= Unix now + offset < (z + 1) * 86400) as Hz
    by (unfold z, local_day, offset_at; simpl; Z.div_mod_to_equations; lia).
  assert (t = of_unix ((z + 1) * 86400 - offset)) as Ht by (apply nextMidnight_fixed; fold z; lia).
  assert (Unix now * Second <= now < Unix now * Second + Second) as Hn
    by (unfold Unix, Second; Z.div_mod_to_equations; lia).
  assert (Unix t = (z + 1) * 86400 - offset) as Hu
    by (rewrite Ht; unfold Unix, of_unix; apply Z.div_mul; done).
  split_and!.
  - rewrite Ht. unfold of_unix, Second in *. lia.
  - rewrite Ht. unfold of_unix, Second in *. lia.
  - rewrite Hu. replace ((z + 1) * 86400 - offset + offset) with ((z + 1) * 86400) by lia. apply Z.mod_mul. lia.
  - unfold local_day at 1, offset_at. simpl. rewrite Hu.
    replace ((z + 1) * 86400 - offset + offset) with ((z + 1) * 86400) by lia. by apply Z.div_mul.
  - intros ->. done.
Qed.

Lemma nextMidnight_spec_witness :
  Unix (nextMidnightInLocation (of_unix 1714521599) (Some (FixedZone (-14400)))) = 1714536000
  /\ (1714536000 + -14400) mod 86400 = 0.
Proof.
  pose proof (nextMidnight_spec (of_unix 1714521599) (-14400)) as H.
  assert (Unix (of_unix 1714521599) = 1714521599) as E by reflexivity. rewrite E in H.
  destruct (H ltac:(unfold alpha, omega; lia) ltac:(lia)) as (_ & Hm & _).
  split; [reflexivity|exact Hm].
Defined.

Section float_lemmas.
Context {F : FloatConversion}.

(** ** Daily allowance *)

(** What is left of a plan, never negative. *)
Definition remainingOf (ui : SubscriptionUserinfo) : Z :=
  let r := wrap64 (wrap64 (Total ui - Upload ui) - Download ui) in if r <? 0 then 0 else r.

(** The contribution of one source to the daily rate and to the free pool. *)
Definition dailyRate (now : Z) (ui : SubscriptionUserinfo) : Z :=
  if (Expire ui =? 0) || (Expire ui <=? now) then 0
  else Z.quot (remainingOf ui) (daysRemaining (wrap64 (Expire ui - now))).
Definition freePool (ui : SubscriptionUserinfo) : Z := if Expire ui =? 0 then remainingOf ui else 0.
Definition isExpired (now : Z) (ui : SubscriptionUserinfo) : bool := negb (Expire ui =? 0) && (Expire ui <=? now).

Lemma wrap64_pin (z : Z) : wrap64 (wrap64 z) = wrap64 z.
Proof. apply wrap64_id, wrap64_range. Qed.

Lemma allowance_foldl (perSource : gmap string SubscriptionUserinfo) (now : Z) (names : list string) (out : DailyAllowance) :
  let ui n := default no_ui (perSource !! n) in
  let r := foldl (allowanceStep perSource now) out names in
  wrap64 (PerDayRateBytes r) = wrap64 (PerDayRateBytes out + zsum (map (fun n => dailyRate now (ui n)) names))
  /\ wrap64 (NoExpiryRemainingBytes r) = wrap64 (NoExpiryRemainingBytes out + zsum (map (fun n => freePool (ui n)) names))
  /\ ExpiredSourceFlags r = ExpiredSourceFlags out ++ filter (fun n => isExpired now (ui n) = true) names
  /\ (in_int64 (PerDayRateBytes out) -> in_int64 (NoExpiryRemainingBytes out) ->
      in_int64 (PerDayRateBytes r) /\ in_int64 (NoExpiryRemainingBytes r)).
Proof.
  intros ui. revert out. induction names as [|n names IH]; intros out.
  { simpl. rewrite !Z.add_0_r, app_nil_r. tauto. }
  cbn [foldl map]. change (zsum (?x :: ?l)) with (x + zsum l). rewrite filter_cons.
  destruct (IH (allowanceStep perSource now out n)) as (H1 & H2 & H3 & H4). cbv zeta. rewrite H1, H2, H3. clear H1 H2 H3.
  assert (allowanceStep perSource now out n =
    if Expire (ui n) =? 0
    then MkAllowance (PerDayRateBytes out) (wrap64 (NoExpiryRemainingBytes out + remainingOf (ui n))) (ExpiredSourceFlags out)
    else if Expire (ui n) <=? now
    then MkAllowance (PerDayRateBytes out) (NoExpiryRemainingBytes out) (ExpiredSourceFlags out ++ [n])
    else MkAllowance (wrap64 (PerDayRateBytes out + Z.quot (remainingOf (ui n)) (daysRemaining (wrap64 (Expire (ui n) - now)))))
           (NoExpiryRemainingBytes out) (ExpiredSourceFlags out)) as Hstep by (by destruct out).
  rewrite Hstep in *. clear Hstep IH.
  generalize (zsum (map (fun n => dailyRate now (ui n)) names)) as A.
  generalize (zsum (map (fun n => freePool (ui n)) names)) as B.
  generalize (filter (fun n => isExpired now (ui n) = true) names) as C. intros C B A.
  unfold dailyRate, freePool, isExpired.
  destruct (Expire (ui n) =? 0) eqn:E0; [|destruct (Expire (ui n) <=? now) eqn:E1]; simpl in *.
  - rewrite wrap64_add_l. split_and!; [f_equal; lia|f_equal; lia| |].
    + by repeat case_decide.
    + intros Ho1 Ho2. apply H4; auto using wrap64_range.
  - rewrite <- app_assoc. split_and!; [f_equal; lia|f_equal; lia| |].
    + by repeat case_decide.
    + intros Ho1 Ho2. apply H4; auto.
  - rewrite wrap64_add_l. split_and!; [f_equal; lia|f_equal; lia| |].
    + by repeat case_decide.
    + intros Ho1 Ho2. apply H4; auto using wrap64_range.
Qed.

(** What one source contributes, at most one of the two. *)
Lemma contribution_bounds (ui : SubscriptionUserinfo) (now : Z) :
  0 <= dailyRate now ui /\ 0 <= freePool ui /\ dailyRate now ui + freePool ui <= remainingOf ui.
Proof.
  unfold dailyRate, freePool, isExpired.
  assert (0 <= remainingOf ui) as Hr by (unfold remainingOf; case_if; lia).
  assert (1 <= daysRemaining (wrap64 (Expire ui - now))) as Hd by (unfold daysRemaining; case_if; lia).
  assert (0 <= Z.quot (remainingOf ui) (daysRemaining (wrap64 (Expire ui - now))) <= remainingOf ui) as Hq.
  { rewrite Z.quot_div_nonneg by lia. split; [apply Z.div_pos; lia|]. apply Z.div_le_upper_bound; nia. }
  destruct (Expire ui =? 0); [|destruct (Expire ui <=? now)]; simpl; lia.
Qed.

Lemma allowance_sums (perSource : gmap string SubscriptionUserinfo) (now : Time) :
  PerDayRateBytes (ComputeDailyAllowance perSource now) = wrap64 (zsum (map (dailyRate (Unix now)) (map_to_list perSource).*2))
  /\ NoExpiryRemainingBytes (ComputeDailyAllowance perSource now) = wrap64 (zsum (map freePool (map_to_list perSource).*2)).
Proof.
  destruct (allowance_foldl perSource (Unix now) (sortedKeys perSource) (MkAllowance 0 0 [])) as (H1 & H2 & _ & H4).
  simpl in H1, H2, H4. cbv zeta in H1, H2, H4. unfold ComputeDailyAllowance.
  destruct (foldl _ _ _) as [rate pool expired]. simpl in *. destruct H4 as [R1 R2]; [done|done|].
  rewrite (wrap64_id rate R1) in H1. rewrite (wrap64_id pool R2) in H2.
  by rewrite H1, H2, (zsum_values perSource no_ui (dailyRate (Unix now))), (zsum_values perSource no_ui freePool).
Qed.

(** The daily allowance is the sum over the sources that are still running
    of what remains divided by the days to expiry, plus apart the sum of what
    remains on the plans without expiry (both modulo 2^64), and the sorted
    names of the expired sources; no source counts twice. *)
Theorem ComputeDailyAllowance_spec (perSource : gmap string SubscriptionUserinfo) (now : Time) :
  let uis := (map_to_list perSource).*2 in
  let da := ComputeDailyAllowance perSource now in
  PerDayRateBytes da = wrap64 (zsum (map (dailyRate (Unix now)) uis))
  /\ NoExpiryRemainingBytes da = wrap64 (zsum (map freePool uis))
  /\ ExpiredSourceFlags da
     = filter (fun n => isExpired (Unix now) (default no_ui (perSource !! n)) = true) (sortedKeys perSource)
  /\ (forall ui, ui ∈ uis -> 0 <= dailyRate (Unix now) ui <= remainingOf ui /\ 0 <= freePool ui
        /\ (dailyRate (Unix now) ui <> 0 -> freePool ui = 0 /\ isExpired (Unix now) ui = false)
        /\ (freePool ui <> 0 -> isExpired (Unix now) ui = false)).
Proof.
  intros uis da. destruct (allowance_sums perSource now) as [H1 H2]. fold da in H1, H2. split_and!; [done|done| |].
  - destruct (allowance_foldl perSource (Unix now) (sortedKeys perSource) (MkAllowance 0 0 [])) as (_ & _ & H3 & _).
    unfold da, ComputeDailyAllowance. destruct (foldl _ _ _) as [rate pool expired]. simpl in *. rewrite H3.
    apply (StronglySorted_unique String.le); [apply Strings_sorted| |apply Strings_perm]. apply StronglySorted_filter, Strings_sorted.
  - intros ui _. pose proof (contribution_bounds ui (Unix now)). unfold dailyRate, freePool, isExpired in *.
    destruct (Expire ui =? 0); [|destruct (Expire ui <=? Unix now)]; simpl in *; split_and!; try lia; try tauto.
Qed.

(** ** The served header *)
Lemma Compose_empty (order : list (string * SubscriptionUserinfo)) (t1 t2 : Time) (snapshot : option Snapshot) (loc : option Location) :
  ComposeServedTrafficHeaderWithSpend ∅ order t1 t2 snapshot loc = (None, snapshot).
Proof. done. Qed.

(** (C38) With at least one source, the served header is consistent: upload and
    download are non-negative and add up to the day's spend, the total is the
    pinned allowance plus the spend, and the snapshot in force is today's.  A
    missing snapshot or one of another local date is replaced by a capture of
    the current counters, against which nothing is spent yet; otherwise the
    snapshot, and so the allowance, is kept. *)
Theorem ComposeServedTrafficHeader_spec (perSource : gmap string SubscriptionUserinfo)
    (order : list (string * SubscriptionUserinfo)) (nowA now : Time) (snapshot : option Snapshot) (loc : option Location) :
  perSource <> ∅ -> order ≡ₚ map_to_list perSource ->
  exists h s, ComposeServedTrafficHeaderWithSpend perSource order nowA now snapshot loc = (Some h, Some s)
    /\ 0 <= UploadBytes h /\ 0 <= DownloadBytes h
    /\ (0 < UsedTodayBytes h -> UploadBytes h + DownloadBytes h = UsedTodayBytes h)
    /\ (UsedTodayBytes h <= 0 -> UploadBytes h = 0 /\ DownloadBytes h = 0)
    /\ DailyAllowanceBytes h = AllowanceTodayBytes s
    /\ TotalBytes h = wrap64 (DailyAllowanceBytes h + UsedTodayBytes h)
    /\ SnapshotLocalDate h = today now loc /\ LocalDate s = today now loc
    /\ ExpireUnix h = Unix (nextMidnightInLocation now loc)
    /\ (RolloverFired h = true <-> forall s0, snapshot = Some s0 -> LocalDate s0 <> today now loc)
    /\ (RolloverFired h = true -> UsedTodayBytes h = 0 /\ Baselines s = counter <$> perSource)
    /\ (RolloverFired h = false -> snapshot = Some s).
Proof.
  intros Hne Hp. unfold ComposeServedTrafficHeaderWithSpend.
  destruct (Nat.eqb_spec (size perSource) 0) as [E|_]; [by apply map_size_empty_inv in E|].
  set (allowance := wrap64 _).
  destruct (IsRolloverNeeded snapshot now loc) eqn:Er.
  - set (s := CaptureSnapshot perSource allowance now loc).
    assert (ComputeUsedToday order (Some s) = 0) as -> by by apply spent_capture.
    pose proof (SplitUsedToday_eq 0 order (Some s) ltac:(unfold in_int64; lia)) as Hs.
    destruct (SplitUsedToday 0 order (Some s)) as [up down]. destruct Hs as (H1 & H2 & H3 & H4).
    eexists _, s. simpl. split_and!; try done; try lia.
    + split; [|done]. intros _ s0 ->. simpl in Er. string_eqb. done.
  - destruct snapshot as [s|]; [|done]. simpl in Er. string_eqb.
    pose proof (SplitUsedToday_eq (ComputeUsedToday order (Some s)) order (Some s)) as Hs.
    rewrite ComputeUsedToday_sum in *. specialize (Hs (wrap64_range _)).
    destruct (SplitUsedToday _ order (Some s)) as [up down]. destruct Hs as (H1 & H2 & H3 & H4).
    eexists _, s. simpl. split_and!; try done; try lia.
    + intros Hpos. apply H3; [by eexists|done].
    + split; [done|]. intros H. exfalso. by apply (H s).
Qed.

(** One rollover per local day: the snapshot captured at one request is
    replaced at a later one exactly when that request falls on another local
    day (years 0 to 9999). *)
Theorem rollover_once_per_day (perSource : gmap string SubscriptionUserinfo) (allowance : Z) (t1 t2 : Time)
    (loc : option Location) :
  four_digit_year (local_day (loc_or_UTC loc) t1) -> four_digit_year (local_day (loc_or_UTC loc) t2) ->
  IsRolloverNeeded (Some (CaptureSnapshot perSource allowance t1 loc)) t2 loc = true
  <-> local_day (loc_or_UTC loc) t1 <> local_day (loc_or_UTC loc) t2.
Proof.
  intros H1 H2. rewrite <- (today_inj t1 t2 loc H1 H2). simpl. rewrite negb_true_iff. apply String.eqb_neq.
Qed.
End float_lemmas.

Lemma ComposeServedTrafficHeader_spec_witness :
  exists h s, ComposeServedTrafficHeaderWithSpend demo_userinfo (map_to_list demo_userinfo)
      (of_unix 1714521600) (of_unix 1714521600) (Some demo_snapshot) None = (Some h, Some s)
    /\ UsedTodayBytes h = 60 /\ UploadBytes h + DownloadBytes h = 60 /\ TotalBytes h = 560.
Proof.
  destruct (ComposeServedTrafficHeader_spec demo_userinfo (map_to_list demo_userinfo)
      (of_unix 1714521600) (of_unix 1714521600) (Some demo_snapshot) None) as (h & s & E & _ & _ & Hsum & _);
    [by apply (bool_decide_unpack _)|done|].
  exists h, s. split; [exact E|]. vm_compute in E. injection E as <- <-.
  split; [done|]. split; [by apply Hsum|done].
Defined.

Lemma rollover_once_per_day_witness :
  IsRolloverNeeded (Some (CaptureSnapshot demo_userinfo 0 (of_unix 1714521599) None)) (of_unix 1714521600) None = true.
Proof.
  apply (rollover_once_per_day demo_userinfo 0 (of_unix 1714521599) (of_unix 1714521600) None);
    [by vm_compute|by vm_compute|by vm_compute].
Defined.
