(* ===== verification/Yaml.v ===== *)
(** * yaml.v3 nodes and the helpers of internal/merge/yamlutil.go

    A [yaml.Node] is a record of scalar fields and a slice of children.  The
    pipeline clones every node before it changes it ([cloneNode]), so the model
    uses values: an operation that writes through a pointer returns the
    changed node.  A pointer that can be nil is an [option node], one that
    cannot be is a [node].  The [Alias] pointer is only ever copied, so it is an
    opaque address. *)
From stdpp Require Import base gmap sets list strings sorting.
From Stdlib Require Import ZArith Lia Ascii.
From S2P Require Import Prelude GoStrings.

(** [yaml.Kind]; [ZeroNode] is the zero value, the kind of a [yaml.Node] that
    decoding an empty document leaves untouched. *)
Inductive kind := ZeroNode | DocumentNode | SequenceNode | MappingNode | ScalarNode | AliasNode.

#[export] Instance kind_eq_dec : EqDecision kind.
Proof. solve_decision. Defined.

Record attrs := MkAttrs {
  aKind : kind;
  aStyle : Z;
  aTag : string;
  aValue : string;
  aAnchor : string;
  aAlias : option positive;
  aHeadComment : string;
  aLineComment : string;
  aFootComment : string;
  aLine : Z;
  aColumn : Z
}.

#[export] Instance attrs_eq_dec : EqDecision attrs.
Proof. solve_decision. Defined.

#[warnings="-register-all"]
Inductive node := Node (a : attrs) (content : list node).

Definition node_attrs (n : node) : attrs := match n with Node a _ => a end.
Definition Content (n : node) : list node := match n with Node _ c => c end.
Definition Kind (n : node) : kind := aKind (node_attrs n).
Definition Style (n : node) : Z := aStyle (node_attrs n).
Definition Tag (n : node) : string := aTag (node_attrs n).
Definition Value (n : node) : string := aValue (node_attrs n).
Definition HeadComment (n : node) : string := aHeadComment (node_attrs n).

Definition is_kind (k : kind) (n : node) : bool := bool_decide (Kind n = k).

(** [yaml.FlowStyle] *)
Definition FlowStyle : Z := 32.

(** Induction over the children too. *)
Definition node_ind' (P : node -> Prop)
    (H : forall a c, Forall P c -> P (Node a c)) : forall n, P n :=
  fix go (n : node) : P n :=
    match n with
    | Node a c =>
        H a c ((fix go_list (l : list node) : Forall P l :=
                  match l with
                  | [] => Forall_nil_2 P
                  | x :: l' => Forall_cons_2 P x l' (go x) (go_list l')
                  end) c)
    end.

#[export] Instance node_eq_dec : EqDecision node.
Proof.
  refine (fix go (n m : node) : Decision (n = m) :=
    match n, m with
    | Node a c, Node b d =>
        let _ : EqDecision node := go in
        cast_if_and (decide (a = b)) (decide (c = d))
    end); abstract congruence.
Defined.

(** ** Node literals of the code *)

(** [&yaml.Node{Kind: k, Value: v, Tag: t}], every other field zero *)
Definition lit (k : kind) (v t : string) (c : list node) : node :=
  Node (MkAttrs k 0 t v "" None "" "" "" 0 0) c.
Definition scalar (v t : string) : node := lit ScalarNode v t [].
Definition str_scalar (v : string) : node := scalar v "!!str".

(** [n.Value = v; n.Tag = t] *)
Definition set_value_tag (n : node) (v t : string) : node :=
  match n with
  | Node (MkAttrs k s _ _ an al h l f ln co) c => Node (MkAttrs k s t v an al h l f ln co) c
  end.
Definition set_content (n : node) (c : list node) : node := Node (node_attrs n) c.

(** ** yamlutil.go *)

(** [docRoot] *)
Definition docRoot (n : option node) : option node :=
  match n with
  | None => None
  | Some n =>
      match Kind n, Content n with
      | DocumentNode, c :: _ => Some c
      | _, _ => Some n
      end
  end.

Lemma docRoot_Some (root : node) : exists r, docRoot (Some root) = Some r.
Proof. simpl. repeat case_match; by eexists. Qed.

(** The loop [for i := 0; i+1 < len(Content); i += 2] of the getters: the value
    of the first pair whose key is [key] and whose value satisfies [ok]. *)
Fixpoint find_pair (key : string) (ok : node -> bool) (content : list node) : option node :=
  match content with
  | k :: v :: rest =>
      if String.eqb (Value k) key && ok v then Some v else find_pair key ok rest
  | _ => None
  end.

(** The same loop in the setters: change the value of the first pair whose key
    is [key]; [None] when there is none. *)
Fixpoint update_pair (key : string) (f : node -> node) (content : list node) : option (list node) :=
  match content with
  | k :: v :: rest =>
      if String.eqb (Value k) key then Some (k :: f v :: rest)
      else (fun r => k :: v :: r) <$> update_pair key f rest
  | _ => None
  end.

Definition findChild (want : kind) (root : option node) (key : string) : option node :=
  match root with
  | Some root => if is_kind MappingNode root then find_pair key (is_kind want) (Content root) else None
  | None => None
  end.
Definition findChildSequence (root : option node) (key : string) : option node :=
  findChild SequenceNode root key.
Definition findChildMapping (root : option node) (key : string) : option node :=
  findChild MappingNode root key.

Definition getMappingField (n : node) (key : string) : string :=
  if is_kind MappingNode n
  then match find_pair key (is_kind ScalarNode) (Content n) with Some v => Value v | None => "" end
  else "".

(** The node after the call, and the returned flag. *)
Definition setMappingField (n : node) (key value : string) : node * bool :=
  if is_kind MappingNode n
  then match update_pair key (fun v => set_value_tag v value "!!str") (Content n) with
       | Some c => (set_content n c, true)
       | None => (n, false)
       end
  else (n, false).

Definition getMappingNode (n : node) (key : string) : option node :=
  if is_kind MappingNode n then find_pair key (fun _ => true) (Content n) else None.

Definition setMappingValue (n : node) (key : string) (value : node) : node :=
  if is_kind MappingNode n
  then match update_pair key (fun _ => value) (Content n) with
       | Some c => set_content n c
       | None => set_content n (Content n ++ [str_scalar key; value])
       end
  else n.

Fixpoint cloneNode (n : node) : node :=
  match n with
  | Node (MkAttrs k s t v an al h l f ln co) c =>
      Node (MkAttrs k s t v an al h l f ln co) (map cloneNode c)
  end.

Definition mappingMembers (n : node) (key : string) : list string :=
  match getMappingNode n key with
  | Some seq =>
      if is_kind SequenceNode seq
      then omap (fun c => if is_kind ScalarNode c then Some (Value c) else None) (Content seq)
      else []
  | None => []
  end.

Definition setMappingMembers (n : node) (key : string) (members : list string) : node :=
  setMappingValue n key (lit SequenceNode "" "!!seq" (map str_scalar members)).

(** * Lemmas *)

(** A deep copy has the value of the original. *)
Lemma cloneNode_id (n : node) : cloneNode n = n.
Proof.
  induction n as [a c IH] using node_ind'. destruct a. simpl. f_equal.
  induction IH as [|x l Hx _ IHl]; [done|]. simpl. by rewrite Hx, IHl.
Qed.
#[export] Hint Rewrite cloneNode_id : gorw.

Lemma is_kind_true (k : kind) (n : node) : is_kind k n = true <-> Kind n = k.
Proof. unfold is_kind. apply bool_decide_eq_true. Qed.

(** The field [key] of [n], if there is one, holds a scalar: what
    [getMappingField] reads is what [setMappingField] writes. *)
Definition field_direct (n : node) (key : string) : bool :=
  match getMappingNode n key with Some v => is_kind ScalarNode v | None => true end.

(** Induction over a slice read two elements at a time. *)
Lemma pairs_ind {A : Type} (P : list A -> Prop) :
  P [] -> (forall x, P [x]) -> (forall k v rest, P rest -> P (k :: v :: rest)) -> forall l, P l.
Proof.
  intros H0 H1 H2 l. induction l as [l IH] using (induction_ltof1 _ length).
  destruct l as [|k [|v rest]]; [done|done|]. apply H2, IH. unfold ltof. simpl. lia.
Qed.

Lemma find_pair_weaken (key : string) (ok : node -> bool) (c : list node) (v : node) :
  find_pair key (fun _ => true) c = Some v -> ok v = true -> find_pair key ok c = Some v.
Proof.
  revert v. induction c as [|y|k x rest IH] using pairs_ind; intros v; simpl; try done.
  destruct (String.eqb (Value k) key); simpl; [intros [= ->]; by intros ->|].
  apply IH.
Qed.

Lemma find_pair_None (key : string) (ok : node -> bool) (c : list node) :
  find_pair key (fun _ => true) c = None -> find_pair key ok c = None.
Proof.
  induction c as [|y|k x rest IH] using pairs_ind; simpl; try done.
  destruct (String.eqb (Value k) key); simpl; [done|]. apply IH.
Qed.

Lemma getMappingField_direct (n : node) (key : string) :
  field_direct n key = true ->
  getMappingField n key = match getMappingNode n key with Some v => Value v | None => "" end.
Proof.
  unfold field_direct, getMappingField, getMappingNode. destruct (is_kind MappingNode n); [|done].
  destruct (find_pair key (fun _ => true) (Content n)) as [v|] eqn:E; intros H.
  - by rewrite (find_pair_weaken key _ _ _ E H).
  - by rewrite (find_pair_None key _ _ E).
Qed.

Lemma find_pair_update_same (key : string) (f : node -> node) (c c' : list node) :
  update_pair key f c = Some c' ->
  find_pair key (fun _ => true) c' = f <$> find_pair key (fun _ => true) c.
Proof.
  revert c'. induction c as [|y|k x rest IH] using pairs_ind; intros c'; simpl; try done.
  destruct (String.eqb (Value k) key) eqn:E; [intros [= <-]; simpl; by rewrite E|].
  destruct (update_pair key f rest) as [r|] eqn:Hr; [|done]. intros [= <-]. simpl. rewrite E. simpl.
  by apply IH.
Qed.

Lemma find_pair_update_other (key key' : string) (ok : node -> bool) (f : node -> node) (c c' : list node) :
  key <> key' -> update_pair key f c = Some c' -> find_pair key' ok c' = find_pair key' ok c.
Proof.
  intros Hne. revert c'. induction c as [|y|k x rest IH] using pairs_ind; intros c'; simpl; try done.
  destruct (String.eqb (Value k) key) eqn:E.
  - apply String.eqb_eq in E. intros [= <-]. simpl.
    destruct (String.eqb (Value k) key') eqn:E'; [|done]. apply String.eqb_eq in E'. congruence.
  - destruct (update_pair key f rest) as [r|] eqn:Hr; [|done]. intros [= <-]. simpl.
    destruct (String.eqb (Value k) key' && ok x); [done|]. by apply IH.
Qed.

Lemma update_pair_None (key : string) (f : node -> node) (c : list node) :
  update_pair key f c = None <-> find_pair key (fun _ => true) c = None.
Proof.
  induction c as [|y|k x rest IH] using pairs_ind; simpl; try done.
  destruct (String.eqb (Value k) key); simpl; [done|].
  rewrite <- IH. by destruct (update_pair key f rest).
Qed.

Lemma Kind_set_content (n : node) (c : list node) : Kind (set_content n c) = Kind n.
Proof. done. Qed.

Lemma Kind_setMappingField (n : node) (key v : string) : Kind (setMappingField n key v).1 = Kind n.
Proof. unfold setMappingField. by repeat case_match. Qed.

Lemma Kind_setMappingValue (n : node) (key : string) (v : node) : Kind (setMappingValue n key v) = Kind n.
Proof. unfold setMappingValue. by repeat case_match. Qed.

Lemma Kind_setMappingMembers (n : node) (key : string) (ms : list string) :
  Kind (setMappingMembers n key ms) = Kind n.
Proof. apply Kind_setMappingValue. Qed.

Lemma set_value_tag_facts (n : node) (v t : string) :
  Value (set_value_tag n v t) = v /\ Kind (set_value_tag n v t) = Kind n /\ Tag (set_value_tag n v t) = t.
Proof. by destruct n as [[] c]. Qed.

(** ** Reading back what was written *)

(** Setting a field that holds a scalar, then reading it. *)
Lemma getMappingField_set_same (n : node) (key v : string) :
  getMappingField n key <> "" -> field_direct n key = true ->
  getMappingField (setMappingField n key v).1 key = v.
Proof.
  intros Hne Hd. rewrite (getMappingField_direct _ _ Hd) in Hne.
  unfold field_direct, getMappingNode in *. unfold setMappingField, getMappingField.
  destruct (is_kind MappingNode n) eqn:Hk; [|done].
  destruct (update_pair key _ (Content n)) as [c|] eqn:Hu; [|by rewrite (proj1 (update_pair_None _ _ _) Hu) in Hne].
  pose proof (find_pair_update_same _ _ _ _ Hu) as Hf.
  destruct (find_pair key (fun _ => true) (Content n)) as [x|]; [|done].
  destruct (set_value_tag_facts x v "!!str") as (Hv & Hkk & _).
  change (is_kind MappingNode (set_content n c, true).1) with (is_kind MappingNode n). rewrite Hk.
  rewrite (find_pair_weaken key (is_kind ScalarNode) _ (set_value_tag x v "!!str")); [done|done|].
  unfold is_kind. by rewrite Hkk.
Qed.

(** Other fields are untouched. *)
Lemma getMappingField_set_other (n : node) (key key' v : string) :
  key <> key' -> getMappingField (setMappingField n key v).1 key' = getMappingField n key'.
Proof.
  intros Hne. unfold setMappingField. destruct (is_kind MappingNode n) eqn:Hk; [|done].
  destruct (update_pair key _ (Content n)) as [c|] eqn:Hu; [|done].
  unfold getMappingField. change (is_kind MappingNode (set_content n c, true).1) with (is_kind MappingNode n).
  rewrite Hk. change (Content (set_content n c, true).1) with c.
  by rewrite (find_pair_update_other _ _ _ _ _ _ Hne Hu).
Qed.

Lemma getMappingNode_set_other (n : node) (key key' v : string) :
  key <> key' -> getMappingNode (setMappingField n key v).1 key' = getMappingNode n key'.
Proof.
  intros Hne. unfold setMappingField. destruct (is_kind MappingNode n) eqn:Hk; [|done].
  destruct (update_pair key _ (Content n)) as [c|] eqn:Hu; [|done].
  unfold getMappingNode. change (is_kind MappingNode (set_content n c, true).1) with (is_kind MappingNode n).
  rewrite Hk. change (Content (set_content n c, true).1) with c.
  by rewrite (find_pair_update_other _ _ _ _ _ _ Hne Hu).
Qed.

Lemma find_pair_app (key : string) (ok : node -> bool) (c : list node) (k v : node) :
  Nat.even (length c) = true ->
  find_pair key ok (c ++ [k; v]) =
    match find_pair key ok c with
    | Some x => Some x
    | None => if String.eqb (Value k) key && ok v then Some v else None
    end.
Proof.
  induction c as [|y|k' x rest IH] using pairs_ind; intros He; [done|discriminate He|].
  simpl. destruct (String.eqb (Value k') key && ok x); [done|]. by apply IH.
Qed.

(** A mapping node of the parser holds whole pairs. *)
Definition paired (n : node) : bool := Nat.even (length (Content n)).

Lemma update_pair_length (key : string) (f : node -> node) (c c' : list node) :
  update_pair key f c = Some c' -> length c' = length c.
Proof.
  revert c'. induction c as [|y|k x rest IH] using pairs_ind; intros c'; simpl; try done.
  destruct (String.eqb (Value k) key); [by intros [= <-]|].
  destruct (update_pair key f rest) as [r|]; [|done]. intros [= <-]. simpl. by rewrite (IH r).
Qed.

Lemma paired_setMappingField (n : node) (key v : string) :
  paired (setMappingField n key v).1 = paired n.
Proof.
  unfold setMappingField. case_if; [|done]. case_match eqn:Hu; [|done].
  unfold paired. simpl. by rewrite (update_pair_length _ _ _ _ Hu).
Qed.

Lemma paired_setMappingValue (n : node) (key : string) (v : node) :
  paired (setMappingValue n key v) = paired n.
Proof.
  unfold setMappingValue. case_if; [|done]. unfold paired.
  case_match eqn:Hu; simpl; [by rewrite (update_pair_length _ _ _ _ Hu)|].
  rewrite length_app. simpl. rewrite Nat.add_comm. done.
Qed.

Lemma getMappingNode_setValue_same (n : node) (key : string) (v : node) :
  Kind n = MappingNode -> paired n = true -> getMappingNode (setMappingValue n key v) key = Some v.
Proof.
  intros Hk%is_kind_true Hp. unfold setMappingValue, getMappingNode. rewrite Hk.
  destruct (update_pair key _ (Content n)) as [c|] eqn:Hu.
  - change (is_kind MappingNode (set_content n c)) with (is_kind MappingNode n). rewrite Hk.
    change (Content (set_content n c)) with c. rewrite (find_pair_update_same _ _ _ _ Hu).
    destruct (find_pair key (fun _ => true) (Content n)) eqn:Hf; [done|].
    apply (proj2 (update_pair_None _ (fun _ => v) _)) in Hf. congruence.
  - change (is_kind MappingNode (set_content n _)) with (is_kind MappingNode n). rewrite Hk.
    simpl. rewrite find_pair_app by done. rewrite (proj1 (update_pair_None _ _ _) Hu).
    simpl. by rewrite String.eqb_refl.
Qed.

Lemma find_pair_setValue_other (n : node) (key key' : string) (v : node) (ok : node -> bool) :
  key <> key' -> paired n = true ->
  find_pair key' ok (Content (setMappingValue n key v)) = find_pair key' ok (Content n).
Proof.
  intros Hne Hp. unfold setMappingValue. case_if; [|done].
  destruct (update_pair key _ (Content n)) as [c|] eqn:Hu.
  - by apply (find_pair_update_other _ _ _ _ _ _ Hne Hu).
  - simpl. rewrite find_pair_app by done. destruct (find_pair key' ok (Content n)); [done|].
    change (Value (str_scalar key)) with key. rewrite (proj2 (String.eqb_neq key key') Hne). done.
Qed.

Lemma getMappingNode_setValue_other (n : node) (key key' : string) (v : node) :
  key <> key' -> paired n = true ->
  getMappingNode (setMappingValue n key v) key' = getMappingNode n key'.
Proof.
  intros Hne Hp. unfold getMappingNode, is_kind. rewrite Kind_setMappingValue.
  case_if; [|done]. by apply find_pair_setValue_other.
Qed.

Lemma getMappingField_setValue_other (n : node) (key key' : string) (v : node) :
  key <> key' -> paired n = true ->
  getMappingField (setMappingValue n key v) key' = getMappingField n key'.
Proof.
  intros Hne Hp. unfold getMappingField, is_kind. rewrite Kind_setMappingValue.
  case_if; [|done]. by rewrite find_pair_setValue_other.
Qed.

Lemma getMappingField_setValue_same (n : node) (key : string) (v : node) :
  Kind n = MappingNode -> paired n = true -> Kind v = ScalarNode ->
  getMappingField (setMappingValue n key v) key = Value v.
Proof.
  intros Hk Hp Hv.
  pose proof (getMappingNode_setValue_same n key v Hk Hp) as Hg.
  rewrite getMappingField_direct; [by rewrite Hg|].
  unfold field_direct. rewrite Hg. by apply is_kind_true.
Qed.

(** Members written are the members read. *)
Lemma mappingMembers_set_same (n : node) (key : string) (ms : list string) :
  Kind n = MappingNode -> paired n = true -> mappingMembers (setMappingMembers n key ms) key = ms.
Proof.
  intros Hk Hp. unfold mappingMembers, setMappingMembers.
  rewrite getMappingNode_setValue_same by done. simpl. clear Hk Hp.
  induction ms as [|m ms IH]; [done|]. csimpl. by f_equal.
Qed.

Lemma getMappingField_setMembers_other (n : node) (key key' : string) (ms : list string) :
  key <> key' -> paired n = true ->
  getMappingField (setMappingMembers n key ms) key' = getMappingField n key'.
Proof. intros. by apply getMappingField_setValue_other. Qed.

Lemma mappingMembers_setField_other (n : node) (key key' v : string) :
  key <> key' -> mappingMembers (setMappingField n key v).1 key' = mappingMembers n key'.
Proof. intros H. unfold mappingMembers. by rewrite getMappingNode_set_other. Qed.

Lemma field_direct_setField (n : node) (key key' v : string) :
  field_direct n key' = true -> field_direct (setMappingField n key v).1 key' = true.
Proof.
  destruct (decide (key = key')) as [->|Hne]; [|unfold field_direct; by rewrite getMappingNode_set_other].
  unfold field_direct, setMappingField, getMappingNode. destruct (is_kind MappingNode n) eqn:Hk; [|cbn [fst]; by rewrite Hk].
  destruct (update_pair key' _ (Content n)) as [c|] eqn:Hu; [|cbn [fst]; by rewrite Hk].
  change (is_kind MappingNode (set_content n c, true).1) with (is_kind MappingNode n). rewrite Hk.
  change (Content (set_content n c, true).1) with c. rewrite (find_pair_update_same _ _ _ _ Hu).
  destruct (find_pair key' (fun _ => true) (Content n)) as [x|]; [|done]. simpl. unfold is_kind.
  by rewrite (proj1 (proj2 (set_value_tag_facts x v "!!str"))).
Qed.
