(* ===== verification/Namespace.v ===== *)
(** * internal/merge/namespace.go: provider-prefix namespacing

    Every proxy, group and rule target of an upstream source [s] gets the
    prefix [s_]; own proxies and groups get a leading underscore.  Built-in
    targets keep their name. *)
From stdpp Require Import base gmap sets list strings sorting.
From Stdlib Require Import ZArith Lia Ascii.
From S2P Require Import Prelude GoStrings Yaml.

Definition builtinTargets : gset string := {["DIRECT"; "REJECT"; "REJECT-DROP"; "PASS"]}.
Definition ruleModifiers : gset string := {["no-resolve"; "src"; "dport"]}.

Definition is_builtin (t : string) : bool := bool_decide (t ∈ builtinTargets).
Definition is_modifier (t : string) : bool := bool_decide (t ∈ ruleModifiers).

(** [sourceName + "_" + x] *)
Definition prefixed (sourceName x : string) : string := sourceName +:+ "_" +:+ x.

(** ** rewriteGroupMembers / rewriteOwnGroupMembers *)
Definition rewriteMember (sourceName m : string) : string :=
  if is_builtin m then m else prefixed sourceName m.

Definition rewriteGroupMembers (group : node) (sourceName : string) : node :=
  let members := mappingMembers group "proxies" in
  match members with
  | [] => group
  | _ => setMappingMembers group "proxies" (map (rewriteMember sourceName) members)
  end.

Definition rewriteOwnMember (ownProxyNames ownGroupNames : gset string) (m : string) : string :=
  if is_builtin m then m
  else if bool_decide (m ∈ ownProxyNames) || bool_decide (m ∈ ownGroupNames) then "_" +:+ m
  else m.

Definition rewriteOwnGroupMembers (group : node) (ownProxyNames ownGroupNames : gset string) : node :=
  let members := mappingMembers group "proxies" in
  match members with
  | [] => group
  | _ => setMappingMembers group "proxies" (map (rewriteOwnMember ownProxyNames ownGroupNames) members)
  end.

(** ** rewriteRuleTarget *)

(** The backward scan from field [i]: the last field that is not a modifier,
    and field 0 when all the others are. *)
Fixpoint targetIdx (parts : list string) (i : nat) : nat :=
  match i with
  | 0 => 0
  | S i' => if is_modifier (default "" (parts !! i)) then targetIdx parts i' else i
  end.

Definition rewriteRuleTarget (rule sourceName : string) : string :=
  let parts := Split rule comma in
  if length parts <? 2 then rule
  else
    let isRuleSet := String.eqb (default "" (parts !! 0)) "RULE-SET" in
    let parts :=
      if isRuleSet then <[1 := prefixed sourceName (default "" (parts !! 1))]> parts else parts in
    let idx := targetIdx parts (length parts - 1) in
    if isRuleSet && (idx <=? 1) then Join parts ","
    else
      let target := default "" (parts !! idx) in
      if is_builtin target then Join parts ","
      else Join (<[idx := prefixed sourceName target]> parts) ",".

(** ** RewriteSource *)

(** [clone; if name != "" { set name to pre+name }] *)
Definition renameNode (pre : string) (p : node) : node :=
  let clone := cloneNode p in
  let origName := getMappingField clone "name" in
  if String.eqb origName "" then clone else (setMappingField clone "name" (pre +:+ origName)).1.

Definition RewriteSource (sourceName : string) (proxies groups : list node) (rules : list string)
    : list node * list node * list string :=
  let newProxies := map (renameNode (sourceName +:+ "_")) proxies in
  let newGroups := map (fun g => rewriteGroupMembers (renameNode (sourceName +:+ "_") g) sourceName) groups in
  let newRules := map (fun r => rewriteRuleTarget r sourceName) rules in
  (newProxies, newGroups, newRules).

(** ** RewriteOwn *)

(** The set of non-empty names. *)
Definition nameSet (nodes : list node) : gset string :=
  foldl (fun acc p =>
    let name := getMappingField p "name" in
    if String.eqb name "" then acc else {[name]} ∪ acc) ∅ nodes.

Definition RewriteOwn (ownProxies ownGroups : list node) : list node * list node :=
  let ownProxyNames := nameSet ownProxies in
  let ownGroupNames := nameSet ownGroups in
  let newProxies := map (renameNode "_") ownProxies in
  let newGroups := map (fun g => rewriteOwnGroupMembers (renameNode "_" g) ownProxyNames ownGroupNames) ownGroups in
  (newProxies, newGroups).

(** * Lemmas *)

(** ** Names *)

(** A node that carries a usable name: a mapping of whole pairs whose [name],
    if present, is a scalar. *)
Definition wf_named (n : node) : bool :=
  is_kind MappingNode n && paired n && field_direct n "name".

Lemma wf_named_spec (n : node) :
  wf_named n = true <-> Kind n = MappingNode /\ paired n = true /\ field_direct n "name" = true.
Proof. unfold wf_named. rewrite !andb_true_iff, is_kind_true. tauto. Qed.

Lemma renameNode_name (pre : string) (n : node) :
  field_direct n "name" = true ->
  getMappingField (renameNode pre n) "name" =
    if String.eqb (getMappingField n "name") "" then "" else pre +:+ getMappingField n "name".
Proof.
  intros Hd. unfold renameNode. rewrite cloneNode_id.
  destruct (String.eqb (getMappingField n "name") "") eqn:E; [by apply String.eqb_eq in E|].
  apply String.eqb_neq in E. by apply getMappingField_set_same.
Qed.

Lemma renameNode_other (pre key : string) (n : node) :
  key <> "name" -> getMappingNode (renameNode pre n) key = getMappingNode n key.
Proof.
  intros Hne. unfold renameNode. rewrite cloneNode_id. case_if; [done|].
  by apply getMappingNode_set_other.
Qed.

Lemma renameNode_Kind (pre : string) (n : node) : Kind (renameNode pre n) = Kind n.
Proof. unfold renameNode. rewrite cloneNode_id. case_if; [done|]. apply Kind_setMappingField. Qed.

Lemma renameNode_paired (pre : string) (n : node) : paired (renameNode pre n) = paired n.
Proof. unfold renameNode. rewrite cloneNode_id. case_if; [done|]. apply paired_setMappingField. Qed.

Lemma renameNode_wf (pre : string) (n : node) : wf_named n = true -> wf_named (renameNode pre n) = true.
Proof.
  rewrite !wf_named_spec, renameNode_Kind, renameNode_paired. intros (Hk & Hp & Hd). split_and!; [done|done|].
  unfold renameNode. rewrite cloneNode_id. case_if; [done|]. by apply field_direct_setField.
Qed.

Lemma nameSet_spec (nodes : list node) (x : string) :
  x ∈ nameSet nodes <-> x <> "" /\ exists n, n ∈ nodes /\ getMappingField n "name" = x.
Proof.
  unfold nameSet.
  cut (forall acc : gset string, x ∈ foldl (fun acc p =>
    let name := getMappingField p "name" in
    if String.eqb name "" then acc else {[name]} ∪ acc) acc nodes
    <-> x ∈ acc \/ (x <> "" /\ exists n, n ∈ nodes /\ getMappingField n "name" = x)).
  { intros H. rewrite H. set_solver. }
  induction nodes as [|n nodes IH]; intros acc; simpl; [set_solver|].
  rewrite IH. setoid_rewrite elem_of_cons. case_if; string_eqb; set_solver.
Qed.

(** ** Provider prefixes *)

(** The rule [^[a-z]+$] on source names: no underscore. *)
Lemma prefixed_inj (s1 s2 x y : string) :
  byte_free underscore s1 = true -> byte_free underscore s2 = true ->
  prefixed s1 x = prefixed s2 y -> s1 = s2 /\ x = y.
Proof. unfold prefixed. apply (prefix_sep_inj underscore). Qed.

Lemma prefixed_app (s x : string) : (s +:+ "_") +:+ x = prefixed s x.
Proof. unfold prefixed. by rewrite str_app_assoc. Qed.

(** ** The target field *)
Lemma targetIdx_mods (pre mods tail : list string) (t : string) :
  is_modifier t = false -> Forall (fun m => is_modifier m = true) mods ->
  targetIdx (pre ++ t :: mods ++ tail) (length pre + length mods) = length pre.
Proof.
  intros Ht. revert tail. induction mods as [|m mods IH] using rev_ind; intros tail Hm.
  - simpl. rewrite Nat.add_0_r. destruct pre as [|p pre]; [done|]. simpl.
    rewrite list_lookup_middle by done. simpl. by rewrite Ht.
  - apply Forall_app in Hm as [Hm [Hmm _]%Forall_cons].
    rewrite length_app. simpl. rewrite Nat.add_1_r, Nat.add_succ_r. simpl.
    assert ((pre ++ t :: (mods ++ [m]) ++ tail) !! S (length pre + length mods) = Some m) as ->.
    { rewrite lookup_app_r by lia.
      replace (S (length pre + length mods) - length pre) with (S (length mods)) by lia. simpl.
      rewrite <- app_assoc. by apply list_lookup_middle. }
    simpl. rewrite Hmm, <- app_assoc. by apply IH.
Qed.

Lemma targetIdx_last (pre mods : list string) (t : string) :
  is_modifier t = false -> Forall (fun m => is_modifier m = true) mods ->
  targetIdx (pre ++ t :: mods) (length (pre ++ t :: mods) - 1) = length pre.
Proof.
  intros Ht Hm. rewrite length_app. simpl.
  replace (length pre + S (length mods) - 1) with (length pre + length mods) by lia.
  rewrite <- (app_nil_r mods) at 1. by apply targetIdx_mods.
Qed.

(** The fields before the target, with the provider of a RULE-SET rule qualified. *)
Definition qualifyProvider (sourceName : string) (pre : list string) : list string :=
  match pre with
  | ty :: p :: rest => if String.eqb ty "RULE-SET" then ty :: prefixed sourceName p :: rest else pre
  | _ => pre
  end.

Lemma length_qualifyProvider (s : string) (pre : list string) : length (qualifyProvider s pre) = length pre.
Proof. destruct pre as [|ty [|p rest]]; simpl; [done|done|]. by case_if. Qed.

(** (C18) For a rule [TYPE,PAYLOAD...,TARGET,MODIFIER...], [rewriteRuleTarget]
    qualifies exactly the target, the rightmost field that is not a known
    modifier, unless it is a built-in, and, in a RULE-SET rule, the provider
    name; every other field is kept. *)
Theorem rewriteRuleTarget_spec (src t : string) (pre mods : list string) :
  pre <> [] -> (hd "" pre = "RULE-SET" -> 2 <= length pre) ->
  Forall (fun p => byte_free comma p = true) (pre ++ t :: mods) ->
  is_modifier t = false -> Forall (fun m => is_modifier m = true) mods ->
  rewriteRuleTarget (Join (pre ++ t :: mods) ",") src
  = Join (qualifyProvider src pre ++ rewriteMember src t :: mods) ",".
Proof.
  intros Hpre Hrs Hfree Ht Hm. unfold rewriteRuleTarget.
  change "," with (String comma ""). rewrite Split_Join by (by try destruct pre).
  assert ((length (pre ++ t :: mods) <? 2) = false) as ->.
  { apply Nat.ltb_ge. rewrite length_app. destruct pre; [done|]. simpl. lia. }
  destruct pre as [|ty pre]; [done|].
  change (default "" (((ty :: pre) ++ t :: mods) !! 0)) with ty.
  assert ((if String.eqb ty "RULE-SET"
           then <[1:=prefixed src (default "" (((ty :: pre) ++ t :: mods) !! 1))]> ((ty :: pre) ++ t :: mods)
           else (ty :: pre) ++ t :: mods) = qualifyProvider src (ty :: pre) ++ t :: mods) as ->.
  { destruct (String.eqb ty "RULE-SET") eqn:E; string_eqb.
    - specialize (Hrs E). destruct pre as [|p pre]; [simpl in Hrs; lia|]. simpl. by rewrite E.
    - destruct pre as [|p pre]; [done|]. simpl. apply String.eqb_neq in E. by rewrite E. }
  rewrite targetIdx_last, length_qualifyProvider by done. cbv zeta.
  assert (String.eqb ty "RULE-SET" && (length (ty :: pre) <=? 1) = false) as ->.
  { destruct (String.eqb ty "RULE-SET") eqn:E; string_eqb; [|done]. specialize (Hrs E). simpl in *.
    destruct pre; simpl in *; [lia|done]. }
  rewrite <- (length_qualifyProvider src (ty :: pre)).
  rewrite list_lookup_middle by done. simpl default. unfold rewriteMember.
  case_if; [done|]. f_equal. by rewrite insert_app_r_alt, Nat.sub_diag by done.
Qed.

Lemma rewriteRuleTarget_spec_witness :
  rewriteRuleTarget "RULE-SET,cn,Auto,no-resolve" "alpha" = "RULE-SET,alpha_cn,alpha_Auto,no-resolve".
Proof.
  apply (rewriteRuleTarget_spec "alpha" "Auto" ["RULE-SET"; "cn"] ["no-resolve"]);
    [done | simpl; lia | by repeat constructor | done | by repeat constructor].
Defined.

(** ** References between groups, proxies and groups *)
Definition names_of (nodes : list node) : list string := map (fun n => getMappingField n "name") nodes.

Lemma elem_of_names_of (n : node) (nodes : list node) :
  n ∈ nodes -> getMappingField n "name" ∈ names_of nodes.
Proof. intros H. unfold names_of. apply list_elem_of_fmap. by exists n. Qed.

(** Every member of every group is a built-in or the (non-empty) name of a node in [names]. *)
Definition refs_resolved (names : list string) (groups : list node) : Prop :=
  forall g m, g ∈ groups -> m ∈ mappingMembers g "proxies" ->
    is_builtin m = true \/ (m <> "" /\ m ∈ names).

Definition refs_resolvedb (names : list string) (groups : list node) : bool :=
  forallb (fun g => forallb (fun m => is_builtin m || negb (String.eqb m "") && bool_decide (m ∈ names))
                      (mappingMembers g "proxies")) groups.

Lemma refs_resolvedb_sound (names : list string) (groups : list node) :
  refs_resolvedb names groups = true -> refs_resolved names groups.
Proof.
  unfold refs_resolvedb. rewrite forallb_forall. intros H g m Hg%list_elem_of_In Hm%list_elem_of_In.
  specialize (H g Hg). rewrite forallb_forall in H. specialize (H m Hm).
  apply orb_true_iff in H as [H|H]; [by left|right]. apply andb_true_iff in H as [H1 H2].
  split; [by string_eqb|by apply bool_decide_eq_true in H2].
Qed.

Definition all_named (nodes : list node) : Prop := Forall (fun n => wf_named n = true) nodes.

(** A renamed group whose members are mapped by [f]. *)
Lemma renamed_members (pre : string) (g : node) (f : string -> string) :
  wf_named g = true ->
  mappingMembers
    (match mappingMembers (renameNode pre g) "proxies" with
     | [] => renameNode pre g
     | _ => setMappingMembers (renameNode pre g) "proxies" (map f (mappingMembers (renameNode pre g) "proxies"))
     end) "proxies" = map f (mappingMembers g "proxies").
Proof.
  intros (Hk & Hp & _)%wf_named_spec.
  assert (mappingMembers (renameNode pre g) "proxies" = mappingMembers g "proxies") as E.
  { unfold mappingMembers. by rewrite renameNode_other. }
  rewrite E. destruct (mappingMembers g "proxies") eqn:Em; [by rewrite E|]. rewrite <- Em in *.
  apply mappingMembers_set_same; [by rewrite renameNode_Kind|by rewrite renameNode_paired].
Qed.

Lemma renamed_group_name (pre : string) (g : node) (f : string -> string) :
  wf_named g = true ->
  getMappingField
    (match mappingMembers (renameNode pre g) "proxies" with
     | [] => renameNode pre g
     | _ => setMappingMembers (renameNode pre g) "proxies" (map f (mappingMembers (renameNode pre g) "proxies"))
     end) "name" = getMappingField (renameNode pre g) "name".
Proof.
  intros (Hk & Hp & _)%wf_named_spec. case_match; [done|].
  apply getMappingField_setMembers_other; [done|by rewrite renameNode_paired].
Qed.

Lemma renamed_in_names (pre m : string) (nodes : list node) :
  all_named nodes -> m <> "" -> m ∈ names_of nodes ->
  pre +:+ m ∈ names_of (map (renameNode pre) nodes).
Proof.
  intros Hall Hm. unfold names_of. rewrite !list_elem_of_fmap.
  intros (n & -> & Hn). exists (renameNode pre n). split; [|by apply list_elem_of_fmap_2].
  rewrite renameNode_name.
  - apply String.eqb_neq in Hm. by rewrite Hm.
  - unfold all_named in Hall. rewrite Forall_forall in Hall. by apply Hall, wf_named_spec in Hn as (_ & _ & ?).
Qed.

Lemma names_of_rewritten_groups (pre : string) (groups : list node) (f : string -> string) :
  all_named groups ->
  names_of (map (fun g => match mappingMembers (renameNode pre g) "proxies" with
     | [] => renameNode pre g
     | _ => setMappingMembers (renameNode pre g) "proxies" (map f (mappingMembers (renameNode pre g) "proxies"))
     end) groups) = names_of (map (renameNode pre) groups).
Proof.
  intros H. unfold names_of. rewrite !map_map. induction H as [|g gs Hg _ IH]; [done|].
  simpl. rewrite IH. f_equal. by apply renamed_group_name.
Qed.

(** A member some group lists that is neither a built-in nor one of [names]. *)
Definition dangling (names : list string) (groups : list node) (m : string) : Prop :=
  is_builtin m = false /\ (m = "" \/ m ∉ names) /\ exists g, g ∈ groups /\ m ∈ mappingMembers g "proxies".

Lemma not_dangling (names : list string) (groups : list node) :
  refs_resolved names groups <-> forall m, ~ dangling names groups m.
Proof.
  split.
  - intros H m (Hb & Hn & g & Hg & Hm). destruct (H g m Hg Hm) as [|[? ?]]; [congruence|naive_solver].
  - intros H g m Hg Hm. destruct (is_builtin m) eqn:Eb; [by left|right].
    destruct (decide (m = "")) as [He|He]; [destruct (H m); split_and!; [done|by left|by exists g]|].
    destruct (decide (m ∈ names)) as [Hi|Hi]; [done|destruct (H m); split_and!; [done|by right|by exists g]].
Qed.

(** Namespacing one source adds no dangling reference: a member of a rewritten
    group is a built-in, names a rewritten proxy or group, or is the prefixed
    form of a member that dangled in the source. *)
Lemma RewriteSource_members (src : string) (proxies groups : list node) (g' : node) (m' : string) :
  all_named proxies -> all_named groups ->
  g' ∈ map (fun g => rewriteGroupMembers (renameNode (src +:+ "_") g) src) groups -> m' ∈ mappingMembers g' "proxies" ->
  is_builtin m' = true
  \/ (m' <> "" /\ m' ∈ names_of (map (renameNode (src +:+ "_")) proxies)
                      ++ names_of (map (fun g => rewriteGroupMembers (renameNode (src +:+ "_") g) src) groups))
  \/ exists m, dangling (names_of proxies ++ names_of groups) groups m /\ m' = prefixed src m.
Proof.
  intros Hp Hg [g [-> Hin]]%list_elem_of_fmap Hm'.
  unfold rewriteGroupMembers in Hm'. rewrite renamed_members in Hm'
    by (unfold all_named in Hg; rewrite Forall_forall in Hg; by apply Hg).
  apply list_elem_of_fmap in Hm' as (m & -> & Hm). unfold rewriteMember.
  destruct (is_builtin m) eqn:E; [by left|right].
  destruct (decide (m <> "" /\ m ∈ names_of proxies ++ names_of groups)) as [[Hne Hn]|Hd].
  - left. split; [unfold prefixed; by destruct src|].
    unfold rewriteGroupMembers. rewrite names_of_rewritten_groups by done.
    rewrite <- prefixed_app. apply elem_of_app in Hn as [Hn|Hn]; apply elem_of_app; [left|right];
      by apply renamed_in_names.
  - right. exists m. split; [|done]. split_and!; [done| |by exists g].
    destruct (decide (m = "")); [by left|right]. naive_solver.
Qed.

(** A small source: two proxies, a group that lists one of them and a built-in. *)
Definition demo_proxy (name : string) : node :=
  lit MappingNode "" "!!map" [str_scalar "name"; str_scalar name; str_scalar "type"; str_scalar "ss"].
Definition demo_group (name : string) (members : list string) : node :=
  lit MappingNode "" "!!map"
    [str_scalar "name"; str_scalar name; str_scalar "type"; str_scalar "select";
     str_scalar "proxies"; lit SequenceNode "" "!!seq" (map str_scalar members)].

Lemma nameSets_decide (ps gs : list node) (m : string) :
  bool_decide (m ∈ nameSet ps) || bool_decide (m ∈ nameSet gs) = bool_decide (m <> "" /\ m ∈ names_of ps ++ names_of gs).
Proof.
  apply eq_true_iff_eq. rewrite orb_true_iff, !bool_decide_eq_true, !nameSet_spec, elem_of_app.
  unfold names_of. rewrite !list_elem_of_fmap. naive_solver.
Qed.

(** The same for the operator's own entries, whose dangling members, the
    references to upstream names among them, pass through as they are. *)
Lemma RewriteOwn_dangling (ownProxies ownGroups : list node) (g' : node) (m' : string) :
  all_named ownProxies -> all_named ownGroups ->
  g' ∈ (RewriteOwn ownProxies ownGroups).2 -> m' ∈ mappingMembers g' "proxies" ->
  is_builtin m' = true
  \/ (m' <> "" /\ m' ∈ names_of (RewriteOwn ownProxies ownGroups).1 ++ names_of (RewriteOwn ownProxies ownGroups).2)
  \/ dangling (names_of ownProxies ++ names_of ownGroups) ownGroups m'.
Proof.
  intros Hp Hg [g [-> Hin]]%list_elem_of_fmap Hm'. cbn [RewriteOwn fst snd].
  unfold rewriteOwnGroupMembers in Hm'. rewrite renamed_members in Hm'
    by (unfold all_named in Hg; rewrite Forall_forall in Hg; by apply Hg).
  apply list_elem_of_fmap in Hm' as (m & -> & Hm). unfold rewriteOwnMember.
  destruct (is_builtin m) eqn:E; [by left|right].
  rewrite nameSets_decide.
  case_bool_decide as Hd.
  - destruct Hd as [Hne Hn]. left. split; [done|]. unfold rewriteOwnGroupMembers. rewrite names_of_rewritten_groups by done.
    apply elem_of_app in Hn as [Hn|Hn]; apply elem_of_app; [left|right]; by apply renamed_in_names.
  - right. split_and!; [done| |by exists g]. destruct (decide (m = "")); [by left|right]. naive_solver.
Qed.

(** Renaming the operator's own entries keeps the references among them:
    a member that named an own proxy or own group names it by its new,
    underscore-prefixed name; built-ins and upstream references pass through. *)
Theorem RewriteOwn_members (ownProxies ownGroups ps' gs' : list node) (i : nat) (g : node) :
  all_named ownProxies -> all_named ownGroups ->
  RewriteOwn ownProxies ownGroups = (ps', gs') -> ownGroups !! i = Some g ->
  exists g', gs' !! i = Some g' /\
    Forall2 (fun m m' =>
      if is_builtin m then m' = m
      else if decide (m <> "" /\ m ∈ names_of ownProxies ++ names_of ownGroups)
      then m' = "_" +:+ m /\ m' ∈ names_of ps' ++ names_of gs'
      else m' = m) (mappingMembers g "proxies") (mappingMembers g' "proxies").
Proof.
  intros Hp Hg [= <- <-] Hi.
  exists (rewriteOwnGroupMembers (renameNode "_" g) (nameSet ownProxies) (nameSet ownGroups)).
  split; [by rewrite list_lookup_fmap, Hi|].
  unfold rewriteOwnGroupMembers. rewrite names_of_rewritten_groups, renamed_members; [|exact (Forall_lookup_1 _ _ _ _ Hg Hi)|done].
  apply Forall2_fmap_r, Forall_Forall2_diag, Forall_forall. intros m _. simpl.
  unfold rewriteOwnMember. case_if; [done|].
  rewrite nameSets_decide.
  case_decide as Hd; [rewrite bool_decide_eq_true_2 by done|by rewrite bool_decide_eq_false_2].
  destruct Hd as [Hne Hn]. split; [done|].
  apply elem_of_app in Hn as [Hn|Hn]; apply elem_of_app; [left|right]; by apply renamed_in_names.
Qed.

Lemma RewriteOwn_members_witness :
  exists g', map (fun g => rewriteOwnGroupMembers (renameNode "_" g) {["home"]} {["mine"]})
               [demo_group "mine" ["home"; "PASS"; "alpha_HK"]] !! 0 = Some g'
    /\ mappingMembers g' "proxies" = ["_home"; "PASS"; "alpha_HK"].
Proof.
  destruct (RewriteOwn_members [demo_proxy "home"] [demo_group "mine" ["home"; "PASS"; "alpha_HK"]] _ _ 0
              (demo_group "mine" ["home"; "PASS"; "alpha_HK"])
              ltac:(by repeat constructor) ltac:(by repeat constructor) eq_refl eq_refl) as (g' & Hg' & HF).
  exists g'. split; [exact Hg'|].
  injection Hg' as <-. vm_compute. reflexivity.
Defined.
