(* ===== verification/CustomRules.v ===== *)
(** * internal/customrules: operator-defined rule sets

    A directory entry carries what reading and decoding the file gave:
    [os.ReadDir], [os.ReadFile] and [yaml.Unmarshal] are the inputs of the model. *)
From stdpp Require Import base gmap sets list strings sorting.
From Stdlib Require Import ZArith Lia Ascii.
From S2P Require Import Prelude GoStrings GoSort.

Record CustomRuleSet := MkCustomRuleSet { csName : string; csPriority : Z; csRules : list string }.

(** The decoding target: a pointer field is [None] when absent; a nil [rules]
    slice and an empty one are both []. *)
Record customRuleSetFile := MkRuleFile {
  fName : option string;
  fPriority : option Z;
  fRules : list string
}.

Inductive fileContent :=
| ReadError
| ParseError
| Parsed (f : customRuleSetFile).

Record dirEntry := MkDirEntry { deName : string; deIsDir : bool; deFile : fileContent }.

(** The file name without its [.yaml], then without its [.yml] extension. *)
Definition defaultName (base : string) : string := TrimSuffix (TrimSuffix base ".yaml") ".yml".

(** The body of the loop: the rule set of one entry, [None] when it is skipped. *)
Definition loadEntry (e : dirEntry) : option CustomRuleSet :=
  if deIsDir e || negb (HasSuffix (deName e) ".yaml") && negb (HasSuffix (deName e) ".yml") then None
  else match deFile e with
       | ReadError | ParseError => None
       | Parsed f =>
           let name := match fName f with
                       | Some n => if String.eqb n "" then defaultName (deName e) else n
                       | None => defaultName (deName e)
                       end in
           match fPriority f with
           | Some p => if (p <? 0)%Z then None else Some (MkCustomRuleSet name p (fRules f))
           | None => Some (MkCustomRuleSet name 1000 (fRules f))
           end
       end.

(** (priority, name) order *)
Definition ruleSetLess (a b : CustomRuleSet) : bool :=
  if Z.eqb (csPriority a) (csPriority b) then str_less (csName a) (csName b)
  else (csPriority a <? csPriority b)%Z.

(** [Load]; an unreadable folder gives no rule set.  [sort.Slice] may order
    entries that agree on both keys in any way; the model keeps file order. *)
Definition Load (entries : option (list dirEntry)) : list CustomRuleSet :=
  match entries with
  | None => []
  | Some es => SliceStable ruleSetLess (omap loadEntry es)
  end.

(** * Lemmas *)

(** Every loaded rule set comes from a .yaml or .yml file of the folder and
    has a non-negative priority, 1000 when the file gives none; sets of
    unreadable, malformed or negative-priority files are left out and the rest
    are all kept. *)
Theorem Load_elements (es : list dirEntry) (cs : CustomRuleSet) :
  cs ∈ Load (Some es) <->
  exists e f, e ∈ es /\ deIsDir e = false
    /\ (HasSuffix (deName e) ".yaml" = true \/ HasSuffix (deName e) ".yml" = true)
    /\ deFile e = Parsed f /\ (0 <= default 1000 (fPriority f))%Z
    /\ csPriority cs = default 1000%Z (fPriority f) /\ csRules cs = fRules f
    /\ csName cs = (let n := default "" (fName f) in
                    if String.eqb n "" then defaultName (deName e) else n).
Proof.
  unfold Load. rewrite elem_of_SliceStable, list_elem_of_omap. apply exist_proper. intros e.
  unfold loadEntry. split.
  - intros [He Hl]. case_if_in Hl; [done|]. apply orb_false_iff in Heqb as [Hd Hs].
    assert (HasSuffix (deName e) ".yaml" = true \/ HasSuffix (deName e) ".yml" = true) as Hsuf.
    { destruct (HasSuffix (deName e) ".yaml"), (HasSuffix (deName e) ".yml"); auto. }
    destruct (deFile e) as [| |f]; [done|done|]. exists f.
    destruct (fPriority f) as [p|] eqn:Hp; [case_if_in Hl; [done|]|]; simplify_eq; simpl;
      split_and!; auto; try lia; destruct (fName f) as [n|]; done.
  - intros (f & He & Hd & Hsuf & Hf & Hpr & Hp & Hr & Hn). split; [done|].
    rewrite Hd. assert (negb (HasSuffix (deName e) ".yaml") && negb (HasSuffix (deName e) ".yml") = false) as ->.
    { destruct Hsuf as [-> | ->]; [done|]. by rewrite andb_false_r. }
    simpl. rewrite Hf. destruct cs as [cn cp cr]; simpl in *.
    destruct (fPriority f) as [p|]; simpl in *; [assert ((p <? 0)%Z = false) as -> by lia|]; subst;
      destruct (fName f) as [n|]; done.
Qed.
