(* ===== verification/Proxies.v ===== *)
(** * internal/merge/proxies.go: the union of all proxies *)
From stdpp Require Import base gmap sets list strings sorting.
From Stdlib Require Import ZArith Lia Ascii.
From S2P Require Import Prelude GoStrings Yaml Namespace.

Record ProxyCollision := MkProxyCollision {
  pcProxyName : string;
  pcSources : list string;
  pcResolution : string
}.

(** The local variables of [MergeProxies]. *)
Record mergeState := MkMergeState {
  msMerged : list node;
  msUsed : gset string;
  msFirstSource : gmap string string;
  msCollisions : list ProxyCollision
}.

(** One iteration of the loop over own proxies. *)
Definition mergeOwn (st : mergeState) (p : node) : mergeState :=
  let clone := cloneNode p in
  let name := getMappingField clone "name" in
  if String.eqb name "" then st
  else MkMergeState (msMerged st ++ [clone]) ({[name]} ∪ msUsed st)
         (<[name := "own"]> (msFirstSource st)) (msCollisions st).

(** One iteration of the loop over the proxies of [source]. *)
Definition mergeUpstream (source : string) (st : mergeState) (p : node) : mergeState :=
  let clone := cloneNode p in
  let name := getMappingField clone "name" in
  if String.eqb name "" then st
  else if bool_decide (name ∈ msUsed st) then
    let finalName := name +:+ "@" +:+ source in
    let clone := (setMappingField clone "name" finalName).1 in
    MkMergeState (msMerged st ++ [clone]) ({[finalName]} ∪ msUsed st) (msFirstSource st)
      (msCollisions st ++
        [MkProxyCollision name [default "" (msFirstSource st !! name); source] finalName])
  else
    MkMergeState (msMerged st ++ [clone]) ({[name]} ∪ msUsed st)
      (<[name := source]> (msFirstSource st)) (msCollisions st).

(** [perSource[source]]: a missing key reads as the nil slice. *)
Definition lookup_nodes (perSource : gmap string (list node)) (source : string) : list node :=
  default [] (perSource !! source).

Definition MergeProxies (perSource : gmap string (list node)) (sortedSources : list string)
    (own : list node) : list node * list ProxyCollision :=
  let st := foldl mergeOwn (MkMergeState [] ∅ ∅ []) own in
  let st := foldl (fun st source => foldl (mergeUpstream source) st (lookup_nodes perSource source))
              st sortedSources in
  (msMerged st, msCollisions st).

(** * Lemmas *)
Definition named (n : node) : Prop := getMappingField n "name" <> "".
#[export] Instance named_dec (n : node) : Decision (named n).
Proof. unfold named. apply _. Defined.

(** The proxies offered to the merge, in processing order, with their source. *)
Definition candidates (perSource : gmap string (list node)) (sources : list string) : list (string * node) :=
  mjoin (map (fun s => map (pair s) (lookup_nodes perSource s)) sources).

(** The two nested loops are one loop over the candidates. *)
Lemma merge_flat (perSource : gmap string (list node)) (sources : list string) (st : mergeState) :
  foldl (fun st source => foldl (mergeUpstream source) st (lookup_nodes perSource source)) st sources
  = foldl (fun st sp => mergeUpstream sp.1 st sp.2) st (candidates perSource sources).
Proof.
  revert st. induction sources as [|s ss IH]; intros st; [done|].
  change (candidates perSource (s :: ss))
    with (map (pair s) (lookup_nodes perSource s) ++ candidates perSource ss).
  simpl. rewrite IH, foldl_app. f_equal. generalize (lookup_nodes perSource s). intros l. revert st.
  induction l as [|p l IHl]; intros st; [done|]. simpl. by rewrite IHl.
Qed.

(** What one upstream proxy may become. *)
Definition kept_or_suffixed (sp : string * node) (p' : node) : Prop :=
  p' = sp.2 \/ p' = (setMappingField sp.2 "name" (getMappingField sp.2 "name" +:+ "@" +:+ sp.1)).1.

Lemma mergeOwn_merged (own : list node) (st : mergeState) :
  msMerged (foldl mergeOwn st own) = msMerged st ++ filter named own
  /\ msCollisions (foldl mergeOwn st own) = msCollisions st.
Proof.
  revert st. induction own as [|p own IH]; intros st; simpl; [by rewrite app_nil_r|].
  destruct (IH (mergeOwn st p)) as [-> ->]. rewrite filter_cons.
  unfold mergeOwn. rewrite cloneNode_id.
  destruct (String.eqb (getMappingField p "name") "") eqn:E; string_eqb.
  - rewrite decide_False by (unfold named; tauto). done.
  - rewrite decide_True by done. simpl. by rewrite <- app_assoc.
Qed.

Lemma mergeUpstream_merged (cands : list (string * node)) (st : mergeState) :
  exists up, msMerged (foldl (fun st sp => mergeUpstream sp.1 st sp.2) st cands) = msMerged st ++ up
    /\ Forall2 kept_or_suffixed (filter (fun sp => named sp.2) cands) up.
Proof.
  revert st. induction cands as [|[s p] cands IH]; intros st; simpl.
  - exists []. rewrite app_nil_r. split; [done|constructor].
  - destruct (IH (mergeUpstream s st p)) as (up & Hup & HF). rewrite filter_cons. simpl.
    unfold mergeUpstream in *. rewrite cloneNode_id in *.
    destruct (String.eqb (getMappingField p "name") "") eqn:E; string_eqb.
    + rewrite decide_False by (unfold named; tauto). by exists up.
    + rewrite decide_True by done. case_if; simpl in *.
      * eexists (_ :: up). rewrite Hup, <- app_assoc. split; [done|]. constructor; [by right|done].
      * exists (p :: up). rewrite Hup, <- app_assoc. split; [done|]. constructor; [by left|done].
Qed.

(** Own proxies come first and keep their identity; every named upstream
    proxy follows in source order, unchanged or with its name suffixed
    [name@source]; nothing else is emitted and nothing named is lost. *)
Theorem MergeProxies_shape (perSource : gmap string (list node)) (sources : list string) (own : list node) :
  exists up, (MergeProxies perSource sources own).1 = filter named own ++ up
    /\ Forall2 kept_or_suffixed (filter (fun sp => named sp.2) (candidates perSource sources)) up.
Proof.
  unfold MergeProxies. simpl. rewrite merge_flat.
  destruct (mergeUpstream_merged (candidates perSource sources)
    (foldl mergeOwn (MkMergeState [] ∅ ∅ []) own)) as (up & -> & HF).
  exists up. split; [|done]. by destruct (mergeOwn_merged own (MkMergeState [] ∅ ∅ [])) as [-> _].
Qed.

(** ** No collisions after namespacing *)

(** The used set is the set of emitted names. *)
Definition used_ok (st : mergeState) : Prop :=
  forall x, x ∈ msUsed st <-> x ∈ names_of (msMerged st).

Lemma mergeOwn_used (own : list node) (st : mergeState) :
  used_ok st -> used_ok (foldl mergeOwn st own).
Proof.
  revert st. induction own as [|p own IH]; intros st Hst; simpl; [done|]. apply IH.
  unfold mergeOwn. rewrite cloneNode_id. case_if; [done|]. intros x.
  unfold names_of. simpl. rewrite map_app. specialize (Hst x). set_solver.
Qed.

(** With pairwise distinct names nothing is renamed. *)
Lemma mergeUpstream_distinct (cands : list (string * node)) (st : mergeState) :
  used_ok st ->
  NoDup (names_of (msMerged st) ++ names_of (filter named (map snd cands))) ->
  msMerged (foldl (fun st sp => mergeUpstream sp.1 st sp.2) st cands)
    = msMerged st ++ filter named (map snd cands)
  /\ msCollisions (foldl (fun st sp => mergeUpstream sp.1 st sp.2) st cands) = msCollisions st.
Proof.
  revert st. induction cands as [|[s p] cands IH]; intros st Hst Hnd; simpl; [by rewrite app_nil_r|].
  simpl in Hnd. rewrite filter_cons in Hnd |- *.
  unfold mergeUpstream at 2 4. rewrite cloneNode_id.
  destruct (String.eqb (getMappingField p "name") "") eqn:E; string_eqb.
  - rewrite decide_False in * by (unfold named; tauto). by apply IH.
  - rewrite decide_True in * by done. unfold names_of in Hnd. simpl in Hnd.
    rewrite bool_decide_eq_false_2.
    2: { rewrite (Hst _). apply NoDup_app in Hnd as (_ & Hd & _). intros Hin. by apply (Hd _ Hin), list_elem_of_here. }
    destruct (IH (MkMergeState (msMerged st ++ [p]) ({[getMappingField p "name"]} ∪ msUsed st)
      (<[getMappingField p "name" := s]> (msFirstSource st)) (msCollisions st))) as [-> ->]; simpl.
    + intros x. unfold names_of. simpl. rewrite map_app. specialize (Hst x). set_solver.
    + unfold names_of. rewrite map_app, <- app_assoc. done.
    + by rewrite <- app_assoc.
Qed.

Lemma MergeProxies_distinct (perSource : gmap string (list node)) (sources : list string) (own : list node) :
  NoDup (names_of (filter named own ++ filter named (map snd (candidates perSource sources)))) ->
  MergeProxies perSource sources own
  = (filter named own ++ filter named (map snd (candidates perSource sources)), []).
Proof.
  intros Hnd. unfold MergeProxies. rewrite merge_flat.
  pose proof (mergeOwn_merged own (MkMergeState [] ∅ ∅ [])) as [Hm Hc].
  pose proof (mergeOwn_used own (MkMergeState [] ∅ ∅ [])) as Hu.
  destruct (mergeUpstream_distinct (candidates perSource sources)
    (foldl mergeOwn (MkMergeState [] ∅ ∅ []) own)) as [H1 H2].
  - apply Hu. intros x. simpl. set_solver.
  - rewrite Hm. simpl. unfold names_of in *. by rewrite map_app in Hnd.
  - rewrite H1, H2, Hm, Hc. done.
Qed.

Lemma names_renamed (pre : string) (l : list node) :
  all_named l ->
  names_of (filter named (map (renameNode pre) l)) = map (fun x => pre +:+ x) (names_of (filter named l)).
Proof.
  induction 1 as [|n l Hn _ IH]; [done|].
  apply wf_named_spec in Hn as (_ & _ & Hd). pose proof (renameNode_name pre n Hd) as Hname.
  simpl map. rewrite !filter_cons.
  destruct (String.eqb (getMappingField n "name") "") eqn:E; string_eqb.
  - rewrite !decide_False; [done|unfold named; tauto..].
  - rewrite !decide_True; [|done|].
    + unfold names_of in *. simpl. by rewrite IH, Hname.
    + unfold named. rewrite Hname. intros [_ ?]%str_app_eq_nil. done.
Qed.

(** A name of a valid upstream source: non-empty and without underscore. *)
Definition valid_source (s : string) : Prop := s <> "" /\ byte_free underscore s = true.

Lemma own_not_prefixed (s x y : string) : valid_source s -> "_" +:+ x <> prefixed s y.
Proof.
  intros [Hne Hf] Heq. destruct s as [|c s]; [done|]. injection Heq as <- _. by simpl in Hf.
Qed.

(** The names upstream candidates carry after namespacing are distinct. *)
Lemma candidates_nodup (raw perSource : gmap string (list node)) (sources : list string) :
  NoDup sources -> Forall valid_source sources ->
  (forall s, s ∈ sources -> all_named (lookup_nodes raw s) /\ NoDup (names_of (filter named (lookup_nodes raw s)))
     /\ lookup_nodes perSource s = map (renameNode (s +:+ "_")) (lookup_nodes raw s)) ->
  NoDup (names_of (filter named (map snd (candidates perSource sources))))
  /\ forall x, x ∈ names_of (filter named (map snd (candidates perSource sources))) ->
       exists s y, s ∈ sources /\ x = prefixed s y.
Proof.
  induction sources as [|s ss IH]; intros Hnd Hv Hraw; [split; [constructor|set_solver]|].
  apply NoDup_cons in Hnd as [Hs Hnd]. apply Forall_cons in Hv as [Hvs Hv].
  destruct (IH Hnd Hv) as [IHn IHx]; [intros; apply Hraw; set_solver|].
  destruct (Hraw s) as (Hall & Hn & Heq); [set_solver|].
  change (candidates perSource (s :: ss))
    with (map (pair s) (lookup_nodes perSource s) ++ candidates perSource ss).
  rewrite map_app, filter_app, map_map. simpl. rewrite map_id, Heq.
  unfold names_of at 1 2. rewrite !map_app.
  fold (names_of (filter named (map (renameNode (s +:+ "_")) (lookup_nodes raw s)))).
  fold (names_of (filter named (map snd (candidates perSource ss)))).
  rewrite names_renamed by done.
  assert (forall x, x ∈ map (fun x => (s +:+ "_") +:+ x) (names_of (filter named (lookup_nodes raw s))) ->
            exists y, x = prefixed s y) as Hpre.
  { intros x (y & -> & _)%list_elem_of_fmap. exists y. by rewrite prefixed_app. }
  split.
  - apply NoDup_app. split_and!; [|intros x [y ->]%Hpre (s' & y' & Hin & Heq')%IHx|done].
    + apply (NoDup_fmap_2 _), Hn.
    + destruct (prefixed_inj s s' y y') as [-> _]; [apply Hvs| |done|done].
      rewrite Forall_forall in Hv. by apply Hv.
  - intros x [[y ->]%Hpre|(s' & y & Hin & ->)%IHx]%elem_of_app; [exists s, y|exists s', y]; set_solver.
Qed.

(** (C19) After provider-prefix namespacing, collisions are structurally
    impossible: when source names are valid and distinct and each input list
    has distinct names, the merge reports no collision, renames nothing, and
    the served proxies have pairwise distinct names. *)
Theorem MergeProxies_no_collisions (raw perSource : gmap string (list node)) (sources : list string)
    (ownRaw : list node) :
  NoDup sources -> Forall valid_source sources ->
  (forall s, s ∈ sources -> all_named (lookup_nodes raw s) /\ NoDup (names_of (filter named (lookup_nodes raw s)))
     /\ lookup_nodes perSource s = map (renameNode (s +:+ "_")) (lookup_nodes raw s)) ->
  all_named ownRaw -> NoDup (names_of (filter named ownRaw)) ->
  (MergeProxies perSource sources (map (renameNode "_") ownRaw)).2 = []
  /\ NoDup (names_of (MergeProxies perSource sources (map (renameNode "_") ownRaw)).1).
Proof.
  intros Hnd Hv Hraw Hown Hownn.
  destruct (candidates_nodup raw perSource sources Hnd Hv Hraw) as [Hc Hx].
  assert (NoDup (names_of (filter named (map (renameNode "_") ownRaw)
                           ++ filter named (map snd (candidates perSource sources))))) as Hall.
  { unfold names_of. rewrite map_app. fold (names_of (filter named (map (renameNode "_") ownRaw))).
    rewrite names_renamed by done. apply NoDup_app. split_and!.
    - apply (NoDup_fmap_2 _), Hownn.
    - intros x (y & -> & _)%list_elem_of_fmap (s & z & Hs & Heq)%Hx.
      rewrite Forall_forall in Hv. by apply (own_not_prefixed s y z (Hv _ Hs)).
    - done. }
  by rewrite (MergeProxies_distinct _ _ _ Hall).
Qed.

Lemma MergeProxies_no_collisions_witness :
  (MergeProxies {["a" := [demo_proxy "a_HK"]; "b" := [demo_proxy "b_HK"]]} ["a"; "b"] [demo_proxy "_HK"]).2 = [].
Proof.
  apply (MergeProxies_no_collisions {["a" := [demo_proxy "HK"]; "b" := [demo_proxy "HK"]]}
    {["a" := [demo_proxy "a_HK"]; "b" := [demo_proxy "b_HK"]]} ["a"; "b"] [demo_proxy "HK"]).
  - apply (bool_decide_unpack _); vm_compute; done.
  - by repeat constructor.
  - intros s Hs. apply elem_of_cons in Hs as [->|Hs%list_elem_of_singleton]; [|subst s];
      (split_and!; [by repeat constructor | apply (bool_decide_unpack _); vm_compute; done | by vm_compute]).
  - by repeat constructor.
  - apply (bool_decide_unpack _); vm_compute; done.
Defined.

(** Three proxies of one name in one source: the second and the third get the
    same suffixed name. *)
Theorem MergeProxies_triple_duplicate :
  names_of (MergeProxies {["a" := [demo_proxy "a_X"; demo_proxy "a_X"; demo_proxy "a_X"]]} ["a"] []).1
  = ["a_X"; "a_X@a"; "a_X@a"].
Proof. by vm_compute. Qed.
