(* ===== verification/Subscriptions.v ===== *)
(** * internal/config/subscriptions.go: the subscriptions CSV

    The reader's input is the sequence of results [csv.Reader.Read] returns
    (a record or a read error, end of file being the end of the list);
    [url.Parse] is a parameter about which nothing is assumed. *)
From stdpp Require Import base gmap sets list strings sorting.
From Stdlib Require Import ZArith Lia Ascii.
From S2P Require Import Prelude GoStrings.

(** [url.Parse]: scheme, host and path of a link, [None] for an error. *)
Record url := MkUrl { uScheme : string; uHost : string; uPath : string }.
Class UrlParser := { url_Parse : string -> option url }.

Record SubscriptionRow := MkRow {
  Name : string;
  Link : string;
  Priority : Z;
  Enable : bool;
  RefreshSeconds : Z;
  StaleOnErrorSeconds : Z
}.

Definition requiredCols : list string := ["name"; "link"; "priority"; "enable"].
Definition optionalCols : list string := ["refresh"; "stale_on_error_seconds"].

(** The reasons a [ConfigValidationError] gives, with the values they quote. *)
Inductive reason :=
| ReasonEmpty
| ReasonInvalidURL (link : string)
| ReasonNotInteger (v : string)
| ReasonNotEnable (v : string)
| ReasonNotPositive (v : string)
| ReasonDuplicateOf (row : nat).

Inductive csvError :=
| ReadHeaderError
| ReadRowError (row : nat)
| ConfigSchemaError (missing unknown : list string)
| ConfigValidationError (row : nat) (field : string) (why : reason).

(** [^[a-z]+$] *)
Fixpoint all_lower (s : string) : bool :=
  match s with "" => true | String c s' => in_rng 97 (byte_val c) 122 && all_lower s' end.
Definition nameFormatRe (s : string) : bool := negb (String.eqb s "") && all_lower s.

(** The closure [get] of [parseRow]: the trimmed cell, [None] when the column
    is absent from the header or the record is too short. *)
Definition get_cell (rec : list string) (colIdx : gmap string nat) (col : string) : option string :=
  match colIdx !! col with
  | Some idx => TrimSpace <$> rec !! idx
  | None => None
  end.

Section parse.
Context `{UnicodeTables, UrlParser}.

Definition parseEnable (v : string) : option bool :=
  if EqualFold v "Enable" then Some true
  else if EqualFold v "Disable" then Some false
  else None.

Definition parseRow (rec : list string) (colIdx : gmap string nat) (rowNum : nat)
    : csvError + SubscriptionRow :=
  let get := get_cell rec colIdx in
  let err := ConfigValidationError rowNum in
  let name := default "" (get "name") in
  if String.eqb name "" then inl (err "name" ReasonEmpty) else
  let link := default "" (get "link") in
  let linkOk := match url_Parse link with
                | Some u => (String.eqb (uScheme u) "http" || String.eqb (uScheme u) "https")
                            && negb (String.eqb (uHost u) "")
                | None => false
                end in
  if negb linkOk then inl (err "link" (ReasonInvalidURL link)) else
  let priorityStr := default "" (get "priority") in
  match ParseInt priorityStr with
  | None => inl (err "priority" (ReasonNotInteger priorityStr))
  | Some p =>
      let enableStr := default "" (get "enable") in
      match parseEnable enableStr with
      | None => inl (err "enable" (ReasonNotEnable enableStr))
      | Some en =>
          let refresh :=
            match get "refresh" with
            | Some v => if String.eqb v "" then inr 0%Z
                        else match ParseInt v with
                             | Some n => inr n
                             | None => inl (err "refresh" (ReasonNotInteger v))
                             end
            | None => inr 0%Z
            end in
          match refresh with
          | inl e => inl e
          | inr r =>
              match get "stale_on_error_seconds" with
              | Some v =>
                  if String.eqb v "" then inr (MkRow name link p en r 0)
                  else match ParseInt v with
                       | Some n => if (n <=? 0)%Z
                                   then inl (err "stale_on_error_seconds" (ReasonNotPositive v))
                                   else inr (MkRow name link p en r n)
                       | None => inl (err "stale_on_error_seconds" (ReasonNotPositive v))
                       end
              | None => inr (MkRow name link p en r 0)
              end
          end
      end
  end.

(** The header loop: column positions (the last of a repeated column wins)
    and the unknown column names. *)
Fixpoint scanHeader (header : list string) (i : nat) (colIdx : gmap string nat) (unknown : list string)
    : gmap string nat * list string :=
  match header with
  | [] => (colIdx, unknown)
  | h :: rest =>
      let key := ToLower (TrimSpace h) in
      if bool_decide (key ∈ requiredCols ++ optionalCols)
      then scanHeader rest (S i) (<[key := i]> colIdx) unknown
      else scanHeader rest (S i) colIdx (unknown ++ [key])
  end.

(** The record loop.  A record whose name is empty or malformed is skipped; a
    second record of the same name is an error. *)
Fixpoint parseRecords (recs : list (unit + list string)) (colIdx : gmap string nat)
    (rowNum : nat) (seen : gmap string nat) (rows : list SubscriptionRow)
    : csvError + list SubscriptionRow :=
  match recs with
  | [] => inr rows
  | inl _ :: _ => inl (ReadRowError (rowNum + 1))
  | inr rec :: rest =>
      let rowNum := S rowNum in
      let nameVal := default "" (get_cell rec colIdx "name") in
      if String.eqb nameVal "" || negb (nameFormatRe nameVal)
      then parseRecords rest colIdx rowNum seen rows
      else match parseRow rec colIdx rowNum with
           | inl e => inl e
           | inr row =>
               match seen !! Name row with
               | Some prev => inl (ConfigValidationError rowNum "name" (ReasonDuplicateOf prev))
               | None => parseRecords rest colIdx rowNum (<[Name row := rowNum]> seen) (rows ++ [row])
               end
           end
  end.

Definition parseSubscriptions (reads : list (unit + list string)) : csvError + list SubscriptionRow :=
  match reads with
  | [] | inl _ :: _ => inl ReadHeaderError
  | inr header :: recs =>
      let '(colIdx, unknown) := scanHeader header 0 ∅ [] in
      let missing := filter (fun req => colIdx !! req = None) requiredCols in
      match missing, unknown with
      | [], [] => parseRecords recs colIdx 0 ∅ []
      | _, _ => inl (ConfigSchemaError missing unknown)
      end
  end.

(** * Lemmas *)
Definition row_ok (row : SubscriptionRow) : Prop :=
  nameFormatRe (Name row) = true /\ in_int64 (Priority row) /\ in_int64 (RefreshSeconds row)
  /\ (0 <= StaleOnErrorSeconds row)%Z
  /\ exists u, url_Parse (Link row) = Some u /\ uScheme u ∈ ["http"; "https"] /\ uHost u <> "".

Lemma in_int64_0 : in_int64 0.
Proof. unfold in_int64. lia. Qed.

Lemma parseRow_ok (rec : list string) (colIdx : gmap string nat) (n : nat) (row : SubscriptionRow) :
  parseRow rec colIdx n = inr row ->
  nameFormatRe (default "" (get_cell rec colIdx "name")) = true ->
  Name row = default "" (get_cell rec colIdx "name") /\ row_ok row.
Proof.
  unfold parseRow, row_ok. intros Hp Hn.
  repeat case_match; simplify_eq; simpl in *; split; try done; split_and!;
    try done; try lia; eauto using ParseInt_range, in_int64_0; string_eqb.
  all: eexists; split; [done|]; split; [|done].
  all: match goal with H : _ || _ = true |- _ => apply orb_true_iff in H as [H|H] end; string_eqb; set_solver.
Qed.

Lemma parseRecords_ok (recs : list (unit + list string)) (colIdx : gmap string nat) (n : nat)
    (seen : gmap string nat) (rows out : list SubscriptionRow) :
  parseRecords recs colIdx n seen rows = inr out ->
  (forall x, is_Some (seen !! x) <-> x ∈ map Name rows) ->
  NoDup (map Name rows) -> Forall row_ok rows ->
  NoDup (map Name out) /\ Forall row_ok out.
Proof.
  revert n seen rows. induction recs as [|[[]|rec] recs IH]; intros n seen rows Hp Hseen Hnd Hok;
    simpl in Hp; [by simplify_eq|done|].
  case_if_in Hp; [by eapply IH|]. string_eqb.
  destruct (parseRow rec colIdx (S n)) as [e|row] eqn:Hrow; [done|].
  destruct (parseRow_ok _ _ _ _ Hrow ltac:(done)) as [_ Hr].
  destruct (seen !! Name row) as [prev|] eqn:Hs; [done|].
  eapply IH; [done| | |].
  - intros x. rewrite lookup_insert, map_app, elem_of_app. simpl. specialize (Hseen x).
    case_decide; subst; set_solver.
  - rewrite map_app. apply NoDup_app. split_and!; [done| |apply NoDup_singleton].
    intros x Hx%Hseen ->%list_elem_of_singleton. rewrite Hs in Hx. by destruct Hx.
  - apply Forall_app_2; [done|]. by apply Forall_singleton.
Qed.

(** The names the record loop keeps: the well-formed ones, in order. *)
Definition kept_names (colIdx : gmap string nat) (recs : list (unit + list string)) : list string :=
  omap (fun r => match r with
                 | inr rec => let v := default "" (get_cell rec colIdx "name") in
                              if nameFormatRe v then Some v else None
                 | inl _ => None
                 end) recs.

Lemma nameFormatRe_nonempty (s : string) : nameFormatRe s = true -> s <> "".
Proof. unfold nameFormatRe. intros H' ->. done. Qed.

Lemma parseRecords_names (recs : list (unit + list string)) (colIdx : gmap string nat) (n : nat)
    (seen : gmap string nat) (rows out : list SubscriptionRow) :
  parseRecords recs colIdx n seen rows = inr out ->
  map Name out = map Name rows ++ kept_names colIdx recs.
Proof.
  revert n seen rows. induction recs as [|[[]|rec] recs IH]; intros n seen rows Hp;
    simpl in Hp; [simplify_eq; by rewrite app_nil_r|done|].
  unfold kept_names in *. csimpl.
  destruct (nameFormatRe (default "" (get_cell rec colIdx "name"))) eqn:Hn.
  - pose proof (nameFormatRe_nonempty _ Hn) as Hne%String.eqb_neq. rewrite Hne in Hp. simpl in Hp.
    destruct (parseRow rec colIdx (S n)) as [e|row] eqn:Hrow; [done|].
    destruct (parseRow_ok _ _ _ _ Hrow Hn) as [Hname _].
    destruct (seen !! Name row); [done|].
    rewrite (IH _ _ _ Hp), map_app, <- app_assoc. simpl. by rewrite Hname.
  - rewrite orb_true_r in Hp. by apply IH in Hp.
Qed.

(** What a successful load says of the rows alone. *)
Lemma parseSubscriptions_rows (reads : list (unit + list string)) (rows : list SubscriptionRow) :
  parseSubscriptions reads = inr rows -> NoDup (map Name rows) /\ Forall row_ok rows.
Proof.
  destruct reads as [|[u|header] recs]; [done|done|]. unfold parseSubscriptions.
  destruct (scanHeader header 0 ∅ []) as [colIdx unknown] eqn:Hh. intros Hp.
  destruct (filter (fun req => colIdx !! req = None) requiredCols) eqn:Hm; [|done]. destruct unknown; [|done].
  destruct (parseRecords_ok _ _ _ _ _ _ Hp) as [Hnd Hok]; [|constructor|constructor|done].
  intros x. rewrite lookup_empty. simpl. rewrite elem_of_nil. split; [by intros []|done].
Qed.

(** (C40) Loading is strict: on success there is exactly one row per record
    with a well-formed name, in file order, the names are pairwise distinct
    and match [^[a-z]+$], every link is an http(s) URL with a host and every
    number fits its type; the header has every required column and no unknown
    one. *)
Theorem parseSubscriptions_sound (header : list string) (recs : list (unit + list string))
    (rows : list SubscriptionRow) :
  parseSubscriptions (inr header :: recs) = inr rows ->
  let '(colIdx, unknown) := scanHeader header 0 ∅ [] in
  unknown = [] /\ (forall c, c ∈ requiredCols -> is_Some (colIdx !! c))
  /\ map Name rows = kept_names colIdx recs /\ NoDup (map Name rows) /\ Forall row_ok rows.
Proof.
  unfold parseSubscriptions. destruct (scanHeader header 0 ∅ []) as [colIdx unknown] eqn:Hh. intros Hp.
  destruct (filter (fun req => colIdx !! req = None) requiredCols) eqn:Hm; [|done].
  destruct unknown; [|done].
  destruct (parseRecords_ok _ _ _ _ _ _ Hp) as [Hnd Hok]; [|constructor|constructor|].
  { intros x. rewrite lookup_empty. simpl. rewrite elem_of_nil. split; [by intros []|done]. }
  split_and!; [done| |by apply parseRecords_names in Hp|done|done].
  intros c Hc. apply not_eq_None_Some. intros Hnone.
  assert (c ∈ filter (fun req => colIdx !! req = None) requiredCols) as Hin by by apply list_elem_of_filter.
  rewrite Hm in Hin. by apply elem_of_nil in Hin.
Qed.

End parse.

(** A parser good enough for the example: [scheme://host/path]. *)
Definition demo_url_Parse (s : string) : option url :=
  if HasPrefix s "https://" then Some (MkUrl "https" (str_drop 8 s) "") else None.

Lemma parseSubscriptions_sound_witness :
  exists rows, parseSubscriptions (H0 := {| url_Parse := demo_url_Parse |})
    [inr ["Name"; "link"; "priority"; "enable"]; inr ["alpha"; "https://x.example"; "10"; "ENABLE"];
     inr ["Bad Name"; "ftp:"; "z"; "?"]; inr ["beta"; "https://y.example"; "-3"; "disable"]] = inr rows
  /\ map Name rows = ["alpha"; "beta"].
Proof.
  eexists. split; [vm_compute; reflexivity|].
  refine (proj1 (proj2 (proj2 (parseSubscriptions_sound (H0 := {| url_Parse := demo_url_Parse |})
    ["Name"; "link"; "priority"; "enable"]
    [inr ["alpha"; "https://x.example"; "10"; "ENABLE"];
     inr ["Bad Name"; "ftp:"; "z"; "?"]; inr ["beta"; "https://y.example"; "-3"; "disable"]] _ _)))).
  vm_compute. reflexivity.
Defined.

(** Source names contain no underscore: the namespacing prefixes are unambiguous. *)
Lemma all_lower_free (b : ascii) (s : string) :
  in_rng 97 (byte_val b) 122 = false -> all_lower s = true -> byte_free b s = true.
Proof.
  intros Hb. induction s as [|c s IH]; [done|]. simpl. intros [Hc Hs]%andb_true_iff.
  rewrite IH by done. destruct (Ascii.eqb c b) eqn:E; [|done]. apply Ascii.eqb_eq in E as ->. congruence.
Qed.

Lemma nameFormatRe_valid (s : string) :
  nameFormatRe s = true -> s <> "" /\ byte_free underscore s = true /\ byte_free comma s = true.
Proof.
  intros H. split; [by apply nameFormatRe_nonempty|]. unfold nameFormatRe in H.
  apply andb_true_iff in H as [_ H]. split; by apply all_lower_free.
Qed.
