(* ===== verification/ServerConfig.v ===== *)
(** * internal/config/server.go: the environment configuration

    The environment is a function from variable names to values, empty when
    unset.  The time-zone database is a parameter. *)
From stdpp Require Import base gmap sets list strings sorting.
From Stdlib Require Import ZArith Lia Ascii.
From S2P Require Import Prelude GoStrings GoTime.

Local Open Scope Z_scope.

Definition Env : Type := string -> string.
(** [MapEnv.Getenv] *)
Definition MapEnv_Getenv (m : gmap string string) : Env := fun key => default "" (m !! key).

(** [time.LoadLocation]; an error as [None]. *)
Class TimeZones := { LoadLocation : string -> option Location }.

Inductive Level := LevelDebug | LevelInfo | LevelWarn | LevelError.

Record URLTestParams := MkURLTestParams {
  utURL : string; utIntervalSeconds : Z; utTimeoutMS : Z; utMaxFailedTimes : Z; utLazy : bool
}.
Record LoadBalanceParams := MkLoadBalanceParams {
  lbURL : string; lbIntervalSeconds : Z; lbTimeoutMS : Z; lbMaxFailedTimes : Z; lbLazy : bool; lbStrategy : string
}.

Definition validLoadBalanceStrategies : list string := ["round-robin"; "consistent-hashing"; "sticky-sessions"].

Record ServerConfig := MkServerConfig {
  SubscriptionsCSVPath : string;
  OwnProxiesYAMLPath : string;
  TokensPath : string;
  ServedConfigTemplatePath : string;
  CacheDir : string;
  DefaultTTLSeconds : Z;
  DefaultStaleOnErrorSeconds : Z;
  DefaultProfileUpdateIntervalHours : Z;
  BootstrapMaxAttempts : Z;
  BootstrapAttemptDelaySeconds : Z;
  Port : Z;
  LogLevel : Level;
  ProxiesGroupName : string;
  FallbackRuleTarget : string;
  UpstreamUserAgent : string;
  CustomRulesPath : string;
  AllowedUserAgentPrefixes : list string;
  URLPathPrefix : string;
  TodayZeroPath : string;
  DailyBudgetTimezone : string;
  BudgetLocation : Location;
  cfgURLTest : URLTestParams;
  cfgLoadBalance : LoadBalanceParams
}.

(** ** Errors, with the values their texts quote *)
Inductive paramError :=
| NotAPositiveInteger (key v : string)
| BelowOne (key : string) (n : Z)
| NotABool (key v : string)
| NotAStrategy (v : string).

Inductive configError :=
| RequiredUnset (key : string)
| NotAValidInteger (key v : string)
| MustBePositive (key : string) (n : Z)
| UnrecognizedLevel (s : string)
| URLTestInvalid (errs : list paramError)
| LoadBalanceInvalid (errs : list paramError)
| InvalidTimezone (tz : string).

(** The early returns of [Load]. *)
Local Notation "'try' x ':=' e 'in' k" := (match e with inl err => inl err | inr x => k end)
  (at level 10, x binder, e at level 100, k at level 200).

Definition required (env : Env) (key : string) : configError + string :=
  let v := env key in if String.eqb v "" then inl (RequiredUnset key) else inr v.

Definition intVar (env : Env) (key : string) (dflt : Z) : configError + Z :=
  let v := env key in
  if String.eqb v "" then inr dflt
  else match ParseInt v with
       | None => inl (NotAValidInteger key v)
       | Some n => if n <=? 0 then inl (MustBePositive key n) else inr n
       end.

(** A variable that overrides a default when set. *)
Definition override (env : Env) (key dflt : string) : string :=
  let v := env key in if String.eqb v "" then dflt else v.

Definition parseLevel {U : UnicodeTables} (s : string) : configError + Level :=
  let l := ToLower (TrimSpace s) in
  if String.eqb l "debug" then inr LevelDebug
  else if String.eqb l "info" then inr LevelInfo
  else if String.eqb l "warn" || String.eqb l "warning" then inr LevelWarn
  else if String.eqb l "error" then inr LevelError
  else inl (UnrecognizedLevel s).

Definition logLevel {U : UnicodeTables} (env : Env) : configError + Level :=
  let v := env "LOG_LEVEL" in if String.eqb v "" then inr LevelInfo else parseLevel v.

Definition pathPrefix (env : Env) : string :=
  let v := env "URL_PATH_PREFIX" in
  if String.eqb v "" then ""
  else TrimRightByte (if HasPrefix v "/" then v else "/" +:+ v) slash.

(** ** The accumulated parameters: the errors so far and the value *)
Definition parsePositiveInt (env : Env) (key : string) (dflt : Z) : list paramError * Z :=
  let v := env key in
  if String.eqb v "" then ([], dflt)
  else match ParseInt v with
       | None => ([NotAPositiveInteger key v], dflt)
       | Some n => if n <? 1 then ([BelowOne key n], dflt) else ([], n)
       end.

Definition parseLazy (env : Env) (key : string) : list paramError * bool :=
  let v := env key in
  if String.eqb v "" then ([], true)
  else match ParseBool v with None => ([NotABool key v], true) | Some b => ([], b) end.

Definition parseStrategy (env : Env) : list paramError * string :=
  let v := env "LOAD_BALANCE_STRATEGY" in
  if String.eqb v "" then ([], "round-robin")
  else if decide (v ∈ validLoadBalanceStrategies) then ([], v) else ([NotAStrategy v], "round-robin").

Definition urlTestParams (env : Env) : configError + URLTestParams :=
  let url := override env "URL_TEST_URL" "https://www.gstatic.com/generate_204" in
  let '(e1, interval) := parsePositiveInt env "URL_TEST_INTERVAL_SECONDS" 10 in
  let '(e2, timeout) := parsePositiveInt env "URL_TEST_TIMEOUT_MS" 3000 in
  let '(e3, failed) := parsePositiveInt env "URL_TEST_MAX_FAILED_TIMES" 3 in
  let '(e4, lazy) := parseLazy env "URL_TEST_LAZY" in
  match e1 ++ e2 ++ e3 ++ e4 with
  | [] => inr (MkURLTestParams url interval timeout failed lazy)
  | errs => inl (URLTestInvalid errs)
  end.

Definition loadBalanceParams (env : Env) : configError + LoadBalanceParams :=
  let url := override env "LOAD_BALANCE_URL" "https://www.gstatic.com/generate_204" in
  let '(e1, interval) := parsePositiveInt env "LOAD_BALANCE_INTERVAL_SECONDS" 300 in
  let '(e2, timeout) := parsePositiveInt env "LOAD_BALANCE_TIMEOUT_MS" 1500 in
  let '(e3, failed) := parsePositiveInt env "LOAD_BALANCE_MAX_FAILED_TIMES" 3 in
  let '(e4, lazy) := parseLazy env "LOAD_BALANCE_LAZY" in
  let '(e5, strategy) := parseStrategy env in
  match e1 ++ e2 ++ e3 ++ e4 ++ e5 with
  | [] => inr (MkLoadBalanceParams url interval timeout failed lazy strategy)
  | errs => inl (LoadBalanceInvalid errs)
  end.

Definition userAgentPrefixes (env : Env) : list string :=
  let v := env "HONKAI_RULE_CLIENT_UA" in
  if String.eqb v "" then []
  else filter (fun p => p <> "") (map TrimSpace (Split v comma)).

(** ** Load *)
Definition Load {U : UnicodeTables} {T : TimeZones} (env : Env) : configError + ServerConfig :=
  try csv := required env "SUBSCRIPTIONS_CSV_PATH" in
  try own := required env "OWN_PROXIES_YAML_PATH" in
  try tokens := required env "TOKENS_PATH" in
  try template := required env "SERVED_CONFIG_TEMPLATE_PATH" in
  try cache := required env "CACHE_DIR" in
  try ttl := intVar env "DEFAULT_TTL_SECONDS" 3600 in
  try stale := intVar env "DEFAULT_STALE_ON_ERROR_SECONDS" 86400 in
  try hours := intVar env "DEFAULT_PROFILE_UPDATE_INTERVAL_HOURS" 12 in
  try attempts := intVar env "BOOTSTRAP_MAX_ATTEMPTS_PER_SOURCE" 3 in
  try delay := intVar env "BOOTSTRAP_ATTEMPT_DELAY_SECONDS" 5 in
  try port := intVar env "PORT" 8080 in
  try level := logLevel env in
  try urlTest := urlTestParams env in
  try loadBalance := loadBalanceParams env in
  let tz := override env "DAILY_BUDGET_TIMEZONE" "America/Toronto" in
  match LoadLocation tz with
  | None => inl (InvalidTimezone tz)
  | Some loc =>
      inr (MkServerConfig csv own tokens template cache ttl stale hours attempts delay port level
        (override env "PROXIES_GROUP_NAME" "Proxies") (override env "FALLBACK_RULE_TARGET" "auto")
        (env "UPSTREAM_USER_AGENT") (override env "CUSTOM_RULES_PATH" "./custom-rules/") (userAgentPrefixes env) (pathPrefix env)
        (override env "TODAY_ZERO_PATH" "/data/today-zero.json") tz loc urlTest loadBalance)
  end.

(** * Lemmas *)
Lemma required_Some (env : Env) (key v : string) : required env key = inr v <-> v = env key /\ v <> "".
Proof. unfold required. destruct (String.eqb_spec (env key) ""); split; intros; intuition congruence. Qed.

Lemma intVar_range (env : Env) (key : string) (dflt n : Z) :
  0 < dflt -> in_int64 dflt -> intVar env key dflt = inr n ->
  0 < n /\ in_int64 n /\ n = (if String.eqb (env key) "" then dflt else default dflt (ParseInt (env key))).
Proof.
  intros Hd Hr. unfold intVar. destruct (String.eqb (env key) ""); [by intros [= <-]|].
  destruct (ParseInt (env key)) as [m|] eqn:Hp; [|done]. destruct (Z.leb_spec m 0); [done|]. intros [= <-].
  split_and!; [done|by eapply ParseInt_range|done].
Qed.

Lemma override_nonempty (env : Env) (key dflt : string) : dflt <> "" -> override env key dflt <> "".
Proof. unfold override. by destruct (String.eqb_spec (env key) ""). Qed.

(** A parameter in error is reported; otherwise it is its value or default. *)
Lemma parsePositiveInt_ok (env : Env) (key : string) (dflt : Z) :
  1 <= dflt ->
  1 <= (parsePositiveInt env key dflt).2
  /\ ((parsePositiveInt env key dflt).1 = [] <-> env key = "" \/ exists n, ParseInt (env key) = Some n /\ 1 <= n).
Proof.
  intros Hd. unfold parsePositiveInt. destruct (String.eqb_spec (env key) "") as [E|E]; [by split; [|split; [left|]]|].
  destruct (ParseInt (env key)) as [n|]; [destruct (Z.ltb_spec n 1)|]; cbn; (split; [lia|]); split; intros Hc; try done.
  - destruct Hc as [?|(m & [= <-] & ?)]; [done|lia].
  - right. by exists n.
  - by destruct Hc as [?|(m & ? & _)].
Qed.

Lemma TrimRightByte_last (s : string) (b : ascii) : HasSuffix (TrimRightByte s b) (String b "") = false.
Proof.
  induction s as [|c s IH]; [done|]. cbn [TrimRightByte]. destruct (TrimRightByte s b) as [|d r] eqn:E.
  - destruct (Ascii.eqb_spec c b) as [->|Hne]; [done|]. cbn. by rewrite (proj2 (Ascii.eqb_neq c b) Hne).
  - change (String.eqb (String c (String d r)) (String b "") || HasSuffix (String d r) (String b "") = false).
    rewrite IH, orb_false_r. cbn. by destruct (Ascii.eqb c b).
Qed.

Lemma TrimRightByte_head (c b : ascii) (s : string) :
  TrimRightByte (String c s) b = "" \/ exists t, TrimRightByte (String c s) b = String c t.
Proof. cbn [TrimRightByte]. destruct (TrimRightByte s b); [|by right; eexists]. destruct (Ascii.eqb c b); [by left|by right; eexists]. Qed.

Lemma pathPrefix_form (env : Env) :
  pathPrefix env = "" \/ HasPrefix (pathPrefix env) "/" = true /\ HasSuffix (pathPrefix env) "/" = false.
Proof.
  unfold pathPrefix. destruct (String.eqb (env "URL_PATH_PREFIX") ""); [by left|].
  set (v := if HasPrefix (env "URL_PATH_PREFIX") "/" then env "URL_PATH_PREFIX" else "/" +:+ env "URL_PATH_PREFIX").
  assert (exists t, v = String slash t) as [t ->].
  { unfold v. destruct (HasPrefix (env "URL_PATH_PREFIX") "/") eqn:Hp; [|by eexists].
    apply HasPrefix_spec in Hp as [t ->]. by eexists. }
  destruct (TrimRightByte_head slash slash t) as [->|[r Hr]]; [by left|right]. split; [by rewrite Hr|]. apply TrimRightByte_last.
Qed.

(** What a configuration that was loaded satisfies. *)
Record config_ok `{T : TimeZones} (env : Env) (cfg : ServerConfig) : Prop := {
  ok_paths : Forall (fun p => p <> "") [SubscriptionsCSVPath cfg; OwnProxiesYAMLPath cfg; TokensPath cfg; ServedConfigTemplatePath cfg; CacheDir cfg];
  ok_ints : Forall (fun n => 0 < n /\ in_int64 n)
    [DefaultTTLSeconds cfg; DefaultStaleOnErrorSeconds cfg; DefaultProfileUpdateIntervalHours cfg; BootstrapMaxAttempts cfg;
     BootstrapAttemptDelaySeconds cfg; Port cfg];
  ok_names : Forall (fun s => s <> "") [ProxiesGroupName cfg; FallbackRuleTarget cfg; CustomRulesPath cfg; TodayZeroPath cfg];
  ok_prefix : URLPathPrefix cfg = "" \/ HasPrefix (URLPathPrefix cfg) "/" = true /\ HasSuffix (URLPathPrefix cfg) "/" = false;
  ok_agents : "" ∉ AllowedUserAgentPrefixes cfg;
  ok_url_test : Forall (fun n => 1 <= n) [utIntervalSeconds (cfgURLTest cfg); utTimeoutMS (cfgURLTest cfg); utMaxFailedTimes (cfgURLTest cfg)];
  ok_load_balance : Forall (fun n => 1 <= n)
    [lbIntervalSeconds (cfgLoadBalance cfg); lbTimeoutMS (cfgLoadBalance cfg); lbMaxFailedTimes (cfgLoadBalance cfg)];
  ok_strategy : lbStrategy (cfgLoadBalance cfg) ∈ validLoadBalanceStrategies;
  ok_zone : LoadLocation (DailyBudgetTimezone cfg) = Some (BudgetLocation cfg)
}.

Lemma urlTestParams_ok (env : Env) (p : URLTestParams) :
  urlTestParams env = inr p -> Forall (fun n => 1 <= n) [utIntervalSeconds p; utTimeoutMS p; utMaxFailedTimes p].
Proof.
  unfold urlTestParams. pose proof (parsePositiveInt_ok env "URL_TEST_INTERVAL_SECONDS" 10) as [H1 _]; [done|].
  pose proof (parsePositiveInt_ok env "URL_TEST_TIMEOUT_MS" 3000) as [H2 _]; [done|].
  pose proof (parsePositiveInt_ok env "URL_TEST_MAX_FAILED_TIMES" 3) as [H3 _]; [done|].
  destruct (parsePositiveInt env "URL_TEST_INTERVAL_SECONDS" 10), (parsePositiveInt env "URL_TEST_TIMEOUT_MS" 3000),
    (parsePositiveInt env "URL_TEST_MAX_FAILED_TIMES" 3), (parseLazy env "URL_TEST_LAZY"). cbn in *.
  destruct (_ ++ _); [|done]. intros [= <-]. by repeat constructor.
Qed.

Lemma loadBalanceParams_ok (env : Env) (p : LoadBalanceParams) :
  loadBalanceParams env = inr p ->
  Forall (fun n => 1 <= n) [lbIntervalSeconds p; lbTimeoutMS p; lbMaxFailedTimes p] /\ lbStrategy p ∈ validLoadBalanceStrategies.
Proof.
  unfold loadBalanceParams. pose proof (parsePositiveInt_ok env "LOAD_BALANCE_INTERVAL_SECONDS" 300) as [H1 _]; [done|].
  pose proof (parsePositiveInt_ok env "LOAD_BALANCE_TIMEOUT_MS" 1500) as [H2 _]; [done|].
  pose proof (parsePositiveInt_ok env "LOAD_BALANCE_MAX_FAILED_TIMES" 3) as [H3 _]; [done|].
  assert ((parseStrategy env).2 ∈ validLoadBalanceStrategies) as H4.
  { unfold parseStrategy. destruct (String.eqb _ _); [left|]. case_decide; [done|left]. }
  destruct (parsePositiveInt env "LOAD_BALANCE_INTERVAL_SECONDS" 300), (parsePositiveInt env "LOAD_BALANCE_TIMEOUT_MS" 1500),
    (parsePositiveInt env "LOAD_BALANCE_MAX_FAILED_TIMES" 3), (parseLazy env "LOAD_BALANCE_LAZY"), (parseStrategy env). cbn in *.
  destruct (_ ++ _); [|done]. intros [= <-]. split; [by repeat constructor|done].
Qed.

Lemma Load_config_ok {U : UnicodeTables} {T : TimeZones} (env : Env) (cfg : ServerConfig) :
  Load env = inr cfg -> config_ok env cfg.
Proof.
  unfold Load. intros H.
  repeat match type of H with match ?e with inl _ => _ | inr _ => _ end = _ => destruct e eqn:?; [done|] end.
  destruct (LoadLocation _) eqn:Hz; [|done]. injection H as <-.
  repeat match goal with E : required _ _ = inr _ |- _ => apply required_Some in E as [_ ?] end.
  repeat match goal with E : intVar _ _ ?d = inr _ |- _ =>
    apply intVar_range in E as (? & ? & _); [|done|by unfold in_int64] end.
  match goal with E : urlTestParams _ = inr _ |- _ => apply urlTestParams_ok in E end.
  match goal with E : loadBalanceParams _ = inr _ |- _ => apply loadBalanceParams_ok in E as [? ?] end.
  split; cbn; try done; try apply pathPrefix_form.
  - repeat (apply Forall_cons; split; [done|]). by apply Forall_nil.
  - repeat (apply Forall_cons; split; [done|]). by apply Forall_nil.
  - repeat (apply Forall_cons; split; [by apply override_nonempty|]). by apply Forall_nil.
  - unfold userAgentPrefixes. destruct (String.eqb _ _); [by intros ?%elem_of_nil|]. by intros [? _]%list_elem_of_filter.
Qed.

(** (C35) A configuration that loads is well formed: required paths and names are
    not empty, every count is a positive 64-bit integer, the mount prefix is
    empty or starts and does not end with a slash, the client prefixes are not
    empty (so they do filter), the group parameters are at least one, the
    strategy is one of the three, and the time zone is the named one. *)
Theorem Load_wf {U : UnicodeTables} {T : TimeZones} (env : Env) (cfg : ServerConfig) :
  Load env = inr cfg -> config_ok env cfg.
Proof. apply Load_config_ok. Qed.

Section config_fields.
Context `{T : TimeZones} (env : Env) (cfg : ServerConfig) (Hok : config_ok env cfg).

Lemma config_ok_CacheDir : CacheDir cfg <> "".
Proof. apply (proj1 (Forall_forall _ _) (ok_paths _ _ Hok)). rewrite !elem_of_cons. tauto. Qed.
Lemma config_ok_DefaultTTL : 0 < DefaultTTLSeconds cfg.
Proof. apply (proj1 (Forall_forall _ _) (ok_ints _ _ Hok)). rewrite !elem_of_cons. tauto. Qed.
Lemma config_ok_groupName : ProxiesGroupName cfg <> "".
Proof. apply (proj1 (Forall_forall _ _) (ok_names _ _ Hok)). rewrite !elem_of_cons. tauto. Qed.
Lemma config_ok_fallback : FallbackRuleTarget cfg <> "".
Proof. apply (proj1 (Forall_forall _ _) (ok_names _ _ Hok)). rewrite !elem_of_cons. tauto. Qed.
End config_fields.

(** All the errors of a group of parameters are reported together. *)
Lemma urlTestParams_errors (env : Env) (errs : list paramError) :
  urlTestParams env = inl (URLTestInvalid errs) ->
  errs = (parsePositiveInt env "URL_TEST_INTERVAL_SECONDS" 10).1 ++ (parsePositiveInt env "URL_TEST_TIMEOUT_MS" 3000).1
         ++ (parsePositiveInt env "URL_TEST_MAX_FAILED_TIMES" 3).1 ++ (parseLazy env "URL_TEST_LAZY").1.
Proof.
  unfold urlTestParams. destruct (parsePositiveInt env "URL_TEST_INTERVAL_SECONDS" 10), (parsePositiveInt env "URL_TEST_TIMEOUT_MS" 3000),
    (parsePositiveInt env "URL_TEST_MAX_FAILED_TIMES" 3), (parseLazy env "URL_TEST_LAZY"). cbn.
  destruct (_ ++ _) eqn:E; [done|]. intros [= <-]. done.
Qed.

Definition demo_env : Env := MapEnv_Getenv (<["SUBSCRIPTIONS_CSV_PATH" := "/c/s.csv"]> (<["OWN_PROXIES_YAML_PATH" := "/c/o.yaml"]>
  (<["TOKENS_PATH" := "/c/t.json"]> (<["SERVED_CONFIG_TEMPLATE_PATH" := "/c/x.yaml"]> (<["CACHE_DIR" := "/cache"]>
  (<["URL_PATH_PREFIX" := "abc//"]> (<["HONKAI_RULE_CLIENT_UA" := "clash, ,mihomo"]> (∅ : gmap string string)))))))).
Definition demo_zones : TimeZones := {| LoadLocation _ := Some UTC |}.

Lemma Load_wf_witness :
  exists cfg, Load (T := demo_zones) demo_env = inr cfg /\ config_ok (T := demo_zones) demo_env cfg
    /\ URLPathPrefix cfg = "/abc" /\ AllowedUserAgentPrefixes cfg = ["clash"; "mihomo"].
Proof.
  destruct (Load (T := demo_zones) demo_env) as [e|cfg] eqn:E; [vm_compute in E; discriminate|].
  exists cfg. pose proof (Load_wf (T := demo_zones) demo_env cfg E) as H. split; [reflexivity|]. split; [exact H|].
  vm_compute in E. injection E as <-. split; reflexivity.
Defined.
