(* ===== verification/Tokens.v ===== *)
(** * internal/config/tokens.go: the token store and its hot reload

    The file is given as what reading and decoding it yields; a [null] element
    of the JSON array decodes to a nil pointer.  The watcher's loop and its
    debounce timer are a transition system over the notifications of the file
    system, the clock and the runs of the timer's function. *)
From stdpp Require Import base gmap sets list strings sorting.
From Stdlib Require Import ZArith Lia Ascii.
From S2P Require Import Prelude GoStrings GoTime.

Local Open Scope Z_scope.

Record TokenRecord := MkToken {
  Token : string;
  Label : string;
  IssuedAt : Time;
  Revoked : bool;
  ExpiresAt : option Time
}.

Record TokenStore := MkStore { byToken : gmap string TokenRecord }.
Definition NewTokenStore : TokenStore := MkStore ∅.

(** ** Load *)
Inductive tokenFile := Unreadable | Unparseable | Decoded (tokens : list (option TokenRecord)).

Inductive loadError :=
| ReadFailed
| ParseFailed
| EmptyTokenRecord
| DuplicateToken (label : string)
| NilDereference.                 (** a panic, not a returned error *)

(** The loop over the records. *)
Fixpoint collect (next : gmap string TokenRecord) (recs : list (option TokenRecord)) : loadError + gmap string TokenRecord :=
  match recs with
  | [] => inr next
  | None :: _ => inl NilDereference
  | Some rec :: recs' =>
      if String.eqb (Token rec) "" then inl EmptyTokenRecord
      else match next !! Token rec with
           | Some _ => inl (DuplicateToken (Label rec))
           | None => collect (<[Token rec := rec]> next) recs'
           end
  end.

#[export] Instance loadError_eq_dec : EqDecision loadError.
Proof. solve_decision. Defined.

Definition Load (s : TokenStore) (file : tokenFile) : TokenStore * option loadError :=
  match file with
  | Unreadable => (s, Some ReadFailed)
  | Unparseable => (s, Some ParseFailed)
  | Decoded recs =>
      match collect ∅ recs with
      | inl e => (s, Some e)
      | inr next => (MkStore next, None)
      end
  end.

(** ** Lookup and the counts *)

(** [now] is after the expiry, when there is one. *)
Definition expired (rec : TokenRecord) (now : Time) : bool :=
  match ExpiresAt rec with Some e => e <? now | None => false end.

Definition Lookup (s : TokenStore) (now : Time) (token : string) : option TokenRecord :=
  match byToken s !! token with
  | None => None
  | Some rec => if Revoked rec then None else if expired rec now then None else Some rec
  end.

Definition ActiveCount (s : TokenStore) (now : Time) : nat :=
  length (filter (fun kv => Revoked kv.2 = false /\ expired kv.2 now = false) (map_to_list (byToken s))).

Definition RevokedCount (s : TokenStore) : nat :=
  length (filter (fun kv => Revoked kv.2 = true) (map_to_list (byToken s))).

(** ** watchLoop *)
Definition tokenReloadDebounce : Duration := 250 * 1000000.

(** What has happened, latest first: a notification, a start of the timer's
    function, the end of one that had read [file]. *)
Inductive action := Notified (at_ : Time) | Fired (at_ : Time) | Reloaded (file : tokenFile).

(** A run of the timer's function, in a goroutine of its own: since when, and
    what it has read. *)
Record reloadRun := MkRun { rrStart : Time; rrRead : option tokenFile }.

Record watcher := MkWatcher {
  wStore : TokenStore;
  wNow : Time;
  wLooping : bool;                (** the loop has not returned *)
  wTimer : option Time;           (** when the pending timer is due *)
  wRuns : gmap nat reloadRun;
  wPanicked : bool;
  wTrace : list action
}.

Inductive wevent :=
| WAdvance (d : Duration)
| WNotify (base : string) (writeOrCreate : bool)  (** an event of the watcher *)
| WError                                          (** an error of the watcher *)
| WClosed                                         (** one of its channels is closed *)
| WDone                                           (** the context is cancelled *)
| WFire (r : nat)                                 (** the timer's function starts *)
| WRead (r : nat) (file : tokenFile)              (** its [Load] reads the file *)
| WSwap (r : nat).                                (** its [Load] replaces the records, or fails *)

(** [triggerReload]: a pending timer is stopped and a new one started; a
    function that runs already goes on. *)
Definition triggerReload (w : watcher) : watcher :=
  MkWatcher (wStore w) (wNow w) (wLooping w) (Some (wNow w + tokenReloadDebounce)) (wRuns w) (wPanicked w) (Notified (wNow w) :: wTrace w).

Definition with_runs (w : watcher) (timer : option Time) (runs : gmap nat reloadRun) (trace : list action) : watcher :=
  MkWatcher (wStore w) (wNow w) (wLooping w) timer runs (wPanicked w) trace.

(** A panic of the timer's function ends the process. *)
Definition watchStep (wantBase : string) (w : watcher) (e : wevent) : option watcher :=
  if wPanicked w then None
  else match e with
  | WAdvance d =>
      if d <? 0 then None else Some (MkWatcher (wStore w) (wNow w + d) (wLooping w) (wTimer w) (wRuns w) false (wTrace w))
  | WNotify base writeOrCreate =>
      if negb (wLooping w) then None
      else if negb (String.eqb base wantBase) then Some w
      else if negb writeOrCreate then Some w
      else Some (triggerReload w)
  | WError => if wLooping w then Some w else None
  | WClosed => if wLooping w then Some (MkWatcher (wStore w) (wNow w) false (wTimer w) (wRuns w) false (wTrace w)) else None
  | WDone => if wLooping w then Some (MkWatcher (wStore w) (wNow w) false None (wRuns w) false (wTrace w)) else None
  | WFire r =>
      match wTimer w, wRuns w !! r with
      | Some due, None =>
          if wNow w <? due then None
          else Some (with_runs w None (<[r := MkRun (wNow w) None]> (wRuns w)) (Fired (wNow w) :: wTrace w))
      | _, _ => None
      end
  | WRead r file =>
      match wRuns w !! r with
      | Some (MkRun start None) => Some (with_runs w (wTimer w) (<[r := MkRun start (Some file)]> (wRuns w)) (wTrace w))
      | _ => None
      end
  | WSwap r =>
      match wRuns w !! r with
      | Some (MkRun _ (Some file)) =>
          let '(s, err) := Load (wStore w) file in
          Some (MkWatcher s (wNow w) (wLooping w) (wTimer w) (delete r (wRuns w)) (bool_decide (err = Some NilDereference))
                  (Reloaded file :: wTrace w))
      | _ => None
      end
  end.

Fixpoint watchRuns (wantBase : string) (w : watcher) (es : list wevent) : option watcher :=
  match es with
  | [] => Some w
  | e :: es' => match watchStep wantBase w e with Some w' => watchRuns wantBase w' es' | None => None end
  end.

(** [Watch], once the directory is watched. *)
Definition Watch (s : TokenStore) (now : Time) : watcher := MkWatcher s now true None ∅ false [].

(** * Lemmas *)

Lemma collect_spec (recs : list (option TokenRecord)) (next final : gmap string TokenRecord) :
  collect next recs = inr final <->
  (exists rs, recs = map Some rs /\ Forall (fun r => Token r <> "") rs /\ NoDup (map Token rs)
     /\ Forall (fun r => next !! Token r = None) rs /\ final = foldl (fun m r => <[Token r := r]> m) next rs).
Proof.
  revert next. induction recs as [|[r|] recs IH]; intros next; cbn [collect].
  - split; [intros [= <-]; exists []; repeat split; constructor|]. intros ([|? ?] & E & _ & _ & _ & ->); [done|done].
  - destruct (String.eqb_spec (Token r) "") as [Ee|Ee].
    { split; [done|]. intros ([|r' rs] & [= <- ->] & Hne & _). by apply Forall_cons in Hne as [? _]. }
    destruct (next !! Token r) eqn:Hn.
    { split; [done|]. intros ([|r' rs] & [= <- ->] & _ & _ & Hno & _). apply Forall_cons in Hno as [? _]. congruence. }
    rewrite IH. split.
    + intros (rs & -> & Hne & Hnd & Hno & ->). exists (r :: rs). split_and!; [done|by constructor| | |done].
      * cbn. constructor; [|done]. intros (r' & E & Hin)%list_elem_of_fmap.
        apply (proj1 (Forall_forall _ _) Hno) in Hin. rewrite <- E, lookup_insert_eq in Hin. done.
      * constructor; [done|]. eapply Forall_impl; [exact Hno|]. intros r'. cbn. by intros [? _]%lookup_insert_None.
    + intros ([|r' rs] & [= <- ->] & Hne & Hnd & Hno & ->). exists rs. apply Forall_cons in Hne as [_ Hne].
      cbn in Hnd. inversion Hnd as [|? ? Hni Hnd']; subst. apply Forall_cons in Hno as [_ Hno]. split_and!; [done|done|done| |done].
      apply Forall_forall. intros r' Hr'. rewrite lookup_insert_ne; [by apply (proj1 (Forall_forall _ _) Hno)|].
      intros E. apply Hni. rewrite E. by apply list_elem_of_fmap_2.
  - split; [done|]. by intros ([|? ?] & E & _).
Qed.

Lemma foldl_insert_lookup (rs : list TokenRecord) (m : gmap string TokenRecord) (t : string) (r : TokenRecord) :
  NoDup (map Token rs) ->
  (foldl (fun m r => <[Token r := r]> m) m rs) !! t = Some r <-> r ∈ rs /\ Token r = t \/ (t ∉ map Token rs) /\ m !! t = Some r.
Proof.
  revert m. induction rs as [|x rs IH]; intros m Hnd; cbn [foldl map].
  - split; [intros Ht; right; split; [apply not_elem_of_nil|done]|]. by intros [[?%elem_of_nil _]|[_ ?]].
  - inversion Hnd as [|? ? Hn Hnd']; subst. rewrite IH by done. rewrite lookup_insert. split.
    + intros [[Hin Ht]|[Hni H]]; [left; split; [by right|done]|]. case_decide as E.
      * left. injection H as <-. split; [left|done].
      * right. split; [|done]. intros [?|?]%elem_of_cons; [congruence|done].
    + intros [[[->|Hin]%elem_of_cons Ht]|[[Hne Hni]%not_elem_of_cons H]].
      * right. rewrite <- Ht. split; [done|]. by rewrite decide_True.
      * by left.
      * right. split; [done|]. by rewrite decide_False by congruence.
Qed.

(** (C32) A load succeeds exactly when the file decodes to records with distinct
    non-empty tokens; a token is then accepted exactly when it is that of a
    record that is neither revoked nor expired.  Any failure leaves the store
    as it was. *)
Theorem Load_Lookup (s s' : TokenStore) (file : tokenFile) (err : option loadError) :
  Load s file = (s', err) ->
  (err = None <-> exists rs, file = Decoded (map Some rs) /\ Forall (fun r => Token r <> "") rs /\ NoDup (map Token rs))
  /\ (err <> None -> s' = s)
  /\ forall rs, err = None -> file = Decoded (map Some rs) -> forall now t r,
       Lookup s' now t = Some r <->
       r ∈ rs /\ Token r = t /\ Revoked r = false /\ (forall e, ExpiresAt r = Some e -> now <= e).
Proof.
  intros H. destruct file as [| |recs]; cbn in H; try (injection H as <- <-; split_and!; [split; [done|by intros (? & ? & _)]|done|done]).
  destruct (collect ∅ recs) as [e|final] eqn:Hc; injection H as <- <-.
  - split_and!; [split; [done|]|done|done]. intros (rs & [= ->] & Hne & Hnd).
    assert (collect ∅ (map Some rs) = inr (foldl (fun m r => <[Token r := r]> m) ∅ rs)) as E; [|congruence].
    apply collect_spec. exists rs. split_and!; [done|done|done| |done]. apply Forall_forall. intros r _. apply lookup_empty.
  - apply collect_spec in Hc as (rs & -> & Hne & Hnd & _ & ->). split_and!; [split; [by exists rs|done]|done|].
    intros rs' _ [= E] now t r. assert (rs' = rs) as -> by (symmetry; by eapply (inj (fmap Some))).
    unfold Lookup. cbn [byToken]. split.
    + destruct (foldl _ _ _ !! t) as [r'|] eqn:Hl; [|done]. destruct (Revoked r') eqn:Hr; [done|].
      destruct (expired r' now) eqn:He; [done|]. intros [= ->]. apply foldl_insert_lookup in Hl as [[? ?]|[_ ?]]; [|by rewrite lookup_empty in *|done].
      split_and!; [done|done|done|]. intros e Hx. unfold expired in He. rewrite Hx in He. by apply Z.ltb_ge in He.
    + intros (Hin & Ht & Hr & He). assert ((foldl (fun m r => <[Token r := r]> m) ∅ rs) !! t = Some r) as -> by (apply foldl_insert_lookup; auto).
      rewrite Hr. unfold expired. destruct (ExpiresAt r) as [e|]; [|done]. specialize (He e eq_refl). by destruct (Z.ltb_spec e now); [lia|].
Qed.

(** A file whose decoded records hold a [null] that is reached: the ones before
    it are acceptable. *)
Definition null_record (file : tokenFile) : Prop :=
  exists rs tail, file = Decoded (map Some rs ++ None :: tail) /\ Forall (fun r => Token r <> "") rs /\ NoDup (map Token rs).

Lemma collect_null (recs : list (option TokenRecord)) (next : gmap string TokenRecord) :
  collect next recs = inl NilDereference <->
  exists rs tail, recs = map Some rs ++ None :: tail /\ Forall (fun r => Token r <> "") rs /\ NoDup (map Token rs)
    /\ Forall (fun r => next !! Token r = None) rs.
Proof.
  revert next. induction recs as [|[r|] recs IH]; intros next; cbn [collect].
  - split; [done|]. by intros ([|] & ? & ? & _).
  - destruct (String.eqb_spec (Token r) "") as [Ee|Ee].
    { split; [done|]. intros ([|r' rs] & tl & [= <- ->] & Hne & _). by apply Forall_cons in Hne as [? _]. }
    destruct (next !! Token r) eqn:Hn.
    { split; [done|]. intros ([|r' rs] & tl & [= <- ->] & _ & _ & Hno). apply Forall_cons in Hno as [? _]. congruence. }
    rewrite IH. split.
    + intros (rs & tl & -> & Hne & Hnd & Hno). exists (r :: rs), tl. split_and!; [done|by constructor| |].
      * cbn. constructor; [|done]. intros (r' & E & Hin)%list_elem_of_fmap.
        apply (proj1 (Forall_forall _ _) Hno) in Hin. rewrite <- E, lookup_insert_eq in Hin. done.
      * constructor; [done|]. eapply Forall_impl; [exact Hno|]. intros r'. cbn. by intros [? _]%lookup_insert_None.
    + intros ([|r' rs] & tl & [= <- ->] & Hne & Hnd & Hno). exists rs, tl. apply Forall_cons in Hne as [_ Hne].
      cbn in Hnd. inversion Hnd as [|? ? Hni Hnd']; subst. apply Forall_cons in Hno as [_ Hno]. split_and!; [done|done|done|].
      apply Forall_forall. intros r' Hr'. rewrite lookup_insert_ne; [by apply (proj1 (Forall_forall _ _) Hno)|].
      intros E. apply Hni. rewrite E. by apply list_elem_of_fmap_2.
  - split; [|done]. intros _. exists [], recs. split_and!; constructor.
Qed.

Lemma Load_null (s : TokenStore) (file : tokenFile) : (Load s file).2 = Some NilDereference <-> null_record file.
Proof.
  unfold null_record. destruct file as [| |recs]; cbn; [split; [done|by intros (? & ? & ? & _)]..|].
  pose proof (collect_null recs ∅) as Hc. destruct (collect ∅ recs) as [e|next] eqn:E; cbn.
  - split.
    + intros [= ->]. destruct (proj1 Hc eq_refl) as (rs & tl & -> & ? & ? & _). by exists rs, tl.
    + intros (rs & tl & [= ->] & ? & ?). f_equal. assert (inl e = inl (B := gmap string TokenRecord) NilDereference) as [= ->]; [|done].
      apply Hc. exists rs, tl. split_and!; [done|done|done|]. apply Forall_forall. intros r _. apply lookup_empty.
  - split; [done|]. intros (rs & tl & [= ->] & ? & ?). assert (inr next = inl (B := gmap string TokenRecord) NilDereference); [|done].
    apply Hc. exists rs, tl. split_and!; [done|done|done|]. apply Forall_forall. intros r _. apply lookup_empty.
Qed.

Definition demo_record (t : string) (revoked : bool) (expires : option Time) : TokenRecord := MkToken t t 0 revoked expires.
Definition demo_file : tokenFile :=
  Decoded (map Some [demo_record "abc" false (Some 10); demo_record "def" true None; demo_record "ghi" false None]).

Lemma Load_Lookup_witness :
  exists s', Load NewTokenStore demo_file = (s', None) /\ Lookup s' 10 "abc" = Some (demo_record "abc" false (Some 10)).
Proof.
  destruct (Load NewTokenStore demo_file) as [s' err] eqn:E. exists s'.
  assert (err = None) as -> by (vm_compute in E; congruence). split; [reflexivity|].
  apply (Load_Lookup NewTokenStore s' demo_file None E) with
    (rs := [demo_record "abc" false (Some 10); demo_record "def" true None; demo_record "ghi" false None]); [reflexivity|reflexivity|].
  split; [left|]. split; [reflexivity|]. split; [reflexivity|]. intros e [= <-]. lia.
Defined.

(** The count reported at start-up is that of the tokens [Lookup] accepts. *)
Lemma ActiveCount_spec (s : TokenStore) (now : Time) :
  exists accepted : gset string, (forall t, t ∈ accepted <-> is_Some (Lookup s now t)) /\ ActiveCount s now = size accepted.
Proof.
  set (P := fun kv : string * TokenRecord => Revoked kv.2 = false /\ expired kv.2 now = false).
  exists (dom (filter P (byToken s))). split.
  - intros t. rewrite elem_of_dom. unfold Lookup. destruct (byToken s !! t) as [r|] eqn:Hr.
    + split.
      * intros [r' [Hl [H1 H2]]%map_lookup_filter_Some]. cbn in H1, H2. assert (r' = r) as -> by congruence. by rewrite H1, H2.
      * intros [x Hx]. exists r. apply map_lookup_filter_Some. split; [done|]. unfold P. cbn.
        destruct (Revoked r); [done|]. by destruct (expired r now).
    + split; [|by intros []]. intros [r' [Hl _]%map_lookup_filter_Some]. congruence.
  - unfold ActiveCount. fold P. rewrite size_dom, map_filter_alt, <- length_map_to_list, map_to_list_to_map; [done|].
    eapply sublist_NoDup; [apply (NoDup_fst_map_to_list (byToken s))|]. apply fmap_sublist, sublist_filter.
Qed.

(** *** The watcher *)

(** The latest notification or start. *)
Fixpoint lastSignal (trace : list action) : option action :=
  match trace with [] => None | Reloaded _ :: rest => lastSignal rest | a :: _ => Some a end.

(** Every start follows, with no other start in between, a notification that is
    older by the debounce time at least. *)
Fixpoint debounced (trace : list action) : Prop :=
  match trace with
  | [] => True
  | Fired t :: rest => (exists t', lastSignal rest = Some (Notified t') /\ t' + tokenReloadDebounce <= t) /\ debounced rest
  | _ :: rest => debounced rest
  end.

(** The store that the reloads of a trace leave. *)
Definition replay (s : TokenStore) (trace : list action) : TokenStore :=
  foldr (fun a s => match a with Reloaded file => (Load s file).1 | _ => s end) s trace.

Definition signalTime (a : action) : Time := match a with Notified t | Fired t => t | Reloaded _ => 0 end.

Record watch_ok (s : TokenStore) (w : watcher) : Prop := {
  wo_trace : debounced (wTrace w);
  wo_timer due : wTimer w = Some due -> exists t, lastSignal (wTrace w) = Some (Notified t) /\ due = t + tokenReloadDebounce;
  wo_past a : lastSignal (wTrace w) = Some a -> signalTime a <= wNow w;
  wo_runs r run : wRuns w !! r = Some run -> exists a, lastSignal (wTrace w) = Some a /\ rrStart run <= signalTime a;
  wo_store : wStore w = replay s (wTrace w)
}.

Lemma watch_ok_step (s : TokenStore) (wantBase : string) (w w' : watcher) (e : wevent) :
  watch_ok s w -> watchStep wantBase w e = Some w' -> watch_ok s w'.
Proof.
  intros [Ht Hd Hp Hr Hs]. unfold watchStep. destruct (wPanicked w); [done|]. destruct e as [d|base wr| | | |r|r file|r].
  - case_if; [done|]. intros [= <-]. apply Z.ltb_ge in Heqb. split; cbn; try done. intros a Ha. specialize (Hp a Ha). lia.
  - case_if; [done|]. case_if; [by intros [= <-]|]. case_if; [by intros [= <-]|]. intros [= <-]. split; cbn; [done| | | |done].
    + intros due [= <-]. eauto.
    + intros a [= <-]. cbn. lia.
    + intros r run Hrun. eexists. split; [done|]. destruct (Hr r run Hrun) as (a & Ha & Hle). specialize (Hp a Ha). cbn. lia.
  - case_if; [|done]. by intros [= <-].
  - case_if; [|done]. intros [= <-]. by split.
  - case_if; [|done]. intros [= <-]. by split.
  - destruct (wTimer w) as [due|] eqn:Hw; [|done]. destruct (wRuns w !! r) eqn:Hrr; [done|].
    destruct (Z.ltb_spec (wNow w) due); [done|]. intros [= <-].
    destruct (Hd due eq_refl) as (t & Htr & ->). split; cbn [with_runs wTrace wTimer wStore wRuns wNow lastSignal debounced].
    + split; [|done]. by exists t.
    + done.
    + intros a [= <-]. cbn. lia.
    + intros r' run Hrun. eexists. split; [done|]. cbn. rewrite lookup_insert in Hrun. case_decide; [injection Hrun as <-; cbn; lia|].
      destruct (Hr r' run Hrun) as (a & Ha & Hle). specialize (Hp a Ha). lia.
    + done.
  - destruct (wRuns w !! r) as [[start [?|]]|] eqn:Hrr; [done| |done]. intros [= <-]. split; cbn; try done.
    intros r' run Hrun. rewrite lookup_insert in Hrun. case_decide; [|by apply (Hr r')]. injection Hrun as <-. by apply (Hr r (MkRun start None)).
  - destruct (wRuns w !! r) as [[start [file|]]|] eqn:Hrr; [|done|done]. destruct (Load (wStore w) file) as [s' err] eqn:Hl. intros [= <-].
    split; cbn; try done.
    + intros r' run [_ Hrun]%lookup_delete_Some. by apply (Hr r').
    + change (s' = (Load (replay s (wTrace w)) file).1). by rewrite <- Hs, Hl.
Qed.

Lemma watch_ok_runs (s : TokenStore) (wantBase : string) (w w' : watcher) (es : list wevent) :
  watch_ok s w -> watchRuns wantBase w es = Some w' -> watch_ok s w'.
Proof.
  revert w. induction es as [|e es IH]; intros w Hw; cbn; [by intros [= <-]|].
  destruct (watchStep wantBase w e) as [w1|] eqn:Hst; [|done]. apply IH. by eapply watch_ok_step.
Qed.

Lemma watch_ok_start (s : TokenStore) (now : Time) : watch_ok s (Watch s now).
Proof. by split. Qed.

(** The watcher's goroutine panics exactly on a file with a reachable [null]
    record: that reload is the last thing it does. *)
Lemma watch_panics (wantBase : string) (s : TokenStore) (now : Time) (es : list wevent) (w : watcher) :
  watchRuns wantBase (Watch s now) es = Some w ->
  (wPanicked w = true <-> exists file rest, wTrace w = Reloaded file :: rest /\ null_record file).
Proof.
  assert (wPanicked (Watch s now) = true <-> exists file rest, wTrace (Watch s now) = Reloaded file :: rest /\ null_record file) as H0
    by (split; [done|by intros (? & ? & ? & _)]).
  revert H0. generalize (Watch s now) as w0.
  induction es as [|e es IH]; intros w0 H0 Hr; cbn in Hr; [by injection Hr as <-|].
  destruct (watchStep wantBase w0 e) as [w1|] eqn:Hst; [|done]. apply (IH w1); [|done]. clear IH Hr.
  unfold watchStep in Hst. destruct (wPanicked w0) eqn:Hp; [done|].
  destruct e as [d|base wr| | | |r|r file|r]; repeat case_match; simplify_eq; cbn [wPanicked wTrace triggerReload with_runs];
    rewrite ?Hp; try done; try (split; [done|by intros (? & ? & ? & _)]).
  rewrite bool_decide_eq_true. setoid_rewrite <- (Load_null (wStore w0)).
  match goal with H : Load _ _ = _ |- _ => rename H into Hl end. split.
  - intros E. eexists _, _. split; [done|]. by rewrite Hl.
  - intros (f & rest & [= <- <-] & E). by rewrite Hl in E.
Qed.

(** No run has lasted the debounce time. *)
Definition prompt (w : watcher) : Prop := forall r run, wRuns w !! r = Some run -> wNow w < rrStart run + tokenReloadDebounce.

(** Every state of an execution satisfies [P]. *)
Fixpoint throughout (P : watcher -> Prop) (wantBase : string) (w : watcher) (es : list wevent) : Prop :=
  P w /\ match es with
         | [] => True
         | e :: es' => match watchStep wantBase w e with Some w' => throughout P wantBase w' es' | None => True end
         end.

(** When the runs are short, one starts only after the one before has ended. *)
Lemma fire_alone (s : TokenStore) (wantBase : string) (w w' : watcher) (r : nat) :
  watch_ok s w -> prompt w -> watchStep wantBase w (WFire r) = Some w' -> wRuns w = ∅.
Proof.
  intros [_ Hd _ Hr _] Hp. unfold watchStep. destruct (wPanicked w); [done|]. destruct (wTimer w) as [due|] eqn:Hw; [|done].
  destruct (wRuns w !! r) eqn:Hrr; [done|]. destruct (Z.ltb_spec (wNow w) due); [done|]. intros _.
  destruct (Hd due eq_refl) as (t & Htr & ->). apply map_eq. intros r'. rewrite lookup_empty.
  destruct (wRuns w !! r') as [run|] eqn:Hrun; [|done]. destruct (Hr r' run Hrun) as (a & Ha & Hle). rewrite Htr in Ha. injection Ha as <-.
  cbn in Hle. specialize (Hp r' run Hrun). lia.
Qed.

Lemma one_run_step (s : TokenStore) (wantBase : string) (w w' : watcher) (e : wevent) :
  watch_ok s w -> prompt w -> watchStep wantBase w e = Some w' ->
  (forall r r', is_Some (wRuns w !! r) -> is_Some (wRuns w !! r') -> r = r') ->
  forall r r', is_Some (wRuns w' !! r) -> is_Some (wRuns w' !! r') -> r = r'.
Proof.
  intros Hok Hp Hst Hone. destruct e as [d|base wr| | | |r0|r0 file|r0].
  6: { pose proof (fire_alone s wantBase w w' r0 Hok Hp Hst) as He. unfold watchStep in Hst. destruct (wPanicked w); [done|].
       destruct (wTimer w); [|done]. destruct (wRuns w !! r0); [done|]. case_if_in Hst; [done|]. injection Hst as <-. cbn.
       rewrite He. intros r r' [x [-> _]%lookup_singleton_Some] [y [-> _]%lookup_singleton_Some]. done. }
  all: unfold watchStep in Hst; destruct (wPanicked w); [done|].
  - case_if_in Hst; [done|]. by injection Hst as <-.
  - repeat case_if_in Hst; try done; by injection Hst as <-.
  - case_if_in Hst; [|done]. by injection Hst as <-.
  - case_if_in Hst; [|done]. by injection Hst as <-.
  - case_if_in Hst; [|done]. by injection Hst as <-.
  - destruct (wRuns w !! r0) as [[start [?|]]|] eqn:Hr0; [done| |done]. injection Hst as <-. cbn.
    intros r r' Hr Hr'. apply Hone; [rewrite lookup_insert in Hr|rewrite lookup_insert in Hr']; case_decide; subst; eauto.
  - destruct (wRuns w !! r0) as [[start [file|]]|] eqn:Hr0; [|done|done]. destruct (Load _ _) as [s' err]. injection Hst as <-. cbn.
    intros r r' [x [_ Hr]%lookup_delete_Some] [y [_ Hr']%lookup_delete_Some]. apply Hone; by eexists.
Qed.

(** (C33) Hot reload, whatever the notifications, errors, delays and file contents
    are: the timer's function starts only for a notification, at least 250 ms
    after the last one, so a burst is read once; the store always is what the
    reloads leave, in the order in which they replaced the records, the last
    good one winning; when no run lasts 250 ms, no two runs are in flight at
    once, so that is also the order in which they read the file; and as long as
    the watcher runs, a new notification followed by 250 ms of quiet makes it
    read the file again and take what it reads. *)
Theorem watch_reload (wantBase : string) (s : TokenStore) (now : Time) (es : list wevent) (w : watcher) :
  watchRuns wantBase (Watch s now) es = Some w ->
  debounced (wTrace w) /\ wStore w = replay s (wTrace w)
  /\ (throughout prompt wantBase (Watch s now) es ->
        forall r r', is_Some (wRuns w !! r) -> is_Some (wRuns w !! r') -> r = r')
  /\ (wLooping w = true -> wPanicked w = false -> forall r file, wRuns w !! r = None -> exists w',
        watchRuns wantBase w [WNotify wantBase true; WAdvance tokenReloadDebounce; WFire r; WRead r file; WSwap r] = Some w'
        /\ wStore w' = (Load (wStore w) file).1).
Proof.
  intros Hr. destruct (watch_ok_runs s wantBase _ w es (watch_ok_start s now) Hr) as [Ht _ _ _ Hs]. split_and!; [done|done| |].
  - clear Ht Hs. assert (forall r r', is_Some (wRuns (Watch s now) !! r) -> is_Some (wRuns (Watch s now) !! r') -> r = r') as H0
      by (intros r r' []; done).
    pose proof (watch_ok_start s now) as Hok. revert Hr Hok H0. generalize (Watch s now) as w0.
    induction es as [|e es IH]; intros w0 Hr Hok H0 Hp; cbn in Hr; [by injection Hr as <-|].
    destruct Hp as [Hp0 Hp]. destruct (watchStep wantBase w0 e) as [w1|] eqn:Hst; [|done].
    apply (IH w1 Hr); [by eapply watch_ok_step|by eapply one_run_step|done].
  - intros Hloop Hp r file Hfree. destruct w as [st n l tm runs p tr]. cbn in Hloop, Hp, Hfree. subst l p.
    cbn [watchRuns watchStep wPanicked wLooping negb]. rewrite String.eqb_refl.
    cbn -[Load Z.ltb Z.add tokenReloadDebounce lookup insert delete]. change (tokenReloadDebounce <? 0) with false.
    cbn -[Load Z.ltb Z.add tokenReloadDebounce lookup insert delete]. rewrite Hfree, Z.ltb_irrefl.
    cbn -[Load Z.ltb Z.add tokenReloadDebounce lookup insert delete]. rewrite lookup_insert_eq.
    cbn -[Load Z.ltb Z.add tokenReloadDebounce lookup insert delete]. rewrite lookup_insert_eq.
    destruct (Load st file) as [st' err] eqn:Hl. by eexists.
Qed.

Lemma watch_reload_witness :
  exists w, watchRuns "tokens.json" (Watch NewTokenStore 0)
      [WNotify "tokens.json" true; WAdvance 100; WNotify "tokens.json" true; WAdvance tokenReloadDebounce; WFire 0; WRead 0 demo_file;
       WSwap 0; WNotify "other" true] = Some w
    /\ debounced (wTrace w).
Proof.
  destruct (watchRuns "tokens.json" (Watch NewTokenStore 0)
    [WNotify "tokens.json" true; WAdvance 100; WNotify "tokens.json" true; WAdvance tokenReloadDebounce; WFire 0; WRead 0 demo_file;
     WSwap 0; WNotify "other" true]) as [w|] eqn:E; [|vm_compute in E; discriminate].
  exists w. split; [reflexivity|]. apply (watch_reload _ _ _ _ _ E).
Defined.

(** A [null] among the records is not refused: it is a panic, also in the
    running server, where the failure of a reload should keep the old store. *)
Example null_record_panics :
  option_map wPanicked (watchRuns "tokens.json" (Watch NewTokenStore 0)
    [WNotify "tokens.json" true; WAdvance tokenReloadDebounce; WFire 0; WRead 0 (Decoded [None]); WSwap 0]) = Some true.
Proof. reflexivity. Qed.

(** A run that lasts longer than the debounce time overwrites what a later one
    has loaded: the store is left with the file as it was. *)
Example stale_reload :
  option_map (fun w => Lookup (wStore w) 0 "t") (watchRuns "tokens.json" (Watch NewTokenStore 0)
    [WNotify "tokens.json" true; WAdvance tokenReloadDebounce; WFire 0; WRead 0 (Decoded [Some (MkToken "t" "" 0 false None)]);
     WNotify "tokens.json" true; WAdvance tokenReloadDebounce; WFire 1; WRead 1 (Decoded [Some (MkToken "t" "" 0 true None)]);
     WSwap 1; WSwap 0])
  = Some (Some (MkToken "t" "" 0 false None)).
Proof. vm_compute. reflexivity. Qed.
