(* ===== verification/Http.v ===== *)
(** * internal/fetcher/http.go: one upstream fetch

    The HTTP client, the reading of the body and the YAML decoder are inputs:
    an [exchange] says how far the request got.  The start and the end of the
    attempt are arguments. *)
From stdpp Require Import base gmap sets list strings sorting.
From Stdlib Require Import ZArith Lia Ascii.
From S2P Require Import Prelude GoStrings GoTime Yaml Subscriptions Headers.

Inductive FetchOutcome := OutcomeSuccess | OutcomeHTTPError | OutcomeTimeout | OutcomeParseError | OutcomeNetworkError.

#[export] Instance FetchOutcome_eq_dec : EqDecision FetchOutcome.
Proof. solve_decision. Defined.

Record FetchResult := MkFetchResult {
  frSourceName : string;
  frAttemptedAt : Time;
  frOutcome : FetchOutcome;
  frHTTPStatus : Z;
  frPayloadBytes : nat;
  frError : string;
  frDuration : Duration
}.

Record UpstreamHeaders := MkHeaders {
  uhUserinfo : option SubscriptionUserinfo;
  uhIntervalHours : option Z
}.

Record UpstreamCachedPayload := MkPayload {
  SourceName : string;
  FetchedAt : Time;
  BodyYAML : string;
  uHeaders : UpstreamHeaders;
  PayloadBytes : nat;
  parsedConfig : option node
}.

(** [yaml.Unmarshal] into a [yaml.Node]: the error's text, or the node. *)
Class YamlDecoder := { yaml_Unmarshal : string -> string + node }.

(** [Parse] and the payload afterwards (the lazy path stores what it parsed). *)
Definition Parse {Y : YamlDecoder} (p : UpstreamCachedPayload) : (string + node) * UpstreamCachedPayload :=
  match parsedConfig p with
  | Some n => (inr n, p)
  | None =>
      match yaml_Unmarshal (BodyYAML p) with
      | inl e => (inl e, p)
      | inr n => (inr n, MkPayload (SourceName p) (FetchedAt p) (BodyYAML p) (uHeaders p) (PayloadBytes p) (Some n))
      end
  end.

Definition SetParsed (p : UpstreamCachedPayload) (n : node) : UpstreamCachedPayload :=
  MkPayload (SourceName p) (FetchedAt p) (BodyYAML p) (uHeaders p) (PayloadBytes p) (Some n).

(** ** UpstreamFetcher *)
Definition DefaultUserAgent : string := "clash-meta/v1.18.0".

(** [ufClientTimeout] is the [Timeout] of the [http.Client] it holds. *)
Record UpstreamFetcher := MkFetcher { ufClientTimeout : Duration; ufTimeout : Duration; ufUserAgent : string }.

Definition NewUpstreamFetcher (timeout : Duration) : UpstreamFetcher :=
  MkFetcher (wrap64 (timeout + 5 * Second)) timeout DefaultUserAgent.

(** The request [Fetch] hands to the client, with the deadline of its context. *)
Record httpRequest := MkHttpRequest { hrMethod : string; hrURL : string; hrUserAgent : string; hrDeadline : Time }.

Definition upstreamRequest (f : UpstreamFetcher) (source : SubscriptionRow) (start : Time) : httpRequest :=
  let ua := ufUserAgent f in
  MkHttpRequest "GET" (Link source) (if String.eqb ua "" then DefaultUserAgent else ua) (start + ufTimeout f)%Z.

(** ** What the network does *)
Record response := MkResponse {
  rsStatus : Z;
  rsHeader : string -> string;      (** [Header.Get]: empty when absent *)
  rsBody : string + string          (** [io.ReadAll]: an error's text, or the body *)
}.

Inductive exchange :=
| BuildRequestFails (msg : string)
| DoFails (deadlineExceeded : bool) (msg : string)
| Responds (r : response).

(** ** assertClashShape *)
Inductive shapeError := RootNotMapping | NoClashKey.

Fixpoint hasClashKey (content : list node) : bool :=
  match content with
  | k :: _ :: rest =>
      String.eqb (Value k) "proxies" || String.eqb (Value k) "proxy-groups" || String.eqb (Value k) "rules"
      || hasClashKey rest
  | _ => false
  end.

Definition assertClashShape (parsed : node) : option shapeError :=
  let root := match Kind parsed, Content parsed with DocumentNode, c :: _ => c | _, _ => parsed end in
  if negb (is_kind MappingNode root) then Some RootNotMapping
  else if hasClashKey (Content root) then None
  else Some NoClashKey.

Definition shapeText (e : shapeError) : string :=
  match e with
  | RootNotMapping => "upstream payload is not a Clash YAML config (root is not a mapping — common cause: provider returned V2Ray-style base64 URL list because our User-Agent wasn't recognized as a Clash client; check UpstreamFetcher.UserAgent)"
  | NoClashKey => "upstream payload has no proxies / proxy-groups / rules at the top level — not a Clash subscription"
  end.

(** ** sanitizeURLInError *)
Fixpoint indexOf (s sub : string) : option nat :=
  if HasPrefix s sub then Some 0
  else match s with
       | "" => None
       | String _ s' => S <$> indexOf s' sub
       end.

(** The loop, [out] being what is emitted so far; an iteration consumes at
    least one byte, so the length of [s] is enough fuel. *)
Fixpoint replaceLoop (fuel : nat) (out s old new : string) : string :=
  match fuel with
  | 0 => out +:+ s
  | S fuel' =>
      match indexOf s old with
      | None => out +:+ s
      | Some i => replaceLoop fuel' (out +:+ str_take i s +:+ new) (str_drop (i + String.length old) s) old new
      end
  end.
Definition replaceAll (s old new : string) : string :=
  if String.eqb old "" then s else replaceLoop (String.length s) "" s old new.

Definition sanitizeURLInError `{UrlParser} (msg link : string) : string :=
  if String.eqb link "" then msg
  else match url_Parse link with
       | None => msg
       | Some u => replaceAll msg link (uScheme u +:+ "://" +:+ uHost u +:+ uPath u)
       end.

(** ** Fetch *)
Definition dquote : string := String (ascii_of_nat 34) "".

(** [fmt.Errorf("upstream %q: ...", name, ...)], for names that need no escape
    in a quoted string. *)
Definition upstreamError (name what : string) : string := "upstream " +:+ dquote +:+ name +:+ dquote +:+ ": " +:+ what.

Section fetch.
Context {U : UnicodeTables} {P : UrlParser} {Y : YamlDecoder}.

Definition parseHeaders (get : string -> string) : UpstreamHeaders :=
  let v := get "Subscription-Userinfo" in
  let ui :=
    if String.eqb v "" then None
    else match ParseSubscriptionUserinfo v with
         | inl _ => None
         | inr (ui, _) => Some ui
         end in
  let v := get "Profile-Update-Interval" in
  MkHeaders ui (if String.eqb v "" then None else ParseProfileUpdateInterval v).

(** The payload or the error's text, and the result record. *)
Definition Fetch (source : SubscriptionRow) (start done : Time) (x : exchange)
    : (string + UpstreamCachedPayload) * FetchResult :=
  let name := Name source in
  let failed outcome status bytes err text :=
    (inl (upstreamError name text), MkFetchResult name start outcome status bytes err (Sub done start)) in
  match x with
  | BuildRequestFails msg =>
      failed OutcomeNetworkError 0%Z 0 (sanitizeURLInError msg (Link source)) ("build request: " +:+ msg)
  | DoFails deadline msg =>
      failed (if deadline then OutcomeTimeout else OutcomeNetworkError) 0%Z 0
        (sanitizeURLInError msg (Link source)) msg
  | Responds r =>
      match rsBody r with
      | inl msg => failed OutcomeNetworkError (rsStatus r) 0 msg ("read body: " +:+ msg)
      | inr body =>
          let bytes := String.length body in
          if (rsStatus r <? 200)%Z || (300 <=? rsStatus r)%Z
          then failed OutcomeHTTPError (rsStatus r) bytes ("HTTP " +:+ Itoa (rsStatus r)) ("HTTP " +:+ Itoa (rsStatus r))
          else
            let headers := parseHeaders (rsHeader r) in
            match yaml_Unmarshal body with
            | inl e => failed OutcomeParseError (rsStatus r) bytes e ("yaml parse: " +:+ e)
            | inr parsed =>
                match assertClashShape parsed with
                | Some e => failed OutcomeParseError (rsStatus r) bytes (shapeText e) (shapeText e)
                | None =>
                    (inr (SetParsed (MkPayload name start body headers bytes None) parsed),
                     MkFetchResult name start OutcomeSuccess (rsStatus r) bytes "" (Sub done start))
                end
            end
      end
  end.

(** [Fetch] of a fetcher over a client, which answers a request. *)
Definition FetchVia (f : UpstreamFetcher) (do : httpRequest -> exchange) (source : SubscriptionRow) (start done : Time)
    : (string + UpstreamCachedPayload) * FetchResult :=
  Fetch source start done (do (upstreamRequest f source start)).
End fetch.

(** * Lemmas *)

(** ** replaceAll *)
Lemma indexOf_Contains (s sub : string) : Contains s sub = false -> indexOf s sub = None.
Proof.
  induction s as [|c s IH]; cbn [Contains indexOf]; intros [H1 H2]%orb_false_iff; rewrite H1; [done|].
  by rewrite IH.
Qed.

Lemma indexOf_is_Some (s sub : string) : Contains s sub = true -> indexOf s sub <> None.
Proof.
  induction s as [|c s IH]; cbn [Contains indexOf]; intros H; case_if; [done| |done|].
  - by rewrite orb_false_r in H.
  - simpl in H. by destruct (indexOf s sub); [|apply IH in H].
Qed.

Lemma HasPrefix_take (n : nat) (s p : string) : HasPrefix (str_take n s) p = true -> HasPrefix s p = true.
Proof.
  intros [t Ht]%HasPrefix_spec. apply HasPrefix_spec. exists (t +:+ str_drop n s).
  by rewrite <- str_app_assoc, <- Ht, str_take_drop.
Qed.

(** The first occurrence: nothing before it, and it is one. *)
Lemma indexOf_Some (s sub : string) (i : nat) :
  sub <> "" -> indexOf s sub = Some i ->
  s = str_take i s +:+ sub +:+ str_drop (i + String.length sub) s /\ Contains (str_take i s) sub = false.
Proof.
  intros Hne. revert i. induction s as [|c s IH]; intros i; cbn [indexOf].
  - by destruct sub.
  - destruct (HasPrefix (String c s) sub) eqn:Hp.
    + intros [= <-]. apply HasPrefix_spec in Hp as [t Ht]. rewrite Ht. cbn [str_take Nat.add].
      rewrite str_drop_app. split; [done|]. by destruct sub.
    + destruct (indexOf s sub) as [j|]; [|done]. intros [= <-]. destruct (IH j eq_refl) as [Hs Hc].
      cbn [str_take Nat.add str_drop]. split; [by rewrite str_app_cons, <- Hs|].
      cbn [Contains]. rewrite Hc, orb_false_r.
      destruct (HasPrefix (String c (str_take j s)) sub) eqn:Hp'; [|done].
      by rewrite (HasPrefix_take (S j) (String c s) sub Hp') in Hp.
Qed.

Lemma Join_cons (p : string) (ps : list string) (sep : string) :
  ps <> [] -> Join (p :: ps) sep = p +:+ sep +:+ Join ps sep.
Proof. by destruct ps. Qed.

Lemma replaceLoop_pieces (fuel : nat) (out s old new : string) :
  old <> "" -> String.length s <= fuel ->
  exists pieces, pieces <> [] /\ s = Join pieces old /\ replaceLoop fuel out s old new = out +:+ Join pieces new
    /\ Forall (fun p => Contains p old = false) pieces.
Proof.
  intros Hne. revert out s. induction fuel as [|fuel IH]; intros out s Hl; cbn [replaceLoop].
  - destruct s; [|simpl in Hl; lia]. exists [""]. split_and!; [done..|]. constructor; [by destruct old|constructor].
  - destruct (indexOf s old) as [i|] eqn:Hi.
    + destruct (indexOf_Some _ _ _ Hne Hi) as [Hs Hc].
      destruct (IH (out +:+ str_take i s +:+ new) (str_drop (i + String.length old) s)) as (ps & Hps & Hd & -> & HF).
      { rewrite Hs in Hl. rewrite !str_length_app in Hl. destruct old; [done|]. simpl in *. lia. }
      exists (str_take i s :: ps). rewrite !Join_cons by done. rewrite !str_app_assoc, <- Hd.
      split_and!; [done|done|done|]. by constructor.
    + exists [s]. split_and!; [done..|]. constructor; [|constructor].
      destruct (Contains s old) eqn:Hc; [|done]. by destruct (indexOf_is_Some s old Hc).
Qed.

(** [replaceAll] cuts the string at the occurrences of [old] and joins the
    pieces with [new]: no piece between two cuts contains [old]. *)
Theorem replaceAll_spec (s old new : string) :
  old <> "" ->
  exists pieces, s = Join pieces old /\ replaceAll s old new = Join pieces new
    /\ Forall (fun p => Contains p old = false) pieces.
Proof.
  intros Hne. unfold replaceAll. destruct (String.eqb_spec old "") as [|_]; [done|].
  destruct (replaceLoop_pieces (String.length s) "" s old new Hne) as (ps & _ & Hs & Hr & HF); [done|].
  by exists ps.
Qed.

Lemma replaceAll_spec_witness :
  exists pieces, "aXXbXXX" = Join pieces "XX" /\ replaceAll "aXXbXXX" "XX" "-" = Join pieces "-"
    /\ Forall (fun p => Contains p "XX" = false) pieces.
Proof. apply replaceAll_spec. discriminate. Defined.

(** ** assertClashShape *)

(** The root is a mapping with one of the three keys. *)
Definition clash_shaped (n : node) : Prop :=
  exists root key, docRoot (Some n) = Some root /\ Kind root = MappingNode
    /\ key ∈ ["proxies"; "proxy-groups"; "rules"] /\ is_Some (getMappingNode root key).

Lemma hasClashKey_spec (c : list node) :
  hasClashKey c = true
  <-> exists key, key ∈ ["proxies"; "proxy-groups"; "rules"] /\ is_Some (find_pair key (fun _ => true) c).
Proof.
  induction c as [|x|k v rest IH] using pairs_ind; cbn [hasClashKey find_pair].
  1,2: split; [done|]; intros (? & _ & [? ?]); done.
  split.
  - intros H. destruct (hasClashKey rest) eqn:Hr.
    + destruct (proj1 IH eq_refl) as (key & Hk & Hf). exists key. split; [done|]. case_if; [by eexists|done].
    + rewrite orb_false_r in H. apply orb_true_iff in H as [[H|H]%orb_true_iff|H].
      all: eexists; split; [|by rewrite H]; set_solver.
  - intros (key & Hk & Hf). case_if_in Hf.
    + string_eqb. subst key.
      repeat (apply elem_of_cons in Hk as [->|Hk]; [by rewrite !orb_true_r || done|]). by apply elem_of_nil in Hk.
    + rewrite (proj2 IH); [by rewrite orb_true_r|]. by exists key.
Qed.

Lemma assertClashShape_spec (n : node) : assertClashShape n = None <-> clash_shaped n.
Proof.
  unfold assertClashShape, clash_shaped, docRoot.
  set (root := match Kind n, Content n with DocumentNode, c :: _ => c | _, _ => n end).
  assert (match Kind n, Content n with DocumentNode, c :: _ => Some c | _, _ => Some n end = Some root) as ->.
  { unfold root. by destruct (Kind n), (Content n). }
  unfold is_kind, getMappingNode. destruct (bool_decide (Kind root = MappingNode)) eqn:Hk; cbn [negb].
  - apply bool_decide_eq_true in Hk. destruct (hasClashKey (Content root)) eqn:Hc.
    + split; [|done]. intros _. apply hasClashKey_spec in Hc as (key & ? & ?). exists root, key.
      unfold is_kind. by rewrite bool_decide_true.
    + split; [done|]. intros (r & key & [= <-] & _ & H1 & H2). unfold is_kind in H2.
      rewrite bool_decide_true in H2 by done.
      assert (hasClashKey (Content root) = true); [|congruence]. apply hasClashKey_spec. by exists key.
  - apply bool_decide_eq_false in Hk. split; [done|]. intros (r & key & [= <-] & ? & _). done.
Qed.

(** ** Fetch *)

(** One branch of [Fetch]: both directions of every equivalence by inversion. *)
Ltac fetch_branch :=
  cbn [frSourceName frAttemptedAt frOutcome frHTTPStatus frPayloadBytes frDuration frError];
  split_and!; [done|done|done|try congruence|..]; intros; try split; intros;
  destruct_and?; destruct_or?;
  repeat match goal with H : exists _, _ |- _ => destruct H | H : _ /\ _ |- _ => destruct H | H : _ \/ _ |- _ => destruct H end;
  repeat (simplify_eq; match goal with H1 : ?t = inr ?a, H2 : ?t = inr ?b |- _ => rewrite H1 in H2; injection H2 as H2; subst end);
  simplify_eq; first [done | congruence | by eauto 12 | naive_solver congruence].

Section fetch_lemmas.
Context {U : UnicodeTables} {P : UrlParser} {Y : YamlDecoder}.

(** Whether a response that was read in full is acceptable, and why not. *)
Definition is_2xx (r : response) : Prop := (200 <= rsStatus r < 300)%Z.
#[local] Instance is_2xx_dec (r : response) : Decision (is_2xx r).
Proof. unfold is_2xx. apply _. Defined.
Definition unusable (body : string) : Prop :=
  (exists e, yaml_Unmarshal body = inl e) \/ exists n, yaml_Unmarshal body = inr n /\ ~ clash_shaped n.

(** (C36) A fetch succeeds exactly on a 2xx response whose body was read, decodes
    and has the shape of a Clash configuration; the payload then carries the
    body, its decoded form and the parsed headers.  The result record names the
    source, the start and how long it took, carries the status of the response
    and the size of the body when there is one, and its outcome is: success
    exactly then; timeout exactly for an exceeded deadline; network error exactly
    when the request could not be built, failed otherwise or its body could not be
    read; HTTP error exactly for a body read under another status; parse error
    exactly for a body read under a 2xx status that is not YAML or not of the
    shape.  The error text of a failed request has the link's query removed. *)
Theorem Fetch_spec (source : SubscriptionRow) (start done : Time) (x : exchange) :
  let '(out, res) := Fetch source start done x in
  frSourceName res = Name source /\ frAttemptedAt res = start /\ frDuration res = Sub done start
  /\ (frHTTPStatus res, frPayloadBytes res) =
       match x with
       | Responds r => (rsStatus r, match rsBody r with inr body => String.length body | inl _ => 0 end)
       | _ => (0%Z, 0)
       end
  /\ (forall msg, (x = BuildRequestFails msg \/ exists d, x = DoFails d msg) -> frError res = sanitizeURLInError msg (Link source))
  /\ (frOutcome res = OutcomeSuccess <-> exists p, out = inr p)
  /\ (frOutcome res = OutcomeTimeout <-> exists msg, x = DoFails true msg)
  /\ (frOutcome res = OutcomeNetworkError
      <-> (exists msg, x = BuildRequestFails msg) \/ (exists msg, x = DoFails false msg)
          \/ exists r msg, x = Responds r /\ rsBody r = inl msg)
  /\ (frOutcome res = OutcomeHTTPError <-> exists r body, x = Responds r /\ rsBody r = inr body /\ ~ is_2xx r)
  /\ (frOutcome res = OutcomeParseError <-> exists r body, x = Responds r /\ rsBody r = inr body /\ is_2xx r /\ unusable body)
  /\ (forall p, out = inr p <->
       exists r body n, x = Responds r /\ rsBody r = inr body /\ is_2xx r
         /\ yaml_Unmarshal body = inr n /\ clash_shaped n
         /\ p = MkPayload (Name source) start body (parseHeaders (rsHeader r)) (String.length body) (Some n)).
Proof.
  unfold Fetch, unusable. destruct x as [bmsg|d dmsg|r].
  - fetch_branch.
  - destruct d; fetch_branch.
  - destruct (rsBody r) as [rmsg|body] eqn:Hb; [fetch_branch|].
    assert ((rsStatus r <? 200)%Z || (300 <=? rsStatus r)%Z = negb (bool_decide (is_2xx r))) as ->.
    { unfold is_2xx. case_bool_decide; [apply orb_false_iff|apply orb_true_iff]; lia. }
    case_bool_decide as Hst; cbn [negb]; [|fetch_branch].
    destruct (yaml_Unmarshal body) as [e|n] eqn:Hy; [fetch_branch|].
    pose proof (assertClashShape_spec n) as [Hs1 Hs2]. destruct (assertClashShape n) as [e|]; [|specialize (Hs1 eq_refl)]; fetch_branch.
Qed.
End fetch_lemmas.

(** A decoder and a parser good enough for the examples. *)
Definition demo_decoder : YamlDecoder := {| yaml_Unmarshal body :=
  if String.eqb body "proxies: []"
  then inr (lit DocumentNode "" "" [lit MappingNode "" "!!map" [str_scalar "proxies"; lit SequenceNode "" "!!seq" []]])
  else inl "did not find expected node content" |}.
Definition demo_secret_parser : UrlParser := {| url_Parse _ := Some (MkUrl "https" "up.example" "/sub") |}.
Definition demo_secret_row : SubscriptionRow := MkRow "alpha" "https://up.example/sub?token=s3cret" 1 true 0 0.

(** The recorded error is sanitized, the returned one, which the scheduler
    logs and the cache keeps, still carries the link. *)
Lemma Fetch_error_keeps_link :
  let '(out, res) := Fetch (P := demo_secret_parser) (Y := demo_decoder) demo_secret_row 0%Z 1%Z
      (DoFails false "Get https://up.example/sub?token=s3cret: connection refused") in
  Contains (frError res) "s3cret" = false
  /\ exists text, out = inl text /\ Contains text "s3cret" = true.
Proof. vm_compute. split; [done|]. by eexists. Qed.
