(* ===== verification/OwnProxies.v ===== *)
(** * internal/config/own_proxies.go: the operator's proxies and groups

    Decoding a node into the fields that are checked is yaml.v3's and a
    parameter; the nodes themselves go to the merge unchanged. *)
From stdpp Require Import base gmap sets list strings sorting.
From Stdlib Require Import ZArith Lia Ascii.
From S2P Require Import Prelude GoStrings Yaml Http.

Record OwnProxiesFile := MkOwnFile { Proxies : list node; ProxyGroups : list node }.

Record OwnProxyValidationError := MkOwnError { Entry : string; Field : string; Reason : string }.

Definition Error (e : OwnProxyValidationError) : string :=
  if String.eqb (Field e) "" then "own-proxies: " +:+ Entry e +:+ ": " +:+ Reason e
  else "own-proxies: " +:+ Entry e +:+ " field " +:+ dquote +:+ Field e +:+ dquote +:+ ": " +:+ Reason e.

Inductive loadError := ReadError (e : string) | ParseError (e : string) | Invalid (e : OwnProxyValidationError).

(** What [Decode] fills in. *)
Record proxyMeta := MkProxyMeta { pmName : string; pmType : string; pmServer : string; pmPort : Z }.
Record groupMeta := MkGroupMeta { gmName : string; gmType : string; gmProxies : list string }.

(** [Decode] of a node into either struct: the error's text, or the fields. *)
Class NodeDecoder := {
  decodeProxy : node -> string + proxyMeta;
  decodeGroup : node -> string + groupMeta
}.

Definition extractSequence (root : node) (key : string) : list node :=
  if is_kind MappingNode root
  then match find_pair key (is_kind SequenceNode) (Content root) with Some v => Content v | None => [] end
  else [].

Section validate.
Context {D : NodeDecoder}.

Definition indexed (kind : string) (i : nat) : string := kind +:+ "[" +:+ Itoa (Z.of_nat i) +:+ "]".

(** One proxy: the error, or the name to add to those seen. *)
Definition checkProxy (i : nat) (seen : gset string) (p : node) : OwnProxyValidationError + string :=
  match decodeProxy p with
  | inl e => inl (MkOwnError (indexed "proxies" i) "" ("decode: " +:+ e))
  | inr m =>
      if String.eqb (pmName m) "" then inl (MkOwnError (indexed "proxies" i) "name" "empty")
      else if bool_decide (pmName m ∈ seen) then inl (MkOwnError (pmName m) "name" "duplicate")
      else if String.eqb (pmType m) "" then inl (MkOwnError (pmName m) "type" "empty")
      else if String.eqb (pmServer m) "" then inl (MkOwnError (pmName m) "server" "empty")
      else if ((pmPort m <? 1) || (65535 <? pmPort m))%Z
           then inl (MkOwnError (pmName m) "port" ("out of range [1, 65535]: " +:+ Itoa (pmPort m)))
      else inr (pmName m)
  end.

Definition checkGroup (i : nat) (seen : gset string) (g : node) : OwnProxyValidationError + string :=
  match decodeGroup g with
  | inl e => inl (MkOwnError (indexed "proxy-groups" i) "" ("decode: " +:+ e))
  | inr m =>
      if String.eqb (gmName m) "" then inl (MkOwnError (indexed "proxy-groups" i) "name" "empty")
      else if bool_decide (gmName m ∈ seen) then inl (MkOwnError (gmName m) "name" "duplicate")
      else if String.eqb (gmType m) "" then inl (MkOwnError (gmName m) "type" "empty")
      else if bool_decide ("" ∈ gmProxies m) then inl (MkOwnError (gmName m) "proxies" "contains empty proxy reference")
      else inr (gmName m)
  end.

(** Either loop, from index [i]; the first error. *)
Fixpoint checkEntries (check : nat -> gset string -> node -> OwnProxyValidationError + string) (i : nat) (seen : gset string)
    (entries : list node) : option OwnProxyValidationError :=
  match entries with
  | [] => None
  | n :: rest =>
      match check i seen n with
      | inl e => Some e
      | inr name => checkEntries check (S i) ({[name]} ∪ seen) rest
      end
  end.

Definition validateOwnProxies (doc : OwnProxiesFile) : option OwnProxyValidationError :=
  match checkEntries checkProxy 0 ∅ (Proxies doc) with
  | Some e => Some e
  | None => checkEntries checkGroup 0 ∅ (ProxyGroups doc)
  end.

Definition LoadOwnProxies {Y : YamlDecoder} (file : string + string) : loadError + OwnProxiesFile :=
  match file with
  | inl e => inl (ReadError e)
  | inr b =>
      match yaml_Unmarshal b with
      | inl e => inl (ParseError e)
      | inr doc =>
          let root := default doc (docRoot (Some doc)) in
          let out := MkOwnFile (extractSequence root "proxies") (extractSequence root "proxy-groups") in
          match validateOwnProxies out with
          | Some e => inl (Invalid e)
          | None => inr out
          end
      end
  end.

(** * Lemmas *)

(** What the code demands of a proxy and of a group of that name. *)
Definition proxy_ok (n : node) (name : string) : Prop :=
  exists m, decodeProxy n = inr m /\ pmName m = name /\ name <> "" /\ pmType m <> "" /\ pmServer m <> "" /\ (1 <= pmPort m <= 65535)%Z.
Definition group_ok (n : node) (name : string) : Prop :=
  exists m, decodeGroup n = inr m /\ gmName m = name /\ name <> "" /\ gmType m <> "" /\ "" ∉ gmProxies m.

Lemma checkProxy_inr (i : nat) (seen : gset string) (n : node) (name : string) :
  checkProxy i seen n = inr name <-> proxy_ok n name /\ name ∉ seen.
Proof.
  unfold checkProxy, proxy_ok. destruct (decodeProxy n) as [e|m]; [by split; [|intros [(? & ? & _) _]]|].
  destruct (String.eqb_spec (pmName m) ""), (String.eqb_spec (pmType m) ""), (String.eqb_spec (pmServer m) ""),
    (decide (pmName m ∈ seen)) as [Hs|Hs], (Z.ltb_spec (pmPort m) 1), (Z.ltb_spec 65535 (pmPort m));
    rewrite ?(bool_decide_true _ Hs), ?(bool_decide_false _ Hs); cbn [orb];
    (split; [intros Heq; try discriminate; (injection Heq as <-; split; [by exists m|done])
            |intros [(m' & [= <-] & <- & ? & ? & ? & ?) ?]; done || lia]).
Qed.

Lemma checkGroup_inr (i : nat) (seen : gset string) (n : node) (name : string) :
  checkGroup i seen n = inr name <-> group_ok n name /\ name ∉ seen.
Proof.
  unfold checkGroup, group_ok. destruct (decodeGroup n) as [e|m]; [by split; [|intros [(? & ? & _) _]]|].
  destruct (String.eqb_spec (gmName m) ""), (String.eqb_spec (gmType m) ""), (decide (gmName m ∈ seen)) as [Hs|Hs],
    (decide ("" ∈ gmProxies m)) as [Hp|Hp];
    rewrite ?(bool_decide_true _ Hs), ?(bool_decide_false _ Hs), ?(bool_decide_true _ Hp), ?(bool_decide_false _ Hp);
    (split; [intros Heq; try discriminate; (injection Heq as <-; split; [by exists m|done])
            |intros [(m' & [= <-] & <- & ? & ? & ?) ?]; done]).
Qed.

Section entries.
Context (check : nat -> gset string -> node -> OwnProxyValidationError + string) (ok : node -> string -> Prop).
Hypothesis check_inr : forall i seen n name, check i seen n = inr name <-> ok n name /\ name ∉ seen.

Lemma checkEntries_None (i : nat) (seen : gset string) (ns : list node) :
  checkEntries check i seen ns = None <->
  exists names, Forall2 ok ns names /\ NoDup names /\ Forall (fun x => x ∉ seen) names.
Proof.
  revert i seen. induction ns as [|n ns IH]; intros i seen; cbn [checkEntries].
  - split; [|done]. intros _. exists []. by repeat constructor.
  - destruct (check i seen n) as [e|name] eqn:Hc.
    + split; [done|]. intros (names & H2 & Hnd & Hs). inversion H2 as [|? x ? names' Hok]; subst.
      apply Forall_cons in Hs as [Hx _]. pose proof (proj2 (check_inr i seen n x) (conj Hok Hx)). congruence.
    + apply check_inr in Hc as [Hok Hn]. rewrite IH. split.
      * intros (names & H2 & Hnd & Hs). exists (name :: names). split_and!; [by constructor| |].
        -- constructor; [|done]. intros Hin. apply (proj1 (Forall_forall _ _) Hs) in Hin. set_solver.
        -- constructor; [done|]. eapply Forall_impl; [exact Hs|]. set_solver.
      * intros (names & H2 & Hnd & Hs). inversion H2 as [|? x ? names' Hx H2']; subst. inversion Hnd as [|? ? Hxn Hnd']; subst.
        apply Forall_cons in Hs as [Hxs Hs]. exists names'.
        assert (x = name) as -> by (pose proof (proj2 (check_inr i seen n x) (conj Hx Hxs)); pose proof (proj2 (check_inr i seen n name) (conj Hok Hn)); congruence).
        split_and!; [done|done|]. apply Forall_forall. intros y Hy. apply (proj1 (Forall_forall _ _) Hs) in Hy as ?. set_solver.
Qed.

Lemma checkEntries_fresh (ns : list node) :
  checkEntries check 0 ∅ ns = None <-> exists names, Forall2 ok ns names /\ NoDup names.
Proof.
  rewrite checkEntries_None. split; intros (names & H2 & Hnd); exists names; [by destruct Hnd|].
  split_and!; [done|done|]. apply Forall_forall. set_solver.
Qed.

(** The error is that of the first entry that is refused. *)
Lemma checkEntries_Some (i : nat) (seen : gset string) (ns : list node) (e : OwnProxyValidationError) :
  checkEntries check i seen ns = Some e ->
  exists before n after names, ns = before ++ n :: after /\ Forall2 ok before names
    /\ check (i + length before) (list_to_set names ∪ seen) n = inl e.
Proof.
  revert i seen. induction ns as [|n ns IH]; intros i seen; cbn [checkEntries]; [done|].
  destruct (check i seen n) as [e'|name] eqn:Hc.
  - intros [= ->]. exists [], n, ns, []. split_and!; [done|constructor|]. cbn. rewrite Nat.add_0_r, (left_id_L ∅ (∪)). exact Hc.
  - intros (before & n' & after & names & -> & H2 & He)%IH. apply check_inr in Hc as [Hok _].
    exists (n :: before), n', after, (name :: names). split_and!; [done|by constructor|]. rewrite <- He. cbn.
    f_equal; [lia|set_solver].
Qed.
End entries.

(** (C34) The operator's file is accepted exactly when every proxy decodes with a
    name, type, server and a port of 1 to 65535, every group with a name, a type
    and no empty reference, and names do not repeat; what is loaded are then the
    nodes of its two sequences, in order.  Otherwise the error is that of the
    first offending entry, proxies before groups. *)
Theorem LoadOwnProxies_spec {Y : YamlDecoder} (body : string) (doc : node) :
  yaml_Unmarshal body = inr doc ->
  let root := default doc (docRoot (Some doc)) in
  let proxies := extractSequence root "proxies" in
  let groups := extractSequence root "proxy-groups" in
  (forall f, LoadOwnProxies (inr body) = inr f <->
     f = MkOwnFile proxies groups
     /\ (exists names, Forall2 proxy_ok proxies names /\ NoDup names) /\ (exists names, Forall2 group_ok groups names /\ NoDup names))
  /\ (forall e, LoadOwnProxies (inr body) = inl e -> exists err before n after names, e = Invalid err
     /\ (proxies = before ++ n :: after /\ Forall2 proxy_ok before names
           /\ checkProxy (length before) (list_to_set names) n = inl err
         \/ (exists all, Forall2 proxy_ok proxies all) /\ groups = before ++ n :: after /\ Forall2 group_ok before names
           /\ checkGroup (length before) (list_to_set names) n = inl err)).
Proof.
  intros Hy root proxies groups. unfold LoadOwnProxies. rewrite Hy. fold root. fold proxies. fold groups.
  unfold validateOwnProxies. cbn [Proxies ProxyGroups].
  pose proof (checkEntries_fresh _ _ checkProxy_inr proxies) as Hp. pose proof (checkEntries_fresh _ _ checkGroup_inr groups) as Hg.
  destruct (checkEntries checkProxy 0 ∅ proxies) as [e1|] eqn:E1; [|destruct (checkEntries checkGroup 0 ∅ groups) as [e2|] eqn:E2]; split.
  - intros f. split; [done|]. by intros (_ & ?%Hp & _).
  - intros e [= <-]. destruct (checkEntries_Some _ _ checkProxy_inr _ _ _ _ E1) as (b & n & a & names & Hs & H2 & Hc).
    rewrite (right_id_L ∅ (∪)) in Hc. exists e1, b, n, a, names. split; [done|]. by left.
  - intros f. split; [done|]. by intros (_ & _ & ?%Hg).
  - intros e [= <-]. destruct (checkEntries_Some _ _ checkGroup_inr _ _ _ _ E2) as (b & n & a & names & Hs & H2 & Hc).
    rewrite (right_id_L ∅ (∪)) in Hc. exists e2, b, n, a, names. split; [done|]. right. split; [|done].
    destruct (proj1 Hp eq_refl) as (all & ? & _). by exists all.
  - intros f. split; [intros [= <-]|by intros (-> & _)]. split_and!; [done|by apply Hp|by apply Hg].
  - done.
Qed.
End validate.

(** A decoder that reads the four fields of a mapping as they are. *)
Definition demo_node_decoder : NodeDecoder := {|
  decodeProxy n := inr (MkProxyMeta (getMappingField n "name") (getMappingField n "type") (getMappingField n "server")
                     (default 0%Z (ParseInt (getMappingField n "port"))));
  decodeGroup n := inr (MkGroupMeta (getMappingField n "name") (getMappingField n "type") (mappingMembers n "proxies"))
|}.
Definition demo_own_proxy : node :=
  lit MappingNode "" "!!map" [str_scalar "name"; str_scalar "home"; str_scalar "type"; str_scalar "ss"; str_scalar "server"; str_scalar "h";
    str_scalar "port"; scalar "443" "!!int"].
Definition demo_own_decoder : YamlDecoder := {| yaml_Unmarshal _ :=
  inr (lit MappingNode "" "!!map" [str_scalar "proxies"; lit SequenceNode "" "!!seq" [demo_own_proxy]]) |}.

Lemma LoadOwnProxies_spec_witness :
  LoadOwnProxies (D := demo_node_decoder) (Y := demo_own_decoder) (inr "") = inr (MkOwnFile [demo_own_proxy] []).
Proof.
  apply (LoadOwnProxies_spec (D := demo_node_decoder) (Y := demo_own_decoder) "" _ eq_refl). split; [reflexivity|]. split.
  - exists ["home"]. split; [|apply NoDup_singleton]. constructor; [|constructor]. eexists. split; [reflexivity|].
    repeat split; vm_compute; congruence.
  - exists []. split; constructor.
Defined.
