(* ===== verification/Cache.v ===== *)
(** * internal/fetcher/cache.go: the cache of upstream payloads

    The in-memory map and, when a directory is configured, one JSON file per
    source.  A file is modelled by what decoding it gives; the JSON text and the
    temporary files are not.  Every function takes the reading of the clock it
    uses as an argument. *)
From stdpp Require Import base gmap sets list strings sorting.
From Stdlib Require Import ZArith Lia Ascii.
From S2P Require Import Prelude GoStrings GoSort GoTime Yaml Subscriptions Headers Http.

Inductive CacheState := StateMissing | StateFresh | StateStale.

#[export] Instance CacheState_eq_dec : EqDecision CacheState.
Proof. solve_decision. Defined.

Record cacheEntry := MkEntry {
  entryPayload : option UpstreamCachedPayload;
  storedAt : Time;
  lastError : string;
  lastFailedAt : Time
}.
Definition emptyEntry : cacheEntry := MkEntry None zeroTime "" zeroTime.

(** A file of the cache directory: a subdirectory, an unreadable file, one that
    is not the JSON text of a payload, or one that is. *)
Inductive diskFile := DiskDir | DiskUnreadable | DiskGarbage | DiskPayload (p : UpstreamCachedPayload).

Record Cache := MkCache {
  byName : gmap string cacheEntry;
  persistent : bool;                (** [dir != ""] *)
  disk : gmap string diskFile       (** by file name *)
}.

Definition NewCache (dirSet : bool) (d : gmap string diskFile) : Cache := MkCache ∅ dirSet d.

Definition Get (c : Cache) (name : string) : option UpstreamCachedPayload :=
  match byName c !! name with Some e => entryPayload e | None => None end.

Definition State (c : Cache) (name : string) (ttl : Duration) (now : Time) : CacheState :=
  match byName c !! name with
  | None => StateMissing
  | Some e =>
      match entryPayload e with
      | None => StateMissing
      | Some _ => if (Sub now (storedAt e) <? ttl)%Z then StateFresh else StateStale
      end
  end.

Definition Names (c : Cache) : list string := Strings (map fst (map_to_list (byName c))).

(** ** persist *)
Inductive persistFault := FaultMkdir | FaultCreateTemp | FaultEncodePayload | FaultCloseTemp | FaultRenameTemp.

Definition diskPath (name : string) : string := name +:+ ".json".

(** What the JSON file holds: everything but the parsed tree. *)
Definition onDisk (p : UpstreamCachedPayload) : UpstreamCachedPayload :=
  MkPayload (SourceName p) (FetchedAt p) (BodyYAML p) (uHeaders p) (PayloadBytes p) None.

(** The file is replaced by one rename, the last call that can fail. *)
Definition persist (c : Cache) (name : string) (p : UpstreamCachedPayload) (fault : option persistFault)
    : Cache * option persistFault :=
  match fault with
  | Some f => (c, Some f)
  | None => (MkCache (byName c) (persistent c) (<[diskPath name := DiskPayload (onDisk p)]> (disk c)), None)
  end.

(** ** set, markFailed, Drop *)
Definition setMemory (c : Cache) (name : string) (p : UpstreamCachedPayload) (at_ : Time) : Cache :=
  MkCache (<[name := MkEntry (Some p) at_ "" zeroTime]> (byName c)) (persistent c) (disk c).

Definition set (c : Cache) (name : string) (p : UpstreamCachedPayload) (at_ : Time) (fault : option persistFault)
    : Cache * option persistFault :=
  let c := setMemory c name p at_ in
  if persistent c then persist c name p fault else (c, None).

Definition markFailed (c : Cache) (name : string) (err : string) (now : Time) : Cache :=
  let e := default emptyEntry (byName c !! name) in
  MkCache (<[name := MkEntry (entryPayload e) (storedAt e) err now]> (byName c)) (persistent c) (disk c).

Definition LastFailure (c : Cache) (name : string) : string * Time :=
  match byName c !! name with
  | Some e => (lastError e, lastFailedAt e)
  | None => ("", zeroTime)
  end.

(** [os.Remove] removes a file; a directory of that name that is not empty stays. *)
Definition removeFile (d : gmap string diskFile) (file : string) : gmap string diskFile :=
  match d !! file with Some DiskDir => d | _ => delete file d end.

Definition Drop (c : Cache) (name : string) : Cache :=
  MkCache (delete name (byName c)) (persistent c)
    (if persistent c then removeFile (disk c) (diskPath name) else disk c).

(** ** RefreshIfStale, run by one caller alone

    [t1] and [t2] are the clock readings of the two freshness checks, [t3] the
    one before the fetch and [t4] the one of [markFailed]. *)
Inductive refreshError := FetchError (text : string) | PersistError (f : persistFault).

Record refreshResult := MkRefresh {
  rPayload : option UpstreamCachedPayload;
  rRefreshed : bool;
  rErr : option refreshError
}.

(** Neither check finds the entry fresh. *)
Definition needsFetch (c : Cache) (name : string) (ttl : Duration) (t1 t2 : Time) : bool :=
  bool_decide (State c name ttl t1 <> StateFresh) && bool_decide (State c name ttl t2 <> StateFresh).

(** After the fetch. *)
Definition finishFetch (c : Cache) (name : string) (t3 t4 : Time) (fetched : string + UpstreamCachedPayload)
    (fault : option persistFault) : refreshResult * Cache :=
  match fetched with
  | inl err =>
      let c := markFailed c name err t4 in
      (MkRefresh (Get c name) true (Some (FetchError err)), c)
  | inr p =>
      let '(c, f) := set c name p t3 fault in
      (MkRefresh (Some p) true (PersistError <$> f), c)
  end.

Definition RefreshIfStale (c : Cache) (name : string) (ttl : Duration) (t1 t2 t3 t4 : Time)
    (fetched : string + UpstreamCachedPayload) (fault : option persistFault) : refreshResult * Cache :=
  if needsFetch c name ttl t1 t2 then finishFetch c name t3 t4 fetched fault
  else (MkRefresh (Get c name) false None, c).

(** ** LoadFromDisk *)
Definition Ext (file : string) : string :=
  match LastIndexByte file dot with Some i => str_drop i file | None => "" end.

Section load.
Context {Y : YamlDecoder}.

(** One directory entry. *)
Definition loadFile (c : Cache) (ent : string * diskFile) : Cache :=
  let '(file, content) := ent in
  if negb (String.eqb (Ext file) ".json") then c
  else
    let name := str_take (String.length file - String.length ".json") file in
    match content with
    | DiskPayload p =>
        match yaml_Unmarshal (BodyYAML p) with
        | inl _ => c
        | inr parsed =>
            MkCache (<[name := MkEntry (Some (SetParsed p parsed)) (FetchedAt p) "" zeroTime]> (byName c))
              (persistent c) (disk c)
        end
    | DiskDir | DiskUnreadable | DiskGarbage => c
    end.

(** What [os.ReadDir] gives: the directory is missing, cannot be read, or its
    entries. *)
Inductive dirListing := DirMissing | DirError | DirEntries (entries : list (string * diskFile)).

(** The cache, and whether an error is returned. *)
Definition LoadFromDisk (c : Cache) (listing : dirListing) : Cache * bool :=
  if negb (persistent c) then (c, false)
  else match listing with
       | DirMissing => (c, false)
       | DirError => (c, true)
       | DirEntries es => (foldl loadFile c es, false)
       end.
End load.

(** * Lemmas *)

(** ** Memory *)
Lemma Get_setMemory (c : Cache) (name other : string) (p : UpstreamCachedPayload) (at_ : Time) :
  Get (setMemory c name p at_) other = if decide (other = name) then Some p else Get c other.
Proof.
  unfold Get. simpl. case_decide as H; [subst; by rewrite lookup_insert_eq|by rewrite lookup_insert_ne].
Qed.

Lemma Get_set (c : Cache) (name other : string) (p : UpstreamCachedPayload) (at_ : Time) (f : option persistFault) :
  Get (set c name p at_ f).1 other = if decide (other = name) then Some p else Get c other.
Proof. rewrite <- (Get_setMemory c name other p at_). unfold set. case_if; [|done]. by destruct f. Qed.

Lemma Get_markFailed (c : Cache) (name other : string) (err : string) (now : Time) :
  Get (markFailed c name err now) other = Get c other.
Proof.
  unfold Get, markFailed. simpl. destruct (decide (other = name)) as [->|H].
  - rewrite lookup_insert_eq. by destruct (byName c !! name).
  - by rewrite lookup_insert_ne.
Qed.

Lemma Get_Drop (c : Cache) (name other : string) :
  Get (Drop c name) other = if decide (other = name) then None else Get c other.
Proof.
  unfold Get. simpl. case_decide as H; [subst; by rewrite lookup_delete_eq|by rewrite lookup_delete_ne].
Qed.

(** ** Fetch logs *)

(** The times at which fetches of a source started, latest first. *)
Definition startsOf (name : string) (log : list (string * Time)) : list Time :=
  map snd (filter (fun x => x.1 = name) log).

Lemma startsOf_cons (name name' : string) (now : Time) (log : list (string * Time)) :
  startsOf name ((name', now) :: log) = if decide (name' = name) then now :: startsOf name log else startsOf name log.
Proof. unfold startsOf. rewrite filter_cons. cbn [fst]. by case_decide. Qed.

(** ** Files *)
Lemma diskPath_Ext (name : string) : Ext (diskPath name) = ".json".
Proof.
  unfold Ext, diskPath. change ".json" with (String dot "json"). rewrite LastIndexByte_app by done.
  change (String dot "json") with ("" +:+ String dot "json"). by rewrite str_drop_app.
Qed.

Lemma Ext_diskPath (file : string) :
  Ext file = ".json" -> file = diskPath (str_take (String.length file - String.length ".json") file).
Proof.
  unfold Ext. destruct (LastIndexByte file dot) as [i|] eqn:Hi; [|done]. intros He.
  assert (file = str_take i file +:+ ".json") as Hf by (by rewrite <- He, str_take_drop).
  rewrite Hf at 3. unfold diskPath. rewrite Hf at 2. rewrite str_length_app.
  replace (String.length (str_take i file) + String.length ".json" - String.length ".json")
    with (String.length (str_take i file)) by lia.
  by rewrite str_take_app.
Qed.

Lemma diskPath_name (name : string) : str_take (String.length (diskPath name) - String.length ".json") (diskPath name) = name.
Proof.
  unfold diskPath. rewrite str_length_app.
  replace (String.length name + String.length ".json" - String.length ".json") with (String.length name) by lia.
  by rewrite str_take_app.
Qed.

Lemma diskPath_inj (n m : string) : diskPath n = diskPath m -> n = m.
Proof. intros H. by rewrite <- (diskPath_name n), H, diskPath_name. Qed.

Section load_lemmas.
Context {Y : YamlDecoder}.

Lemma loadFile_persistent (c : Cache) (f : string * diskFile) : persistent (loadFile c f) = persistent c.
Proof. destruct f. unfold loadFile. by repeat case_match. Qed.

Lemma LoadFromDisk_persistent (c : Cache) (listing : dirListing) : persistent (LoadFromDisk c listing).1 = persistent c.
Proof.
  unfold LoadFromDisk. destruct (negb (persistent c)); [done|]. destruct listing as [| |es]; try done. cbn [fst].
  revert c. induction es as [|f es IH]; intros c; [done|]. cbn [foldl]. by rewrite IH, loadFile_persistent.
Qed.

(** What the file of a source contributes. *)
Definition reloaded (d : gmap string diskFile) (name : string) : option UpstreamCachedPayload :=
  match d !! diskPath name with
  | Some (DiskPayload p) =>
      match yaml_Unmarshal (BodyYAML p) with inl _ => None | inr n => Some (SetParsed p n) end
  | _ => None
  end.

Lemma loadFile_other (c : Cache) (file : string) (content : diskFile) (name : string) :
  file <> diskPath name -> Get (loadFile c (file, content)) name = Get c name.
Proof.
  intros Hne. unfold loadFile. case_if; [done|]. string_eqb. destruct content as [| | |p]; try done.
  destruct (yaml_Unmarshal (BodyYAML p)); [done|]. unfold Get. simpl. rewrite lookup_insert_ne; [done|].
  intros <-. by apply Hne, Ext_diskPath.
Qed.

Lemma loadFile_same (c : Cache) (content : diskFile) (name : string) :
  Get (loadFile c (diskPath name, content)) name
  = match content with
    | DiskPayload p => match yaml_Unmarshal (BodyYAML p) with inl _ => Get c name | inr n => Some (SetParsed p n) end
    | _ => Get c name
    end.
Proof.
  unfold loadFile. rewrite diskPath_Ext. cbn [negb String.eqb]. destruct content as [| | |p]; try done.
  destruct (yaml_Unmarshal (BodyYAML p)); [done|]. unfold Get. simpl byName.
  by rewrite diskPath_name, lookup_insert_eq.
Qed.

Lemma loadFiles_absent (es : list (string * diskFile)) (c : Cache) (name : string) :
  diskPath name ∉ es.*1 -> Get (foldl loadFile c es) name = Get c name.
Proof.
  revert c. induction es as [|[file content] es IH]; intros c Hn; simpl; [done|].
  rewrite IH by set_solver. apply loadFile_other. set_solver.
Qed.

Lemma loadFiles_Get (d : gmap string diskFile) (es : list (string * diskFile)) (c : Cache) (name : string) :
  es ≡ₚ map_to_list d -> Get c name = None -> Get (foldl loadFile c es) name = reloaded d name.
Proof.
  intros Hes Hc. unfold reloaded. destruct (d !! diskPath name) as [content|] eqn:Hd.
  - assert ((diskPath name, content) ∈ es) as (l1 & l2 & ->)%list_elem_of_split by (rewrite Hes; by apply elem_of_map_to_list).
    assert (NoDup ((l1 ++ (diskPath name, content) :: l2).*1)) as Hnd by (rewrite Hes; apply NoDup_fst_map_to_list).
    rewrite fmap_app, fmap_cons in Hnd. apply NoDup_app in Hnd as (_ & H1 & H2).
    rewrite foldl_app. cbn [foldl]. rewrite loadFiles_absent by (by inversion H2).
    rewrite loadFile_same, loadFiles_absent, Hc; [by destruct content|].
    intros Hin. apply (H1 _ Hin). simpl. left.
  - rewrite loadFiles_absent, Hc; [done|]. rewrite Hes. intros ((file & content) & Hx & Hin)%list_elem_of_fmap.
    apply elem_of_map_to_list in Hin. simpl in Hx. congruence.
Qed.

(** (C37) A restart loses nothing and resurrects nothing: what a stored payload,
    a dropped source and a failed write leave on disk is what a new process
    loads, whatever the order of the directory. *)
Theorem cache_restart (c : Cache) (name other : string) (p : UpstreamCachedPayload) (at_ : Time)
    (f : persistFault) (n : node)
    (es : gmap string diskFile -> list (string * diskFile)) :
  persistent c = true -> yaml_Unmarshal (BodyYAML p) = inr n -> disk c !! diskPath name <> Some DiskDir ->
  let restart d := (LoadFromDisk (NewCache true d) (DirEntries (es d))).1 in
  (forall d, es d ≡ₚ map_to_list d) ->
  Get (restart (disk (set c name p at_ None).1)) name = Some (SetParsed p n)
  /\ Get (restart (disk (Drop c name))) name = None
  /\ Get (restart (disk (set c name p at_ (Some f)).1)) name = Get (restart (disk c)) name
  /\ (other <> name ->
      Get (restart (disk (set c name p at_ None).1)) other = Get (restart (disk c)) other
      /\ Get (restart (disk (Drop c name))) other = Get (restart (disk c)) other).
Proof.
  intros Hp Hy Hdir restart Hes.
  assert (forall d nm, Get (restart d) nm = reloaded d nm) as Hr.
  { intros d nm. unfold restart, LoadFromDisk. cbn [persistent NewCache negb fst]. by apply loadFiles_Get. }
  rewrite !Hr. unfold reloaded, set, setMemory. cbn [persistent]. rewrite Hp. cbn [persist disk fst Drop].
  assert (removeFile (disk c) (diskPath name) = delete (diskPath name) (disk c)) as Hrm.
  { unfold removeFile. destruct (disk c !! diskPath name) as [[]|]; done. }
  rewrite Hp, Hrm, lookup_insert_eq, lookup_delete_eq. cbn [onDisk BodyYAML]. rewrite Hy.
  split_and!; [done|done|done|]. intros Hne.
  rewrite lookup_insert_ne, lookup_delete_ne by (intros E; by apply Hne, eq_sym, diskPath_inj). done.
Qed.
End load_lemmas.

Definition demo_payload : UpstreamCachedPayload :=
  MkPayload "alpha" 5%Z "proxies: []" (MkHeaders None None) 11 None.
Definition demo_parsed : node :=
  lit DocumentNode "" "" [lit MappingNode "" "!!map" [str_scalar "proxies"; lit SequenceNode "" "!!seq" []]].

Lemma cache_restart_witness :
  Get (LoadFromDisk (Y := demo_decoder)
         (NewCache true (disk (set (NewCache true ∅) "alpha" demo_payload 7%Z None).1))
         (DirEntries (map_to_list (disk (set (NewCache true ∅) "alpha" demo_payload 7%Z None).1)))).1 "alpha"
  = Some (SetParsed demo_payload demo_parsed).
Proof.
  refine (proj1 (cache_restart (Y := demo_decoder) (NewCache true ∅) "alpha" "beta" demo_payload 7%Z FaultMkdir
    demo_parsed map_to_list eq_refl _ _ _)).
  - reflexivity.
  - vm_compute. discriminate.
  - reflexivity.
Defined.
