(* ===== verification/Refresh.v ===== *)
(** * internal/fetcher/cache.go: concurrent [RefreshIfStale]

    Any number of goroutines run [RefreshIfStale]; one step of a goroutine is
    one critical section or one call out of the function.  [singleflight.Group]
    is an interface whose laws are its documentation: a call for a key becomes
    the leader when no call for it is in flight, joins the flight otherwise,
    and the flight ends when the leader's function returns. *)
From stdpp Require Import base gmap sets list strings sorting.
From Stdlib Require Import ZArith Lia Ascii.
From S2P Require Import Prelude GoStrings GoTime Yaml Subscriptions Headers Http Cache.

(** ** The interface of singleflight *)
Class Singleflight (G : Type) := {
  sfEmpty : G;
  flightOf : G -> string -> option nat;
  takeOff : G -> string -> nat -> G;
  land : G -> string -> G
}.
Class SingleflightLaws (G : Type) `{!Singleflight G} : Prop := {
  flightOf_empty key : flightOf sfEmpty key = None;
  flightOf_takeOff g key t key' : flightOf (takeOff g key t) key' = if decide (key' = key) then Some t else flightOf g key';
  flightOf_land g key key' : flightOf (land g key) key' = if decide (key' = key) then None else flightOf g key'
}.

(** The map of flights the package keeps. *)
#[export] Instance map_Singleflight : Singleflight (gmap string nat) := {|
  sfEmpty := ∅; flightOf g key := g !! key; takeOff g key t := <[key := t]> g; land g key := delete key g
|}.
#[export] Instance map_SingleflightLaws : SingleflightLaws (gmap string nat).
Proof.
  split; simpl.
  - intros key. apply lookup_empty.
  - intros g key t key'. case_decide as H; [subst; apply lookup_insert_eq|by apply lookup_insert_ne].
  - intros g key key'. case_decide as H; [subst; apply lookup_delete_eq|by apply lookup_delete_ne].
Qed.

(** ** Goroutines

    The points of [RefreshIfStale] between two steps. *)
Inductive pc :=
| PCheck                                                  (** before the first freshness check *)
| PFresh                                                  (** it said fresh *)
| PDo                                                     (** before [sf.Do] *)
| PWait (leader : nat)                                    (** waiting for another goroutine's flight *)
| PRecheck                                                (** leader: before the second check *)
| PRefreshed                                              (** leader: a sibling already refreshed *)
| PNow                                                    (** leader: before reading the clock *)
| PFetch (start : Time)                                   (** leader: the fetch is in flight *)
| PMark (err : string)                                    (** leader: before [markFailed] *)
| PExisting (err : string)                                (** leader: before reading the old payload *)
| PSet (start : Time) (p : UpstreamCachedPayload)         (** leader: before [set] *)
| PPersist (p : UpstreamCachedPayload)                    (** leader: before the file is written *)
| PReturn (r : refreshResult)                             (** leader: the function has returned *)
| PDone (r : refreshResult).

Record thread := MkThread { thName : string; thTTL : Duration; thPC : pc }.

Record system (G : Type) := MkSystem {
  sCache : Cache;
  sNow : Time;
  sFlights : G;
  sThreads : gmap nat thread;
  sFetches : list (string * Time)   (** the fetches started, latest first *)
}.
Arguments MkSystem {G}. Arguments sCache {G}. Arguments sNow {G}. Arguments sFlights {G}.
Arguments sThreads {G}. Arguments sFetches {G}.

(** What the environment decides: a new call, the passing of time, which
    goroutine runs, and the answers of the fetch and of the file system. *)
Inductive event :=
| ESpawn (t : nat) (name : string) (ttl : Duration)
| EAdvance (d : Duration)
| ERun (t : nat) (fetched : string + UpstreamCachedPayload) (fault : option persistFault).

Section steps.
Context {G : Type} `{!Singleflight G}.

Definition setPC (s : system G) (t : nat) (th : thread) (p : pc) : gmap nat thread :=
  <[t := MkThread (thName th) (thTTL th) p]> (sThreads s).

(** The end of a flight: its leader and everyone waiting for it get the result. *)
Definition deliver (leader : nat) (r : refreshResult) (th : thread) : thread :=
  match thPC th with
  | PWait l => if Nat.eqb l leader then MkThread (thName th) (thTTL th) (PDone r) else th
  | _ => th
  end.

Definition runThread (s : system G) (t : nat) (th : thread) (fetched : string + UpstreamCachedPayload)
    (fault : option persistFault) : option (system G) :=
  let name := thName th in
  let c := sCache s in
  let goto p := Some (MkSystem c (sNow s) (sFlights s) (setPC s t th p) (sFetches s)) in
  let goto_with c p := Some (MkSystem c (sNow s) (sFlights s) (setPC s t th p) (sFetches s)) in
  match thPC th with
  | PCheck => if decide (State c name (thTTL th) (sNow s) = StateFresh) then goto PFresh else goto PDo
  | PFresh => goto (PDone (MkRefresh (Get c name) false None))
  | PDo =>
      match flightOf (sFlights s) name with
      | Some l => goto (PWait l)
      | None => Some (MkSystem c (sNow s) (takeOff (sFlights s) name t) (setPC s t th PRecheck) (sFetches s))
      end
  | PWait _ => None
  | PRecheck => if decide (State c name (thTTL th) (sNow s) = StateFresh) then goto PRefreshed else goto PNow
  | PRefreshed => goto (PReturn (MkRefresh (Get c name) false None))
  | PNow => Some (MkSystem c (sNow s) (sFlights s) (setPC s t th (PFetch (sNow s))) ((name, sNow s) :: sFetches s))
  | PFetch start =>
      match fetched with
      | inl err => goto (PMark err)
      | inr p => goto (PSet start p)
      end
  | PMark err => goto_with (markFailed c name err (sNow s)) (PExisting err)
  | PExisting err => goto (PReturn (MkRefresh (Get c name) true (Some (FetchError err))))
  | PSet start p =>
      goto_with (setMemory c name p start)
        (if persistent c then PPersist p else PReturn (MkRefresh (Some p) true None))
  | PPersist p =>
      let '(c, f) := persist c name p fault in
      goto_with c (PReturn (MkRefresh (Some p) true (PersistError <$> f)))
  | PReturn r =>
      Some (MkSystem c (sNow s) (land (sFlights s) name) (deliver t r <$> setPC s t th (PDone r)) (sFetches s))
  | PDone _ => None
  end.

Definition step (s : system G) (e : event) : option (system G) :=
  match e with
  | ESpawn t name ttl =>
      match sThreads s !! t with
      | Some _ => None
      | None => Some (MkSystem (sCache s) (sNow s) (sFlights s) (<[t := MkThread name ttl PCheck]> (sThreads s)) (sFetches s))
      end
  | EAdvance d =>
      if (d <? 0)%Z then None
      else Some (MkSystem (sCache s) (sNow s + d)%Z (sFlights s) (sThreads s) (sFetches s))
  | ERun t fetched fault =>
      match sThreads s !! t with
      | None => None
      | Some th => runThread s t th fetched fault
      end
  end.

Fixpoint runs (s : system G) (es : list event) : option (system G) :=
  match es with
  | [] => Some s
  | e :: es' => match step s e with Some s' => runs s' es' | None => None end
  end.

Definition start_system (c : Cache) (now : Time) : system G := MkSystem c now sfEmpty ∅ [].

Definition reachable (c : Cache) (now : Time) (s : system G) : Prop :=
  exists es, runs (start_system c now) es = Some s.
End steps.

(** * Lemmas *)

(** ** One flight per source *)

(** Inside the function run by [sf.Do]. *)
Definition leading (p : pc) : bool :=
  match p with
  | PRecheck | PRefreshed | PNow | PFetch _ | PMark _ | PExisting _ | PSet _ _ | PPersist _ | PReturn _ => true
  | PCheck | PFresh | PDo | PWait _ | PDone _ => false
  end.

Section flights.
Context {G : Type} `{!Singleflight G, !SingleflightLaws G}.
Implicit Types s : system G.

(** The leaders are the goroutines of the flights, and nobody waits for a
    flight that is over. *)
Record flights_ok (s : system G) : Prop := {
  fl_leader t th : sThreads s !! t = Some th -> leading (thPC th) = true -> flightOf (sFlights s) (thName th) = Some t;
  fl_flight key l : flightOf (sFlights s) key = Some l ->
    exists th, sThreads s !! l = Some th /\ thName th = key /\ leading (thPC th) = true;
  fl_wait t th l : sThreads s !! t = Some th -> thPC th = PWait l -> flightOf (sFlights s) (thName th) = Some l
}.

Lemma setPC_lookup (s : system G) (t t' : nat) (th : thread) (p : pc) :
  setPC s t th p !! t' = if decide (t' = t) then Some (MkThread (thName th) (thTTL th) p) else sThreads s !! t'.
Proof. unfold setPC. case_decide as H; [subst; apply lookup_insert_eq|by apply lookup_insert_ne]. Qed.

(** A step that neither starts nor ends a flight. *)
Lemma flights_ok_move (s : system G) (t : nat) (th : thread) (p : pc) (c : Cache) (now : Time) (log : list (string * Time)) :
  flights_ok s -> sThreads s !! t = Some th -> leading p = leading (thPC th) ->
  (forall l, p = PWait l -> flightOf (sFlights s) (thName th) = Some l) ->
  flights_ok (MkSystem c now (sFlights s) (setPC s t th p) log).
Proof.
  intros Hok Ht Hl Hw. split; cbn [sThreads sFlights].
  - intros t' th'. rewrite setPC_lookup. case_decide as E; [|apply (fl_leader _ Hok)].
    subst. intros [= <-]. cbn. rewrite Hl. by apply (fl_leader _ Hok).
  - intros key l Hf. destruct (fl_flight _ Hok _ _ Hf) as (th' & Hth' & Hn & Hlead).
    rewrite setPC_lookup. case_decide as E; [|by exists th']. subst. simplify_eq. eexists. split_and!; [done..|]. cbn. by rewrite Hl.
  - intros t' th' l. rewrite setPC_lookup. case_decide as E; [|apply (fl_wait _ Hok)].
    subst. intros [= <-]. cbn. apply Hw.
Qed.

Lemma flights_ok_takeOff (s : system G) (t : nat) (th : thread) (c : Cache) (now : Time) (log : list (string * Time)) :
  flights_ok s -> sThreads s !! t = Some th -> thPC th = PDo -> flightOf (sFlights s) (thName th) = None ->
  flights_ok (MkSystem c now (takeOff (sFlights s) (thName th) t) (setPC s t th PRecheck) log).
Proof.
  intros Hok Ht Hpc Hn. split; cbn [sThreads sFlights].
  - intros t' th'. rewrite setPC_lookup, flightOf_takeOff. case_decide as E.
    + subst. intros [= <-] _. cbn. by rewrite decide_True.
    + intros Hth' Hlead. pose proof (fl_leader _ Hok _ _ Hth' Hlead). rewrite decide_False; congruence.
  - intros key l. rewrite flightOf_takeOff. case_decide as E.
    + intros [= <-]. subst. rewrite setPC_lookup, decide_True by done. by eexists.
    + intros Hf. destruct (fl_flight _ Hok _ _ Hf) as (th' & Hth' & Hn' & Hlead).
      rewrite setPC_lookup. rewrite decide_False; [by exists th'|]. intros ->. assert (th' = th) as -> by congruence. by rewrite Hpc in Hlead.
  - intros t' th' l. rewrite setPC_lookup, flightOf_takeOff. case_decide as E; [subst; by intros [= <-]|].
    intros Hth' Hw. pose proof (fl_wait _ Hok _ _ _ Hth' Hw). rewrite decide_False; congruence.
Qed.

Lemma deliver_lookup (s : system G) (t t' : nat) (th : thread) (r : refreshResult) :
  (deliver t r <$> setPC s t th (PDone r)) !! t'
  = if decide (t' = t) then Some (MkThread (thName th) (thTTL th) (PDone r)) else deliver t r <$> sThreads s !! t'.
Proof. rewrite lookup_fmap, setPC_lookup. by case_decide. Qed.

Lemma deliver_facts (l : nat) (r : refreshResult) (th : thread) :
  thName (deliver l r th) = thName th /\ leading (thPC (deliver l r th)) = leading (thPC th)
  /\ (thPC (deliver l r th) = thPC th /\ thPC th <> PWait l \/ thPC th = PWait l /\ thPC (deliver l r th) = PDone r).
Proof.
  unfold deliver. destruct (thPC th) as [| | |l'| | | | | | | | | |] eqn:E; cbn; rewrite ?E; auto.
  destruct (Nat.eqb_spec l' l) as [->|Hne]; cbn; rewrite ?E; [auto|]. split_and!; [done..|]. left. split; [done|congruence].
Qed.

Lemma deliver_TTL (l : nat) (r : refreshResult) (th : thread) : thTTL (deliver l r th) = thTTL th.
Proof. unfold deliver. by repeat case_match. Qed.

Lemma flights_ok_land (s : system G) (t : nat) (th : thread) (r : refreshResult) (c : Cache) (now : Time)
    (log : list (string * Time)) :
  flights_ok s -> sThreads s !! t = Some th -> thPC th = PReturn r ->
  flights_ok (MkSystem c now (land (sFlights s) (thName th)) (deliver t r <$> setPC s t th (PDone r)) log).
Proof.
  intros Hok Ht Hpc.
  assert (flightOf (sFlights s) (thName th) = Some t) as Hf by (apply (fl_leader _ Hok); [done|by rewrite Hpc]).
  split; cbn [sThreads sFlights].
  - intros t' th'. rewrite deliver_lookup, flightOf_land. case_decide as E; [subst; by intros [= <-]|].
    destruct (sThreads s !! t') as [th0|] eqn:H0; [|done]. intros [= <-]. destruct (deliver_facts t r th0) as (-> & -> & _).
    intros Hlead. pose proof (fl_leader _ Hok _ _ H0 Hlead). rewrite decide_False; congruence.
  - intros key l. rewrite flightOf_land. case_decide as E; [done|]. intros Hf'.
    destruct (fl_flight _ Hok _ _ Hf') as (th' & Hth' & Hn & Hlead). rewrite deliver_lookup.
    rewrite decide_False by congruence. rewrite Hth'. eexists. split; [done|].
    destruct (deliver_facts t r th') as (-> & -> & _). done.
  - intros t' th' l. rewrite deliver_lookup, flightOf_land. case_decide as E; [subst; by intros [= <-]|].
    destruct (sThreads s !! t') as [th0|] eqn:H0; [|done]. intros [= <-].
    destruct (deliver_facts t r th0) as (-> & _ & [[-> Hne]|[_ ->]]); [|done].
    intros Hw. pose proof (fl_wait _ Hok _ _ _ H0 Hw) as Hf'. rewrite decide_False; [done|congruence].
Qed.

Lemma flights_ok_run (s s' : system G) (t : nat) (th : thread) (fetched : string + UpstreamCachedPayload)
    (fault : option persistFault) :
  flights_ok s -> sThreads s !! t = Some th -> runThread s t th fetched fault = Some s' -> flights_ok s'.
Proof.
  intros Hok Ht. unfold runThread. destruct (thPC th) eqn:Hpc; intros Hr.
  all: repeat case_match; simplify_eq.
  all: try (by eapply flights_ok_takeOff); try (by eapply flights_ok_land).
  all: eapply flights_ok_move; [done..|by rewrite Hpc|]; try done.
  by intros ? [= <-].
Qed.

Lemma flights_ok_step (s s' : system G) (e : event) : flights_ok s -> step s e = Some s' -> flights_ok s'.
Proof.
  intros Hok. destruct e as [t name ttl|d|t fetched fault]; cbn [step].
  - destruct (sThreads s !! t) eqn:Ht; [done|]. intros [= <-]. split; cbn [sThreads sFlights].
    + intros t' th'. rewrite lookup_insert. case_decide; [by intros [= <-]|apply (fl_leader _ Hok)].
    + intros key l Hf. destruct (fl_flight _ Hok _ _ Hf) as (th' & Hth' & ?). exists th'.
      rewrite lookup_insert_ne by congruence. done.
    + intros t' th' l. rewrite lookup_insert. case_decide; [by intros [= <-]|apply (fl_wait _ Hok)].
  - case_if; [done|]. intros [= <-]. by split; apply Hok.
  - destruct (sThreads s !! t) eqn:Ht; [|done]. by apply flights_ok_run.
Qed.

(** An invariant of the steps holds in every state a run leads to. *)
Lemma runs_invariant (P : system G -> Prop) (ok : event -> Prop) (es : list event) (s s' : system G) :
  (forall s s' e, P s -> ok e -> step s e = Some s' -> P s') ->
  P s -> Forall ok es -> runs s es = Some s' -> P s'.
Proof.
  intros Hstep. revert s. induction es as [|e es IH]; intros s Hs Hes; cbn [runs]; [by intros [= <-]|].
  apply Forall_cons in Hes as [He Hes]. destruct (step s e) as [s1|] eqn:Hst; [|done]. apply IH; [by eapply Hstep|done].
Qed.

Lemma flights_ok_start (c : Cache) (now : Time) : flights_ok (start_system c now).
Proof.
  split; cbn [start_system sThreads sFlights].
  - intros t th H. by rewrite lookup_empty in H.
  - intros key l H. by rewrite flightOf_empty in H.
  - intros t th l H. by rewrite lookup_empty in H.
Qed.

Lemma flights_ok_reachable (c : Cache) (now : Time) (s : system G) : reachable c now s -> flights_ok s.
Proof.
  intros [es Hes]. eapply (runs_invariant flights_ok (fun _ => True)); [|apply flights_ok_start| |exact Hes].
  - intros ? ? e ? _. by apply flights_ok_step.
  - by apply Forall_forall.
Qed.

(** ** Every call returns *)

(** How many steps a goroutine can still take. *)
Definition rank (p : pc) : nat :=
  match p with
  | PCheck => 10 | PFresh => 1 | PDo => 9 | PWait _ => 1 | PRecheck => 8 | PRefreshed => 2 | PNow => 7
  | PFetch _ => 6 | PMark _ => 3 | PExisting _ => 2 | PSet _ _ => 5 | PPersist _ => 4 | PReturn _ => 1 | PDone _ => 0
  end.
Definition steps_left (m : gmap nat thread) : nat := map_sum (fun th => rank (thPC th)) m.

Lemma steps_left_setPC (s : system G) (t : nat) (th : thread) (p : pc) :
  sThreads s !! t = Some th -> rank p < rank (thPC th) -> steps_left (setPC s t th p) < steps_left (sThreads s).
Proof.
  intros Ht Hlt. unfold steps_left, setPC.
  pose proof (map_sum_update (fun th => rank (thPC th)) _ _ _ (MkThread (thName th) (thTTL th) p) Ht) as H. simpl in H. lia.
Qed.

Lemma steps_left_deliver (m : gmap nat thread) (l : nat) (r : refreshResult) :
  steps_left (deliver l r <$> m) <= steps_left m.
Proof.
  apply map_sum_fmap_le. intros th. destruct (deliver_facts l r th) as (_ & _ & [[-> _]|[-> ->]]); simpl; lia.
Qed.

(** Every step of a goroutine brings it closer to its return. *)
Lemma run_decreases (s s' : system G) (t : nat) (fetched : string + UpstreamCachedPayload) (fault : option persistFault) :
  step s (ERun t fetched fault) = Some s' -> steps_left (sThreads s') < steps_left (sThreads s).
Proof.
  cbn [step]. destruct (sThreads s !! t) as [th|] eqn:Ht; [|done]. unfold runThread.
  destruct (thPC th) eqn:Hpc; intros Hr; repeat case_match; simplify_eq; cbn [sThreads].
  all: try (apply steps_left_setPC; [done|rewrite Hpc; simpl; lia]).
  eapply Nat.le_lt_trans; [apply steps_left_deliver|]. apply steps_left_setPC; [done|rewrite Hpc; simpl; lia].
Qed.

(** A goroutine outside a wait can always take its step. *)
Lemma run_enabled (s : system G) (t : nat) (th : thread) (fetched : string + UpstreamCachedPayload)
    (fault : option persistFault) :
  sThreads s !! t = Some th -> (forall l, thPC th <> PWait l) -> (forall r, thPC th <> PDone r) ->
  is_Some (step s (ERun t fetched fault)).
Proof.
  intros Ht Hw Hd. cbn [step]. rewrite Ht. unfold runThread. destruct (thPC th); try (by repeat case_match).
  - by destruct (Hw leader).
  - by destruct (Hd r).
Qed.

Definition is_done (p : pc) : bool := match p with PDone _ => true | _ => false end.
Definition returned (s : system G) : Prop :=
  forall t th, sThreads s !! t = Some th -> exists r, thPC th = PDone r.

Definition is_run (e : event) : bool := match e with ERun _ _ _ => true | _ => false end.

(** (C9) No call of [RefreshIfStale] is stuck: at most one goroutine per source
    is inside the fetch; a waiting goroutine waits for one that is running; as
    long as a call has not returned, some goroutine can take a step whatever
    the upstream and the disk answer; and the goroutines can take no more than
    [steps_left] steps in all, so every call returns. *)
Theorem RefreshIfStale_returns (c : Cache) (now : Time) (s : system G) :
  reachable c now s ->
  (forall t t' th th' a a', sThreads s !! t = Some th -> sThreads s !! t' = Some th' ->
    thPC th = PFetch a -> thPC th' = PFetch a' -> thName th = thName th' -> t = t')
  /\ (forall t th l, sThreads s !! t = Some th -> thPC th = PWait l ->
      exists th', sThreads s !! l = Some th' /\ thName th' = thName th /\ leading (thPC th') = true)
  /\ (returned s \/ exists t, forall fetched fault, is_Some (step s (ERun t fetched fault)))
  /\ (forall es s', runs s es = Some s' -> Forall (fun e => is_run e = true) es ->
      length es + steps_left (sThreads s') <= steps_left (sThreads s)).
Proof.
  intros Hok%flights_ok_reachable. split_and!.
  - intros t t' th th' a a' Ht Ht' Hp Hp' Hn.
    pose proof (fl_leader _ Hok _ _ Ht ltac:(by rewrite Hp)). pose proof (fl_leader _ Hok _ _ Ht' ltac:(by rewrite Hp')).
    congruence.
  - intros t th l Ht Hp. destruct (fl_flight _ Hok _ _ (fl_wait _ Hok _ _ _ Ht Hp)) as (th' & ? & ? & ?). by exists th'.
  - destruct (decide (map_Forall (fun _ th => is_done (thPC th) = true) (sThreads s))) as [H|H].
    + left. intros t th Ht. apply (H t th) in Ht. destruct (thPC th); try done. by eexists.
    + right. apply map_not_Forall in H as (t & th & Ht & Hd); [|apply _].
      destruct (thPC th) eqn:Hp; try (exists t; intros; apply (run_enabled s t th); [done|by rewrite Hp..]).
      destruct (fl_flight _ Hok _ _ (fl_wait _ Hok _ _ _ Ht Hp)) as (th' & Ht' & _ & Hl).
      exists leader. intros. apply (run_enabled s leader th'); [done|..]; intros x Hx; by rewrite Hx in Hl.
  - clear Hok. intros es s'. revert s. induction es as [|e es IH]; intros s; cbn [runs length]; [by intros [= <-] _|].
    destruct (step s e) as [s1|] eqn:Hst; [|done]. intros Hr [He Hes]%Forall_cons. destruct e as [| |t fe fa]; [done|done|].
    apply run_decreases in Hst. specialize (IH _ Hr Hes). lia.
Qed.

(** ** The time between two fetches *)

(** What happens to the fetches of a source: one starts, for a call with this
    TTL, or the one that started then succeeds and its payload is stored. *)
Inductive mark := Started (at_ : Time) (ttl : Duration) | Succeeded (start : Time).

Definition markOf (name : string) (s : system G) (e : event) : list mark :=
  match e with
  | ERun t _ _ =>
      match sThreads s !! t with
      | Some th =>
          if String.eqb (thName th) name then
            match thPC th with PNow => [Started (sNow s) (thTTL th)] | PSet start _ => [Succeeded start] | _ => [] end
          else []
      | None => []
      end
  | _ => []
  end.

(** In the order of the run; a fetch that starts and is not followed by its
    success before the next start has failed, or is still in flight. *)
Fixpoint history (name : string) (s : system G) (es : list event) : list mark :=
  match es with
  | [] => []
  | e :: es' => markOf name s e ++ match step s e with Some s' => history name s' es' | None => [] end
  end.

(** Every fetch starts at least the TTL of its call after each of the fetches
    that have succeeded before it; what succeeds is the fetch that started last,
    and once. *)
Fixpoint spaced (succeeded : list Time) (last : option Time) (l : list mark) : Prop :=
  match l with
  | [] => True
  | Started b ttl :: l' => Forall (fun a => a + ttl <= b)%Z succeeded /\ spaced succeeded (Some b) l'
  | Succeeded a :: l' => last = Some a /\ spaced (a :: succeeded) None l'
  end.

Definition successes (l : list mark) : list Time := omap (fun m => match m with Succeeded a => Some a | Started _ _ => None end) l.
Definition starts (l : list mark) : list (Time * Duration) := omap (fun m => match m with Started b ttl => Some (b, ttl) | Succeeded _ => None end) l.

Section one_source.
Context (name : string).

(** What the local variables of a goroutine of the source say. *)
Definition pc_ok (now : Time) (succeeded : list Time) (last : option Time) (ttl : Duration) (p : pc) : Prop :=
  match p with
  | PNow => Forall (fun a => a + ttl <= now)%Z succeeded
  | PFetch start | PSet start _ => last = Some start /\ (start <= now)%Z /\ Forall (fun a => a <= start)%Z succeeded
  | _ => True
  end.

(** The cache holds the payload of the latest success, under its start. *)
Definition stored_ok (c : Cache) (succeeded : list Time) : Prop :=
  match succeeded with
  | [] => True
  | h :: _ => exists e, byName c !! name = Some e /\ is_Some (entryPayload e) /\ storedAt e = h /\ Forall (fun a => a <= h)%Z succeeded
  end.

Record spacing (s : system G) (succeeded : list Time) (last : option Time) : Prop := {
  sp_flights : flights_ok s;
  sp_past : Forall (fun a => a <= sNow s)%Z succeeded;
  sp_thread t th : sThreads s !! t = Some th -> thName th = name -> pc_ok (sNow s) succeeded last (thTTL th) (thPC th);
  sp_stored : stored_ok (sCache s) succeeded
}.

(** The thread map after a step of [t]: [t] moved to [p], waiters possibly done. *)
Definition moved (s : system G) (t : nat) (th : thread) (p : pc) (m : gmap nat thread) : Prop :=
  forall t', m !! t' = setPC s t th p !! t' \/ exists l r, m !! t' = deliver l r <$> setPC s t th p !! t'.

Lemma moved_setPC (s : system G) (t : nat) (th : thread) (p : pc) : moved s t th p (setPC s t th p).
Proof. intros t'. by left. Qed.

Lemma moved_deliver (s : system G) (t : nat) (th : thread) (r : refreshResult) :
  moved s t th (PDone r) (deliver t r <$> setPC s t th (PDone r)).
Proof. intros t'. right. exists t, r. apply lookup_fmap. Qed.

(** Another goroutine of the source is not inside the function of [sf.Do]. *)
Lemma only_leader (s : system G) (t t' : nat) (th th' : thread) :
  flights_ok s -> sThreads s !! t = Some th -> leading (thPC th) = true -> sThreads s !! t' = Some th' ->
  thName th' = thName th -> t' <> t -> leading (thPC th') = false.
Proof.
  intros Hf Ht Hl Ht' Hn Hne. destruct (leading (thPC th')) eqn:E; [|done].
  pose proof (fl_leader _ Hf _ _ Ht' E). pose proof (fl_leader _ Hf _ _ Ht Hl). congruence.
Qed.

(** A step of [t] to [p], with the account of the fetches updated: the other
    goroutines are fine when the account is the same or [t] leads. *)
Lemma spacing_move (s : system G) (done done' : list Time) (last last' : option Time) (t : nat) (th : thread) (p : pc) (c : Cache)
    (fl : G) (m : gmap nat thread) (log : list (string * Time)) :
  spacing s done last -> sThreads s !! t = Some th -> moved s t th p m ->
  flights_ok (MkSystem c (sNow s) fl m log) ->
  done' = done /\ last' = last \/ (thName th = name /\ leading (thPC th) = true) ->
  Forall (fun a => a <= sNow s)%Z done' -> stored_ok c done' ->
  (thName th = name -> pc_ok (sNow s) done' last' (thTTL th) p) ->
  spacing (MkSystem c (sNow s) fl m log) done' last'.
Proof.
  intros Hs Ht Hm Hfl Hsame Hpast Hst Hpc. split; cbn [sThreads sNow sCache]; [done|done| |done].
  assert (forall t' th', setPC s t th p !! t' = Some th' -> thName th' = name -> pc_ok (sNow s) done' last' (thTTL th') (thPC th')) as H.
  { intros t' th'. rewrite setPC_lookup. case_decide as E; [intros [= <-]; exact Hpc|]. intros Ht' Hn.
    pose proof (sp_thread _ _ _ Hs t' th' Ht' Hn) as Hok. destruct Hsame as [[-> ->]|[Hn' Hl]]; [done|].
    pose proof (only_leader s t t' th th' (sp_flights _ _ _ Hs) Ht Hl Ht' ltac:(congruence) E) as Hno.
    by destruct (thPC th'). }
  intros t' th' Hth' Hn. destruct (Hm t') as [E|(l & r & E)]; rewrite E in Hth'; [by apply (H t')|].
  destruct (setPC s t th p !! t') as [th0|] eqn:H0; [|done]. injection Hth' as <-.
  destruct (deliver_facts l r th0) as (Hn' & _ & Hd). rewrite Hn' in Hn. pose proof (H t' th0 H0 Hn) as H1.
  rewrite deliver_TTL. by destruct Hd as [[-> _]|[_ ->]].
Qed.

(** Stale means old enough. *)
Lemma stale_gap (c : Cache) (ttl : Duration) (now : Time) (e : cacheEntry) :
  State c name ttl now <> StateFresh -> byName c !! name = Some e -> is_Some (entryPayload e) ->
  (storedAt e <= now)%Z -> (storedAt e + ttl <= now)%Z.
Proof.
  unfold State. intros H He [q Hq] Hle. rewrite He, Hq in H. unfold Sub, minDuration, maxDuration in H.
  destruct (Z.ltb_spec (Z.max (-2 ^ 63) (Z.min (2 ^ 63 - 1) (now - storedAt e))) ttl); [done|]. lia.
Qed.

Lemma stored_stale (c : Cache) (done : list Time) (ttl : Duration) (now : Time) :
  stored_ok c done -> Forall (fun a => a <= now)%Z done -> State c name ttl now <> StateFresh -> Forall (fun a => a + ttl <= now)%Z done.
Proof.
  destruct done as [|h done]; [by constructor|]. intros (e & He & Hp & Hh & Hle) Hpast Hst.
  apply Forall_cons in Hpast as [Hnow _]. pose proof (stale_gap c ttl now e Hst He Hp ltac:(lia)).
  eapply Forall_impl; [exact Hle|]. cbn. lia.
Qed.

Lemma stored_same (c c' : Cache) (done : list Time) : byName c' = byName c -> stored_ok c done -> stored_ok c' done.
Proof. intros E. unfold stored_ok. by rewrite E. Qed.

Lemma stored_markFailed (c : Cache) (n err : string) (now : Time) (done : list Time) :
  stored_ok c done -> stored_ok (markFailed c n err now) done.
Proof.
  destruct done as [|h done]; [done|]. intros (e & He & Hp & Hh & Hle). unfold stored_ok, markFailed. cbn [byName].
  destruct (decide (n = name)) as [->|Hn]; [|rewrite lookup_insert_ne by done; by exists e].
  rewrite lookup_insert_eq, He. by eexists.
Qed.

Lemma stored_setMemory (c : Cache) (n : string) (q : UpstreamCachedPayload) (start : Time) (done : list Time) :
  (n <> name -> stored_ok c done) ->
  (n = name -> exists rest, done = start :: rest /\ Forall (fun a => a <= start)%Z done) ->
  stored_ok (setMemory c n q start) done.
Proof.
  intros H1 H2. destruct (decide (n = name)) as [->|Hn].
  - destruct (H2 eq_refl) as (rest & -> & Hle). unfold stored_ok, setMemory. cbn [byName]. rewrite lookup_insert_eq. by eexists.
  - specialize (H1 Hn). destruct done as [|h done]; [done|]. destruct H1 as (e & He & Hp & Hh & Hle). exists e.
    split_and!; [|done..]. unfold setMemory. cbn [byName]. by rewrite lookup_insert_ne.
Qed.

(** The account of the fetches after a mark. *)
Definition after (g : list Time * option Time) (m : mark) : list Time * option Time :=
  match m with Started b _ => (g.1, Some b) | Succeeded a => (a :: g.1, None) end.
Definition legal (g : list Time * option Time) (m : mark) : Prop :=
  match m with Started b ttl => Forall (fun a => a + ttl <= b)%Z g.1 | Succeeded a => g.2 = Some a end.

Lemma spacing_run (s s' : system G) (g : list Time * option Time) (t : nat) (th : thread)
    (fetched : string + UpstreamCachedPayload) (fault : option persistFault) :
  spacing s g.1 g.2 -> sThreads s !! t = Some th -> runThread s t th fetched fault = Some s' ->
  let ms := markOf name s (ERun t fetched fault) in
  Forall (legal g) ms /\ spacing s' (foldl after g ms).1 (foldl after g ms).2.
Proof.
  intros Hs Ht Hr. destruct g as [done last]. cbn [fst snd] in Hs.
  pose proof (flights_ok_run _ _ _ _ _ _ (sp_flights _ _ _ Hs) Ht Hr) as Hfl.
  unfold markOf. rewrite Ht. pose proof (sp_thread _ _ _ Hs t th Ht) as Hpc. pose proof (sp_past _ _ _ Hs) as Hpast.
  pose proof (sp_stored _ _ _ Hs) as Hst. destruct (String.eqb_spec (thName th) name) as [Hn|Hn].
  - specialize (Hpc Hn). unfold runThread in Hr. destruct (thPC th) eqn:Hp; repeat case_match; simplify_eq; cbn [pc_ok] in Hpc.
    all: repeat match goal with H : decide _ = _ |- _ => clear H end.
    all: cbn [foldl after fst snd]; (split; [repeat constructor; try apply Hpc|]).
    all: try (eapply (spacing_move s _ _ _ _ t th); [exact Hs|exact Ht|apply moved_setPC || apply moved_deliver|exact Hfl|by left|done|done|done]).
    + (* PRecheck, stale *) eapply (spacing_move s _ _ _ _ t th); [exact Hs|exact Ht|apply moved_setPC|exact Hfl|by left|done|done|].
      intros _. cbn [pc_ok].
      match goal with H : State _ (thName th) _ _ <> _ |- _ => rewrite Hn in H; eapply stored_stale; [exact Hst|exact Hpast|exact H] end.
    + (* PNow *) eapply (spacing_move s _ _ _ _ t th); [exact Hs|exact Ht|apply moved_setPC|exact Hfl|right; by rewrite Hp|done|done|].
      intros _. cbn [pc_ok]. split_and!; [done|lia|done].
    + (* PMark *) eapply (spacing_move s _ _ _ _ t th); [exact Hs|exact Ht|apply moved_setPC|exact Hfl|by left|done|by apply stored_markFailed|done].
    + (* PSet *) destruct Hpc as (_ & Hnow & Hle).
      eapply (spacing_move s _ _ _ _ t th); [exact Hs|exact Ht|apply moved_setPC|exact Hfl|right; by rewrite Hp|by constructor| |done].
      apply stored_setMemory; [done|]. intros _. eexists. split; [done|]. by constructor.
    + destruct Hpc as (_ & Hnow & Hle).
      eapply (spacing_move s _ _ _ _ t th); [exact Hs|exact Ht|apply moved_setPC|exact Hfl|right; by rewrite Hp|by constructor| |done].
      apply stored_setMemory; [done|]. intros _. eexists. split; [done|]. by constructor.
    + (* PPersist *) eapply (spacing_move s _ _ _ _ t th); [exact Hs|exact Ht|apply moved_setPC|exact Hfl|by left|done| |done].
      match goal with H : persist _ _ _ _ = _ |- _ => unfold persist in H; destruct fault; simplify_eq; by eapply stored_same end.
  - cbn [foldl]. split; [constructor|]. cbn [fst snd]. unfold runThread in Hr. destruct (thPC th) eqn:Hp; repeat case_match; simplify_eq.
    all: eapply (spacing_move s _ _ _ _ t th);
      [exact Hs|exact Ht|apply moved_setPC || apply moved_deliver|exact Hfl|by left|done| |done]; try done.
    + by apply stored_markFailed.
    + by apply stored_setMemory.
    + by apply stored_setMemory.
    + match goal with H : persist _ _ _ _ = _ |- _ => unfold persist in H; destruct fault; simplify_eq; by eapply stored_same end.
Qed.

Lemma spacing_step (s s' : system G) (g : list Time * option Time) (e : event) :
  spacing s g.1 g.2 -> step s e = Some s' ->
  Forall (legal g) (markOf name s e) /\ spacing s' (foldl after g (markOf name s e)).1 (foldl after g (markOf name s e)).2.
Proof.
  intros Hs Hst. destruct e as [t nm ttl'|d|t fetched fault].
  - pose proof (flights_ok_step _ _ _ (sp_flights _ _ _ Hs) Hst) as Hfl. cbn [step markOf foldl] in *. split; [constructor|].
    destruct (sThreads s !! t) eqn:Ht; [done|]. injection Hst as <-.
    split; cbn [sThreads sNow sCache]; [done|apply Hs| |apply Hs].
    intros t' th'. rewrite lookup_insert. case_decide; [by intros [= <-]|apply (sp_thread _ _ _ Hs t')].
  - pose proof (flights_ok_step _ _ _ (sp_flights _ _ _ Hs) Hst) as Hfl. cbn [step markOf foldl] in *. split; [constructor|].
    case_if_in Hst; [done|]. injection Hst as <-. apply Z.ltb_ge in Heqb.
    split; cbn [sThreads sNow sCache]; [done| | |apply Hs].
    + eapply Forall_impl; [apply Hs|]. cbn. lia.
    + intros t' th' Ht' Hn. pose proof (sp_thread _ _ _ Hs t' th' Ht' Hn) as H.
      destruct (thPC th'); cbn [pc_ok] in *; try done; [eapply Forall_impl; [exact H|]; cbn; lia|..];
        destruct H as (? & ? & ?); split_and!; try done; lia.
  - cbn [step] in Hst. destruct (sThreads s !! t) as [th|] eqn:Ht; [|done]. by eapply spacing_run.
Qed.

Lemma spaced_app (g : list Time * option Time) (ms l : list mark) :
  length ms <= 1 -> Forall (legal g) ms -> spaced (foldl after g ms).1 (foldl after g ms).2 l -> spaced g.1 g.2 (ms ++ l).
Proof.
  destruct g as [done last]. destruct ms as [|[b ttl|a] [|? ?]]; cbn; intros Hlen Hl H; try lia; [done|..];
    apply Forall_cons in Hl as [Hl _]; by split.
Qed.

Lemma spaced_runs (es : list event) (s s' : system G) (g : list Time * option Time) :
  spacing s g.1 g.2 -> runs s es = Some s' -> spaced g.1 g.2 (history name s es).
Proof.
  revert s g. induction es as [|e es IH]; intros s g Hs; cbn [runs history]; [done|].
  destruct (step s e) as [s1|] eqn:Hst; [|done]. intros Hr. destruct (spacing_step s s1 g e Hs Hst) as [Hl Hs1].
  apply spaced_app; [|done|by apply IH]. unfold markOf. repeat case_match; cbn; lia.
Qed.

Lemma spacing_start (c : Cache) (now0 : Time) : spacing (start_system c now0) [] None.
Proof.
  split; cbn [start_system sThreads sNow sCache]; [apply flights_ok_start|constructor| |done].
  intros t th H. by rewrite lookup_empty in H.
Qed.

(** A success that follows another one comes from a fetch that started between
    them. *)
Lemma spaced_one (ttl : Duration) (now0 now : Time) (sofar : list Time) (last : option Time) (l : list mark) :
  spaced sofar last l -> (now - now0 < ttl)%Z ->
  Forall (fun st => now0 <= st.1 <= now /\ ttl <= st.2)%Z (starts l) -> Forall (fun a => now0 <= a)%Z sofar ->
  match last with Some b => now0 <= b | None => True end%Z ->
  (sofar <> [] -> last = None) -> (sofar <> [] -> successes l = [] /\ starts l = []) /\ length (successes l) <= 1.
Proof.
  intros Hsp Hlt. revert sofar last Hsp. induction l as [|[b tt|a] l IH]; intros sofar last Hsp Hst Hd Hlast Hpend; cbn in *; [split; [done|lia]|..].
  - destruct Hsp as [Hgap Hsp]. apply Forall_cons in Hst as [[Hb Htt] Hst]. cbn in Hb, Htt.
    destruct sofar as [|d sofar]; [|exfalso; apply Forall_cons in Hgap as [? _], Hd as [? _]; lia].
    split; [done|]. by apply (IH [] (Some b)); [| | |lia|].
  - destruct Hsp as [-> Hsp]. destruct sofar as [|d sofar]; [|by discriminate Hpend].
    split; [done|]. destruct (IH [a] None) as [H1 _]; [done|done|by repeat constructor|done|done|].
    destruct H1 as [H1 _]; [done|]. unfold successes in H1. cbn in *. rewrite H1. cbn. lia.
Qed.
End one_source.

(** The starts of the history happen between its two ends. *)
Lemma starts_range (name : string) (ttl : Duration) (es : list event) (s s' : system G) :
  runs s es = Some s' -> Forall (fun e => match e with ESpawn _ n ttl' => n = name -> ttl <= ttl' | _ => True end)%Z es ->
  (forall t th, sThreads s !! t = Some th -> thName th = name -> ttl <= thTTL th)%Z ->
  (sNow s <= sNow s')%Z /\ Forall (fun st => sNow s <= st.1 <= sNow s' /\ ttl <= st.2)%Z (starts (history name s es)).
Proof.
  revert s. induction es as [|e es IH]; intros s; cbn [runs history]; [intros [= ->] _ _; split; [lia|constructor]|].
  destruct (step s e) as [s1|] eqn:Hst; [|done]. intros Hr [He Hes]%Forall_cons Hth.
  assert (sNow s <= sNow s1 /\ (forall t th, sThreads s1 !! t = Some th -> thName th = name -> ttl <= thTTL th)
    /\ Forall (fun st => sNow s <= st.1 <= sNow s1 /\ ttl <= st.2) (starts (markOf name s e)))%Z as (Hnow & Hth1 & Hm).
  { destruct e as [t nm ttl'|d|t fetched fault]; cbn [step markOf starts omap list_omap] in *.
    - destruct (sThreads s !! t); [done|]. injection Hst as <-. cbn [sNow sThreads]. split_and!; [lia| |constructor].
      intros t' th'. rewrite lookup_insert. case_decide; [intros [= <-]; by cbn|apply Hth].
    - case_if_in Hst; [done|]. injection Hst as <-. apply Z.ltb_ge in Heqb. cbn [sNow sThreads]. split_and!; [lia|done|constructor].
    - destruct (sThreads s !! t) as [th|] eqn:Ht; [|done].
      assert (sNow s1 = sNow s /\ exists p, moved s t th p (sThreads s1)) as [En [p Hp]].
      { unfold runThread in Hst. destruct (thPC th); repeat case_match; simplify_eq; (split; [done|]);
          first [eexists; apply moved_setPC|eexists; apply moved_deliver]. }
      rewrite En. split_and!; [lia| |].
      + assert (forall t' th', setPC s t th p !! t' = Some th' -> thName th' = name -> ttl <= thTTL th')%Z as Hs.
        { intros t' th'. rewrite setPC_lookup. case_decide; [intros [= <-]; cbn; by apply (Hth t)|apply Hth]. }
        intros t' th' Hth' Hn. destruct (Hp t') as [E|(l & r & E)]; rewrite E in Hth'; [by apply (Hs t')|].
        destruct (setPC s t th p !! t') as [th0|] eqn:H0; [|done]. injection Hth' as <-.
        destruct (deliver_facts l r th0) as (Hn' & _ & _). rewrite deliver_TTL. apply (Hs t'); [done|congruence].
      + destruct (String.eqb_spec (thName th) name) as [Hn|]; [|constructor]. destruct (thPC th); cbn; try constructor; [|constructor].
        cbn. split; [lia|]. by apply (Hth t). }
  destruct (IH s1 Hr Hes Hth1) as [Hnow' Hrest]. split; [lia|].
  unfold starts. rewrite omap_app. apply Forall_app. split.
  - eapply Forall_impl; [exact Hm|]. cbn. lia.
  - eapply Forall_impl; [exact Hrest|]. cbn. lia.
Qed.

(** (C7) Concurrent calls collapse.  Take any interleaving of any number of calls
    of [RefreshIfStale] on one cache, for any sources and with any TTLs, whose
    fetches and writes may fail.  Every fetch of a source starts at least the
    TTL of its call after the start of each fetch of the source that has
    succeeded before, and only the fetch that started last can succeed, once.
    So during any run shorter than the TTLs of its calls at most one fetch of
    the source succeeds. *)
Theorem refresh_spacing (c : Cache) (name : string) (now0 : Time) (es : list event) (s : system G) :
  runs (start_system c now0) es = Some s ->
  spaced [] None (history name (start_system c now0) es)
  /\ forall ttl, Forall (fun e => match e with ESpawn _ n ttl' => n = name -> ttl <= ttl' | _ => True end)%Z es ->
      (sNow s - now0 < ttl)%Z -> length (successes (history name (start_system c now0) es)) <= 1.
Proof.
  intros Hr. pose proof (spaced_runs name es _ _ ([], None) (spacing_start name c now0) Hr) as Hsp. split; [exact Hsp|].
  intros ttl Hes Hlt. destruct (starts_range name ttl es _ _ Hr Hes) as [_ Hst]; [intros t th H; cbn in H; by rewrite lookup_empty in H|].
  by eapply spaced_one.
Qed.

(** ** One caller alone *)

(** The steps of the only goroutine, evaluated as far as the freshness checks
    in the context allow. *)
Ltac solo :=
  unfold start_system;
  repeat (progress (
    cbn [app runs step sThreads sNow sFlights sCache sFetches]; unfold setPC; rewrite ?lookup_empty, ?lookup_insert_eq;
    cbn [runThread persist thPC thName thTTL sThreads sNow sFlights sCache sFetches]; rewrite ?flightOf_empty;
    try rewrite decide_False by done; try rewrite decide_True by done;
    repeat match goal with |- context [(?d <? 0)%Z] => destruct (Z.ltb_spec d 0); [lia|] end)).

Ltac only_solo := repeat (constructor; [by eauto|]); constructor.

Lemma deliver_insert (t : nat) (r : refreshResult) (th : thread) (m : gmap nat thread) :
  thPC th = PDone r -> (deliver t r <$> <[t := th]> m) !! t = Some th.
Proof. intros H. rewrite lookup_fmap, lookup_insert_eq. simpl. unfold deliver. by rewrite H. Qed.

(** (C8) Run without interference, with the clock advancing by [d1], [d2] and [d3]
    between its readings, a call amounts to the sequential function: same
    result, same cache, for every answer of the upstream and of the disk. *)
Theorem solo_RefreshIfStale (c : Cache) (t : nat) (name : string) (ttl : Duration) (t1 : Time) (d1 d2 d3 : Duration)
    (fetched : string + UpstreamCachedPayload) (fault : option persistFault) :
  (0 <= d1)%Z -> (0 <= d2)%Z -> (0 <= d3)%Z ->
  let seq := RefreshIfStale c name ttl t1 (t1 + d1)%Z (t1 + d1 + d2)%Z (t1 + d1 + d2 + d3)%Z fetched fault in
  exists es s, runs (start_system c t1) (ESpawn t name ttl :: es) = Some s
    /\ Forall (fun e => e = ERun t fetched fault \/ exists d, e = EAdvance d) es
    /\ thPC <$> sThreads s !! t = Some (PDone seq.1) /\ sCache s = seq.2.
Proof.
  intros H1 H2 H3 seq. unfold seq, RefreshIfStale, needsFetch, finishFetch. clear seq.
  pose (run := ERun t fetched fault).
  destruct (decide (State c name ttl t1 = StateFresh)) as [Hf|Hf]; [rewrite bool_decide_false by tauto|rewrite bool_decide_true by done]; cbn [andb].
  { exists [run; run]. eexists. unfold run. split_and!; [solo; done|only_solo|solo; done|done]. }
  pose (to_do := [run; EAdvance d1; run; run]).
  destruct (decide (State c name ttl (t1 + d1)%Z = StateFresh)) as [Hf2|Hf2]; [rewrite bool_decide_false by tauto|rewrite bool_decide_true by done].
  { exists (to_do ++ [run; run]). eexists. unfold to_do, run.
    split_and!; [solo; done|only_solo|solo; by rewrite deliver_insert|done]. }
  pose (to_fetch := to_do ++ [EAdvance d2; run; run]). destruct fetched as [err|p].
  - exists (to_fetch ++ [EAdvance d3; run; run; run]). eexists. unfold to_fetch, to_do, run.
    split_and!; [solo; done|only_solo|solo; by rewrite deliver_insert|done].
  - exists (to_fetch ++ (if persistent c then [run; run; run] else [run; run])). unfold to_fetch, to_do, run, set.
    cbn [setMemory persistent]. destruct (persistent c) eqn:Hp; [destruct fault as [f|]|];
      (eexists; split_and!; [solo; rewrite Hp; solo; done|only_solo|solo; by rewrite deliver_insert|done]).
Qed.
End flights.

(** ** Two callers: the second waits for the fetch of the first. *)
Definition demo_ok (t : nat) : event := ERun t (inr demo_payload) None.
Definition demo_waiting : list event :=
  [ESpawn 0 "alpha" 10%Z; ESpawn 1 "alpha" 10%Z; demo_ok 0; demo_ok 0; demo_ok 1; demo_ok 0; demo_ok 0; demo_ok 1].
Definition demo_finish : list event := [EAdvance 3%Z; demo_ok 0; demo_ok 0; demo_ok 0].
Definition demo_start : system (gmap string nat) := start_system (NewCache false ∅) 100%Z.
Definition demo_waiting_state : system (gmap string nat) := default demo_start (runs demo_start demo_waiting).
Definition demo_final_state : system (gmap string nat) := default demo_start (runs demo_start (demo_waiting ++ demo_finish)).

Lemma RefreshIfStale_returns_witness :
  exists th, sThreads demo_waiting_state !! 0 = Some th /\ thName th = "alpha" /\ leading (thPC th) = true.
Proof.
  refine (proj1 (proj2 (RefreshIfStale_returns (NewCache false ∅) 100%Z demo_waiting_state _))
            1 (MkThread "alpha" 10%Z (PWait 0)) 0 _ eq_refl).
  - exists demo_waiting. vm_compute. reflexivity.
  - vm_compute. reflexivity.
Defined.

(** A fetch fails, the next one, two nanoseconds later, succeeds, and after its
    TTL another one does. *)
Definition demo_fail (t : nat) : event := ERun t (inl "refused") None.
Definition demo_mixed : list event :=
  [ESpawn 0 "alpha" 10%Z] ++ replicate 8 (demo_fail 0)
  ++ [EAdvance 2%Z; ESpawn 1 "alpha" 10%Z] ++ replicate 7 (demo_ok 1)
  ++ [EAdvance 12%Z; ESpawn 2 "alpha" 10%Z] ++ replicate 7 (demo_ok 2).
Definition demo_mixed_state : system (gmap string nat) := default demo_start (runs demo_start demo_mixed).

Lemma refresh_spacing_witness :
  history "alpha" demo_start demo_mixed = [Started 100%Z 10%Z; Started 102%Z 10%Z; Succeeded 102%Z; Started 114%Z 10%Z; Succeeded 114%Z]
  /\ spaced [] None (history "alpha" demo_start demo_mixed)
  /\ length (successes (history "alpha" demo_start (demo_waiting ++ demo_finish))) <= 1.
Proof.
  split_and!.
  - vm_compute. reflexivity.
  - apply (refresh_spacing (NewCache false ∅) "alpha" 100%Z demo_mixed demo_mixed_state). vm_compute. reflexivity.
  - refine (proj2 (refresh_spacing (NewCache false ∅) "alpha" 100%Z (demo_waiting ++ demo_finish) demo_final_state _) 10%Z _ _).
    + vm_compute. reflexivity.
    + repeat constructor; intros _; lia.
    + vm_compute. reflexivity.
Defined.

Lemma solo_RefreshIfStale_witness :
  exists es (s : system (gmap string nat)),
    runs (start_system (NewCache false ∅) 100%Z) (ESpawn 7 "alpha" 10%Z :: es) = Some s
    /\ Forall (fun e => e = ERun 7 (inr demo_payload) None \/ exists d, e = EAdvance d) es
    /\ thPC <$> sThreads s !! 7 = Some (PDone (MkRefresh (Some demo_payload) true None))
    /\ Get (sCache s) "alpha" = Some demo_payload.
Proof.
  destruct (solo_RefreshIfStale (G := gmap string nat) (NewCache false ∅) 7 "alpha" 10%Z 100%Z 1%Z 2%Z 0%Z
    (inr demo_payload) None) as (es & s & Hr & He & Hp & Hc); [lia..|].
  exists es, s. split_and!; [exact Hr|exact He|rewrite Hp; reflexivity|rewrite Hc; reflexivity].
Defined.
