(* ===== verification/Scheduler.v ===== *)
(** * internal/fetcher/scheduler.go: bootstrap and background refresh

    The coordinator runs one goroutine per enabled source: a bounded number of
    bootstrap attempts, then a ticker loop.  The goroutines, the wait group of
    [Start] and the clock are a transition system; an event says which
    goroutine runs and what the upstream and the disk answer.  A source is
    refreshed only by its own goroutine, so [RefreshIfStale] runs without
    interference ([Refresh.solo_RefreshIfStale]); it is split where the fetch is
    in flight. *)
From stdpp Require Import base gmap sets list strings sorting.
From Stdlib Require Import ZArith Lia Ascii.
From S2P Require Import Prelude GoStrings GoSort GoTime Yaml Subscriptions Headers Http Cache.

Local Open Scope Z_scope.

Inductive BootstrapState := BootstrapPending | BootstrapSucceeded | BootstrapFailed.

#[export] Instance BootstrapState_eq_dec : EqDecision BootstrapState.
Proof. solve_decision. Defined.

Record SchedulerConfig := MkSchedulerConfig {
  DefaultTTL : Duration;
  DefaultStaleOnError : Duration;
  BootstrapMaxAttemptsPerSource : Z;
  BootstrapAttemptDelay : Duration
}.

Definition neverRefreshTTL : Duration := maxDuration.
Definition refreshDisabled (row : SubscriptionRow) : bool := RefreshSeconds row <? 0.

Record sourceCtx := MkSourceCtx {
  scRow : SubscriptionRow;
  scBootstrap : BootstrapState;
  scLastResult : option FetchResult
}.

Record Coordinator := MkCoordinator {
  coCache : Cache;
  coCfg : SchedulerConfig;
  coSources : gmap string sourceCtx;
  coReady : bool                     (** the channel is closed *)
}.

(** Disabled rows count as bootstrapped. *)
Definition NewCoordinator (cache : Cache) (cfg : SchedulerConfig) (sources : list SubscriptionRow) : Coordinator :=
  MkCoordinator cache cfg
    (foldl (fun m row => <[Name row := MkSourceCtx row (if Enable row then BootstrapPending else BootstrapSucceeded) None]> m)
       ∅ sources) false.

Definition AllSucceeded (c : Coordinator) : bool :=
  forallb (fun kv => negb (Enable (scRow kv.2)) || bool_decide (scBootstrap kv.2 = BootstrapSucceeded))
    (map_to_list (coSources c)).

Definition enabledSources (c : Coordinator) : list SubscriptionRow :=
  map (fun kv => scRow kv.2) (filter (fun kv => Enable (scRow kv.2) = true) (map_to_list (coSources c))).

Definition signalReady (c : Coordinator) : Coordinator := MkCoordinator (coCache c) (coCfg c) (coSources c) true.

(** ** Times *)
Definition ttlFor (cfg : SchedulerConfig) (row : SubscriptionRow) : Duration :=
  if refreshDisabled row then neverRefreshTTL
  else if 0 <? RefreshSeconds row then seconds (RefreshSeconds row)
  else DefaultTTL cfg.

Definition fetchTTLFor (cfg : SchedulerConfig) (row : SubscriptionRow) : Duration :=
  if refreshDisabled row then DefaultTTL cfg else ttlFor cfg row.

Definition staleWindowFor (cfg : SchedulerConfig) (row : SubscriptionRow) : Duration :=
  if 0 <? StaleOnErrorSeconds row then seconds (StaleOnErrorSeconds row) else DefaultStaleOnError cfg.

(** ** Per-source state *)
Definition updateSource (c : Coordinator) (name : string) (f : sourceCtx -> sourceCtx) : Coordinator :=
  match coSources c !! name with
  | None => c
  | Some s => MkCoordinator (coCache c) (coCfg c) (<[name := f s]> (coSources c)) (coReady c)
  end.

Definition recordResult (c : Coordinator) (name : string) (res : FetchResult) : Coordinator :=
  updateSource c name (fun s => MkSourceCtx (scRow s) (scBootstrap s) (Some res)).

Definition markBootstrap (c : Coordinator) (name : string) (state : BootstrapState) : Coordinator :=
  updateSource c name (fun s => MkSourceCtx (scRow s) state (scLastResult s)).

Definition maybePromoteBootstrap (c : Coordinator) (name : string) : Coordinator :=
  updateSource c name (fun s =>
    if decide (scBootstrap s = BootstrapFailed) then MkSourceCtx (scRow s) BootstrapSucceeded (scLastResult s) else s).

Definition withCache (c : Coordinator) (cache : Cache) : Coordinator :=
  MkCoordinator cache (coCfg c) (coSources c) (coReady c).

Definition shouldDrop (c : Coordinator) (row : SubscriptionRow) (now : Time) : bool :=
  if IsZero (LastFailure (coCache c) (Name row)).2 then false
  else match byName (coCache c) !! Name row with
       | None => false
       | Some e =>
           match entryPayload e with
           | None => false
           | Some _ => staleWindowFor (coCfg c) row <? Sub now (storedAt e)
           end
       end.

(** ** The view of /health *)
Record SourceState := MkSourceState {
  ssName : string;
  ssEnabled : bool;
  ssBootstrap : BootstrapState;
  ssLast : option (Time * FetchOutcome * string);
  ssServingFromCache : bool;
  ssUserinfo : option SubscriptionUserinfo;
  ssPayloadBytes : option nat
}.

(** [now name] is the clock when the state of source [name] is read. *)
Definition sourceState (c : Coordinator) (now : string -> Time) (kv : string * sourceCtx) : SourceState :=
  let '(name, s) := kv in
  let last := (fun r => (frAttemptedAt r, frOutcome r, frError r)) <$> scLastResult s in
  match Get (coCache c) name with
  | Some p =>
      MkSourceState name (Enable (scRow s)) (scBootstrap s) last
        (bool_decide (State (coCache c) name (ttlFor (coCfg c) (scRow s)) (now name) = StateStale))
        (uhUserinfo (uHeaders p)) (Some (PayloadBytes p))
  | None => MkSourceState name (Enable (scRow s)) (scBootstrap s) last false None None
  end.

Definition SourceStates (c : Coordinator) (now : string -> Time) : list SourceState :=
  SliceStable (fun a b => str_less (ssName a) (ssName b)) (map (sourceState c now) (map_to_list (coSources c))).

Section fetching.
Context {U : UnicodeTables} {P : UrlParser} {Y : YamlDecoder}.

(** ** refresh, after the exchange with the upstream *)
Definition refreshEnd (c : Coordinator) (row : SubscriptionRow) (start now : Time) (x : exchange)
    (fault : option persistFault) : option refreshError * Coordinator :=
  let '(fetched, res) := Fetch row start now x in
  let c := recordResult c (Name row) res in
  let '(r, cache) := finishFetch (coCache c) (Name row) start now fetched fault in
  (rErr r, withCache c cache).

(** After a scheduled refresh: drop the source, or promote it. *)
Definition afterTick (c : Coordinator) (row : SubscriptionRow) (now : Time) (err : option refreshError) : Coordinator :=
  match err with
  | Some _ => if shouldDrop c row now then withCache c (Drop (coCache c) (Name row)) else c
  | None => maybePromoteBootstrap c (Name row)
  end.

(** ** ForceRefresh, for one source *)
Definition forceRefreshSource (c : Coordinator) (row : SubscriptionRow) (start t4 t5 : Time) (x : exchange)
    (fault : option persistFault) : Coordinator :=
  let '(fetched, res) := Fetch row start t4 x in
  let c := recordResult c (Name row) res in
  match fetched with
  | inl err =>
      let c := withCache c (markFailed (coCache c) (Name row) err t4) in
      if shouldDrop c row t5 then withCache c (Drop (coCache c) (Name row)) else c
  | inr p =>
      maybePromoteBootstrap (withCache c (set (coCache c) (Name row) p t4 fault).1) (Name row)
  end.

(** ** Goroutines *)
Inductive gpc :=
| GLoop (attempt : Z)                         (** top of the bootstrap loop *)
| GFetch (attempt : Z) (start : Time)         (** bootstrap fetch in flight *)
| GDelay (attempt : Z) (until : Time)         (** between two attempts *)
| GMark (state : BootstrapState)              (** before [markBootstrap] *)
| GDone                                       (** before [bootstrapWG.Done()] *)
| GRun                                        (** entering [runSteady] *)
| GSteady                                     (** at the select of the ticker loop *)
| GTickFetch (start : Time)                   (** scheduled fetch in flight *)
| GParked                                     (** never-refresh source, until shutdown *)
| GLeave                                      (** returning before the end of bootstrap *)
| GExited
| GPanicked.                                  (** [time.NewTicker] of a non-positive period *)

Record world := MkWorld {
  wCo : Coordinator;
  wNow : Time;
  wCancelled : bool;                (** the context is cancelled *)
  wWG : Z;                          (** the bootstrap wait group *)
  wGo : gmap string (SubscriptionRow * gpc);
  wFetches : list (string * Time)   (** the fetches started, latest first *)
}.

Definition maxAttempts (cfg : SchedulerConfig) : Z :=
  if BootstrapMaxAttemptsPerSource cfg <? 1 then 1 else BootstrapMaxAttemptsPerSource cfg.

(** What the environment decides.  [EvGo name d1 d2 x fault] lets the goroutine
    of [name] take a step during which [d1] and then [d2] pass, [x] being the
    answer of the upstream and [fault] of the disk; [EvTick] delivers a tick,
    which may come at any time; [EvShutdown] is [<-ctx.Done()] chosen by a
    select.  [ForceRefresh], which nothing but the tests calls, is no event: the
    refresh it makes of each source is [forceRefreshSource] above. *)
Inductive wevent :=
| EvAdvance (d : Duration)
| EvCancel
| EvReady
| EvGo (name : string) (d1 d2 : Duration) (x : exchange) (fault : option persistFault)
| EvTick (name : string) (d1 d2 : Duration)
| EvShutdown (name : string).

(** The goroutine of [row] moves to [g]; coordinator and clock as given. *)
Definition moveTo (w : world) (row : SubscriptionRow) (c : Coordinator) (now : Time) (wg : Z) (g : gpc) : world :=
  MkWorld c now (wCancelled w) wg (<[Name row := (row, g)]> (wGo w)) (wFetches w).
Definition startFetch (w : world) (row : SubscriptionRow) (start : Time) (g : gpc) : world :=
  MkWorld (wCo w) start (wCancelled w) (wWG w) (<[Name row := (row, g)]> (wGo w)) ((Name row, start) :: wFetches w).

Definition goStep (w : world) (row : SubscriptionRow) (g : gpc) (d1 d2 : Duration) (x : exchange)
    (fault : option persistFault) : option world :=
  let c := wCo w in
  let cfg := coCfg c in
  let t2 := wNow w + d1 in
  let t3 := t2 + d2 in
  let stay g := Some (moveTo w row c t3 (wWG w) g) in
  match g with
  | GLoop a =>
      if wCancelled w then stay GLeave
      else if needsFetch (coCache c) (Name row) (fetchTTLFor cfg row) (wNow w) t2
           then Some (startFetch w row t3 (GFetch a t3))
           else stay (GMark BootstrapSucceeded)
  | GFetch a start =>
      let '(err, c) := refreshEnd c row start t2 x fault in
      Some (moveTo w row c t3 (wWG w)
        (match err with
         | None => GMark BootstrapSucceeded
         | Some _ => if a =? maxAttempts cfg then GMark BootstrapFailed else GDelay a (t3 + BootstrapAttemptDelay cfg)
         end))
  | GDelay a until => if wNow w <? until then None else stay (GLoop (a + 1))
  | GMark st => Some (moveTo w row (markBootstrap c (Name row) st) t3 (wWG w) GDone)
  | GDone => Some (moveTo w row c t3 (wWG w - 1) GRun)
  | GRun =>
      if refreshDisabled row then stay GParked
      else if ttlFor cfg row <=? 0 then stay GPanicked
      else stay GSteady
  | GTickFetch start =>
      let '(err, c) := refreshEnd c row start t2 x fault in
      Some (moveTo w row (afterTick c row t3 err) t3 (wWG w) GSteady)
  | GLeave => Some (moveTo w row c t3 (wWG w - 1) GExited)
  | GSteady | GParked | GExited | GPanicked => None
  end.

Definition tickStep (w : world) (row : SubscriptionRow) (d1 d2 : Duration) : world :=
  let c := wCo w in
  let t2 := wNow w + d1 in
  let t3 := t2 + d2 in
  if needsFetch (coCache c) (Name row) (fetchTTLFor (coCfg c) row) (wNow w) t2
  then startFetch w row t3 (GTickFetch t3)
  else moveTo w row (maybePromoteBootstrap c (Name row)) t3 (wWG w) GSteady.

(** A panic of one of the scheduler's goroutines, by a wait group below zero or
    by [time.NewTicker]; that of the token watcher is [wPanicked] of Tokens.v. *)
Definition panicked (w : world) : Prop := wWG w < 0 \/ exists name row, wGo w !! name = Some (row, GPanicked).

Definition wstep (w : world) (e : wevent) : option world :=
  match e with
  | EvAdvance d =>
      if d <? 0 then None
      else Some (MkWorld (wCo w) (wNow w + d) (wCancelled w) (wWG w) (wGo w) (wFetches w))
  | EvCancel => Some (MkWorld (wCo w) (wNow w) true (wWG w) (wGo w) (wFetches w))
  | EvReady =>
      if wWG w =? 0
      then Some (MkWorld (signalReady (wCo w)) (wNow w) (wCancelled w) (wWG w) (wGo w) (wFetches w))
      else None
  | EvGo name d1 d2 x fault =>
      if (d1 <? 0) || (d2 <? 0) then None
      else match wGo w !! name with
           | Some (row, g) => goStep w row g d1 d2 x fault
           | None => None
           end
  | EvTick name d1 d2 =>
      if (d1 <? 0) || (d2 <? 0) then None
      else match wGo w !! name with
           | Some (row, GSteady) => Some (tickStep w row d1 d2)
           | _ => None
           end
  | EvShutdown name =>
      if negb (wCancelled w) then None
      else match wGo w !! name with
           | Some (row, GDelay _ _) => Some (moveTo w row (wCo w) (wNow w) (wWG w) GLeave)
           | Some (row, GSteady) | Some (row, GParked) => Some (moveTo w row (wCo w) (wNow w) (wWG w) GExited)
           | _ => None
           end
  end.

Fixpoint wruns (w : world) (es : list wevent) : option world :=
  match es with
  | [] => Some w
  | e :: es' => match wstep w e with Some w' => wruns w' es' | None => None end
  end.

(** [Start]: the wait group counts the enabled sources, each with its goroutine. *)
Definition Start (c : Coordinator) (now : Time) (cancelled : bool) : world :=
  let enabled := enabledSources c in
  MkWorld c now cancelled (Z.of_nat (length enabled))
    (list_to_map (map (fun row => (Name row, (row, GLoop 1))) enabled)) [].

(** A world that a start of the scheduler over the rows of the configuration
    can lead to. *)
Definition wreachable (cache : Cache) (cfg : SchedulerConfig) (rows : list SubscriptionRow) (w : world) : Prop :=
  exists now cancelled es, wruns (Start (NewCoordinator cache cfg rows) now cancelled) es = Some w.
End fetching.
