(* ===== verification/SchedulerProofs.v ===== *)
(** * The coordinator: readiness, termination and what it keeps

    The invariant of a running scheduler ([world_ok]), the moves of its
    goroutines ([gtrans]), and the theorems on readiness, bootstrap, the number
    of fetches, dropped payloads and panics. *)
From stdpp Require Import base gmap sets list strings sorting.
From Stdlib Require Import ZArith Lia Ascii.
From S2P Require Import Prelude GoStrings GoSort GoTime Yaml Subscriptions Headers Http Cache Scheduler.

Local Open Scope Z_scope.

(** ** What a step does to the per-source state *)

(** Only a failed bootstrap is promoted; rows never change. *)
Definition src_step (s s' : sourceCtx) : Prop :=
  scRow s' = scRow s
  /\ (scBootstrap s' = scBootstrap s \/ scBootstrap s = BootstrapFailed /\ scBootstrap s' = BootstrapSucceeded).
Definition co_step (c c' : Coordinator) : Prop :=
  coCfg c' = coCfg c /\ coReady c' = coReady c
  /\ forall n, option_Forall2 src_step (coSources c !! n) (coSources c' !! n).

#[export] Instance src_step_refl : Reflexive src_step.
Proof. intros s. split; [done|by left]. Qed.
#[export] Instance src_step_trans : Transitive src_step.
Proof. intros s1 s2 s3 [R1 B1] [R2 B2]. split; [congruence|]. destruct B1 as [?|[? ?]], B2 as [?|[? ?]]; intuition congruence. Qed.
#[export] Instance co_step_refl : Reflexive co_step.
Proof. intros c. split_and!; [done|done|]. intros n. by destruct (coSources c !! n); constructor. Qed.
#[export] Instance co_step_trans : Transitive co_step.
Proof.
  intros c1 c2 c3 (E1 & R1 & H1) (E2 & R2 & H2). split_and!; [congruence|congruence|]. intros n.
  specialize (H1 n). specialize (H2 n). destruct H1 as [s1 s2 Hs|]; inversion H2; subst; constructor. by etrans.
Qed.

Lemma co_step_update (c : Coordinator) (name : string) (f : sourceCtx -> sourceCtx) :
  (forall s, src_step s (f s)) -> co_step c (updateSource c name f).
Proof.
  intros Hf. unfold updateSource. destruct (coSources c !! name) as [s|] eqn:Hs; [|done].
  split_and!; [done|done|]. intros n. cbn. destruct (decide (n = name)) as [->|Hne].
  - rewrite lookup_insert_eq, Hs. by constructor.
  - rewrite lookup_insert_ne by done. by destruct (coSources c !! n); constructor.
Qed.

Lemma coCache_updateSource (c : Coordinator) (name : string) (f : sourceCtx -> sourceCtx) :
  coCache (updateSource c name f) = coCache c.
Proof. unfold updateSource. by destruct (coSources c !! name). Qed.

Lemma coCfg_updateSource (c : Coordinator) (name : string) (f : sourceCtx -> sourceCtx) :
  coCfg (updateSource c name f) = coCfg c.
Proof. unfold updateSource. by destruct (coSources c !! name). Qed.

Lemma co_step_withCache (c : Coordinator) (cache : Cache) : co_step c (withCache c cache).
Proof. split_and!; [done|done|]. intros n. cbn. by destruct (coSources c !! n); constructor. Qed.

Lemma co_step_promote (c : Coordinator) (name : string) : co_step c (maybePromoteBootstrap c name).
Proof.
  apply co_step_update. intros s. case_decide; [|done]. split; [done|by right].
Qed.

Section scheduler_lemmas.
Context {U : UnicodeTables} {P : UrlParser} {Y : YamlDecoder}.

Lemma co_step_refreshEnd (c c' : Coordinator) (row : SubscriptionRow) (start now : Time) (x : exchange)
    (fault : option persistFault) (err : option refreshError) :
  refreshEnd c row start now x fault = (err, c') -> co_step c c'.
Proof.
  unfold refreshEnd. destruct (Fetch row start now x) as [fetched res]. destruct (finishFetch _ _ _ _ _ _) as [r cache].
  intros [= <- <-]. etrans; [|apply co_step_withCache]. apply co_step_update. intros s. split; [done|by left].
Qed.

Lemma co_step_afterTick (c : Coordinator) (row : SubscriptionRow) (now : Time) (err : option refreshError) :
  co_step c (afterTick c row now err).
Proof.
  unfold afterTick. destruct err; [|apply co_step_promote]. case_if; [apply co_step_withCache|done].
Qed.

(** ** The invariant *)

(** The goroutine has not called [bootstrapWG.Done()] yet. *)
Definition predone (g : gpc) : bool :=
  match g with GLoop _ | GFetch _ _ | GDelay _ _ | GMark _ | GDone | GLeave => true | _ => false end.
(** Nor has it recorded the outcome of its bootstrap. *)
Definition unmarked (g : gpc) : bool :=
  match g with GLoop _ | GFetch _ _ | GDelay _ _ | GMark _ | GLeave => true | _ => false end.
Definition wgCount (m : gmap string (SubscriptionRow * gpc)) : nat :=
  map_sum (fun rg => if predone rg.2 then 1%nat else 0%nat) m.

Record world_ok (w : world) : Prop := {
  w_go n row g : wGo w !! n = Some (row, g) ->
    Name row = n /\ Enable row = true
    /\ exists s, coSources (wCo w) !! n = Some s /\ scRow s = row
         /\ (unmarked g = true -> scBootstrap s = BootstrapPending)
         /\ (scBootstrap s = BootstrapPending -> unmarked g = true \/ wCancelled w = true);
  w_src n s : coSources (wCo w) !! n = Some s ->
    if Enable (scRow s) then is_Some (wGo w !! n) else scBootstrap s = BootstrapSucceeded;
  w_mark n row st : wGo w !! n = Some (row, GMark st) -> st <> BootstrapPending;
  w_leave n row : wGo w !! n = Some (row, GLeave) -> wCancelled w = true;
  w_wg : wWG w = Z.of_nat (wgCount (wGo w));
  w_ready : coReady (wCo w) = true -> wWG w = 0
}.

Definition b2z (b : bool) : Z := if b then 1 else 0.

Lemma wgCount_move (m : gmap string (SubscriptionRow * gpc)) (n : string) (row row' : SubscriptionRow) (g g' : gpc) :
  m !! n = Some (row, g) ->
  Z.of_nat (wgCount (<[n := (row', g')]> m)) = Z.of_nat (wgCount m) - b2z (predone g) + b2z (predone g').
Proof.
  intros H. unfold wgCount, b2z.
  pose proof (map_sum_update (fun rg : SubscriptionRow * gpc => if predone rg.2 then 1%nat else 0%nat) m n _ (row', g') H) as E.
  simpl in E. destruct (predone g), (predone g'); lia.
Qed.

(** The bootstrap state of no source but that of [row] changes, except by promotion. *)
Lemma world_ok_move (w : world) (row : SubscriptionRow) (g g' : gpc) (c' : Coordinator) (now' : Time) (wg' : Z)
    (log : list (string * Time)) :
  world_ok w -> wGo w !! Name row = Some (row, g) -> co_step (wCo w) c' ->
  (unmarked g' = unmarked g \/ g' = GExited /\ wCancelled w = true) ->
  (g' = GLeave -> wCancelled w = true) -> (forall st, g' = GMark st -> st <> BootstrapPending) ->
  (predone g' = true -> predone g = true) -> wg' = wWG w - b2z (predone g) + b2z (predone g') ->
  world_ok (MkWorld c' now' (wCancelled w) wg' (<[Name row := (row, g')]> (wGo w)) log).
Proof.
  intros Hw Hg (Hcfg & Hrd & Hco) Hun Hleave Hmark Hpre Hwg. split; cbn [wGo wCo wCancelled wWG].
  - assert (forall n s', coSources c' !! n = Some s' -> exists s, coSources (wCo w) !! n = Some s /\ src_step s s') as Hback.
    { intros n s' Hs'. specialize (Hco n). rewrite Hs' in Hco. inversion Hco; subst. eauto. }
    assert (forall n s, coSources (wCo w) !! n = Some s -> exists s', coSources c' !! n = Some s' /\ src_step s s') as Hfwd.
    { intros n s Hs. specialize (Hco n). rewrite Hs in Hco. inversion Hco; subst. eauto. }
    intros n row0 g0 Hn. rewrite lookup_insert in Hn. case_decide as E.
    + injection Hn as <- <-. subst n. destruct (w_go _ Hw _ _ _ Hg) as (Hnm & He & s & Hs & Hr & Hu & Hp).
      destruct (Hfwd _ _ Hs) as (s' & Hs' & Hr' & Hb). split_and!; [done|done|]. exists s'. split_and!; [done|congruence| |].
      * intros Hu'. destruct Hun as [Hun|[-> _]]; [|done]. rewrite Hun in Hu'. specialize (Hu Hu').
        destruct Hb as [->|[? _]]; [done|congruence].
      * intros Hp'. destruct Hun as [->|[_ ?]]; [|by right]. apply Hp. destruct Hb as [<-|[_ ?]]; [done|congruence].
    + destruct (w_go _ Hw _ _ _ Hn) as (Hnm & He & s & Hs & Hr & Hu & Hp).
      destruct (Hfwd _ _ Hs) as (s' & Hs' & Hr' & Hb). split_and!; [done|done|]. exists s'. split_and!; [done|congruence| |].
      * intros Hu'. specialize (Hu Hu'). destruct Hb as [->|[? _]]; [done|congruence].
      * intros Hp'. apply Hp. destruct Hb as [<-|[_ ?]]; [done|congruence].
  - intros n s' Hs'. specialize (Hco n). rewrite Hs' in Hco. inversion Hco as [s ? [Hr Hb] Hs|]; subst.
    pose proof (w_src _ Hw n s (eq_sym Hs)) as H. rewrite Hr. destruct (Enable (scRow s)).
    + rewrite lookup_insert. by case_decide.
    + destruct Hb as [->|[_ ->]]; done.
  - intros n row0 st Hn. rewrite lookup_insert in Hn. case_decide; [injection Hn as <- ->; by apply Hmark|by eapply w_mark].
  - intros n row0 Hn. rewrite lookup_insert in Hn. case_decide; [injection Hn as <- ->; by apply Hleave|by eapply w_leave].
  - rewrite (wgCount_move _ _ row row g g') by done. rewrite <- (w_wg _ Hw). done.
  - rewrite Hrd. intros H. pose proof (w_ready _ Hw H) as H0.
    assert (predone g = false) as Hg0.
    { destruct (predone g) eqn:E; [|done].
      pose proof (map_sum_lookup (fun rg : SubscriptionRow * gpc => if predone rg.2 then 1%nat else 0%nat) _ _ _ Hg) as Hle.
      cbn in Hle. rewrite E in Hle. pose proof (w_wg _ Hw) as Hc. unfold wgCount in Hc. lia. }
    rewrite Hg0 in *. destruct (predone g'); [by specialize (Hpre eq_refl)|]. unfold b2z in Hwg. lia.
Qed.

(** The outcome of the bootstrap is recorded. *)
Lemma world_ok_mark (w : world) (row : SubscriptionRow) (st : BootstrapState) (now' : Time) :
  world_ok w -> wGo w !! Name row = Some (row, GMark st) ->
  world_ok (moveTo w row (markBootstrap (wCo w) (Name row) st) now' (wWG w) GDone).
Proof.
  intros Hw Hg. pose proof (w_mark _ Hw _ _ _ Hg) as Hst.
  destruct (w_go _ Hw _ _ _ Hg) as (Hnm & He & s & Hs & Hr & Hu & Hp).
  unfold moveTo, markBootstrap, updateSource. rewrite Hs.
  split; cbn [wGo wCo wCancelled wWG coSources coReady].
  - intros n row0 g0 Hn. rewrite lookup_insert in Hn. case_decide as E.
    + injection Hn as <- <-. subst n. split_and!; [done|done|]. rewrite lookup_insert_eq.
      eexists. split_and!; [done|done|done|]. done.
    + rewrite lookup_insert_ne by done. by apply (w_go _ Hw).
  - intros n s'. rewrite lookup_insert. case_decide as E.
    + intros [= <-]. cbn [scRow]. rewrite Hr, He. rewrite lookup_insert. by rewrite decide_True.
    + intros Hs'. pose proof (w_src _ Hw n s' Hs') as H. destruct (Enable (scRow s')); [|done].
      by rewrite lookup_insert_ne.
  - intros n row0 st' Hn. rewrite lookup_insert in Hn. case_decide; [done|by eapply w_mark].
  - intros n row0 Hn. rewrite lookup_insert in Hn. case_decide; [done|by eapply w_leave].
  - rewrite (wgCount_move _ _ row row (GMark st) GDone) by done. rewrite <- (w_wg _ Hw). simpl. lia.
  - apply Hw.
Qed.

Ltac world_move := eapply world_ok_move; [done|done|..|cbn; lia]; [|try (by left); try (by right)|try done|try done|done].

Lemma world_ok_goStep (w w' : world) (row : SubscriptionRow) (g : gpc) (d1 d2 : Duration) (x : exchange)
    (fault : option persistFault) :
  world_ok w -> wGo w !! Name row = Some (row, g) -> goStep w row g d1 d2 x fault = Some w' -> world_ok w'.
Proof.
  intros Hw Hg. unfold goStep, moveTo, startFetch. destruct g as [a|a start|a until|st| | | |start| | | |]; try done.
  - destruct (wCancelled w) eqn:Hc; [|case_if]; intros [= <-]; rewrite <- ?Hc; world_move; try done.
    all: by intros st [= <-].
  - destruct (refreshEnd _ _ _ _ _ _) as [err c'] eqn:Hr. intros [= <-].
    pose proof (co_step_refreshEnd _ _ _ _ _ _ _ _ Hr) as Hco.
    destruct err; [case_if|]; world_move; try done; by intros st [= <-].
  - case_if; [done|]. intros [= <-]. by world_move.
  - intros [= <-]. by apply world_ok_mark.
  - intros [= <-]. by world_move.
  - repeat case_if; intros [= <-]; by world_move.
  - destruct (refreshEnd _ _ _ _ _ _) as [err c'] eqn:Hr. intros [= <-].
    pose proof (co_step_refreshEnd _ _ _ _ _ _ _ _ Hr) as Hco. world_move. etrans; [exact Hco|apply co_step_afterTick].
  - intros [= <-]. pose proof (w_leave _ Hw _ _ Hg). by world_move.
Qed.

Lemma world_ok_step (w w' : world) (e : wevent) : world_ok w -> wstep w e = Some w' -> world_ok w'.
Proof.
  intros Hw. destruct e as [d| | |name d1 d2 x fault|name d1 d2|name]; cbn [wstep].
  - case_if; [done|]. intros [= <-]. by split; apply Hw.
  - intros [= <-]. split; cbn [wGo wCo wCancelled wWG]; try apply Hw; [|done].
    intros n row g Hn. destruct (w_go _ Hw _ _ _ Hn) as (? & ? & s & ? & ? & ? & ?).
    split_and!; [done|done|]. exists s. split_and!; [done|done|done|by right].
  - destruct (Z.eqb_spec (wWG w) 0) as [Hz|]; [|done]. intros [= <-]. by split; cbn; try apply Hw.
  - case_if; [done|]. destruct (wGo w !! name) as [[row g]|] eqn:Hg; [|done].
    destruct (w_go _ Hw _ _ _ Hg) as [<- _]. by apply world_ok_goStep.
  - case_if; [done|]. destruct (wGo w !! name) as [[row [| | | | | | | | | | |]]|] eqn:Hg; try done.
    destruct (w_go _ Hw _ _ _ Hg) as [<- _]. intros [= <-]. unfold tickStep, startFetch, moveTo.
    case_if; world_move; [done|apply co_step_promote].
  - destruct (wCancelled w) eqn:Hc; cbn [negb]; [|done].
    destruct (wGo w !! name) as [[row [| | | | | | | | | | |]]|] eqn:Hg; try done.
    all: destruct (w_go _ Hw _ _ _ Hg) as [<- _]; intros [= <-]; unfold moveTo; by world_move.
Qed.

(** *** The initial world *)
Lemma NewCoordinator_sources (cache : Cache) (cfg : SchedulerConfig) (rows : list SubscriptionRow) (n : string) (s : sourceCtx) :
  coSources (NewCoordinator cache cfg rows) !! n = Some s ->
  Name (scRow s) = n /\ scBootstrap s = (if Enable (scRow s) then BootstrapPending else BootstrapSucceeded).
Proof.
  cbn. assert (forall m : gmap string sourceCtx,
    (forall n s, m !! n = Some s -> Name (scRow s) = n
       /\ scBootstrap s = (if Enable (scRow s) then BootstrapPending else BootstrapSucceeded)) ->
    forall n s, foldl (fun m row => <[Name row := MkSourceCtx row (if Enable row then BootstrapPending else BootstrapSucceeded) None]> m) m rows !! n = Some s ->
      Name (scRow s) = n /\ scBootstrap s = (if Enable (scRow s) then BootstrapPending else BootstrapSucceeded)) as H.
  { induction rows as [|row rows IH]; intros m Hm; cbn [foldl]; [done|]. apply IH. intros n' s'.
    rewrite lookup_insert. case_decide; [by intros [= <-]|apply Hm]. }
  apply H. intros n' s' Hn'. by rewrite lookup_empty in Hn'.
Qed.

(** Whatever rows the coordinator holds, keyed by their names. *)
Definition fresh_sources (c : Coordinator) : Prop :=
  coReady c = false /\
  forall n s, coSources c !! n = Some s ->
    Name (scRow s) = n /\ scBootstrap s = (if Enable (scRow s) then BootstrapPending else BootstrapSucceeded).

Lemma enabledSources_spec (c : Coordinator) (row : SubscriptionRow) :
  fresh_sources c ->
  (row ∈ enabledSources c <-> Enable row = true /\ exists s, coSources c !! Name row = Some s /\ scRow s = row)
  /\ NoDup (map Name (enabledSources c)).
Proof.
  intros [_ Hf]. unfold enabledSources. split.
  - split.
    + intros ([n s] & -> & [He Hin]%list_elem_of_filter)%list_elem_of_fmap. apply elem_of_map_to_list in Hin.
      cbn [snd] in *. destruct (Hf _ _ Hin) as [<- _]. split; [done|]. by exists s.
    + intros (He & s & Hs & <-). apply list_elem_of_fmap. exists (Name (scRow s), s). split; [done|].
      apply list_elem_of_filter. split; [done|]. by apply elem_of_map_to_list.
  - rewrite map_map.
    assert (forall l : list (string * sourceCtx), Forall (fun kv => Name (scRow kv.2) = kv.1) l ->
      map (fun kv => Name (scRow kv.2)) l = l.*1) as Hkeys.
    { induction 1 as [|kv l Hkv _ IH]; [done|]. simpl. f_equal; [exact Hkv|exact IH]. }
    rewrite Hkeys.
    + eapply sublist_NoDup; [apply (NoDup_fst_map_to_list (coSources c))|]. apply fmap_sublist, sublist_filter.
    + apply Forall_forall. intros [n s] [_ Hin]%list_elem_of_filter. apply elem_of_map_to_list in Hin.
      by apply Hf.
Qed.

(** The start map, summed. *)
Lemma map_sum_start (f : SubscriptionRow * gpc -> nat) (rows : list SubscriptionRow) (g : gpc) (k : nat) :
  NoDup (map Name rows) -> (forall row, f (row, g) = k) ->
  map_sum f (list_to_map (map (fun row => (Name row, (row, g))) rows) : gmap string (SubscriptionRow * gpc))
  = (length rows * k)%nat.
Proof.
  intros Hnd Hk. rewrite (map_sum_list _ _ k), length_map; [done| |].
  - rewrite <- list_fmap_compose. exact Hnd.
  - apply Forall_forall. intros ? (row & -> & _)%list_elem_of_fmap. apply Hk.
Qed.

Lemma wgCount_start (rows : list SubscriptionRow) :
  NoDup (map Name rows) ->
  wgCount (list_to_map (map (fun row => (Name row, (row, GLoop 1))) rows)) = length rows.
Proof. intros Hnd. unfold wgCount. rewrite (map_sum_start _ _ _ 1) by done. lia. Qed.

Lemma start_goroutine (c : Coordinator) (now : Time) (b : bool) (n : string) (row : SubscriptionRow) (g : gpc) :
  fresh_sources c ->
  wGo (Start c now b) !! n = Some (row, g) <->
  g = GLoop 1 /\ Name row = n /\ Enable row = true /\ exists s, coSources c !! n = Some s /\ scRow s = row.
Proof.
  intros Hf. unfold Start. cbn [wGo]. destruct (enabledSources_spec c row Hf) as [Hin Hnd].
  rewrite <- elem_of_list_to_map by (rewrite <- list_fmap_compose; exact Hnd).
  rewrite list_elem_of_fmap. split.
  - intros (r & [= -> -> ->] & Hr). apply Hin in Hr as [? ?]. done.
  - intros (-> & <- & He & Hs). exists row. split; [done|]. by apply Hin.
Qed.

Lemma world_ok_start (c : Coordinator) (now : Time) (b : bool) : fresh_sources c -> world_ok (Start c now b).
Proof.
  intros Hf. split.
  - intros n row g (-> & Hn & He & s & Hs & Hr)%start_goroutine; [|done]. split_and!; [done|done|].
    exists s. split_and!; [done|done| |by left]. intros _. destruct Hf as [_ Hf].
    destruct (Hf _ _ Hs) as [_ ->]. by rewrite Hr, He.
  - intros n s Hs. destruct (proj2 Hf _ _ Hs) as [Hn Hb]. destruct (Enable (scRow s)) eqn:He; [|done].
    exists (scRow s, GLoop 1). apply start_goroutine; [done|]. split_and!; [done|done|done|]. by exists s.
  - intros n row st (H & _)%start_goroutine; done.
  - intros n row (H & _)%start_goroutine; done.
  - unfold Start. cbn [wWG wGo]. rewrite wgCount_start; [done|]. apply (enabledSources_spec c (MkRow "" "" 0 false 0 0) Hf).
  - cbn. destruct Hf as [-> _]. done.
Qed.

Lemma wruns_invariant (Q : world -> Prop) (es : list wevent) (w w' : world) :
  (forall w w' e, Q w -> wstep w e = Some w' -> Q w') -> Q w -> wruns w es = Some w' -> Q w'.
Proof.
  intros Hstep. revert w. induction es as [|e es IH]; intros w Hq; cbn [wruns]; [by intros [= <-]|].
  destruct (wstep w e) as [w1|] eqn:Hst; [|done]. apply IH. by eapply Hstep.
Qed.

Lemma fresh_NewCoordinator (cache : Cache) (cfg : SchedulerConfig) (rows : list SubscriptionRow) :
  fresh_sources (NewCoordinator cache cfg rows).
Proof. split; [done|]. intros n s. apply NewCoordinator_sources. Qed.

Lemma world_ok_reachable (cache : Cache) (cfg : SchedulerConfig) (rows : list SubscriptionRow) (w : world) :
  wreachable cache cfg rows w -> world_ok w.
Proof.
  intros (now & b & es & Hr). eapply wruns_invariant; [|by apply world_ok_start, fresh_NewCoordinator|exact Hr].
  apply world_ok_step.
Qed.


Lemma AllSucceeded_spec (c : Coordinator) :
  AllSucceeded c = true
  <-> forall n s, coSources c !! n = Some s -> Enable (scRow s) = true -> scBootstrap s = BootstrapSucceeded.
Proof.
  unfold AllSucceeded. rewrite forallb_forall. split.
  - intros Hall n s Hs He. specialize (Hall (n, s)). rewrite <- list_elem_of_In, elem_of_map_to_list in Hall.
    specialize (Hall Hs). cbn in Hall. rewrite He in Hall. by apply bool_decide_eq_true in Hall.
  - intros Hall [n s] Hin%list_elem_of_In%elem_of_map_to_list. cbn.
    destruct (Enable (scRow s)) eqn:He; [|done]. by apply bool_decide_eq_true, (Hall n).
Qed.

(** The channel stays closed. *)
Lemma ready_stays (w w' : world) (e : wevent) :
  wstep w e = Some w' -> coReady (wCo w) = true -> coReady (wCo w') = true.
Proof.
  intros Hst Hr.
  assert (forall c', co_step (wCo w) c' -> coReady c' = true) as Hco by (intros c' (_ & -> & _); done).
  destruct e as [d| | |name d1 d2 x fault|name d1 d2|name]; cbn [wstep] in Hst;
    repeat case_if_in Hst; try done; try (by injection Hst as <-).
  - destruct (wGo w !! name) as [[row g]|]; [|done]. unfold goStep, moveTo, startFetch in Hst.
    destruct g as [a|a start|a until|st| | | |start| | | |]; try done.
    all: try (destruct (refreshEnd _ _ _ _ _ _) as [err c'] eqn:He; apply co_step_refreshEnd in He).
    all: repeat case_if_in Hst; try done; injection Hst as <-; cbn [wCo]; try done; try (by apply Hco).
    + unfold markBootstrap, updateSource. by case_match.
    + apply Hco. etrans; [exact He|apply co_step_afterTick].
  - destruct (wGo w !! name) as [[row [| | | | | | | | | | |]]|]; try done.
    injection Hst as <-. unfold tickStep, startFetch, moveTo. case_if; [done|]. apply Hco, co_step_promote.
  - destruct (wGo w !! name) as [[row [| | | | | | | | | | |]]|]; try done; by injection Hst as <-.
Qed.

(** ** The server opens only when bootstrap is over *)

(** (C14) When the coordinator signals readiness, either the bootstrap of every
    enabled source has ended, in success or failure, and [AllSucceeded] then says
    exactly that no source failed; or the context has been cancelled, in which
    case readiness may be signalled with sources still pending.  Even then
    [AllSucceeded] holds only when every enabled source has succeeded, so that
    nothing is served early.  The wait group never goes below zero. *)
Theorem ready_bootstrapped (cache : Cache) (cfg : SchedulerConfig) (rows : list SubscriptionRow) (w : world) :
  wreachable cache cfg rows w ->
  0 <= wWG w
  /\ (coReady (wCo w) = true ->
      wCancelled w = true
      \/ (forall n s, coSources (wCo w) !! n = Some s -> scBootstrap s <> BootstrapPending)
         /\ (AllSucceeded (wCo w) = true
             <-> forall n s, coSources (wCo w) !! n = Some s -> Enable (scRow s) = true -> scBootstrap s <> BootstrapFailed))
  /\ (AllSucceeded (wCo w) = true ->
      forall n s, coSources (wCo w) !! n = Some s -> Enable (scRow s) = true -> scBootstrap s = BootstrapSucceeded).
Proof.
  intros Hw%world_ok_reachable.
  assert (coReady (wCo w) = true -> wCancelled w = false ->
    forall n s, coSources (wCo w) !! n = Some s -> scBootstrap s <> BootstrapPending) as Hterm.
  { intros Hr Hc n s Hs Hp. pose proof (w_src _ Hw n s Hs) as H. destruct (Enable (scRow s)); [|congruence].
    destruct H as [[row g] Hg]. destruct (w_go _ Hw _ _ _ Hg) as (_ & _ & s' & Hs' & _ & _ & Hp').
    assert (s' = s) as -> by congruence. destruct (Hp' Hp) as [Hu|]; [|congruence].
    pose proof (map_sum_lookup (fun rg : SubscriptionRow * gpc => if predone rg.2 then 1%nat else 0%nat) _ _ _ Hg) as Hle.
    pose proof (w_wg _ Hw) as Hwg. rewrite (w_ready _ Hw Hr) in Hwg. unfold wgCount in Hwg. cbn in Hle.
    destruct g; cbn in *; try done; lia. }
  split_and!; [rewrite (w_wg _ Hw); lia| |apply AllSucceeded_spec]. intros Hr.
  destruct (wCancelled w) eqn:Hc; [by left|right]. specialize (Hterm Hr eq_refl). split; [exact Hterm|].
  rewrite AllSucceeded_spec. split.
  - intros Hall n s Hs He Hf. by rewrite (Hall n s Hs He) in Hf.
  - intros Hall n s Hs He. pose proof (Hterm n s Hs). pose proof (Hall n s Hs He). by destruct (scBootstrap s).
Qed.

(** A source that has bootstrapped stays bootstrapped. *)
Definition keeps (s s' : sourceCtx) : Prop :=
  scRow s' = scRow s /\ (scBootstrap s = BootstrapSucceeded -> scBootstrap s' = BootstrapSucceeded).
Definition co_keeps (c c' : Coordinator) : Prop :=
  forall n, option_Forall2 keeps (coSources c !! n) (coSources c' !! n).

Lemma co_keeps_step (c c' : Coordinator) : co_step c c' -> co_keeps c c'.
Proof.
  intros (_ & _ & H) n. specialize (H n). destruct H as [s s' [Hr Hb]|]; constructor.
  split; [done|]. destruct Hb as [->|[? ?]]; congruence.
Qed.

Lemma co_keeps_wstep (w w' : world) (e : wevent) : world_ok w -> wstep w e = Some w' -> co_keeps (wCo w) (wCo w').
Proof.
  intros Hw. destruct e as [d| | |name d1 d2 x fault|name d1 d2|name]; cbn [wstep].
  - case_if; [done|]. intros [= <-]. by apply co_keeps_step.
  - intros [= <-]. by apply co_keeps_step.
  - case_if; [|done]. intros [= <-] n. cbn. by destruct (coSources (wCo w) !! n); constructor.
  - case_if; [done|]. destruct (wGo w !! name) as [[row g]|] eqn:Hg; [|done].
    destruct (w_go _ Hw _ _ _ Hg) as (<- & He & s0 & Hs0 & Hr0 & Hu & _).
    unfold goStep, moveTo, startFetch. destruct g as [a|a start|a until|st| | | |start| | | |]; try done.
    + repeat case_if; intros [= <-]; by apply co_keeps_step.
    + destruct (refreshEnd _ _ _ _ _ _) as [err c'] eqn:Hr. intros [= <-].
      eapply co_keeps_step, co_step_refreshEnd, Hr.
    + case_if; [done|]. intros [= <-]. by apply co_keeps_step.
    + intros [= <-] n. cbn [wCo]. unfold markBootstrap, updateSource. rewrite Hs0. cbn [coSources].
      rewrite lookup_insert. case_decide as E; [subst n|by destruct (coSources (wCo w) !! n); constructor].
      rewrite Hs0. constructor. split; [done|]. by rewrite (Hu eq_refl).
    + intros [= <-]. by apply co_keeps_step.
    + repeat case_if; intros [= <-]; by apply co_keeps_step.
    + destruct (refreshEnd _ _ _ _ _ _) as [err c'] eqn:Hr. intros [= <-]. apply co_keeps_step.
      etrans; [by eapply co_step_refreshEnd|apply co_step_afterTick].
    + intros [= <-]. by apply co_keeps_step.
  - case_if; [done|]. destruct (wGo w !! name) as [[row [| | | | | | | | | | |]]|]; try done.
    intros [= <-]. unfold tickStep, startFetch, moveTo. case_if; [by apply co_keeps_step|]. apply co_keeps_step, co_step_promote.
  - case_if; [done|]. destruct (wGo w !! name) as [[row [| | | | | | | | | | |]]|]; try done;
      intros [= <-]; by apply co_keeps_step.
Qed.

(** (C15) Success is final: once every enabled source has bootstrapped, no event
    takes it back, so a server that has started to serve keeps serving. *)
Theorem AllSucceeded_stays (cache : Cache) (cfg : SchedulerConfig) (rows : list SubscriptionRow) (w w' : world)
    (es : list wevent) :
  wreachable cache cfg rows w -> wruns w es = Some w' ->
  AllSucceeded (wCo w) = true /\ coReady (wCo w) = true ->
  AllSucceeded (wCo w') = true /\ coReady (wCo w') = true.
Proof.
  intros Hw%world_ok_reachable Hr [Ha Hrd].
  apply (wruns_invariant (fun w => world_ok w /\ AllSucceeded (wCo w) = true /\ coReady (wCo w) = true) es w w'); [|done|done].
  clear. intros w w' e (Hw & Ha & Hrd) Hst. split_and!; [by eapply world_ok_step| |by eapply ready_stays].
  rewrite AllSucceeded_spec in *. pose proof (co_keeps_wstep _ _ _ Hw Hst) as Hk. intros n s' Hs' He.
  specialize (Hk n). rewrite Hs' in Hk. inversion Hk as [s ? [Hrow Hb] Hs|]; subst.
  apply Hb, (Ha n); [done|congruence].
Qed.

(** ** The life of a goroutine

    The moves a goroutine can make, with what each does to the fetch log and to
    the coordinator. *)
Inductive gtrans (w : world) (row : SubscriptionRow) : gpc -> gpc -> list (string * Time) -> Coordinator -> Prop :=
| T_cancelled a : wCancelled w = true -> gtrans w row (GLoop a) GLeave (wFetches w) (wCo w)
| T_fresh a : gtrans w row (GLoop a) (GMark BootstrapSucceeded) (wFetches w) (wCo w)
| T_fetch a t : gtrans w row (GLoop a) (GFetch a t) ((Name row, t) :: wFetches w) (wCo w)
| T_success a start c : co_step (wCo w) c -> gtrans w row (GFetch a start) (GMark BootstrapSucceeded) (wFetches w) c
| T_give_up start c : co_step (wCo w) c ->
    gtrans w row (GFetch (maxAttempts (coCfg (wCo w))) start) (GMark BootstrapFailed) (wFetches w) c
| T_retry_later a start until c : a <> maxAttempts (coCfg (wCo w)) -> co_step (wCo w) c ->
    gtrans w row (GFetch a start) (GDelay a until) (wFetches w) c
| T_retry a until : gtrans w row (GDelay a until) (GLoop (a + 1)) (wFetches w) (wCo w)
| T_mark st : gtrans w row (GMark st) GDone (wFetches w) (markBootstrap (wCo w) (Name row) st)
| T_done : gtrans w row GDone GRun (wFetches w) (wCo w)
| T_park : refreshDisabled row = true -> gtrans w row GRun GParked (wFetches w) (wCo w)
| T_panic : ttlFor (coCfg (wCo w)) row <= 0 -> gtrans w row GRun GPanicked (wFetches w) (wCo w)
| T_steady : refreshDisabled row = false -> gtrans w row GRun GSteady (wFetches w) (wCo w)
| T_tick t : gtrans w row GSteady (GTickFetch t) ((Name row, t) :: wFetches w) (wCo w)
| T_tick_fresh c : co_step (wCo w) c -> gtrans w row GSteady GSteady (wFetches w) c
| T_ticked start c : co_step (wCo w) c -> gtrans w row (GTickFetch start) GSteady (wFetches w) c
| T_left : gtrans w row GLeave GExited (wFetches w) (wCo w)
| T_interrupted a until : wCancelled w = true -> gtrans w row (GDelay a until) GLeave (wFetches w) (wCo w)
| T_shutdown : wCancelled w = true -> gtrans w row GSteady GExited (wFetches w) (wCo w)
| T_unparked : wCancelled w = true -> gtrans w row GParked GExited (wFetches w) (wCo w).

(** The goroutine that an event lets run. *)
Definition mover (e : wevent) : option string :=
  match e with
  | EvGo name _ _ _ _ | EvTick name _ _ | EvShutdown name => Some name
  | EvAdvance _ | EvCancel | EvReady => None
  end.

(** Every event moves at most one goroutine, along one of these transitions. *)
Inductive wtrans (w : world) (e : wevent) (w' : world) : Prop :=
| WT_outside : mover e = None -> wGo w' = wGo w -> wFetches w' = wFetches w ->
    wCo w' = wCo w \/ wCo w' = signalReady (wCo w) -> wtrans w e w'
| WT_goroutine row g g' log c : mover e = Some (Name row) -> wGo w !! Name row = Some (row, g) -> gtrans w row g g' log c ->
    wGo w' = <[Name row := (row, g')]> (wGo w) -> wFetches w' = log -> wCo w' = c -> wtrans w e w'.

(** The goroutine found by [H] makes one of the moves. *)
Local Ltac goroutine_moves H :=
  eapply WT_goroutine; [done|exact H| |done..]; cbn [moveTo wFetches wCo]; constructor; try done.

Lemma goStep_trans (w w' : world) (row : SubscriptionRow) (g : gpc) (d1 d2 : Duration) (x : exchange)
    (fault : option persistFault) :
  wGo w !! Name row = Some (row, g) -> goStep w row g d1 d2 x fault = Some w' ->
  wtrans w (EvGo (Name row) d1 d2 x fault) w'.
Proof.
  intros Hg. unfold goStep, moveTo, startFetch. destruct g as [a|a start|a until|st| | | |start| | | |]; try done.
  all: try (destruct (refreshEnd _ _ _ _ _ _) as [err c'] eqn:Hr; pose proof (co_step_refreshEnd _ _ _ _ _ _ _ _ Hr)).
  - repeat case_if; intros [= <-]; goroutine_moves Hg.
  - intros [= <-]. destruct err; [destruct (Z.eqb_spec a (maxAttempts (coCfg (wCo w)))) as [->|]|];
      goroutine_moves Hg.
  - case_if; [done|]. intros [= <-]. goroutine_moves Hg.
  - intros [= <-]. goroutine_moves Hg.
  - intros [= <-]. goroutine_moves Hg.
  - destruct (refreshDisabled row) eqn:Hd; [|destruct (Z.leb_spec (ttlFor (coCfg (wCo w)) row) 0)]; intros [= <-];
      goroutine_moves Hg.
  - intros [= <-]. goroutine_moves Hg. etrans; [done|apply co_step_afterTick].
  - intros [= <-]. goroutine_moves Hg.
Qed.

Lemma wstep_trans (w w' : world) (e : wevent) : world_ok w -> wstep w e = Some w' -> wtrans w e w'.
Proof.
  intros Hw. destruct e as [d| | |name d1 d2 x fault|name d1 d2|name]; cbn [wstep].
  - case_if; [done|]. intros [= <-]. apply WT_outside; auto.
  - intros [= <-]. apply WT_outside; auto.
  - case_if; [|done]. intros [= <-]. apply WT_outside; auto.
  - case_if; [done|]. destruct (wGo w !! name) as [[row g]|] eqn:Hg; [|done].
    destruct (w_go _ Hw _ _ _ Hg) as [<- _]. by apply goStep_trans.
  - case_if; [done|]. destruct (wGo w !! name) as [[row [| | | | | | | | | | |]]|] eqn:Hg; try done.
    destruct (w_go _ Hw _ _ _ Hg) as [<- _]. intros [= <-]. unfold tickStep, startFetch, moveTo.
    case_if; goroutine_moves Hg. apply co_step_promote.
  - destruct (wCancelled w) eqn:Hc; cbn [negb]; [|done].
    destruct (wGo w !! name) as [[row [| | | | | | | | | | |]]|] eqn:Hg; try done.
    all: destruct (w_go _ Hw _ _ _ Hg) as [<- _]; intros [= <-]; unfold moveTo; goroutine_moves Hg.
Qed.

Lemma gtrans_cfg (w : world) (row : SubscriptionRow) (g g' : gpc) (log : list (string * Time)) (c : Coordinator) :
  gtrans w row g g' log c -> coCfg c = coCfg (wCo w).
Proof. destruct 1; try done; try (by match goal with H : co_step _ _ |- _ => destruct H end). unfold markBootstrap, updateSource. by case_match. Qed.

Lemma wtrans_cfg (w w' : world) (e : wevent) : wtrans w e w' -> coCfg (wCo w') = coCfg (wCo w).
Proof. intros [_ _ _ [->| ->]|row g g' log c _ _ Ht _ _ ->]; [done|done|]. by eapply gtrans_cfg. Qed.

(** ** How often the upstream is asked *)

(** What is known of the fetches of a source from where its goroutine is. *)
Definition attempts_ok (mx : Z) (row : SubscriptionRow) (g : gpc) (count : Z) : Prop :=
  match g with
  | GLoop a => 1 <= a <= mx /\ count <= a - 1
  | GFetch a _ => 1 <= a <= mx /\ count <= a
  | GDelay a _ => 1 <= a < mx /\ count <= a
  | GMark _ | GDone | GRun | GParked | GLeave => count <= mx
  | GSteady | GTickFetch _ => refreshDisabled row = false
  | GExited | GPanicked => refreshDisabled row = true -> count <= mx
  end.

Definition fetchCount (w : world) (n : string) : Z := Z.of_nat (length (startsOf n (wFetches w))).

Lemma attempts_gtrans (w w' : world) (row : SubscriptionRow) (g g' : gpc) (c : Coordinator) :
  gtrans w row g g' (wFetches w') c ->
  attempts_ok (maxAttempts (coCfg (wCo w))) row g (fetchCount w (Name row)) ->
  attempts_ok (maxAttempts (coCfg (wCo w))) row g' (fetchCount w' (Name row)).
Proof.
  intros Ht. unfold fetchCount. inversion Ht; subst; cbn [attempts_ok]; rewrite ?startsOf_cons, ?decide_True by done; cbn [length];
    try lia; try done; try congruence; try (intros; congruence).
Qed.

Record life (cfg : SchedulerConfig) (rows : list SubscriptionRow) (w : world) : Prop := {
  l_ok : world_ok w;
  l_cfg : coCfg (wCo w) = cfg;
  l_attempts n row g : wGo w !! n = Some (row, g) -> attempts_ok (maxAttempts cfg) row g (fetchCount w n);
  l_nobody n : wGo w !! n = None -> fetchCount w n = 0;
  l_rows n row g : wGo w !! n = Some (row, g) -> row ∈ rows;
  l_panic n row : wGo w !! n = Some (row, GPanicked) -> ttlFor cfg row <= 0
}.

Lemma fetchCount_other (w w' : world) (row : SubscriptionRow) (g g' : gpc) (c : Coordinator) (n : string) :
  gtrans w row g g' (wFetches w') c -> n <> Name row -> fetchCount w' n = fetchCount w n.
Proof.
  intros Ht Hn. unfold fetchCount. inversion Ht; subst; try done; by rewrite startsOf_cons, decide_False by congruence.
Qed.

Lemma life_step (cfg : SchedulerConfig) (rows : list SubscriptionRow) (w w' : world) (e : wevent) :
  life cfg rows w -> wstep w e = Some w' -> life cfg rows w'.
Proof.
  intros Hl Hst. pose proof (wstep_trans _ _ _ (l_ok _ _ _ Hl) Hst) as Ht. split.
  - eapply world_ok_step; [apply Hl|exact Hst].
  - rewrite (wtrans_cfg _ _ _ Ht). apply Hl.
  - intros n row g. destruct Ht as [_ Hg Hf _|row' g1 g2 log c _ Hg Hgt -> <- _]; unfold fetchCount.
    + rewrite Hg, Hf. apply Hl.
    + rewrite lookup_insert. case_decide as E.
      * intros [= <- <-]. subst n. rewrite <- (l_cfg _ _ _ Hl). eapply attempts_gtrans; [exact Hgt|].
        rewrite (l_cfg _ _ _ Hl). by apply Hl.
      * intros Hn. pose proof (fetchCount_other _ _ _ _ _ _ n Hgt ltac:(congruence)) as Hc. unfold fetchCount in Hc. rewrite Hc. by apply Hl.
  - intros n. destruct Ht as [_ Hg Hf _|row' g1 g2 log c _ Hg Hgt -> <- _].
    + unfold fetchCount. rewrite Hg, Hf. apply Hl.
    + rewrite lookup_insert. case_decide; [done|]. intros Hn. rewrite (fetchCount_other _ _ _ _ _ _ n Hgt) by congruence.
      by apply Hl.
  - intros n row g. destruct Ht as [_ Hg Hf _|row' g1 g2 log c _ Hg Hgt -> <- _]; [rewrite Hg; apply Hl|].
    rewrite lookup_insert. case_decide; [|apply Hl]. intros [= <- <-]. by eapply (l_rows _ _ _ Hl).
  - intros n row. destruct Ht as [_ Hg Hf _|row' g1 g2 log c _ Hg Hgt -> <- _]; [rewrite Hg; apply Hl|].
    rewrite lookup_insert. case_decide; [|apply Hl]. intros [= <- ->]. rewrite <- (l_cfg _ _ _ Hl). by inversion Hgt.
Qed.

Lemma NewCoordinator_rows (cache : Cache) (cfg : SchedulerConfig) (rows : list SubscriptionRow) (n : string) (s : sourceCtx) :
  coSources (NewCoordinator cache cfg rows) !! n = Some s -> scRow s ∈ rows.
Proof.
  cbn. assert (forall (l : list SubscriptionRow) (m : gmap string sourceCtx),
    (forall n s, m !! n = Some s -> scRow s ∈ rows) -> l ⊆ rows ->
    forall n s, foldl (fun m row => <[Name row := MkSourceCtx row (if Enable row then BootstrapPending else BootstrapSucceeded) None]> m) m l !! n = Some s ->
      scRow s ∈ rows) as H.
  { induction l as [|row l IH]; intros m Hm Hsub; cbn [foldl]; [done|]. apply IH; [|set_solver].
    intros n' s'. rewrite lookup_insert. case_decide; [intros [= <-]; cbn; set_solver|apply Hm]. }
  eapply H; [|done]. intros n' s' Hn'. by rewrite lookup_empty in Hn'.
Qed.

Lemma maxAttempts_pos (cfg : SchedulerConfig) : 1 <= maxAttempts cfg.
Proof. unfold maxAttempts. case_if; lia. Qed.

Lemma life_reachable (cache : Cache) (cfg : SchedulerConfig) (rows : list SubscriptionRow) (w : world) :
  wreachable cache cfg rows w -> life cfg rows w.
Proof.
  intros (now & b & es & Hr). eapply wruns_invariant; [|clear Hr|exact Hr]; [intros ? ? ?; apply life_step|].
  pose proof (fresh_NewCoordinator cache cfg rows) as Hf.
  assert (forall n row g, wGo (Start (NewCoordinator cache cfg rows) now b) !! n = Some (row, g) -> g = GLoop 1 /\ row ∈ rows) as Hgo.
  { intros n row g (-> & _ & _ & s & Hs & <-)%start_goroutine; [|done]. split; [done|]. by eapply NewCoordinator_rows. }
  split; [by apply world_ok_start|done| |done| |].
  - intros n row g [-> _]%Hgo. unfold fetchCount. cbn. pose proof (maxAttempts_pos cfg). lia.
  - intros n row g [_ ?]%Hgo. done.
  - intros n row [? _]%Hgo. done.
Qed.


(** A source whose refresh is disabled is fetched during bootstrap only:
    however long the process runs, its upstream is asked at most
    [BootstrapMaxAttemptsPerSource] times (once if that is not positive). *)
Theorem never_refresh_fetches (cache : Cache) (cfg : SchedulerConfig) (rows : list SubscriptionRow) (w : world)
    (n : string) (s : sourceCtx) :
  wreachable cache cfg rows w -> coSources (wCo w) !! n = Some s -> refreshDisabled (scRow s) = true ->
  Z.of_nat (length (startsOf n (wFetches w))) <= Z.max 1 (BootstrapMaxAttemptsPerSource cfg).
Proof.
  intros Hw%life_reachable Hs Hd. assert (maxAttempts cfg = Z.max 1 (BootstrapMaxAttemptsPerSource cfg)) as <-.
  { unfold maxAttempts. destruct (Z.ltb_spec (BootstrapMaxAttemptsPerSource cfg) 1); lia. }
  fold (fetchCount w n). destruct (wGo w !! n) as [[row g]|] eqn:Hg.
  - pose proof (l_attempts _ _ _ Hw _ _ _ Hg) as Ha. destruct (w_go _ (l_ok _ _ _ Hw) _ _ _ Hg) as (_ & _ & s' & Hs' & Hr & _).
    assert (s' = s) as -> by congruence. rewrite Hr in Hd. destruct g; cbn in Ha; try lia; try congruence; by apply Ha.
  - rewrite (l_nobody _ _ _ Hw n Hg). pose proof (maxAttempts_pos cfg). lia.
Qed.

(** (C13) The scheduler panics only through its ticker: the wait group is never
    driven below zero, and a goroutine can only die on [time.NewTicker] for an
    enabled source whose interval is not positive, i.e. an overflowing [refresh]
    value or a non-positive default. *)
Theorem scheduler_no_panic (cache : Cache) (cfg : SchedulerConfig) (rows : list SubscriptionRow) (w : world) :
  wreachable cache cfg rows w ->
  (forall row, row ∈ rows -> Enable row = true -> refreshDisabled row = false ->
     0 < (if 0 <? RefreshSeconds row then seconds (RefreshSeconds row) else DefaultTTL cfg)) ->
  0 < neverRefreshTTL /\ ~ panicked w.
Proof.
  intros Hw%life_reachable Hrows. split; [by vm_compute|]. pose proof (l_ok _ _ _ Hw) as Hok.
  intros [Hneg|(n & row & Hg)]; [pose proof (w_wg _ Hok); lia|].
  pose proof (l_panic _ _ _ Hw _ _ Hg) as Hp. pose proof (l_rows _ _ _ Hw _ _ _ Hg) as Hin.
  destruct (w_go _ Hok _ _ _ Hg) as (_ & He & _). unfold ttlFor in Hp.
  destruct (refreshDisabled row) eqn:Hd; [by vm_compute in Hp|]. specialize (Hrows row Hin He Hd). destruct (0 <? RefreshSeconds row); lia.
Qed.

(** *** Payloads leave the cache *)
Lemma refreshEnd_keeps (c c' : Coordinator) (row : SubscriptionRow) (start now : Time) (x : exchange)
    (fault : option persistFault) (err : option refreshError) (n : string) :
  refreshEnd c row start now x fault = (err, c') -> is_Some (Get (coCache c) n) -> is_Some (Get (coCache c') n).
Proof.
  unfold refreshEnd. destruct (Fetch row start now x) as [fetched res]. intros Hr Hget.
  assert (coCache (recordResult c (Name row) res) = coCache c) as Hc by apply coCache_updateSource.
  destruct fetched as [e|p]; cbn [finishFetch] in Hr.
  - injection Hr as <- <-. cbn. by rewrite Get_markFailed, Hc.
  - destruct (set _ _ _ _ _) as [cache f] eqn:Hset. injection Hr as <- <-. cbn.
    pose proof (Get_set (coCache (recordResult c (Name row) res)) (Name row) n p start fault) as Hg.
    rewrite Hset in Hg. cbn in Hg. rewrite Hg, Hc. by case_decide.
Qed.

Lemma refreshEnd_shouldDrop (c c' : Coordinator) (row : SubscriptionRow) (start now t : Time) (x : exchange)
    (fault : option persistFault) (err : option refreshError) :
  refreshEnd c row start now x fault = (err, c') -> is_Some (Get (coCache c) (Name row)) -> shouldDrop c' row t = true ->
  (exists er, (Fetch row start now x).1 = inl er)
  /\ exists e, byName (coCache c) !! Name row = Some e /\ staleWindowFor (coCfg c) row < Sub t (storedAt e).
Proof.
  unfold refreshEnd, shouldDrop. destruct (Fetch row start now x) as [fetched res]. intros Hr [p0 Hget].
  assert (coCache (recordResult c (Name row) res) = coCache c /\ coCfg (recordResult c (Name row) res) = coCfg c) as [Hc Hcfg]
    by (split; [apply coCache_updateSource|apply coCfg_updateSource]).
  unfold Get in Hget. destruct (byName (coCache c) !! Name row) as [e|] eqn:He; [|done].
  destruct fetched as [er|p]; cbn [finishFetch] in Hr.
  - injection Hr as <- <-. cbn [withCache coCache coCfg]. rewrite Hc, Hcfg. unfold LastFailure, markFailed. cbn [byName].
    rewrite lookup_insert_eq, He. cbn. case_if; [done|]. case_match; [|done]. intros Hlt. split; [by eexists|].
    exists e. split; [done|]. by apply Z.ltb_lt.
  - destruct (set _ _ _ _ _) as [cache f] eqn:Hset. injection Hr as <- <-. cbn [withCache coCache].
    assert (byName cache !! Name row = Some (MkEntry (Some p) start "" zeroTime)) as Hb.
    { unfold set, persist in Hset. repeat case_match; injection Hset as <- <-; apply lookup_insert_eq. }
    unfold LastFailure. rewrite Hb. done.
Qed.

(** The same of a forced refresh. *)
Lemma forceRefresh_drops (c : Coordinator) (row : SubscriptionRow) (start t4 t5 : Time) (x : exchange)
    (fault : option persistFault) (n : string) :
  is_Some (Get (coCache c) n) -> Get (coCache (forceRefreshSource c row start t4 t5 x fault)) n = None ->
  n = Name row /\ (exists er, (Fetch row start t4 x).1 = inl er)
  /\ exists e, byName (coCache c) !! n = Some e /\ staleWindowFor (coCfg c) row < Sub t5 (storedAt e).
Proof.
  unfold forceRefreshSource. destruct (Fetch row start t4 x) as [fetched res] eqn:Hf. intros Hget Hnone.
  assert (coCache (recordResult c (Name row) res) = coCache c) as Hc by apply coCache_updateSource.
  destruct fetched as [er|p].
  - destruct (shouldDrop _ row t5) eqn:Hd; cbn [withCache coCache] in Hnone.
    + rewrite Get_Drop, Get_markFailed, Hc in Hnone. case_decide as Hn; [|destruct Hget; congruence]. subst n.
      assert (refreshEnd c row start t4 x fault
        = (Some (FetchError er), withCache (recordResult c (Name row) res) (markFailed (coCache (recordResult c (Name row) res)) (Name row) er t4)))
        as Hr by (unfold refreshEnd; by rewrite Hf).
      destruct (refreshEnd_shouldDrop _ _ _ _ _ _ _ _ _ Hr Hget Hd) as [He Hx]. rewrite Hf in He. done.
    + rewrite Get_markFailed, Hc in Hnone. destruct Hget; congruence.
  - unfold maybePromoteBootstrap in Hnone. rewrite coCache_updateSource in Hnone. cbn [withCache coCache] in Hnone. rewrite Get_set, Hc in Hnone.
    case_decide; [done|destruct Hget; congruence].
Qed.

(** (C16) Stale-on-error.  In the running scheduler the payload of a source leaves
    the cache only in the step that ends a scheduled fetch of that very source,
    when this fetch has failed and more than the source's stale window has passed
    since its last successful one.  A forced refresh of a source, which the
    transition system leaves out, drops under the same two conditions and drops
    no other source. *)
Theorem payload_dropped_only_stale (cache : Cache) (cfg : SchedulerConfig) (rows : list SubscriptionRow) (w w' : world)
    (e : wevent) (n : string) :
  wreachable cache cfg rows w -> Get (coCache (wCo w)) n <> None ->
  (wstep w e = Some w' -> Get (coCache (wCo w')) n = None ->
     exists row start entry d1 d2 x fault err,
       e = EvGo n d1 d2 x fault /\ wGo w !! n = Some (row, GTickFetch start) /\ row ∈ rows /\ Name row = n
       /\ (Fetch row start (wNow w + d1) x).1 = inl err
       /\ byName (coCache (wCo w)) !! n = Some entry /\ staleWindowFor cfg row < Sub (wNow w') (storedAt entry))
  /\ (forall row start t4 t5 x fault, Get (coCache (forceRefreshSource (wCo w) row start t4 t5 x fault)) n = None ->
      exists entry err, Name row = n /\ (Fetch row start t4 x).1 = inl err
        /\ byName (coCache (wCo w)) !! n = Some entry /\ staleWindowFor cfg row < Sub t5 (storedAt entry)).
Proof.
  intros Hw%life_reachable Hsome%not_eq_None_Some. pose proof (l_ok _ _ _ Hw) as Hok. split.
  2: { intros row start t4 t5 x fault Hn. destruct (forceRefresh_drops _ _ _ _ _ _ _ n Hsome Hn) as (-> & [er He] & en & Hen & Hlt).
       rewrite (l_cfg _ _ _ Hw) in Hlt. by exists en, er. }
  intros Hst Hnone.
  assert (coCache (wCo w') = coCache (wCo w) -> False) as Hsame by (intros E; rewrite E in Hnone; by destruct Hsome; congruence).
  assert (forall c nm, coCache (maybePromoteBootstrap c nm) = coCache c) as Hprom by (intros; apply coCache_updateSource).
  destruct e as [d| | |name d1 d2 x fault|name d1 d2|name]; cbn [wstep] in Hst;
    repeat case_if_in Hst; try done; try (by injection Hst as <-).
  - destruct (wGo w !! name) as [[row g]|] eqn:Hg; [|done]. destruct (w_go _ Hok _ _ _ Hg) as [<- _].
    unfold goStep, moveTo, startFetch in Hst. destruct g as [a|a start|a until|st| | | |start| | | |]; try done.
    all: try (destruct (refreshEnd _ _ _ _ _ _) as [err c'] eqn:Hr).
    all: repeat case_if_in Hst; try done; injection Hst as <-; cbn [wCo wNow] in *; try done.
    all: try (pose proof (refreshEnd_keeps _ _ _ _ _ _ _ _ n Hr Hsome) as [? ?]; congruence).
    + destruct Hsame. apply coCache_updateSource.
    + pose proof (refreshEnd_keeps _ _ _ _ _ _ _ _ n Hr Hsome) as [p Hp].
      unfold afterTick in Hnone. destruct err; [|rewrite Hprom in Hnone; congruence].
      destruct (shouldDrop _ _ _) eqn:Hd; [|congruence]. cbn in Hnone. rewrite Get_Drop in Hnone.
      case_decide; [subst n|congruence].
      destruct (refreshEnd_shouldDrop _ _ _ _ _ _ _ _ _ Hr Hsome Hd) as ([er Her] & en & Hen & Hlt).
      exists row, start, en, d1, d2, x, fault, er. rewrite (l_cfg _ _ _ Hw) in Hlt.
      split_and!; [done|done|by eapply (l_rows _ _ _ Hw)|done..].
  - destruct (wGo w !! name) as [[row [| | | | | | | | | | |]]|]; try done. injection Hst as <-.
    unfold tickStep, startFetch, moveTo in Hsame. exfalso. apply Hsame. case_if; cbn [wCo]; [done|apply Hprom].
  - destruct (wGo w !! name) as [[row [| | | | | | | | | | |]]|]; try done; by injection Hst as <-.
Qed.
(** ** Bootstrap terminates *)

(** The steps that separate a goroutine from its [bootstrapWG.Done()], at most. *)
Definition boot_left (mx : Z) (g : gpc) : nat :=
  match g with
  | GLoop a => Z.to_nat (4 * (mx - a) + 6)
  | GFetch a _ => Z.to_nat (4 * (mx - a) + 5)
  | GDelay a _ => Z.to_nat (4 * (mx - a) + 4)
  | GMark _ => 3
  | GDone => 2
  | GLeave => 1
  | _ => 0
  end.
Definition bootLeft (w : world) : nat :=
  map_sum (fun rg => boot_left (maxAttempts (coCfg (wCo w))) rg.2) (wGo w).

(** The event lets a goroutine run that has not finished its bootstrap. *)
Definition bootMove (w : world) (e : wevent) : bool :=
  match mover e with
  | Some n => match wGo w !! n with Some (_, g) => predone g | None => false end
  | None => false
  end.

Lemma boot_left_gtrans (w : world) (row : SubscriptionRow) (g g' : gpc) (log : list (string * Time)) (c : Coordinator)
    (count : Z) :
  gtrans w row g g' log c -> attempts_ok (maxAttempts (coCfg (wCo w))) row g count ->
  (boot_left (maxAttempts (coCfg (wCo w))) g' <= boot_left (maxAttempts (coCfg (wCo w))) g
   /\ (predone g = true -> boot_left (maxAttempts (coCfg (wCo w))) g' < boot_left (maxAttempts (coCfg (wCo w))) g))%nat.
Proof. intros Ht Ha. inversion Ht; subst; cbn in *; split; try done; lia. Qed.

Lemma bootLeft_step (cfg : SchedulerConfig) (rows : list SubscriptionRow) (w w' : world) (e : wevent) :
  life cfg rows w -> wstep w e = Some w' ->
  (bootLeft w' <= bootLeft w /\ (bootMove w e = true -> bootLeft w' < bootLeft w))%nat.
Proof.
  intros Hl Hst. pose proof (wstep_trans _ _ _ (l_ok _ _ _ Hl) Hst) as Ht.
  unfold bootLeft, bootMove. rewrite (wtrans_cfg _ _ _ Ht).
  destruct Ht as [-> -> _ _|row g g' log c -> Hg Hgt -> _ _]; [by split|]. rewrite Hg.
  pose proof (l_attempts _ _ _ Hl _ _ _ Hg) as Ha. rewrite <- (l_cfg _ _ _ Hl) in Ha.
  pose proof (boot_left_gtrans _ _ _ _ _ _ _ Hgt Ha) as [H1 H2].
  pose proof (map_sum_update (fun rg : SubscriptionRow * gpc => boot_left (maxAttempts (coCfg (wCo w))) rg.2) _ _ _ (row, g') Hg) as E.
  cbn [snd] in E. split; [lia|]. intros Hp. specialize (H2 Hp). lia.
Qed.

(** A goroutine that has not finished its bootstrap can run once its delay is
    over, whatever the upstream and the disk answer. *)
Lemma goStep_enabled (w : world) (row : SubscriptionRow) (g : gpc) (x : exchange) (fault : option persistFault) :
  predone g = true -> (forall a until, g = GDelay a until -> until <= wNow w) ->
  is_Some (goStep w row g 0 0 x fault).
Proof.
  intros Hp Hd. unfold goStep. destruct g as [a|a start|a until|st| | | |start| | | |]; try done.
  - repeat case_if; by eexists.
  - destruct (refreshEnd _ _ _ _ _ _). by eexists.
  - specialize (Hd a until eq_refl). destruct (Z.ltb_spec (wNow w) until); [lia|by eexists].
Qed.

Lemma wgCount_pos (m : gmap string (SubscriptionRow * gpc)) :
  (0 < wgCount m)%nat -> exists n row g, m !! n = Some (row, g) /\ predone g = true.
Proof.
  intros H. destruct (decide (map_Exists (fun _ rg => predone rg.2 = true) m)) as [(n & [row g] & Hg & Hp)|Hno].
  - by exists n, row, g.
  - enough (wgCount m = 0%nat) by lia. apply map_sum_zero. intros n [row g] Hg. cbn.
    destruct (predone g) eqn:Hp; [|done]. destruct Hno. by exists n, (row, g).
Qed.

Lemma bootLeft_start (c : Coordinator) (now : Time) (b : bool) :
  fresh_sources c ->
  bootLeft (Start c now b) = (length (enabledSources c) * Z.to_nat (4 * maxAttempts (coCfg c) + 2))%nat.
Proof.
  intros Hf. unfold bootLeft, Start. cbn [wCo wGo]. apply map_sum_start.
  - apply (enabledSources_spec c (MkRow "" "" 0 false 0 0) Hf).
  - intros row. cbn. f_equal. lia.
Qed.

(** (C6) Bootstrap ends.  Every source has a budget of steps that no event
    raises and that each step of a goroutine still bootstrapping lowers: at most
    [4 * max attempts + 2] per enabled source.  And it never blocks: until
    readiness is signalled, once enough time has passed, either it can be
    signalled or a bootstrapping goroutine can run, whatever the upstream and
    the disk answer. *)
Theorem bootstrap_ends (cache : Cache) (cfg : SchedulerConfig) (rows : list SubscriptionRow) (w : world) :
  wreachable cache cfg rows w ->
  (forall now cancelled, bootLeft (Start (NewCoordinator cache cfg rows) now cancelled)
     = length (enabledSources (NewCoordinator cache cfg rows)) * Z.to_nat (4 * maxAttempts cfg + 2))%nat
  /\ (forall e w', wstep w e = Some w' ->
        (bootLeft w' <= bootLeft w)%nat /\ (bootMove w e = true -> (bootLeft w' < bootLeft w)%nat))
  /\ (coReady (wCo w) = false -> exists d w1, wstep w (EvAdvance d) = Some w1
        /\ (is_Some (wstep w1 EvReady)
            \/ exists n, forall x fault, bootMove w1 (EvGo n 0 0 x fault) = true /\ is_Some (wstep w1 (EvGo n 0 0 x fault)))).
Proof.
  intros Hw%life_reachable. split_and!.
  - intros now b. apply bootLeft_start, fresh_NewCoordinator.
  - intros e w'. by apply (bootLeft_step cfg rows).
  - intros _. pose proof (l_ok _ _ _ Hw) as Hok. destruct (decide (wgCount (wGo w) = 0%nat)) as [Hz|Hz].
    + exists 0. eexists. split; [done|]. left. cbn. rewrite (w_wg _ Hok), Hz. by eexists.
    + destruct (wgCount_pos (wGo w)) as (n & row & g & Hg & Hp); [lia|].
      set (d := match g with GDelay _ until => Z.max 0 (until - wNow w) | _ => 0 end).
      assert (0 <= d) as Hd by (subst d; destruct g; lia).
      exists d. eexists. split; [cbn; destruct (Z.ltb_spec d 0); [lia|done]|]. right. exists n. intros x fault.
      unfold bootMove. cbn [mover wstep wGo]. rewrite Hg. split; [done|]. simpl (_ || _).
      apply goStep_enabled; [done|]. cbn [wNow]. intros a until ->. subst d. lia.
Qed.
(** What every cache operation of the scheduler preserves, the scheduler
    preserves. *)
Lemma cache_invariant (Q : Cache -> Prop) (w w' : world) (e : wevent) :
  (forall c n err now, Q c -> Q (markFailed c n err now)) -> (forall c n, Q c -> Q (Drop c n)) ->
  (forall c row start done x p fault, (Fetch row start done x).1 = inr p -> Q c -> Q (set c (Name row) p start fault).1) ->
  wstep w e = Some w' -> Q (coCache (wCo w)) -> Q (coCache (wCo w')).
Proof.
  intros Hmark Hdrop Hset Hst Hq.
  assert (forall c nm, coCache (maybePromoteBootstrap c nm) = coCache c) as Hprom by (intros; apply coCache_updateSource).
  assert (forall c c' row start now x fault err, refreshEnd c row start now x fault = (err, c') -> Q (coCache c) -> Q (coCache c')) as Hend.
  { intros c c' row start now x fault err. unfold refreshEnd. destruct (Fetch row start now x) as [fetched res] eqn:Hf. intros Hr Hc.
    assert (coCache (recordResult c (Name row) res) = coCache c) as Hrec by apply coCache_updateSource.
    destruct fetched as [er|p]; cbn [finishFetch] in Hr.
    - injection Hr as <- <-. cbn. rewrite Hrec. by apply Hmark.
    - destruct (set _ _ _ _ _) as [cache f] eqn:Hs. injection Hr as <- <-. cbn.
      pose proof (Hset (coCache c) row start now x p fault ltac:(by rewrite Hf) Hc) as H. by rewrite Hrec in Hs; rewrite Hs in H. }
  destruct e as [d| | |name d1 d2 x fault|name d1 d2|name]; cbn [wstep] in Hst;
    repeat case_if_in Hst; try done; try (by injection Hst as <-).
  - destruct (wGo w !! name) as [[row g]|] eqn:Hg; [|done].
    unfold goStep, moveTo, startFetch in Hst. destruct g as [a|a start|a until|st| | | |start| | | |]; try done.
    all: try (destruct (refreshEnd _ _ _ _ _ _) as [err c'] eqn:Hr; pose proof (Hend _ _ _ _ _ _ _ _ Hr Hq)).
    all: repeat case_if_in Hst; try done; injection Hst as <-; cbn [wCo] in *; try done.
    + unfold markBootstrap. by rewrite coCache_updateSource.
    + unfold afterTick. destruct err; [|by rewrite Hprom]. case_if; [by apply Hdrop|done].
  - destruct (wGo w !! name) as [[row [| | | | | | | | | | |]]|]; try done. injection Hst as <-.
    unfold tickStep, startFetch, moveTo. case_if; cbn [wCo]; [done|by rewrite Hprom].
  - destruct (wGo w !! name) as [[row [| | | | | | | | | | |]]|]; try done; by injection Hst as <-.
Qed.

(** Every cached payload has its document. *)
Definition all_parsed (c : Cache) : Prop := forall n p, Get c n = Some p -> exists doc, parsedConfig p = Some doc.

Lemma Fetch_parsed (row : SubscriptionRow) (start done : Time) (x : exchange) (p : UpstreamCachedPayload) :
  (Fetch row start done x).1 = inr p -> exists doc, parsedConfig p = Some doc.
Proof.
  unfold Fetch. destruct x as [m|d m|r]; [done|by destruct d|]. destruct (rsBody r) as [m|body]; [done|].
  case_if; [done|]. destruct (yaml_Unmarshal body) as [m|n]; [done|]. destruct (assertClashShape n); [done|]. cbn. intros [= <-]. by eexists.
Qed.

Lemma all_parsed_step (w w' : world) (e : wevent) :
  wstep w e = Some w' -> all_parsed (coCache (wCo w)) -> all_parsed (coCache (wCo w')).
Proof.
  apply cache_invariant.
  - intros c n err now Hc n' p. rewrite Get_markFailed. apply Hc.
  - intros c n Hc n' p. rewrite Get_Drop. case_decide; [done|apply Hc].
  - intros c row start done x p fault Hf Hc n p'. rewrite Get_set. case_decide; [|apply Hc]. intros [= <-]. by eapply Fetch_parsed.
Qed.

Lemma all_parsed_reachable (cache : Cache) (cfg : SchedulerConfig) (rows : list SubscriptionRow) (w : world) :
  all_parsed cache -> wreachable cache cfg rows w -> all_parsed (coCache (wCo w)).
Proof.
  intros Hc (now & b & es & Hr).
  apply (wruns_invariant (fun w => all_parsed (coCache (wCo w))) es (Start (NewCoordinator cache cfg rows) now b) w); [|exact Hc|exact Hr].
  intros w1 w2 e Hq Hst. by eapply all_parsed_step.
Qed.

Lemma LoadFromDisk_parsed (c : Cache) (listing : dirListing) : all_parsed c -> all_parsed (LoadFromDisk c listing).1.
Proof.
  intros Hc. unfold LoadFromDisk. case_if; [done|]. destruct listing as [| |es]; [done|done|]. cbn [fst].
  clear Heqb. revert c Hc. induction es as [|[file content] es IH]; intros c Hc; [done|]. cbn [foldl]. apply IH.
  unfold loadFile. case_if; [done|]. destruct content as [| | |p]; try done. destruct (yaml_Unmarshal (BodyYAML p)) as [m|doc]; [done|].
  intros n q. unfold Get. cbn [byName]. rewrite lookup_insert. case_decide; [|apply Hc]. intros [= <-]. by eexists.
Qed.

Lemma NewCache_parsed (b : bool) (d : gmap string diskFile) : all_parsed (NewCache b d).
Proof. intros n p. unfold Get, NewCache. cbn. by rewrite lookup_empty. Qed.
End scheduler_lemmas.

(** * Concrete runs *)
Section demo.
#[local] Existing Instances demo_secret_parser demo_decoder.

Definition demo_row (refresh : Z) : SubscriptionRow := MkRow "alpha" "https://up.example/sub" 1 true refresh 0.
Definition demo_cfg : SchedulerConfig := MkSchedulerConfig 3600 7200 2 10.
(** A run from the start over one source, whose upstream never answers. *)
Definition demo_run (cache : Cache) (refresh : Z) (es : list wevent) : option world :=
  wruns (Start (NewCoordinator cache demo_cfg [demo_row refresh]) 1000 false) es.
Definition demo_go : wevent := EvGo "alpha" 0 0 (DoFails false "refused") None.
Definition demo_failing : list wevent :=
  [demo_go; demo_go; EvAdvance 10; demo_go; demo_go; demo_go; demo_go; demo_go; EvReady; demo_go].

(** The cache holds a payload stored at time 900. *)
Definition demo_filled : Cache := setMemory (NewCache false ∅) "alpha" demo_payload 900.

(** A [refresh] value whose product with a second overflows gives a ticker a
    negative period. *)
Example demo_overflow_panics :
  option_map (fun w => wGo w !! "alpha") (demo_run (NewCache false ∅) 9223372037 demo_failing)
  = Some (Some (demo_row 9223372037, GPanicked)).
Proof. vm_compute. reflexivity. Qed.

Lemma never_refresh_fetches_witness :
  exists w, demo_run (NewCache false ∅) (-1) demo_failing = Some w
    /\ Z.of_nat (length (startsOf "alpha" (wFetches w))) <= 2.
Proof.
  destruct (demo_run (NewCache false ∅) (-1) demo_failing) as [w|] eqn:E; [|vm_compute in E; discriminate].
  exists w. split; [reflexivity|].
  eapply (never_refresh_fetches (NewCache false ∅) demo_cfg [demo_row (-1)] w "alpha");
    [exists 1000, false, demo_failing; exact E|vm_compute in E; injection E as <-; reflexivity|reflexivity].
Defined.

Lemma ready_bootstrapped_witness :
  exists w s, demo_run (NewCache false ∅) 60 demo_failing = Some w
    /\ coSources (wCo w) !! "alpha" = Some s /\ scBootstrap s <> BootstrapPending.
Proof.
  destruct (demo_run (NewCache false ∅) 60 demo_failing) as [w|] eqn:E; [|vm_compute in E; discriminate].
  assert (exists s, coSources (wCo w) !! "alpha" = Some s /\ coReady (wCo w) = true /\ wCancelled w = false) as (s & Hs & Hr & Hc)
    by (vm_compute in E; injection E as <-; eexists; split_and!; vm_compute; reflexivity).
  exists w, s. split_and!; [reflexivity|exact Hs|].
  destruct (ready_bootstrapped (NewCache false ∅) demo_cfg [demo_row 60] w) as (_ & H & _); [do 3 eexists; exact E|].
  destruct (H Hr) as [Hx|[Hp _]]; [congruence|exact (Hp "alpha" s Hs)].
Defined.

(** On shutdown the wait group is drained by goroutines that return before their
    source is in a terminal state, and readiness is signalled all the same. *)
Example ready_at_shutdown_pending :
  exists w, demo_run (NewCache false ∅) 60 [EvCancel; demo_go; demo_go; EvReady] = Some w
    /\ coReady (wCo w) = true /\ AllSucceeded (wCo w) = false
    /\ (scBootstrap <$> coSources (wCo w) !! "alpha") = Some BootstrapPending.
Proof. eexists. split; [vm_compute; reflexivity|]. split_and!; vm_compute; reflexivity. Qed.

Lemma AllSucceeded_stays_witness :
  exists w w', demo_run demo_filled 60 [demo_go; demo_go; demo_go; demo_go; EvReady] = Some w
    /\ wruns w [EvAdvance 100000000000; EvTick "alpha" 0 0; demo_go] = Some w' /\ AllSucceeded (wCo w') = true.
Proof.
  destruct (demo_run demo_filled 60 [demo_go; demo_go; demo_go; demo_go; EvReady]) as [w|] eqn:E; [|vm_compute in E; discriminate].
  destruct (wruns w [EvAdvance 100000000000; EvTick "alpha" 0 0; demo_go]) as [w'|] eqn:E';
    [|vm_compute in E; injection E as <-; vm_compute in E'; discriminate].
  exists w, w'. split_and!; [reflexivity|exact E'|].
  eapply (AllSucceeded_stays demo_filled demo_cfg [demo_row 60] w w');
    [do 3 eexists; exact E|exact E'|vm_compute in E; injection E as <-; split; reflexivity].
Defined.

Lemma scheduler_no_panic_witness :
  exists w, demo_run (NewCache false ∅) 60 demo_failing = Some w /\ ~ panicked w.
Proof.
  destruct (demo_run (NewCache false ∅) 60 demo_failing) as [w|] eqn:E; [|vm_compute in E; discriminate].
  exists w. split; [reflexivity|].
  apply (scheduler_no_panic (NewCache false ∅) demo_cfg [demo_row 60]); [do 3 eexists; exact E|].
  intros row ->%list_elem_of_singleton _ _. reflexivity.
Defined.

(** The upstream fails at a tick past the stale window. *)
Lemma payload_dropped_only_stale_witness :
  exists w w' row start entry err,
    demo_run demo_filled 60 [demo_go; demo_go; demo_go; demo_go; EvReady; EvAdvance 100000000000; EvTick "alpha" 0 0] = Some w
    /\ wstep w demo_go = Some w' /\ Get (coCache (wCo w')) "alpha" = None
    /\ wGo w !! "alpha" = Some (row, GTickFetch start) /\ (Fetch row start (wNow w + 0) (DoFails false "refused")).1 = inl err
    /\ byName (coCache (wCo w)) !! "alpha" = Some entry /\ 7200 < Sub (wNow w') (storedAt entry).
Proof.
  set (es := [demo_go; demo_go; demo_go; demo_go; EvReady; EvAdvance 100000000000; EvTick "alpha" 0 0]).
  destruct (demo_run demo_filled 60 es) as [w|] eqn:E; [|vm_compute in E; discriminate].
  destruct (wstep w demo_go) as [w'|] eqn:E'; [|vm_compute in E; injection E as <-; vm_compute in E'; discriminate].
  assert (Get (coCache (wCo w)) "alpha" <> None /\ Get (coCache (wCo w')) "alpha" = None) as [H1 H2].
  { vm_compute in E. injection E as <-. vm_compute in E'. injection E' as <-. split; [discriminate|reflexivity]. }
  destruct (payload_dropped_only_stale demo_filled demo_cfg [demo_row 60] w w' demo_go "alpha") as [H _];
    [do 3 eexists; exact E|exact H1|].
  destruct (H E' H2) as (row & start & en & d1 & d2 & x & fault & err & [= <- <- <- <-] & Hg & Hin & _ & Hf & Hen & Hlt).
  exists w, w', row, start, en, err. split_and!; try assumption; try reflexivity.
  apply list_elem_of_singleton in Hin as ->. exact Hlt.
Defined.

Lemma bootstrap_ends_witness :
  exists w w', demo_run (NewCache false ∅) 60 [demo_go; demo_go] = Some w
    /\ wstep w (EvAdvance 10) = Some w' /\ (bootLeft w' <= bootLeft w)%nat.
Proof.
  destruct (demo_run (NewCache false ∅) 60 [demo_go; demo_go]) as [w|] eqn:E; [|vm_compute in E; discriminate].
  destruct (wstep w (EvAdvance 10)) as [w'|] eqn:E'; [|vm_compute in E'; discriminate].
  exists w, w'. split_and!; [reflexivity|exact E'|].
  apply (bootstrap_ends (NewCache false ∅) demo_cfg [demo_row 60] w ltac:(do 3 eexists; exact E)) in E' as [H _]. exact H.
Defined.
End demo.
