(* ===== verification/Rules.v ===== *)
(** * internal/merge/rules.go: the unified, priority-ordered rule stream *)
From stdpp Require Import base gmap sets list strings sorting.
From Stdlib Require Import ZArith Lia Ascii.
From S2P Require Import Prelude GoStrings GoSort Subscriptions CustomRules.

(** Three parallel slices. *)
Record MergeResult := MkMergeResult {
  mrRules : list string;
  mrPriorities : list Z;
  mrContributors : list string
}.

Record contributor := MkContributor { cName : string; cPriority : Z; cRules : list string }.

(** The comparison given to [sort.SliceStable]. *)
Definition contributorLess (a b : contributor) : bool :=
  if negb (Z.eqb (cPriority a) (cPriority b)) then (cPriority a <? cPriority b)%Z
  else str_less (cName a) (cName b).

(** [upstreamPerSource[row.Name]] *)
Definition lookup_rules (perSource : gmap string (list string)) (name : string) : list string :=
  default [] (perSource !! name).

(** The first loop: the rules of a source without their trailing rule. *)
Definition upstreamContributor (perSource : gmap string (list string)) (row : SubscriptionRow)
    : option contributor :=
  let rules := lookup_rules perSource (Name row) in
  if length rules =? 0 then None
  else
    let rules := take (length rules - 1) rules in
    if length rules =? 0 then None else Some (MkContributor (Name row) (Priority row) rules).

(** The second loop. *)
Definition customContributor (cs : CustomRuleSet) : option contributor :=
  if length (csRules cs) =? 0 then None
  else Some (MkContributor (csName cs) (csPriority cs) (csRules cs)).

Definition contributors (upstreamPerSource : gmap string (list string))
    (upstreamSources : list SubscriptionRow) (customs : list CustomRuleSet) : list contributor :=
  omap (upstreamContributor upstreamPerSource) upstreamSources ++ omap customContributor customs.

(** The nested loops that append to the three slices. *)
Definition emitContributor (acc : MergeResult) (c : contributor) : MergeResult :=
  foldl (fun acc r => MkMergeResult (mrRules acc ++ [r]) (mrPriorities acc ++ [cPriority c])
                        (mrContributors acc ++ [cName c])) acc (cRules c).

Definition MergeUnifiedRules (upstreamPerSource : gmap string (list string))
    (upstreamSources : list SubscriptionRow) (customs : list CustomRuleSet)
    (fallbackRuleTarget : string) : MergeResult :=
  let cs := SliceStable contributorLess (contributors upstreamPerSource upstreamSources customs) in
  let acc := foldl emitContributor (MkMergeResult [] [] []) cs in
  MkMergeResult (mrRules acc ++ ["MATCH," +:+ fallbackRuleTarget])
    (mrPriorities acc ++ [0%Z]) (mrContributors acc ++ [""]).

(** * Lemmas *)
Lemma emitContributor_eq (acc : MergeResult) (c : contributor) :
  emitContributor acc c =
  MkMergeResult (mrRules acc ++ cRules c) (mrPriorities acc ++ replicate (length (cRules c)) (cPriority c))
    (mrContributors acc ++ replicate (length (cRules c)) (cName c)).
Proof.
  unfold emitContributor. generalize (cRules c) as rs. intros rs. revert acc.
  induction rs as [|r rs IH]; intros [ru pr co]; simpl; [by rewrite !app_nil_r|].
  rewrite IH. simpl. by rewrite <- !app_assoc.
Qed.

Lemma emit_all (cs : list contributor) (acc : MergeResult) :
  foldl emitContributor acc cs =
  MkMergeResult (mrRules acc ++ mjoin (map cRules cs))
    (mrPriorities acc ++ mjoin (map (fun c => replicate (length (cRules c)) (cPriority c)) cs))
    (mrContributors acc ++ mjoin (map (fun c => replicate (length (cRules c)) (cName c)) cs)).
Proof.
  revert acc. induction cs as [|c cs IH]; intros acc; [destruct acc; simpl; by rewrite !app_nil_r|].
  simpl foldl. rewrite IH, emitContributor_eq. simpl. by rewrite <- !app_assoc.
Qed.

(** (priority, name) lexicographic order *)
Definition contributor_le (a b : contributor) : Prop :=
  (cPriority a < cPriority b)%Z \/ (cPriority a = cPriority b /\ String.le (cName a) (cName b)).

Lemma contributorLess_le (a b : contributor) : sort_le contributorLess a b <-> contributor_le a b.
Proof.
  unfold sort_le, contributorLess, contributor_le. destruct (Z.eqb_spec (cPriority b) (cPriority a)); simpl.
  - fold (sort_le str_less (cName a) (cName b)). rewrite str_sort_le. intuition lia.
  - rewrite Z.ltb_ge. intuition lia.
Qed.

Lemma contributorLess_trans (a b c : contributor) :
  sort_le contributorLess a b -> sort_le contributorLess b c -> sort_le contributorLess a c.
Proof.
  rewrite !contributorLess_le. unfold contributor_le.
  intros [?|[? ?]] [?|[? ?]]; [left; lia..|]. right. split; [lia|]. by trans (cName b).
Qed.

Lemma contributorLess_asym (a b : contributor) : contributorLess a b = true -> contributorLess b a = false.
Proof.
  unfold contributorLess. rewrite (Z.eqb_sym (cPriority b)).
  destruct (Z.eqb (cPriority a) (cPriority b)); simpl; [apply str_less_asym|lia].
Qed.

(** (C21) The served rules are the contributors' rules, whole and in order, with
    the contributors sorted by (priority ascending, name ascending), ties in
    their original order, followed by the MATCH fallback; the priority and
    contributor slices say for every rule where it came from. *)
Theorem MergeUnifiedRules_spec (ups : gmap string (list string)) (rows : list SubscriptionRow)
    (customs : list CustomRuleSet) (fallback : string) :
  exists cs, cs ≡ₚ contributors ups rows customs
    /\ StronglySorted contributor_le cs
    /\ (forall k, filter (fun c => sort_equiv contributorLess k c = true) cs
             = filter (fun c => sort_equiv contributorLess k c = true) (contributors ups rows customs))
    /\ MergeUnifiedRules ups rows customs fallback = MkMergeResult
         (mjoin (map cRules cs) ++ ["MATCH," +:+ fallback])
         (mjoin (map (fun c => replicate (length (cRules c)) (cPriority c)) cs) ++ [0%Z])
         (mjoin (map (fun c => replicate (length (cRules c)) (cName c)) cs) ++ [""]).
Proof.
  exists (SliceStable contributorLess (contributors ups rows customs)). split_and!.
  - apply SliceStable_perm.
  - generalize (SliceStable_sorted contributorLess contributorLess_trans contributorLess_asym
      (contributors ups rows customs)).
    induction 1 as [|c cs _ IH Hc]; constructor; [done|].
    eapply Forall_impl; [done|]. intros d. apply contributorLess_le.
  - intros k. apply SliceStable_stable; [apply contributorLess_trans|apply contributorLess_asym].
  - unfold MergeUnifiedRules. by rewrite emit_all.
Qed.

(** ** The parallel-slice invariant *)
Definition parallel (r : MergeResult) : Prop :=
  length (mrPriorities r) = length (mrRules r) /\ length (mrContributors r) = length (mrRules r).

Lemma emit_parallel (cs : list contributor) (acc : MergeResult) :
  parallel acc -> parallel (foldl emitContributor acc cs).
Proof.
  revert acc. induction cs as [|c cs IH]; intros acc Hp; [done|]. simpl. apply IH.
  rewrite emitContributor_eq. destruct Hp as [H1 H2]. split; simpl; rewrite !length_app, length_replicate; lia.
Qed.

Lemma MergeUnifiedRules_parallel (ups : gmap string (list string)) (rows : list SubscriptionRow)
    (customs : list CustomRuleSet) (fallback : string) :
  parallel (MergeUnifiedRules ups rows customs fallback).
Proof.
  destruct (emit_parallel (SliceStable contributorLess (contributors ups rows customs)) (MkMergeResult [] [] []))
    as [H1 H2]; [done|].
  unfold MergeUnifiedRules, parallel. simpl. rewrite !length_app, H1, H2. done.
Qed.

(** A contributor always has at least one rule. *)
Lemma contributors_nonempty (ups : gmap string (list string)) (rows : list SubscriptionRow)
    (customs : list CustomRuleSet) (c : contributor) :
  c ∈ contributors ups rows customs -> cRules c <> [].
Proof.
  unfold contributors. rewrite elem_of_app, !list_elem_of_omap. unfold upstreamContributor, customContributor.
  intros [(row & _ & H)|(cs & _ & H)]; repeat case_if_in H; simplify_eq; simpl;
    match goal with Hl : (length ?l =? 0) = false |- ?l <> [] => by destruct l end.
Qed.

(** Where a served rule can come from. *)
Lemma elem_of_MergeUnifiedRules (ups : gmap string (list string)) (rows : list SubscriptionRow)
    (customs : list CustomRuleSet) (fallback r : string) :
  r ∈ mrRules (MergeUnifiedRules ups rows customs fallback) ->
  r = "MATCH," +:+ fallback
  \/ (exists row, row ∈ rows /\ r ∈ lookup_rules ups (Name row))
  \/ (exists cs, cs ∈ customs /\ r ∈ csRules cs).
Proof.
  unfold MergeUnifiedRules. rewrite emit_all. simpl. rewrite elem_of_app, list_elem_of_singleton.
  intros [Hr|Hr]; [right|by left]. apply list_elem_of_join in Hr as (l & Hrl & Hl).
  apply list_elem_of_fmap in Hl as (c & -> & Hc). apply elem_of_SliceStable in Hc.
  unfold contributors in Hc. rewrite elem_of_app, !list_elem_of_omap in Hc.
  unfold upstreamContributor, customContributor in Hc.
  destruct Hc as [(row & Hrow & H)|(cs & Hcs & H)]; repeat case_if_in H; simplify_eq; simpl in *.
  - left. exists row. split; [done|]. eapply elem_of_take in Hrl as (i & Hi & _). by eapply list_elem_of_lookup_2.
  - right. by exists cs.
Qed.
