(* ===== verification/ProxyGroups.v ===== *)
(** * internal/merge/proxy_groups.go: the union of all proxy groups

    [byName] points into the output slice; the model keeps the index, so an
    update through the map changes the group in the slice. *)
From stdpp Require Import base gmap sets list strings sorting.
From Stdlib Require Import ZArith Lia Ascii.
From S2P Require Import Prelude GoStrings Yaml Namespace Proxies.

Record GroupConflictValue := MkGCV { gcvSource : string; gcvValue : string }.
Record GroupConflict := MkGroupConflict {
  gcGroupName : string;
  gcAttribute : string;
  gcValues : list GroupConflictValue;
  gcChosen : string
}.

(** The loop [if !seen[m] { existing = append(existing, m); seen[m] = true }],
    which the package writes out four times. *)
Definition unionMembers (existing incoming : list string) : list string :=
  (foldl (fun '(ex, seen) m =>
     if bool_decide (m ∈ seen) then (ex, seen) else (ex ++ [m], {[m]} ∪ seen))
     (existing, list_to_set existing : gset string) incoming).1.

(** ** AppendProxiesGroup *)
Definition newSelectGroup (groupName : string) (members : list string) : node :=
  let g := lit MappingNode "" "!!map" [] in
  let g := setMappingValue g "name" (str_scalar groupName) in
  let g := setMappingValue g "type" (str_scalar "select") in
  setMappingMembers g "proxies" members.

(** The first group of that name gets the missing members; [None] when there is
    no such group. *)
Fixpoint augmentGroup (groups : list node) (groupName : string) (names : list string) : option (list node) :=
  match groups with
  | [] => None
  | g :: rest =>
      if String.eqb (getMappingField g "name") groupName
      then Some (setMappingMembers g "proxies" (unionMembers (mappingMembers g "proxies") names) :: rest)
      else cons g <$> augmentGroup rest groupName names
  end.

Definition AppendProxiesGroup (groups : list node) (proxyNames : list string) (groupName : string) : list node :=
  let groupName := if String.eqb groupName "" then "Proxies" else groupName in
  match augmentGroup groups groupName proxyNames with
  | Some groups' => groups'
  | None => groups ++ [newSelectGroup groupName proxyNames]
  end.

(** ** MergeProxyGroups *)
Definition attributesToCompare : list string := ["type"; "url"; "interval"; "tolerance"; "lazy"].

Record groupState := MkGroupState {
  gsMerged : list node;
  gsByName : gmap string nat;
  gsChosen : gmap string string;
  gsConflicts : list GroupConflict
}.

(** The attribute loop: a conflict for every attribute both groups set differently. *)
Definition attrConflicts (name chosen source : string) (existing clone : node) : list GroupConflict :=
  omap (fun attr =>
    let ev := getMappingField existing attr in
    let nv := getMappingField clone attr in
    if String.eqb ev "" || String.eqb nv "" || String.eqb ev nv then None
    else Some (MkGroupConflict name attr [MkGCV chosen ev; MkGCV source nv] chosen)) attributesToCompare.

(** The closure [add]. *)
Definition addGroup (st : groupState) (sg : string * node) : groupState :=
  let '(source, g) := sg in
  let clone := cloneNode g in
  let name := getMappingField clone "name" in
  if String.eqb name "" then st
  else match gsByName st !! name with
       | None =>
           MkGroupState (gsMerged st ++ [clone]) (<[name := length (gsMerged st)]> (gsByName st))
             (<[name := source]> (gsChosen st)) (gsConflicts st)
       | Some i =>
           match gsMerged st !! i with
           | None => st
           | Some existing =>
               let existing := setMappingMembers existing "proxies"
                 (unionMembers (mappingMembers existing "proxies") (mappingMembers clone "proxies")) in
               MkGroupState (<[i := existing]> (gsMerged st)) (gsByName st) (gsChosen st)
                 (gsConflicts st
                  ++ attrConflicts name (default "" (gsChosen st !! name)) source existing clone)
           end
       end.

Definition MergeProxyGroups (perSource : gmap string (list node)) (sortedSources : list string)
    (own : list node) : list node * list GroupConflict :=
  let st := foldl addGroup (MkGroupState [] ∅ ∅ []) (map (pair "own") own) in
  let st := foldl (fun st source => foldl addGroup st (map (pair source) (lookup_nodes perSource source)))
              st sortedSources in
  (gsMerged st, gsConflicts st).

(** * Lemmas *)

(** ** Union of member lists *)
Lemma unionMembers_spec (existing incoming : list string) :
  exists new, unionMembers existing incoming = existing ++ new /\ NoDup new
    /\ (forall m, m ∈ new <-> m ∈ incoming /\ m ∉ existing).
Proof.
  unfold unionMembers.
  cut (forall (ex : list string) (seen : gset string), (forall m, m ∈ seen <-> m ∈ ex) ->
    exists new, (foldl (fun '(ex, seen) m =>
       if bool_decide (m ∈ seen) then (ex, seen) else (ex ++ [m], {[m]} ∪ seen)) (ex, seen) incoming).1
       = ex ++ new /\ NoDup new /\ (forall m, m ∈ new <-> m ∈ incoming /\ m ∉ ex)).
  { intros H. apply H. intros m. apply elem_of_list_to_set. }
  induction incoming as [|m inc IH]; intros ex seen Hs; simpl.
  - exists []. rewrite app_nil_r. split_and!; [done|constructor|]. set_solver.
  - case_bool_decide as Hm.
    + destruct (IH ex seen Hs) as (new & -> & Hnd & Hnew). exists new. split_and!; [done..|]. set_solver.
    + destruct (IH (ex ++ [m]) ({[m]} ∪ seen)) as (new & -> & Hnd & Hnew); [set_solver|].
      exists (m :: new). rewrite <- app_assoc. split_and!; [done| |].
      * constructor; [|done]. rewrite Hnew. set_solver.
      * intros x. rewrite elem_of_cons, Hnew, elem_of_cons, elem_of_app, list_elem_of_singleton.
        rewrite Hs in Hm. destruct (decide (x = m)); set_solver.
Qed.

Lemma elem_of_unionMembers (ex inc : list string) (m : string) :
  m ∈ unionMembers ex inc <-> m ∈ ex \/ m ∈ inc.
Proof.
  destruct (unionMembers_spec ex inc) as (new & -> & _ & Hnew). rewrite elem_of_app, Hnew.
  destruct (decide (m ∈ ex)); tauto.
Qed.

Lemma unionMembers_nil_l (inc : list string) : inc <> [] -> unionMembers [] inc <> [].
Proof.
  destruct inc as [|m inc]; [done|]. intros _ H.
  assert (m ∈ unionMembers [] (m :: inc)) as Hm by (rewrite elem_of_unionMembers; right; left).
  rewrite H in Hm. by apply elem_of_nil in Hm.
Qed.

(** ** The select group *)
Lemma newSelectGroup_facts (groupName : string) (ms : list string) :
  wf_named (newSelectGroup groupName ms) = true
  /\ getMappingField (newSelectGroup groupName ms) "name" = groupName
  /\ getMappingField (newSelectGroup groupName ms) "type" = "select"
  /\ mappingMembers (newSelectGroup groupName ms) "proxies" = ms.
Proof.
  split_and!; [done..|]. unfold mappingMembers. simpl.
  induction ms as [|m ms IH]; [done|]. csimpl. by f_equal.
Qed.

Lemma augmentGroup_None (groups : list node) (groupName : string) (names : list string) :
  augmentGroup groups groupName names = None <-> groupName ∉ names_of groups.
Proof.
  induction groups as [|g gs IH]; [set_solver|]. unfold names_of in *. simpl.
  destruct (String.eqb (getMappingField g "name") groupName) eqn:E; string_eqb.
  - set_solver.
  - rewrite not_elem_of_cons, <- IH. destruct (augmentGroup gs groupName names); simpl; naive_solver.
Qed.

Lemma augmentGroup_Some (groups groups' : list node) (groupName : string) (names : list string) :
  augmentGroup groups groupName names = Some groups' ->
  exists pre g post, groups = pre ++ g :: post /\ getMappingField g "name" = groupName
    /\ (groupName ∉ names_of pre)
    /\ groups' = pre ++ setMappingMembers g "proxies" (unionMembers (mappingMembers g "proxies") names) :: post.
Proof.
  revert groups'. induction groups as [|g gs IH]; intros groups' H; [done|]. simpl in H.
  destruct (String.eqb (getMappingField g "name") groupName) eqn:E; string_eqb.
  - simplify_eq. exists [], g, gs. set_solver.
  - destruct (augmentGroup gs groupName names) as [gs'|]; [|done]. simplify_eq/=.
    destruct (IH gs' eq_refl) as (pre & g1 & post & -> & Hn & Hpre & ->).
    exists (g :: pre), g1, post. split_and!; [done|done| |done].
    unfold names_of in *. simpl. apply not_elem_of_cons. naive_solver.
Qed.

(** Augmenting changes no name. *)
Lemma augmentGroup_names (groups groups' : list node) (groupName : string) (names : list string) :
  all_named groups -> augmentGroup groups groupName names = Some groups' ->
  names_of groups' = names_of groups /\ all_named groups'.
Proof.
  intros Hw (pre & g & post & -> & Hn & _ & ->)%augmentGroup_Some.
  unfold all_named in *. rewrite Forall_app, Forall_cons in *. destruct Hw as (Hpre & Hg & Hpost).
  apply wf_named_spec in Hg as (Hk & Hp & Hd).
  assert (getMappingField (setMappingMembers g "proxies" (unionMembers (mappingMembers g "proxies") names)) "name"
          = getMappingField g "name") as Hname by by apply getMappingField_setMembers_other.
  split.
  - unfold names_of. rewrite !map_app. simpl. by rewrite Hname.
  - split_and!; [done| |done]. apply wf_named_spec. split_and!.
    + by rewrite Kind_setMappingMembers.
    + unfold setMappingMembers. by rewrite paired_setMappingValue.
    + unfold field_direct, setMappingMembers in *. by rewrite getMappingNode_setValue_other.
Qed.

(** After [AppendProxiesGroup] there is a group of the requested name
    ("Proxies" by default) whose members include every proxy name given; an
    existing group keeps its own members, in order, in front. *)
Theorem AppendProxiesGroup_present (groups : list node) (proxyNames : list string) (groupName : string) :
  all_named groups ->
  let target := if String.eqb groupName "" then "Proxies" else groupName in
  exists pre g post, AppendProxiesGroup groups proxyNames groupName = pre ++ g :: post
    /\ getMappingField g "name" = target /\ (target ∉ names_of pre)
    /\ (forall n, n ∈ proxyNames -> n ∈ mappingMembers g "proxies")
    /\ (forall g0, g0 ∈ groups -> getMappingField g0 "name" = target ->
          NoDup (names_of groups) -> mappingMembers g0 "proxies" `prefix_of` mappingMembers g "proxies").
Proof.
  intros Hw target. unfold AppendProxiesGroup. fold target.
  destruct (augmentGroup groups target proxyNames) as [gs'|] eqn:Ha.
  - apply augmentGroup_Some in Ha as (pre & g & post & -> & Hn & Hpre & ->).
    unfold all_named in Hw. rewrite Forall_app, Forall_cons in Hw. destruct Hw as (_ & Hg & _).
    apply wf_named_spec in Hg as (Hk & Hp & _).
    assert (mappingMembers (setMappingMembers g "proxies" (unionMembers (mappingMembers g "proxies") proxyNames)) "proxies"
            = unionMembers (mappingMembers g "proxies") proxyNames) as Hm by by apply mappingMembers_set_same.
    eexists pre, _, post. rewrite Hm. split_and!; [done| |done| |].
    + by rewrite getMappingField_setMembers_other.
    + intros n Hin. apply elem_of_unionMembers. by right.
    + intros g0 Hg0 Hn0 Hnd.
      assert (g0 = g) as ->.
      { unfold names_of in Hnd. rewrite map_app in Hnd. simpl in Hnd.
        apply NoDup_app in Hnd as (_ & _ & Hnd). apply NoDup_cons in Hnd as [Hnd _].
        apply elem_of_app in Hg0 as [Hg0|Hg0].
        - exfalso. apply Hpre. rewrite <- Hn0. by apply elem_of_names_of.
        - apply elem_of_cons in Hg0 as [->|Hg0]; [done|]. exfalso. apply Hnd. rewrite Hn, <- Hn0.
          by apply (elem_of_names_of g0 post). }
      destruct (unionMembers_spec (mappingMembers g "proxies") proxyNames) as (new & -> & _). by exists new.
  - apply augmentGroup_None in Ha. destruct (newSelectGroup_facts target proxyNames) as (_ & Hn & _ & Hm).
    exists groups, (newSelectGroup target proxyNames), []. rewrite Hm.
    split_and!; [done|done|done|done|]. intros g0 Hg0 Hn0. exfalso. apply Ha. rewrite <- Hn0.
    by apply elem_of_names_of.
Qed.

Lemma AppendProxiesGroup_present_witness :
  exists pre g post, AppendProxiesGroup [demo_group "Auto" ["a_HK"]; demo_group "Proxies" ["DIRECT"]] ["a_HK"; "a_JP"] ""
    = pre ++ g :: post /\ getMappingField g "name" = "Proxies"
    /\ (forall n, n ∈ ["a_HK"; "a_JP"] -> n ∈ mappingMembers g "proxies").
Proof.
  destruct (AppendProxiesGroup_present [demo_group "Auto" ["a_HK"]; demo_group "Proxies" ["DIRECT"]]
              ["a_HK"; "a_JP"] "" ltac:(by repeat constructor)) as (pre & g & post & H1 & H2 & _ & H3 & _).
  exists pre, g, post. split_and!; [exact H1|exact H2|exact H3].
Defined.

(** ** The merged groups *)

(** The groups offered to the merge, in processing order. *)
Definition groupInputs (perSource : gmap string (list node)) (sources : list string) (own : list node)
    : list (string * node) :=
  map (pair "own") own ++ candidates perSource sources.

Lemma merge_groups_flat (perSource : gmap string (list node)) (sources : list string) (own : list node) :
  MergeProxyGroups perSource sources own
  = let st := foldl addGroup (MkGroupState [] ∅ ∅ []) (groupInputs perSource sources own) in
    (gsMerged st, gsConflicts st).
Proof.
  unfold MergeProxyGroups, groupInputs. rewrite foldl_app.
  generalize (foldl addGroup (MkGroupState [] ∅ ∅ []) (map (pair "own") own)). intros st.
  revert st. induction sources as [|s ss IH]; intros st; [done|].
  change (candidates perSource (s :: ss))
    with (map (pair s) (lookup_nodes perSource s) ++ candidates perSource ss).
  simpl. rewrite foldl_app. apply IH.
Qed.

(** The inputs that have name [x]. *)
Definition inputs_named (inputs : list (string * node)) (x : string) : list node :=
  filter (fun g => getMappingField g "name" = x) (map snd inputs).

(** What a merged group is made of: the attributes of the first input of its
    name, the members of all of them. *)
Definition merged_from (inputs : list (string * node)) (g : node) : Prop :=
  exists g0 rest, inputs_named inputs (getMappingField g "name") = g0 :: rest
    /\ (forall key, key <> "proxies" -> getMappingNode g key = getMappingNode g0 key)
    /\ (forall m, m ∈ mappingMembers g "proxies" <-> exists gi, gi ∈ g0 :: rest /\ m ∈ mappingMembers gi "proxies").

Record group_inv (inputs : list (string * node)) (st : groupState) : Prop := {
  gi_index : forall x i, gsByName st !! x = Some i <->
    exists g, gsMerged st !! i = Some g /\ getMappingField g "name" = x;
  gi_named : forall g, g ∈ gsMerged st -> wf_named g = true /\ named g;
  gi_from : forall g, g ∈ gsMerged st -> merged_from inputs g;
  gi_all : forall g, g ∈ map snd inputs -> named g -> getMappingField g "name" ∈ names_of (gsMerged st)
}.

Lemma inputs_named_snoc (inputs : list (string * node)) (s x : string) (g : node) :
  inputs_named (inputs ++ [(s, g)]) x =
  inputs_named inputs x ++ (if decide (getMappingField g "name" = x) then [g] else []).
Proof.
  unfold inputs_named. rewrite map_app, filter_app. simpl. f_equal.
Qed.

Lemma merged_from_other (inputs : list (string * node)) (s : string) (g h : node) :
  merged_from inputs h -> getMappingField g "name" <> getMappingField h "name" ->
  merged_from (inputs ++ [(s, g)]) h.
Proof.
  intros (g0 & rest & Hin & Hk & Hm) Hne. exists g0, rest.
  rewrite inputs_named_snoc, decide_False, app_nil_r by done. done.
Qed.

(** A group that is not in the output yet is appended. *)
Lemma group_inv_new (inputs : list (string * node)) (st : groupState) (s : string) (g : node) :
  group_inv inputs st -> wf_named g = true -> named g -> gsByName st !! getMappingField g "name" = None ->
  group_inv (inputs ++ [(s, g)])
    (MkGroupState (gsMerged st ++ [g]) (<[getMappingField g "name" := length (gsMerged st)]> (gsByName st))
      (<[getMappingField g "name" := s]> (gsChosen st)) (gsConflicts st)).
Proof.
  intros [Hidx Hnam Hfrom Hall] Hw Hn Hnone.
  assert (forall h, h ∈ gsMerged st -> getMappingField g "name" <> getMappingField h "name") as Hfresh.
  { intros h (i & Hi)%list_elem_of_lookup Heq.
    assert (gsByName st !! getMappingField g "name" = Some i) as Hs by (apply Hidx; by exists h).
    congruence. }
  split; simpl.
  - intros x i. rewrite lookup_insert. case_decide as Hx.
    + subst x. split.
      * intros [= <-]. exists g. by rewrite list_lookup_middle.
      * intros (h & Hh & Hname). apply lookup_app_Some in Hh as [Hh|[Hle Hh]].
        -- exfalso. by apply (Hfresh h (list_elem_of_lookup_2 _ _ _ Hh)).
        -- apply list_lookup_singleton_Some in Hh as [Hz _]. f_equal. lia.
    + rewrite Hidx. split; intros (h & Hh & Hname); exists h; (split; [|done]).
      * by apply lookup_app_l_Some.
      * apply lookup_app_Some in Hh as [Hh|[_ Hh]]; [done|].
        apply list_lookup_singleton_Some in Hh as [_ <-]. done.
  - intros h [Hh|Hh%list_elem_of_singleton]%elem_of_app; [by apply Hnam|by subst h].
  - intros h [Hh|Hh%list_elem_of_singleton]%elem_of_app; [by apply merged_from_other; auto|]. subst h.
    assert (inputs_named inputs (getMappingField g "name") = []) as Hnil.
    { destruct (inputs_named inputs (getMappingField g "name")) as [|h l] eqn:E; [done|]. exfalso.
      assert (h ∈ inputs_named inputs (getMappingField g "name")) as Hin by (rewrite E; left).
      unfold inputs_named in Hin. apply list_elem_of_filter in Hin as [Hname Hin].
      assert (getMappingField h "name" ∈ names_of (gsMerged st)) as Hin'
        by (apply Hall; [done|unfold named in *; congruence]).
      unfold names_of in Hin'. apply list_elem_of_fmap in Hin' as (h' & Heq & Hh').
      apply (Hfresh h' Hh'). congruence. }
    exists g, []. rewrite inputs_named_snoc, decide_True, Hnil by done. split_and!; [done|done|].
    intros m. setoid_rewrite list_elem_of_singleton. naive_solver.
  - intros h. rewrite map_app. simpl. unfold names_of. rewrite map_app. simpl.
    intros [Hh|Hh%list_elem_of_singleton]%elem_of_app Hhn; apply elem_of_app; [left; by apply Hall|right].
    subst h. by left.
Qed.

Lemma setMembers_facts (g : node) (ms : list string) :
  wf_named g = true ->
  wf_named (setMappingMembers g "proxies" ms) = true
  /\ getMappingField (setMappingMembers g "proxies" ms) "name" = getMappingField g "name"
  /\ mappingMembers (setMappingMembers g "proxies" ms) "proxies" = ms
  /\ (forall key, key <> "proxies" -> getMappingNode (setMappingMembers g "proxies" ms) key = getMappingNode g key).
Proof.
  intros (Hk & Hp & Hd)%wf_named_spec.
  assert (forall key, key <> "proxies" -> getMappingNode (setMappingMembers g "proxies" ms) key = getMappingNode g key) as Ho.
  { intros key Hne. apply getMappingNode_setValue_other; [done|done]. }
  split_and!; [|by apply getMappingField_setMembers_other|by apply mappingMembers_set_same|done].
  apply wf_named_spec. split_and!.
  - by rewrite Kind_setMappingMembers.
  - unfold setMappingMembers. by rewrite paired_setMappingValue.
  - unfold field_direct. by rewrite Ho.
Qed.

(** A group whose name is in the output is merged into the group it names. *)
Lemma group_inv_union (inputs : list (string * node)) (st : groupState) (s : string) (g old : node) (i : nat)
    (cs : list GroupConflict) :
  group_inv inputs st -> wf_named g = true -> named g ->
  gsByName st !! getMappingField g "name" = Some i -> gsMerged st !! i = Some old ->
  group_inv (inputs ++ [(s, g)])
    (MkGroupState (<[i := setMappingMembers old "proxies"
        (unionMembers (mappingMembers old "proxies") (mappingMembers g "proxies"))]> (gsMerged st))
      (gsByName st) (gsChosen st) cs).
Proof.
  intros [Hidx Hnam Hfrom Hall] Hw Hn Hi Hold.
  set (ms := unionMembers (mappingMembers old "proxies") (mappingMembers g "proxies")).
  pose proof (list_elem_of_lookup_2 _ _ _ Hold) as Hin.
  destruct (setMembers_facts old ms (proj1 (Hnam _ Hin))) as (Hw' & Hname & Hmem & Hkeys).
  assert (getMappingField old "name" = getMappingField g "name") as Hsame.
  { apply Hidx in Hi as (h & Hh & <-). congruence. }
  assert (names_of (<[i := setMappingMembers old "proxies" ms]> (gsMerged st)) = names_of (gsMerged st)) as Hnames.
  { unfold names_of. change (map ?f ?l) with (f <$> l). rewrite list_fmap_insert, Hname. apply list_insert_id.
    by rewrite list_lookup_fmap, Hold. }
  assert (forall h, h ∈ <[i := setMappingMembers old "proxies" ms]> (gsMerged st) ->
     h = setMappingMembers old "proxies" ms \/ (h ∈ gsMerged st /\ getMappingField g "name" <> getMappingField h "name")) as Hcase.
  { intros h (j & Hj)%list_elem_of_lookup. destruct (decide (i = j)) as [->|Hne].
    - left. rewrite list_lookup_insert_eq in Hj by by eapply lookup_lt_Some. by simplify_eq.
    - right. rewrite list_lookup_insert_ne in Hj by done. split; [by eapply list_elem_of_lookup_2|].
      intros Heq. assert (gsByName st !! getMappingField g "name" = Some j) as Hj' by (apply Hidx; by exists h).
      congruence. }
  split; simpl.
  - intros x j. rewrite Hidx.
    assert (forall l : list node, (exists h, l !! j = Some h /\ getMappingField h "name" = x) <-> names_of l !! j = Some x) as Hl.
    { intros l. unfold names_of. change (map ?f ?l) with (f <$> l). rewrite list_lookup_fmap.
      destruct (l !! j); naive_solver. }
    by rewrite !Hl, Hnames.
  - intros h [->|[Hh _]]%Hcase; [|by apply Hnam]. split; [done|]. unfold named. by rewrite Hname, Hsame.
  - intros h [->|[Hh Hne]]%Hcase; [|by apply merged_from_other; auto].
    destruct (Hfrom _ Hin) as (g0 & rest & Hinp & Hk0 & Hm0). exists g0, (rest ++ [g]).
    rewrite Hname, inputs_named_snoc, decide_True, Hinp by done. split_and!; [done| |].
    + intros key Hne. rewrite Hkeys by done. by apply Hk0.
    + intros m. rewrite Hmem. unfold ms. rewrite elem_of_unionMembers, Hm0.
      setoid_rewrite elem_of_cons. setoid_rewrite elem_of_app. setoid_rewrite list_elem_of_singleton. naive_solver.
  - intros h. rewrite map_app, Hnames. intros [Hh|Hh%list_elem_of_singleton]%elem_of_app Hhn; [by apply Hall|].
    simpl in Hh. subst h. rewrite <- Hsame. by apply elem_of_names_of.
Qed.

Lemma group_inv_skip (inputs : list (string * node)) (st : groupState) (s : string) (g : node) :
  group_inv inputs st -> getMappingField g "name" = "" -> group_inv (inputs ++ [(s, g)]) st.
Proof.
  intros [Hidx Hnam Hfrom Hall] Hn. split; [done|done| |].
  - intros h Hh. apply merged_from_other; [by apply Hfrom|]. rewrite Hn. intros Heq.
    by apply (proj2 (Hnam h Hh)).
  - intros h. rewrite map_app. intros [Hh|Hh%list_elem_of_singleton]%elem_of_app Hhn; [by apply Hall|].
    simpl in Hh. by subst h.
Qed.

Lemma addGroup_inv (inputs : list (string * node)) (st : groupState) (s : string) (g : node) :
  group_inv inputs st -> wf_named g = true -> group_inv (inputs ++ [(s, g)]) (addGroup st (s, g)).
Proof.
  intros Hinv Hw. unfold addGroup. rewrite cloneNode_id.
  destruct (String.eqb (getMappingField g "name") "") eqn:E; string_eqb; [by apply group_inv_skip|].
  destruct (gsByName st !! getMappingField g "name") as [i|] eqn:Hi; [|by apply group_inv_new].
  destruct (proj1 (gi_index _ _ Hinv _ _) Hi) as (old & Hold & _). rewrite Hold. by apply group_inv_union.
Qed.

Lemma group_inv_foldl (done todo : list (string * node)) (st : groupState) :
  group_inv done st -> Forall (fun sg => wf_named sg.2 = true) todo ->
  group_inv (done ++ todo) (foldl addGroup st todo).
Proof.
  intros Hinv Hw. revert done st Hinv. induction Hw as [|[s g] todo Hg _ IH]; intros done st Hinv.
  - by rewrite app_nil_r.
  - simpl. rewrite cons_middle, app_assoc. apply IH. by apply addGroup_inv.
Qed.

Lemma group_inv_final (inputs : list (string * node)) :
  Forall (fun sg => wf_named sg.2 = true) inputs ->
  group_inv inputs (foldl addGroup (MkGroupState [] ∅ ∅ []) inputs).
Proof.
  intros H. apply (group_inv_foldl []); [|done]. split; simpl.
  - intros x i. rewrite lookup_empty. split; [done|]. by intros (g & Hg & _).
  - set_solver.
  - set_solver.
  - set_solver.
Qed.

Lemma group_inv_NoDup (inputs : list (string * node)) (st : groupState) :
  group_inv inputs st -> NoDup (names_of (gsMerged st)).
Proof.
  intros Hinv. apply NoDup_alt. intros i j x Hi Hj.
  unfold names_of in Hi, Hj. change (map ?f ?l) with (f <$> l) in Hi, Hj.
  apply list_lookup_fmap_Some in Hi as (g & -> & Hg). apply list_lookup_fmap_Some in Hj as (h & Heq & Hh).
  assert (gsByName st !! getMappingField g "name" = Some i) as H1 by (apply (gi_index _ _ Hinv); by exists g).
  assert (gsByName st !! getMappingField g "name" = Some j) as H2 by (apply (gi_index _ _ Hinv); by exists h).
  congruence.
Qed.

(** (C20) The merge collapses same-named groups: the served groups have pairwise
    distinct, non-empty names, every named input group is represented, and a
    served group has the attributes of the first input of its name and as
    members exactly those of all inputs of its name. *)
Theorem MergeProxyGroups_union (perSource : gmap string (list node)) (sources : list string) (own : list node) :
  Forall (fun sg => wf_named sg.2 = true) (groupInputs perSource sources own) ->
  let merged := (MergeProxyGroups perSource sources own).1 in
  NoDup (names_of merged)
  /\ (forall x, x ∈ names_of merged <-> x <> "" /\ inputs_named (groupInputs perSource sources own) x <> [])
  /\ (forall g, g ∈ merged -> wf_named g = true /\ merged_from (groupInputs perSource sources own) g).
Proof.
  intros Hw merged. unfold merged. rewrite merge_groups_flat. simpl.
  pose proof (group_inv_final _ Hw) as Hinv. destruct Hinv as [Hidx Hnam Hfrom Hall] eqn:E. split_and!.
  - by eapply group_inv_NoDup.
  - intros x. split.
    + unfold names_of. intros (g & -> & Hg)%list_elem_of_fmap. split; [by apply Hnam|].
      destruct (Hfrom g Hg) as (g0 & rest & -> & _). done.
    + intros [Hx Hin]. destruct (inputs_named _ x) as [|h l] eqn:Eh; [done|].
      assert (h ∈ inputs_named (groupInputs perSource sources own) x) as Hh by (rewrite Eh; left).
      unfold inputs_named in Hh. apply list_elem_of_filter in Hh as [<- Hh]. by apply Hall.
  - intros g Hg. split; [by apply Hnam|by apply Hfrom].
Qed.

Lemma MergeProxyGroups_union_witness :
  NoDup (names_of (MergeProxyGroups {["a" := [demo_group "a_G" ["x"]; demo_group "a_G" ["y"; "x"]]]} ["a"]
                     [demo_group "_G" ["_p"]]).1).
Proof.
  refine (proj1 (MergeProxyGroups_union {["a" := [demo_group "a_G" ["x"]; demo_group "a_G" ["y"; "x"]]]} ["a"]
                     [demo_group "_G" ["_p"]] _)).
  vm_compute. by repeat constructor.
Defined.
