(* ===== verification/Fanout.v ===== *)
(** * internal/merge/fanout.go: dialer-proxy copies of the own proxies *)
From stdpp Require Import base gmap sets list strings sorting.
From Stdlib Require Import ZArith Lia Ascii.
From S2P Require Import Prelude GoStrings Yaml Namespace.

(** A single leading underscore is removed. *)
Definition stripUnderscore (s : string) : string := if HasPrefix s "_" then str_drop 1 s else s.

Definition scalarString (v : string) : node := str_scalar v.

(** The groups a copy is made for. *)
Definition isFanoutTarget (name : string) : bool :=
  HasPrefix name "_region_" || HasPrefix name "_continent_"
  || HasPrefix name "_lb_region_" || HasPrefix name "_lb_continent_".

Definition targetGroupNames (mergedGroups : list node) : list string :=
  filter (fun name => isFanoutTarget name = true) (names_of mergedGroups).

(** One copy: name and dialer-proxy rewritten. *)
Definition fanoutCopy (own : node) (name dialer : string) : node :=
  setMappingValue (setMappingValue (cloneNode own) "name" (scalarString name))
    "dialer-proxy" (scalarString dialer).

Definition fanoutName (groupName strippedOwn : string) : string :=
  "via_" +:+ stripUnderscore groupName +:+ "__" +:+ strippedOwn.

(** The loop over own proxies; the accumulator is (fanout, skipped). *)
Definition fanoutStep (targets : list string) (proxiesGroupName : string)
    (acc : list node * nat) (own : node) : list node * nat :=
  let '(fanout, skipped) := acc in
  if negb (is_kind MappingNode own) then acc
  else
    let ownName := getMappingField own "name" in
    if String.eqb ownName "" then acc
    else if negb (String.eqb (getMappingField own "dialer-proxy") "") then (fanout, S skipped)
    else
      let strippedOwn := stripUnderscore ownName in
      let auto := fanoutCopy own ("via_AUTO__" +:+ strippedOwn) proxiesGroupName in
      (fanout ++ [auto] ++ map (fun g => fanoutCopy own (fanoutName g strippedOwn) g) targets, skipped).

Definition AppendFanoutProxies (ownProxies mergedGroups : list node) (proxiesGroupName : string)
    : list node * nat :=
  let proxiesGroupName := if String.eqb proxiesGroupName "" then "Proxies" else proxiesGroupName in
  foldl (fanoutStep (targetGroupNames mergedGroups) proxiesGroupName) ([], 0) ownProxies.

(** * Lemmas *)

(** The own proxies that get copies, and those that chose their dialer. *)
Definition fansOut (own : node) : bool :=
  is_kind MappingNode own && negb (String.eqb (getMappingField own "name") "")
  && String.eqb (getMappingField own "dialer-proxy") "".
Definition hasDialer (own : node) : bool :=
  is_kind MappingNode own && negb (String.eqb (getMappingField own "name") "")
  && negb (String.eqb (getMappingField own "dialer-proxy") "").

(** The specification of one copy: which own proxy it copies, under which name,
    dialling through which group. *)
Record copySpec := MkCopySpec { cpOwn : node; cpName : string; cpDialer : string }.

Definition copiesOf (targets : list string) (pg : string) (own : node) : list copySpec :=
  let p := stripUnderscore (getMappingField own "name") in
  MkCopySpec own ("via_AUTO__" +:+ p) pg :: map (fun g => MkCopySpec own (fanoutName g p) g) targets.

Definition is_copy (spec : copySpec) (c : node) : Prop :=
  getMappingField c "name" = cpName spec /\ getMappingField c "dialer-proxy" = cpDialer spec
  /\ forall key, key <> "name" -> key <> "dialer-proxy" -> getMappingNode c key = getMappingNode (cpOwn spec) key.

Lemma fanoutCopy_is_copy (own : node) (name dialer : string) :
  Kind own = MappingNode -> paired own = true -> is_copy (MkCopySpec own name dialer) (fanoutCopy own name dialer).
Proof.
  intros Hk Hp. unfold fanoutCopy. rewrite cloneNode_id. unfold is_copy. simpl. split_and!.
  - rewrite getMappingField_setValue_other; [|done|by rewrite paired_setMappingValue].
    by rewrite getMappingField_setValue_same.
  - by rewrite getMappingField_setValue_same; [|rewrite Kind_setMappingValue|rewrite paired_setMappingValue|].
  - intros key H1 H2. rewrite !getMappingNode_setValue_other; [done|done|done|done|by rewrite paired_setMappingValue].
Qed.

Lemma fanoutStep_eq (targets : list string) (pg : string) (fanout : list node) (skipped : nat) (own : node) :
  fanoutStep targets pg (fanout, skipped) own =
  (fanout ++ (if fansOut own
              then map (fun sp => fanoutCopy (cpOwn sp) (cpName sp) (cpDialer sp)) (copiesOf targets pg own)
              else []),
   skipped + (if hasDialer own then 1 else 0)).
Proof.
  unfold fanoutStep, fansOut, hasDialer. destruct (is_kind MappingNode own); simpl; [|by rewrite app_nil_r, Nat.add_0_r].
  destruct (String.eqb (getMappingField own "name") ""); simpl; [by rewrite app_nil_r, Nat.add_0_r|].
  destruct (String.eqb (getMappingField own "dialer-proxy") ""); simpl.
  - rewrite map_map. by rewrite Nat.add_0_r.
  - by rewrite app_nil_r, Nat.add_1_r.
Qed.

(** Every own proxy without a dialer-proxy yields one AUTO copy dialling
    through the selector group and one copy per region or continent group, in
    group order; each copy differs from its original only in [name] and
    [dialer-proxy]; own proxies that chose a dialer are counted and not copied. *)
Theorem AppendFanoutProxies_spec (ownProxies mergedGroups : list node) (proxiesGroupName : string) :
  Forall (fun own => paired own = true) ownProxies ->
  let pg := if String.eqb proxiesGroupName "" then "Proxies" else proxiesGroupName in
  Forall2 is_copy
    (mjoin (map (copiesOf (targetGroupNames mergedGroups) pg) (filter (fun own => fansOut own = true) ownProxies)))
    (AppendFanoutProxies ownProxies mergedGroups proxiesGroupName).1
  /\ (AppendFanoutProxies ownProxies mergedGroups proxiesGroupName).2
     = length (filter (fun own => hasDialer own = true) ownProxies).
Proof.
  intros Hp pg. unfold AppendFanoutProxies. fold pg.
  cut (forall fanout skipped, exists new,
    foldl (fanoutStep (targetGroupNames mergedGroups) pg) (fanout, skipped) ownProxies
    = (fanout ++ new, skipped + length (filter (fun own => hasDialer own = true) ownProxies))
    /\ Forall2 is_copy (mjoin (map (copiesOf (targetGroupNames mergedGroups) pg)
         (filter (fun own => fansOut own = true) ownProxies))) new).
  { intros H. destruct (H [] 0) as (new & -> & HF). done. }
  induction Hp as [|own l Hown _ IH]; intros fanout skipped.
  - exists []. simpl. rewrite app_nil_r, Nat.add_0_r. split; [done|constructor].
  - cbn [foldl]. rewrite fanoutStep_eq.
    edestruct IH as (new & -> & HF). rewrite !filter_cons. eexists. split.
    + rewrite <- app_assoc. f_equal. case_decide as Hd; case_if; simpl; (congruence || lia).
    + case_decide as Hf; [|by destruct (fansOut own)].
      rewrite Hf. refine (@Forall2_app _ _ _ (copiesOf (targetGroupNames mergedGroups) pg own) _ _ _ _ HF).
      apply Forall2_fmap_r, Forall_Forall2_diag, Forall_forall. intros sp Hsp.
      assert (cpOwn sp = own) as Ho.
      { unfold copiesOf in Hsp. apply elem_of_cons in Hsp as [->|Hsp]; [done|].
        by apply list_elem_of_fmap in Hsp as (g & -> & _). }
      destruct sp as [o n d]. simpl in *. subst o. apply fanoutCopy_is_copy; [|done].
      unfold fansOut in Hf. string_eqb. by apply is_kind_true.
Qed.

Lemma AppendFanoutProxies_spec_witness :
  (AppendFanoutProxies [demo_proxy "_home"] [demo_group "_region_HK" ["a_HK"]; demo_group "a_G" []] "").2 = 0
  /\ names_of (AppendFanoutProxies [demo_proxy "_home"] [demo_group "_region_HK" ["a_HK"]; demo_group "a_G" []] "").1
     = ["via_AUTO__home"; "via_region_HK__home"].
Proof.
  destruct (AppendFanoutProxies_spec [demo_proxy "_home"]
    [demo_group "_region_HK" ["a_HK"]; demo_group "a_G" []] "" ltac:(by repeat constructor)) as [_ H].
  split; [exact H|by vm_compute].
Defined.
