(* ===== verification/RuleSet.v ===== *)
(** * internal/merge/ruleset.go: rule providers and RULE-SET rules *)
From stdpp Require Import base gmap sets list strings sorting.
From Stdlib Require Import ZArith Lia Ascii.
From S2P Require Import Prelude GoStrings Yaml Namespace.

Record DroppedRuleSet := MkDropped { drProvider : string; drRule : string }.
Record SkippedRuleProvider := MkSkipped { srpProvider : string }.

(** ** sourceDistinctPath *)
Definition sourceDistinctPath (orig namespacedKey : string) : string :=
  let '(dir, base) :=
    match LastIndexByte orig slash with
    | Some i => (str_take (S i) orig, str_drop (S i) orig)
    | None => ("", orig)
    end in
  let ext := match LastIndexByte base dot with Some d => str_drop d base | None => "" end in
  dir +:+ namespacedKey +:+ ext.

(** ** RewriteSourceRuleProviders *)

(** The body of the loop for a well-formed provider: new key and new value. *)
Definition rewriteProvider (sourceName : string) (keyNode valNode : node) : node * node :=
  let newKey := set_value_tag (cloneNode keyNode) (prefixed sourceName (Value keyNode)) "!!str" in
  let newVal := cloneNode valNode in
  let orig := getMappingField newVal "path" in
  let newVal := if String.eqb orig "" then newVal
                else (setMappingField newVal "path" (sourceDistinctPath orig (Value newKey))).1 in
  let px := getMappingField newVal "proxy" in
  let newVal := if negb (String.eqb px "") && negb (is_builtin px)
                then (setMappingField newVal "proxy" (prefixed sourceName px)).1 else newVal in
  (newKey, newVal).

Fixpoint rewriteProviders (sourceName : string) (content : list node) : list node * list SkippedRuleProvider :=
  match content with
  | keyNode :: valNode :: rest =>
      let '(out, skipped) := rewriteProviders sourceName rest in
      if is_kind MappingNode valNode
      then let '(newKey, newVal) := rewriteProvider sourceName keyNode valNode in
           (newKey :: newVal :: out, skipped)
      else (out, MkSkipped (Value keyNode) :: skipped)
  | _ => ([], [])
  end.

Definition RewriteSourceRuleProviders (sourceName : string) (rp : option node)
    : option node * list SkippedRuleProvider :=
  match rp with
  | None => (None, [])
  | Some rp =>
      if is_kind MappingNode rp
      then let '(content, skipped) := rewriteProviders sourceName (Content rp) in
           (Some (Node (MkAttrs MappingNode (Style rp) "!!map" "" "" None "" "" "" 0 0) content), skipped)
      else (None, [])
  end.

(** ** ruleProviderKeys *)
Fixpoint pairKeys (content : list node) : list string :=
  match content with k :: _ :: rest => Value k :: pairKeys rest | _ => [] end.

Definition ruleProviderKeys (rp : option node) : gset string :=
  match rp with
  | Some rp => if is_kind MappingNode rp then list_to_set (pairKeys (Content rp)) else ∅
  | None => ∅
  end.

(** ** RULE-SET rules *)

(** [parts[1]] of a [RULE-SET,<name>,...] line. *)
Definition ruleSetProvider (r : string) : option string :=
  match Split r comma with
  | ty :: name :: _ => if String.eqb ty "RULE-SET" then Some name else None
  | _ => None
  end.

Definition DropUnbackedRuleSetRules (rules : list string) (providerKeys : gset string)
    : list string * list DroppedRuleSet :=
  foldl (fun '(kept, dropped) r =>
    match ruleSetProvider r with
    | Some name =>
        if bool_decide (name ∈ providerKeys) then (kept ++ [r], dropped)
        else (kept, dropped ++ [MkDropped name r])
    | None => (kept ++ [r], dropped)
    end) ([], []) rules.

Definition ReferencedRuleProviders (rules : list string) : gset string :=
  foldl (fun out r => match ruleSetProvider r with Some name => {[name]} ∪ out | None => out end) ∅ rules.

(** ** MergeRuleProviders *)
Fixpoint keepReferenced (referenced : gset string) (content : list node) : list node :=
  match content with
  | key :: val :: rest =>
      if bool_decide (Value key ∈ referenced) then key :: val :: keepReferenced referenced rest
      else keepReferenced referenced rest
  | _ => []
  end.

Definition MergeRuleProviders (perSource : list (option node)) (referenced : gset string) : option node :=
  let content := mjoin (map (fun src =>
    match src with
    | Some src => if is_kind MappingNode src then keepReferenced referenced (Content src) else []
    | None => []
    end) perSource) in
  match content with
  | [] => None
  | _ => Some (lit MappingNode "" "!!map" content)
  end.

(** * Lemmas *)

(** ** Paths *)
(** The part of a path after its last slash. *)
Definition basename (s : string) : string :=
  match LastIndexByte s slash with Some i => str_drop (S i) s | None => s end.

Lemma basename_app (p s : string) : byte_free slash s = true -> basename (p +:+ String slash s) = s.
Proof. intros H. unfold basename. rewrite LastIndexByte_app by done. apply str_drop_S_app. Qed.

Lemma basename_free (s : string) : byte_free slash s = true -> basename s = s.
Proof. intros H. unfold basename. by rewrite LastIndexByte_free. Qed.

Lemma byte_free_drop (b : ascii) (n : nat) (s : string) : byte_free b s = true -> byte_free b (str_drop n s) = true.
Proof.
  revert s. induction n as [|n IH]; intros [|c s]; simpl; try done. intros [_ Hs]%andb_true_iff. by apply IH.
Qed.

Lemma str_take_S_index (s : string) (b : ascii) (i : nat) :
  LastIndexByte s b = Some i -> str_take (S i) s = str_take i s +:+ String b "".
Proof.
  revert i. induction s as [|c s IH]; intros i; [done|]. simpl.
  destruct (LastIndexByte s b) as [j|].
  - intros [= <-]. cbn [str_take]. rewrite str_app_cons. f_equal. by apply (IH j).
  - destruct (Ascii.eqb c b) eqn:E; [|done]. intros [= <-]. apply Ascii.eqb_eq in E as ->. by destruct s.
Qed.

(** A namespaced path ends in the namespaced key and the original extension. *)
Lemma basename_distinct (orig key : string) :
  byte_free slash key = true ->
  exists ext, basename (sourceDistinctPath orig key) = key +:+ ext.
Proof.
  intros Hk. unfold sourceDistinctPath.
  assert (forall base, byte_free slash base = true ->
    byte_free slash (match LastIndexByte base dot with Some d => str_drop d base | None => "" end) = true) as Hext.
  { intros base Hb. case_match; [by apply byte_free_drop|done]. }
  destruct (LastIndexByte orig slash) as [i|] eqn:Hi.
  - destruct (LastIndexByte_Some _ _ _ Hi) as [_ Hf]. specialize (Hext _ Hf).
    eexists. rewrite (str_take_S_index _ _ _ Hi), str_app_assoc, str_app_cons. apply basename_app.
    change ("" +:+ ?x) with x. rewrite byte_free_app, Hk. exact Hext.
  - apply LastIndexByte_None in Hi. specialize (Hext _ Hi). eexists. change ("" +:+ ?x) with x.
    apply basename_free. rewrite byte_free_app, Hk. exact Hext.
Qed.

(** The cache paths of two different sources never coincide, whatever
    paths and provider keys the sources declare (keys without a slash). *)
Theorem sourceDistinctPath_distinct (s1 s2 k1 k2 o1 o2 : string) :
  s1 <> s2 -> byte_free underscore s1 = true -> byte_free underscore s2 = true ->
  byte_free slash (prefixed s1 k1) = true -> byte_free slash (prefixed s2 k2) = true ->
  sourceDistinctPath o1 (prefixed s1 k1) <> sourceDistinctPath o2 (prefixed s2 k2).
Proof.
  intros Hne Hu1 Hu2 Hf1 Hf2 Heq.
  destruct (basename_distinct o1 (prefixed s1 k1) Hf1) as [e1 H1].
  destruct (basename_distinct o2 (prefixed s2 k2) Hf2) as [e2 H2].
  rewrite Heq, H2 in H1. unfold prefixed in H1. rewrite !str_app_assoc in H1.
  by destruct (prefix_sep_inj underscore s2 s1 (k2 +:+ e2) (k1 +:+ e1) Hu2 Hu1 H1) as [-> _].
Qed.

Lemma sourceDistinctPath_distinct_witness :
  sourceDistinctPath "./ruleset/cn.mrs" "alpha_cn" <> sourceDistinctPath "./ruleset/cn.mrs" "beta_cn".
Proof. apply (sourceDistinctPath_distinct "alpha" "beta" "cn" "cn"); done. Defined.

(** ** The provider field survives namespacing *)
Lemma prefixed_comma_free (s x : string) :
  byte_free comma s = true -> byte_free comma x = true -> byte_free comma (prefixed s x) = true.
Proof. intros Hs Hx. unfold prefixed. by rewrite !byte_free_app, Hs, Hx. Qed.

Lemma prefixed_not_RULE_SET (s x : string) : String.eqb (prefixed s x) "RULE-SET" = false.
Proof.
  apply String.eqb_neq. unfold prefixed. intros H.
  assert (byte_free underscore (s +:+ "_" +:+ x) = true) as Hf by (rewrite H; done).
  rewrite !byte_free_app in Hf. simpl in Hf. by rewrite andb_false_r in Hf.
Qed.

Lemma targetIdx_bound (parts : list string) (i : nat) : targetIdx parts i <= i.
Proof. induction i as [|i IH]; [done|]. cbn [targetIdx]. case_if; lia. Qed.

Lemma Forall_insert_free (P : string -> Prop) (l : list string) (i : nat) (x : string) :
  Forall P l -> P x -> Forall P (<[i := x]> l).
Proof. intros Hl Hx. by apply Forall_insert. Qed.

Lemma Join_comma (parts : list string) : Join parts "," = Join parts (String comma "").
Proof. done. Qed.

(** Reading the provider of a rule from its fields. *)
Definition fieldsProvider (parts : list string) : option string :=
  match parts with
  | ty :: name :: _ => if String.eqb ty "RULE-SET" then Some name else None
  | _ => None
  end.

Lemma fieldsProvider_insert_ge2 (parts : list string) (i : nat) (x : string) :
  2 <= i -> fieldsProvider (<[i := x]> parts) = fieldsProvider parts.
Proof. intros Hi. destruct parts as [|a [|b rest]], i as [|[|i]]; simpl; done || lia. Qed.

(** Namespacing a rule namespaces the provider it refers to, and creates no
    RULE-SET rule. *)
Lemma ruleSetProvider_rewrite (r src : string) :
  byte_free comma src = true ->
  ruleSetProvider (rewriteRuleTarget r src) = prefixed src <$> ruleSetProvider r.
Proof.
  intros Hsrc. unfold rewriteRuleTarget. fold (fieldsProvider (Split r comma)).
  change (ruleSetProvider r) with (fieldsProvider (Split r comma)).
  pose proof (Split_byte_free r comma) as Hfree. pose proof (Split_nonnil r comma) as Hnil.
  destruct (Split r comma) as [|ty [|p rest]] eqn:Hsplit; [done| |].
  { simpl. unfold ruleSetProvider. by rewrite Hsplit. }
  cbv zeta. change (length (ty :: p :: rest) <? 2) with false. cbv iota.
  change (default "" ((ty :: p :: rest) !! 0)) with ty. change (default "" ((ty :: p :: rest) !! 1)) with p.
  apply Forall_cons in Hfree as [Hty Hfree]. pose proof (Forall_cons_1 _ _ _ Hfree) as [Hp Hrest].
  pose proof (prefixed_comma_free src p Hsrc Hp) as Hpp.
  assert (forall parts, parts <> [] -> Forall (fun p => byte_free comma p = true) parts ->
    ruleSetProvider (Join parts ",") = fieldsProvider parts) as Hjoin.
  { intros parts H1 H2. unfold ruleSetProvider. rewrite Join_comma. by rewrite Split_Join. }
  destruct (String.eqb ty "RULE-SET") eqn:Ety.
  - change (<[1:=prefixed src p]> (ty :: p :: rest)) with (ty :: prefixed src p :: rest).
    assert (Forall (fun p => byte_free comma p = true) (ty :: prefixed src p :: rest)) as HF by by repeat constructor.
    assert (fieldsProvider (ty :: prefixed src p :: rest) = prefixed src <$> fieldsProvider (ty :: p :: rest)) as Heq
      by (simpl; by rewrite Ety).
    set (idx := targetIdx _ _). simpl andb. case_if; [by rewrite Hjoin|].
    case_if; [by rewrite Hjoin|].
    rewrite Hjoin, fieldsProvider_insert_ge2; [done|apply Nat.leb_gt in Heqb; lia| |].
    + by destruct idx as [|[|?]].
    + apply Forall_insert_free; [done|]. apply prefixed_comma_free; [done|].
      destruct ((ty :: prefixed src p :: rest) !! idx) eqn:El; [|done]. by eapply (Forall_lookup_1 _ _ _ _ HF El).
  - assert (Forall (fun p => byte_free comma p = true) (ty :: p :: rest)) as HF by by repeat constructor.
    simpl fieldsProvider. rewrite Ety. set (idx := targetIdx _ _). simpl andb. cbv iota.
    case_if; [rewrite Hjoin by done; simpl; by rewrite Ety|].
    rewrite Hjoin.
    + destruct idx as [|[|i]]; simpl; [by rewrite prefixed_not_RULE_SET|by rewrite Ety..].
    + by destruct idx as [|[|?]].
    + apply Forall_insert_free; [done|]. apply prefixed_comma_free; [done|].
      destruct ((ty :: p :: rest) !! idx) eqn:El; [|done]. by eapply (Forall_lookup_1 _ _ _ _ HF El).
Qed.

(** ** Dropping unbacked rules *)
Definition backed (keys : gset string) (r : string) : Prop :=
  match ruleSetProvider r with Some name => name ∈ keys | None => True end.
#[export] Instance backed_dec (keys : gset string) (r : string) : Decision (backed keys r).
Proof. unfold backed. destruct (ruleSetProvider r); apply _. Defined.

Lemma DropUnbacked_kept (rules : list string) (keys : gset string) :
  (DropUnbackedRuleSetRules rules keys).1 = filter (backed keys) rules
  /\ map drRule (DropUnbackedRuleSetRules rules keys).2 = filter (fun r => ¬ backed keys r) rules.
Proof.
  unfold DropUnbackedRuleSetRules.
  set (f := fun '(kept, dropped) r => match ruleSetProvider r with
    | Some name => if bool_decide (name ∈ keys) then (kept ++ [r], dropped)
                   else (kept, dropped ++ [MkDropped name r])
    | None => (kept ++ [r], dropped) end).
  cut (forall kept dropped, foldl f (kept, dropped) rules
    = (kept ++ filter (backed keys) rules,
       (foldl f (kept, dropped) rules).2)
    /\ map drRule (foldl f (kept, dropped) rules).2 = map drRule dropped ++ filter (fun r => ¬ backed keys r) rules).
  { intros H. destruct (H [] []) as [H1 H2]. rewrite H1 in *. done. }
  induction rules as [|r rules IH]; intros kept dropped; cbn [foldl].
  - rewrite !filter_nil, !app_nil_r. done.
  - assert (f (kept, dropped) r = if decide (backed keys r) then (kept ++ [r], dropped)
            else (kept, dropped ++ [MkDropped (default "" (ruleSetProvider r)) r])) as ->.
    { unfold f. case_decide as Hb; unfold backed in Hb; destruct (ruleSetProvider r); try done;
        case_bool_decide; done. }
    rewrite !filter_cons. destruct (decide (backed keys r)) as [Hb|Hb].
    + destruct (IH (kept ++ [r]) dropped) as [H1 H2]. rewrite decide_False by tauto.
      by rewrite <- app_assoc in H1.
    + destruct (IH kept (dropped ++ [MkDropped (default "" (ruleSetProvider r)) r])) as [H1 H2].
      rewrite decide_True by done. rewrite map_app, <- app_assoc in H2. done.
Qed.

(** ** One source: rules and providers agree *)

(** The provider keys a source defines with a well-formed (mapping) value. *)
Fixpoint definedProviders (content : list node) : list string :=
  match content with
  | k :: v :: rest => if is_kind MappingNode v then Value k :: definedProviders rest else definedProviders rest
  | _ => []
  end.

Lemma rewriteProviders_keys (src : string) (content : list node) :
  pairKeys (rewriteProviders src content).1 = map (prefixed src) (definedProviders content).
Proof.
  induction content as [|x|k v rest IH] using pairs_ind; [done|done|]. cbn [rewriteProviders definedProviders].
  destruct (rewriteProviders src rest) as [out sk]. destruct (is_kind MappingNode v); [|done].
  simpl in *. rewrite IH. f_equal. rewrite cloneNode_id. apply set_value_tag_facts.
Qed.

Lemma ruleProviderKeys_rewritten (src : string) (rp : node) (x : string) :
  Kind rp = MappingNode ->
  x ∈ ruleProviderKeys (RewriteSourceRuleProviders src (Some rp)).1
  <-> exists p, p ∈ definedProviders (Content rp) /\ x = prefixed src p.
Proof.
  intros Hk%is_kind_true. unfold RewriteSourceRuleProviders. rewrite Hk.
  pose proof (rewriteProviders_keys src (Content rp)) as Hkeys.
  destruct (rewriteProviders src (Content rp)) as [out sk]. simpl in *.
  rewrite elem_of_list_to_set, Hkeys, list_elem_of_fmap. naive_solver.
Qed.

(** Within one source a rule survives exactly when it is not a RULE-SET
    rule or its provider is defined, by a mapping, in the same source: the
    renaming of rules and the renaming of providers agree. *)
Theorem source_rulesets_agree (src : string) (rp : node) (rules : list string) (r : string) :
  byte_free comma src = true -> Kind rp = MappingNode -> r ∈ rules ->
  rewriteRuleTarget r src ∈
    (DropUnbackedRuleSetRules (map (fun r => rewriteRuleTarget r src) rules)
       (ruleProviderKeys (RewriteSourceRuleProviders src (Some rp)).1)).1
  <-> (forall p, ruleSetProvider r = Some p -> p ∈ definedProviders (Content rp)).
Proof.
  intros Hsrc Hk Hr. rewrite (proj1 (DropUnbacked_kept _ _)), list_elem_of_filter.
  assert (rewriteRuleTarget r src ∈ map (fun r => rewriteRuleTarget r src) rules) as Hin
    by (apply list_elem_of_fmap; by exists r).
  unfold backed. rewrite ruleSetProvider_rewrite by done.
  destruct (ruleSetProvider r) as [p|]; [|naive_solver].
  change (prefixed src <$> Some p) with (Some (prefixed src p)). cbv iota.
  rewrite ruleProviderKeys_rewritten by done. split.
  - intros [(q & Hq & Heq) _] p' [= <-]. unfold prefixed in Heq.
    do 2 apply str_app_inj_l in Heq. by subst q.
  - intros H. split; [|done]. exists p. split; [by apply H|done].
Qed.

Lemma source_rulesets_agree_witness :
  "RULE-SET,a_cn,DIRECT" ∈ (DropUnbackedRuleSetRules ["RULE-SET,a_cn,DIRECT"; "RULE-SET,a_gone,DIRECT"]
    (ruleProviderKeys (RewriteSourceRuleProviders "a"
       (Some (lit MappingNode "" "!!map" [str_scalar "cn"; demo_proxy "x"; str_scalar "gone"; str_scalar "bad"]))).1)).1.
Proof.
  apply (source_rulesets_agree "a"
    (lit MappingNode "" "!!map" [str_scalar "cn"; demo_proxy "x"; str_scalar "gone"; str_scalar "bad"])
    ["RULE-SET,cn,DIRECT"; "RULE-SET,gone,DIRECT"] "RULE-SET,cn,DIRECT"); [done|done|by left|].
  intros p [= <-]. vm_compute. by left.
Defined.

(** ** The merged block *)

(** The keys of a merged block; none when the block is omitted. *)
Definition blockKeys (rp : option node) : list string :=
  match rp with Some n => pairKeys (Content n) | None => [] end.
Lemma ReferencedRuleProviders_spec (rules : list string) (x : string) :
  x ∈ ReferencedRuleProviders rules <-> exists r, r ∈ rules /\ ruleSetProvider r = Some x.
Proof.
  unfold ReferencedRuleProviders.
  cut (forall acc : gset string, x ∈ foldl (fun out r => match ruleSetProvider r with
      Some name => {[name]} ∪ out | None => out end) acc rules
    <-> x ∈ acc \/ exists r, r ∈ rules /\ ruleSetProvider r = Some x).
  { intros H. rewrite H. set_solver. }
  induction rules as [|r rules IH]; intros acc; cbn [foldl]; [set_solver|].
  rewrite IH. setoid_rewrite elem_of_cons. destruct (ruleSetProvider r) eqn:Hr; naive_solver set_solver.
Qed.

Lemma keepReferenced_keys (referenced : gset string) (content : list node) :
  pairKeys (keepReferenced referenced content) = filter (fun k => k ∈ referenced) (pairKeys content).
Proof.
  induction content as [|x|k v rest IH] using pairs_ind; [done|done|]. simpl. rewrite filter_cons.
  case_bool_decide; case_decide; simpl; by rewrite ?IH.
Qed.

Lemma pairKeys_app (c d : list node) : Nat.even (length c) = true -> pairKeys (c ++ d) = pairKeys c ++ pairKeys d.
Proof. induction c as [|x|k v rest IH] using pairs_ind; intros H; [done|done|]. simpl. by rewrite IH. Qed.

Lemma keepReferenced_even (referenced : gset string) (content : list node) :
  Nat.even (length (keepReferenced referenced content)) = true.
Proof. induction content as [|x|k v rest IH] using pairs_ind; [done|done|]. simpl. by case_if. Qed.

(** Every key and value of the merged block comes from a source, and exactly
    the referenced keys are kept, in source order. *)
Lemma MergeRuleProviders_keys (perSource : list (option node)) (referenced : gset string) :
  Forall (fun o => match o with Some n => Kind n = MappingNode | None => True end) perSource ->
  blockKeys (MergeRuleProviders perSource referenced)
  = filter (fun k => k ∈ referenced) (mjoin (map blockKeys perSource)).
Proof.
  intros Hk. unfold MergeRuleProviders.
  set (content := mjoin (map _ perSource)).
  assert (pairKeys content = filter (fun k => k ∈ referenced) (mjoin (map blockKeys perSource))) as <-.
  { unfold content. clear content. induction Hk as [|o l Ho _ IH]; [done|].
    assert (forall (A B : Type) (f : A -> list B) x l, mjoin (map f (x :: l)) = f x ++ mjoin (map f l)) as Hj by done.
    rewrite !Hj, filter_app, <- IH. destruct o as [n|]; [|done].
    rewrite (proj2 (is_kind_true _ _) Ho), pairKeys_app by apply keepReferenced_even.
    by rewrite keepReferenced_keys. }
  by destruct content.
Qed.
