(* ===== verification/Prune.v ===== *)
(** * internal/merge/prune.go: empty proxy groups

    [PruneEmptyProxyGroups] drops the groups without members, the member
    references to them, and redirects the rules that target them. *)
From stdpp Require Import base gmap sets list strings sorting.
From Stdlib Require Import ZArith Lia Ascii.
From S2P Require Import Prelude GoStrings Yaml Namespace.

Record RuleRetarget := MkRuleRetarget { RuleIndex : nat; OldTarget : string; NewTarget : string }.
Record PruneResult := MkPruneResult { RemovedGroups : list string; Retargets : list RuleRetarget }.

Definition knownRuleOptions : gset string := {["no-resolve"]}.

(** ** ruleTarget *)

(** [s[start:end]] *)
Definition str_slice (s : string) (start stop : nat) : string := str_take (stop - start) (str_drop start s).

(** The byte ranges of the comma-separated fields: [rest] is [rule[i:]]. *)
Fixpoint spans_from (rest : string) (i fieldStart : nat) : list (nat * nat) :=
  match rest with
  | EmptyString => [(fieldStart, i)]
  | String c rest' =>
      if Ascii.eqb c comma then (fieldStart, i) :: spans_from rest' (S i) (S i)
      else spans_from rest' (S i) fieldStart
  end.

Definition ruleTarget (rule : string) : option (string * nat * nat) :=
  let spans := spans_from rule 0 0 in
  if length spans <? 2 then None
  else
    let field (k : nat) := default (0, 0) (spans !! k) in
    let text (k : nat) := str_slice rule (field k).1 (field k).2 in
    let answer (k : nat) := Some (text k, (field k).1, (field k).2) in
    let last := length spans - 1 in
    if String.eqb (text 0) "MATCH" then answer 1
    else if bool_decide (text last ∈ knownRuleOptions) && (3 <=? length spans) then answer (length spans - 2)
    else answer last.

(** ** PruneEmptyProxyGroups *)

Definition protectedNames (groups : list node) (proxiesGroupName fallbackRuleTarget : string) : gset string :=
  if existsb (fun g => String.eqb (getMappingField g "name") fallbackRuleTarget) groups
  then {[fallbackRuleTarget; proxiesGroupName]} else {[proxiesGroupName]}.

Definition isPruned (protected : gset string) (g : node) : bool :=
  negb (bool_decide (getMappingField g "name" ∈ protected)) && (length (mappingMembers g "proxies") =? 0).

(** Pass 2 on one surviving group: [kept], and a write only when a member went. *)
Definition dropMembers (removed : gset string) (g : node) : node :=
  let members := mappingMembers g "proxies" in
  let kept := filter (fun m => m ∉ removed) members in
  if existsb (fun m => bool_decide (m ∈ removed)) members then setMappingMembers g "proxies" kept else g.

(** Pass 3 on the rules from index [i] on. *)
Fixpoint retargetRules (removed : gset string) (fallbackRuleTarget : string) (i : nat) (rules : list string)
    : list string * list RuleRetarget :=
  match rules with
  | [] => ([], [])
  | rule :: rest =>
      let '(rules', log) := retargetRules removed fallbackRuleTarget (S i) rest in
      match ruleTarget rule with
      | Some (target, start, stop) =>
          if bool_decide (target ∈ removed)
          then ((str_take start rule +:+ fallbackRuleTarget +:+ str_drop stop rule) :: rules',
                MkRuleRetarget i target fallbackRuleTarget :: log)
          else (rule :: rules', log)
      | None => (rule :: rules', log)
      end
  end.

Definition PruneEmptyProxyGroups (groups : list node) (rules : list string)
    (proxiesGroupName fallbackRuleTarget : string) : list node * list string * PruneResult :=
  let proxiesGroupName := if String.eqb proxiesGroupName "" then "Proxies" else proxiesGroupName in
  let protected := protectedNames groups proxiesGroupName fallbackRuleTarget in
  let removedGroups := names_of (filter (fun g => isPruned protected g = true) groups) in
  let prunedGroups := filter (fun g => isPruned protected g = false) groups in
  let removed : gset string := list_to_set removedGroups in
  if length removedGroups =? 0 then (groups, rules, MkPruneResult [] [])
  else
    let '(prunedRules, retargets) := retargetRules removed fallbackRuleTarget 0 rules in
    (map (dropMembers removed) prunedGroups, prunedRules, MkPruneResult removedGroups retargets).

(** * Lemmas *)

(** ** The spans are the fields *)

(** The field index [ruleTarget] selects. *)
Definition pruneTargetIdx (parts : list string) : nat :=
  if String.eqb (default "" (parts !! 0)) "MATCH" then 1
  else if bool_decide (default "" (parts !! (length parts - 1)) ∈ knownRuleOptions) && (3 <=? length parts)
  then length parts - 2 else length parts - 1.

(** [Split] sees the same fields: span [k] of [pre ++ s] is field [k] of
    [Split s], and replacing the bytes of the span replaces the field. *)
Lemma spans_Split (s pre cur : string) :
  byte_free comma cur = true ->
  let whole := pre +:+ cur +:+ s in
  let spans := spans_from s (String.length (pre +:+ cur)) (String.length pre) in
  let parts := Split (cur +:+ s) comma in
  length spans = length parts /\
  forall k p st en, parts !! k = Some p -> spans !! k = Some (st, en) ->
    str_slice whole st en = p /\
    forall x, str_take st whole +:+ x +:+ str_drop en whole = pre +:+ Join (<[k := x]> parts) ",".
Proof.
  revert pre cur. induction s as [|c s IH]; intros pre cur Hfree whole spans parts.
  - subst whole spans parts. rewrite str_app_nil_r, Split_free by done. split; [done|].
    intros k p st en Hp Hs. destruct k; [|done]. injection Hp as <-. injection Hs as <- <-. unfold str_slice.
    rewrite str_drop_app, str_length_app.
    replace (String.length pre + String.length cur - String.length pre) with (String.length cur) by lia.
    pose proof (str_take_app cur "") as Hc. rewrite str_app_nil_r in Hc. split; [done|].
    intros x. rewrite str_take_app. simpl. rewrite <- str_length_app.
    pose proof (str_drop_app (pre +:+ cur) "") as Hd. rewrite str_app_nil_r in Hd. by rewrite Hd, str_app_nil_r.
  - subst whole spans parts. simpl. destruct (Ascii.eqb c comma) eqn:E.
    + apply Ascii.eqb_eq in E as ->.
      rewrite (Split_app_sep cur s comma) by done.
      specialize (IH (pre +:+ cur +:+ String comma "") "" eq_refl) as [Hlen IH]. change ("" +:+ s) with s in *.
      replace (String.length ((pre +:+ cur +:+ String comma "") +:+ "")) with (S (String.length (pre +:+ cur))) in *
        by (rewrite str_app_nil_r, !str_length_app; simpl; lia).
      replace (String.length (pre +:+ cur +:+ String comma "")) with (S (String.length (pre +:+ cur))) in *
        by (rewrite !str_length_app; simpl; lia).
      split; [simpl; by f_equal|].
      assert ((pre +:+ cur +:+ String comma "") +:+ s = pre +:+ cur +:+ String comma s) as Ew
        by (by rewrite !str_app_assoc).
      setoid_rewrite Ew in IH.
      intros [|k] p st en Hp Hs; simpl in Hp, Hs.
      * injection Hp as <-. injection Hs as <- <-. unfold str_slice.
        rewrite str_drop_app, str_length_app.
        replace (String.length pre + String.length cur - String.length pre) with (String.length cur) by lia.
        split; [apply str_take_app|]. intros x. rewrite str_take_app, <- str_length_app, <- (str_app_assoc pre cur).
        rewrite str_drop_app. simpl. pose proof (Join_Split s comma) as HJ.
        destruct (Split s comma) as [|h t] eqn:Es; [by apply Split_nonnil in Es|]. cbn [Join] in *.
        rewrite <- HJ. by destruct t.
      * destruct (IH k p st en Hp Hs) as [Hsl Hrep]. split; [done|]. intros x. rewrite Hrep.
        rewrite !str_app_assoc. simpl. f_equal. f_equal.
        destruct (<[k:=x]> (Split s comma)) as [|h t] eqn:Ei; [|done].
        apply (f_equal length) in Ei. rewrite length_insert in Ei. simpl in Ei.
        destruct (Split s comma) eqn:Es; [by apply Split_nonnil in Es|done].
    + specialize (IH pre (cur +:+ String c "")).
      rewrite byte_free_app, Hfree in IH. simpl in IH. rewrite E in IH. specialize (IH eq_refl) as [Hlen IH].
      rewrite !str_app_assoc in Hlen, IH. simpl in Hlen, IH.
      replace (String.length (pre +:+ cur +:+ String c "")) with (S (String.length (pre +:+ cur))) in *
        by (rewrite !str_length_app; simpl; lia).
      by split.
Qed.

Lemma spans_fields (rule : string) :
  length (spans_from rule 0 0) = length (Split rule comma) /\
  forall k p, Split rule comma !! k = Some p ->
    let sp := default (0, 0) (spans_from rule 0 0 !! k) in
    str_slice rule sp.1 sp.2 = p /\
    forall x, str_take sp.1 rule +:+ x +:+ str_drop sp.2 rule = Join (<[k := x]> (Split rule comma)) ",".
Proof.
  destruct (spans_Split rule "" "" eq_refl) as [Hlen H]. simpl in Hlen, H.
  change ("" +:+ rule) with rule in *. split; [done|].
  intros k p Hp. destruct (spans_from rule 0 0 !! k) as [[st en]|] eqn:Es.
  - exact (H k p st en Hp Es).
  - apply lookup_ge_None in Es. apply lookup_lt_Some in Hp. simpl in *. lia.
Qed.

(** [ruleTarget] on the fields: the target is field 1 of a MATCH rule, the
    second-to-last field when the last is a known option of a rule of at least
    three fields, else the last; writing another text over the byte range
    replaces that field and no other. *)
Lemma ruleTarget_fields (rule : string) :
  let parts := Split rule comma in
  match ruleTarget rule with
  | None => length parts < 2
  | Some (t, st, en) =>
      2 <= length parts /\ parts !! pruneTargetIdx parts = Some t /\
      forall x, str_take st rule +:+ x +:+ str_drop en rule = Join (<[pruneTargetIdx parts := x]> parts) ","
  end.
Proof.
  intros parts. subst parts. destruct (spans_fields rule) as [Hlen Hf]. unfold ruleTarget, pruneTargetIdx.
  rewrite Hlen. destruct (Nat.ltb_spec (length (Split rule comma)) 2); [done|].
  set (parts := Split rule comma) in *.
  assert (forall k, k < length parts -> exists p, parts !! k = Some p /\
    str_slice rule (default (0, 0) (spans_from rule 0 0 !! k)).1 (default (0, 0) (spans_from rule 0 0 !! k)).2 = p /\
    forall x, str_take (default (0, 0) (spans_from rule 0 0 !! k)).1 rule +:+ x +:+
      str_drop (default (0, 0) (spans_from rule 0 0 !! k)).2 rule = Join (<[k := x]> parts) ",") as Hk.
  { intros k Hk. apply lookup_lt_is_Some in Hk as [p Hp]. exists p. split; [done|]. by apply Hf. }
  destruct (Hk 0) as (p0 & E0 & -> & _); [lia|]. destruct (Hk (length parts - 1)) as (pl & El & Hsl & Hl); [lia|].
  rewrite E0, El. simpl default. rewrite Hsl.
  repeat case_if; [destruct (Hk 1) as (q & Eq & Hq & Hr); [lia|] | destruct (Hk (length parts - 2)) as (q & Eq & Hq & Hr); [lia|] | by rewrite El];
    by rewrite Hq.
Qed.

(** Writing a name that is not an option over the target keeps the target's place. *)
Lemma pruneTargetIdx_insert (parts : list string) (fb : string) :
  2 <= length parts -> fb ∉ knownRuleOptions ->
  pruneTargetIdx parts < length parts /\ 1 <= pruneTargetIdx parts
  /\ pruneTargetIdx (<[pruneTargetIdx parts := fb]> parts) = pruneTargetIdx parts.
Proof.
  intros Hlen Hopt. unfold pruneTargetIdx. rewrite length_insert.
  destruct (parts !! 0) as [p0|] eqn:E0; [|apply lookup_ge_None in E0; lia]. change (default "" (Some p0)) with p0 in *.
  destruct (String.eqb p0 "MATCH") eqn:EM.
  - rewrite list_lookup_insert_ne, E0 by done. change (default "" (Some p0)) with p0. rewrite EM. lia.
  - destruct (bool_decide (default "" (parts !! (length parts - 1)) ∈ knownRuleOptions) && (3 <=? length parts)) eqn:Eo.
    + apply andb_true_iff in Eo as [Eo E3]. apply Nat.leb_le in E3.
      rewrite (list_lookup_insert_ne _ (length parts - 2) 0), E0 by lia. change (default "" (Some p0)) with p0.
      rewrite (list_lookup_insert_ne _ (length parts - 2) (length parts - 1)) by lia.
      rewrite EM, Eo, (proj2 (Nat.leb_le _ _) E3). simpl. lia.
    + rewrite (list_lookup_insert_ne _ (length parts - 1) 0), E0 by lia. change (default "" (Some p0)) with p0. rewrite EM.
      rewrite list_lookup_insert_eq by lia. change (default "" (Some fb)) with fb.
      rewrite bool_decide_eq_false_2 by done. simpl. lia.
Qed.

(** The fields of a rule after writing over its target. *)
Lemma Split_retarget (rule t fb : string) (st en : nat) :
  ruleTarget rule = Some (t, st, en) -> byte_free comma fb = true ->
  Split (str_take st rule +:+ fb +:+ str_drop en rule) comma
  = <[pruneTargetIdx (Split rule comma) := fb]> (Split rule comma) /\ 2 <= length (Split rule comma).
Proof.
  intros Ht Hfree. pose proof (ruleTarget_fields rule) as H. cbv zeta in H. rewrite Ht in H.
  destruct H as (Hlen & Hp & Hrep). rewrite Hrep. split; [|done]. change "," with (String comma ""). apply Split_Join.
  - intros E. apply (f_equal length) in E. rewrite length_insert in E. simpl in E. lia.
  - apply Forall_insert; [apply Split_byte_free|done].
Qed.

(** Writing a comma-free name that is not an option over the target makes it the target. *)
Lemma ruleTarget_replace (rule t fb : string) (st en : nat) :
  ruleTarget rule = Some (t, st, en) -> byte_free comma fb = true -> fb ∉ knownRuleOptions ->
  exists st' en', ruleTarget (str_take st rule +:+ fb +:+ str_drop en rule) = Some (fb, st', en').
Proof.
  intros Ht Hfree Hopt. destruct (Split_retarget _ _ _ _ _ Ht Hfree) as [Es Hlen].
  pose proof (ruleTarget_fields (str_take st rule +:+ fb +:+ str_drop en rule)) as H. cbv zeta in H. rewrite Es in H.
  destruct (pruneTargetIdx_insert (Split rule comma) fb Hlen Hopt) as (Hlt & _ & Ei). rewrite Ei in H.
  destruct (ruleTarget (str_take st rule +:+ fb +:+ str_drop en rule)) as [[[t' st'] en']|].
  - destruct H as (_ & Hl & _). rewrite list_lookup_insert_eq in Hl by done. injection Hl as <-. by exists st', en'.
  - rewrite length_insert in H. lia.
Qed.

(** ** The removed names *)
Lemma retargetRules_spec (removed : gset string) (fb : string) (i : nat) (rules : list string) :
  Forall2 (fun r r' =>
    match ruleTarget r with
    | Some (t, st, en) =>
        if bool_decide (t ∈ removed) then r' = str_take st r +:+ fb +:+ str_drop en r else r' = r
    | None => r' = r
    end) rules (retargetRules removed fb i rules).1.
Proof.
  revert i. induction rules as [|r rules IH]; intros i; [constructor|]. cbn [retargetRules].
  specialize (IH (S i)). destruct (retargetRules removed fb (S i) rules) as [rs log]. simpl in IH.
  destruct (ruleTarget r) as [[[t st] en]|] eqn:E; [|by constructor; [rewrite E|]].
  destruct (bool_decide (t ∈ removed)) eqn:Eb; (constructor; [rewrite E, Eb|]; done).
Qed.

Lemma dropMembers_facts (removed : gset string) (g : node) :
  wf_named g = true ->
  getMappingField (dropMembers removed g) "name" = getMappingField g "name"
  /\ mappingMembers (dropMembers removed g) "proxies" = filter (fun m => m ∉ removed) (mappingMembers g "proxies").
Proof.
  intros (Hk & Hp & _)%wf_named_spec. unfold dropMembers.
  destruct (existsb _ _) eqn:E.
  - split; [by apply getMappingField_setMembers_other|by apply mappingMembers_set_same].
  - split; [done|]. symmetry. apply filter_all, Forall_forall. intros m Hm Hr.
    apply not_true_iff_false in E. apply E, existsb_exists. exists m.
    split; [by apply list_elem_of_In|by apply bool_decide_eq_true].
Qed.

(** The fallback is a target that rules can name: no comma, not an option. *)
Definition plainTarget (fb : string) : bool :=
  byte_free comma fb && negb (bool_decide (fb ∈ knownRuleOptions)).

(** A removed name is the name of an unprotected group. *)
Lemma removed_unprotected (groups : list node) (pg fb x : string) :
  x ∈ names_of (filter (fun g => isPruned (protectedNames groups pg fb) g = true) groups) ->
  x <> pg /\ x <> fb.
Proof.
  unfold names_of. rewrite list_elem_of_fmap. intros (g & -> & Hg).
  apply list_elem_of_filter in Hg as [Hp Hin]. unfold isPruned in Hp. string_eqb.
  apply bool_decide_eq_false in H. unfold protectedNames in H.
  split; [case_if_in H; set_solver|]. intros E.
  assert (existsb (fun g => String.eqb (getMappingField g "name") fb) groups = true) as Hex.
  { apply existsb_exists. exists g. split; [by apply list_elem_of_In|by apply String.eqb_eq]. }
  rewrite Hex in H. set_solver.
Qed.

(** The rules, whether or not anything was removed. *)
Lemma Prune_rules (groups : list node) (rules : list string) (pg fb : string) :
  let protected := protectedNames groups (if String.eqb pg "" then "Proxies" else pg) fb in
  let removed : gset string := list_to_set (names_of (filter (fun g => isPruned protected g = true) groups)) in
  Forall2 (fun r r' =>
       match ruleTarget r with
       | Some (t, st, en) =>
           if bool_decide (t ∈ removed) then r' = str_take st r +:+ fb +:+ str_drop en r else r' = r
       | None => r' = r
       end) rules (PruneEmptyProxyGroups groups rules pg fb).1.2.
Proof.
  intros protected removed. unfold PruneEmptyProxyGroups. fold protected.
  set (removedGroups := names_of _) in *. fold removed.
  destruct (Nat.eqb_spec (length removedGroups) 0) as [E0|E0].
  - apply length_zero_iff_nil in E0. assert (removed = ∅) as Er by (unfold removed; by rewrite E0).
    apply Forall_Forall2_diag, Forall_forall. intros r _.
    destruct (ruleTarget r) as [[[t st] en]|]; [|done]. rewrite bool_decide_eq_false_2; [done|set_solver].
  - pose proof (retargetRules_spec removed fb 0 rules) as HF. by destruct (retargetRules removed fb 0 rules).
Qed.

(** What the pruned configuration is, whether or not anything was removed. *)
Lemma Prune_unfold (groups : list node) (rules : list string) (pg fb : string) :
  Forall (fun g => wf_named g = true) groups ->
  let protected := protectedNames groups (if String.eqb pg "" then "Proxies" else pg) fb in
  let removedGroups := names_of (filter (fun g => isPruned protected g = true) groups) in
  let removed : gset string := list_to_set removedGroups in
  let '(gs', rs', res) := PruneEmptyProxyGroups groups rules pg fb in
  RemovedGroups res = removedGroups
  /\ Forall2 (fun g g' => getMappingField g' "name" = getMappingField g "name" /\
       mappingMembers g' "proxies" = filter (fun m => m ∉ removed) (mappingMembers g "proxies"))
       (filter (fun g => isPruned protected g = false) groups) gs'
  /\ Forall2 (fun r r' =>
       match ruleTarget r with
       | Some (t, st, en) =>
           if bool_decide (t ∈ removed) then r' = str_take st r +:+ fb +:+ str_drop en r else r' = r
       | None => r' = r
       end) rules rs'.
Proof.
  intros Hwf protected removedGroups removed.
  pose proof (Prune_rules groups rules pg fb) as HR. cbv zeta in HR. fold protected removedGroups removed in HR.
  revert HR. unfold PruneEmptyProxyGroups. fold protected removedGroups removed.
  destruct (Nat.eqb_spec (length removedGroups) 0) as [E0|E0].
  - apply length_zero_iff_nil in E0.
    assert (removed = ∅) as Er by (unfold removed; by rewrite E0).
    intros HR. split; [done|split; [|done]].
    + rewrite filter_all; [|apply Forall_forall; intros g Hg; apply not_true_iff_false; intros Ht].
      * apply Forall_Forall2_diag, Forall_forall. intros g _. split; [done|].
        symmetry. apply filter_all, Forall_forall. set_solver.
      * assert (getMappingField g "name" ∈ removedGroups) as Hin; [|rewrite E0 in Hin; by apply elem_of_nil in Hin].
        by apply elem_of_names_of, list_elem_of_filter.
  - destruct (retargetRules removed fb 0 rules) as [rs' log]. intros HR. split; [done|split; [|done]].
    apply Forall2_fmap_r, Forall_Forall2_diag, Forall_forall. intros g [_ Hg]%list_elem_of_filter.
    rewrite Forall_forall in Hwf. by apply dropMembers_facts, Hwf.
Qed.

(** Filtering the nodes or their (unique) names. *)
Lemma names_of_unique (gs : list node) (g h : node) :
  NoDup (names_of gs) -> g ∈ gs -> h ∈ gs -> getMappingField g "name" = getMappingField h "name" -> g = h.
Proof.
  intros Hnd [i Hi]%list_elem_of_lookup [j Hj]%list_elem_of_lookup E.
  assert (i = j); [|by simplify_eq].
  eapply NoDup_lookup; [exact Hnd| |]; unfold names_of; change (map ?f ?l) with (f <$> l);
    rewrite list_lookup_fmap, ?Hi, ?Hj; simpl; [done|by rewrite E].
Qed.

Lemma pruned_names (b : node -> bool) (gs : list node) :
  NoDup (names_of gs) ->
  names_of (filter (fun g => b g = false) gs)
  = filter (fun x => x ∉ names_of (filter (fun g => b g = true) gs)) (names_of gs).
Proof.
  intros Hnd.
  assert (forall g, g ∈ gs -> getMappingField g "name" ∈ names_of (filter (fun g => b g = true) gs) <-> b g = true) as H.
  { intros g Hg. split; [|by intros; apply elem_of_names_of, list_elem_of_filter].
    unfold names_of at 1. rewrite list_elem_of_fmap. intros (h & E & [Hb Hh]%list_elem_of_filter).
    by rewrite (names_of_unique gs g h). }
  revert H. generalize (names_of (filter (fun g => b g = true) gs)) as S. clear Hnd. intros S.
  induction gs as [|g gs IH]; intros H; [done|].
  assert (forall h, h ∈ gs -> getMappingField h "name" ∈ S <-> b h = true) as H' by (intros h Hh; apply H; by right).
  change (names_of (g :: gs)) with (getMappingField g "name" :: names_of gs). rewrite !filter_cons.
  specialize (H g ltac:(left)). rewrite <- (IH H'). destruct (b g) eqn:E; repeat case_decide; naive_solver.
Qed.

(** (C17) After [PruneEmptyProxyGroups] no group lists a removed one, and no rule
    has a removed group as its target, where the target is what [ruleTarget]
    reads: the second field of a MATCH rule, otherwise the last one or the one
    before a final no-resolve.  For groups that are mappings with distinct names
    and a fallback that is a plain target: the fallback is not removed; the
    surviving groups are those not removed, in order, each with exactly its
    members that were not removed; every rule stays at its index, and is
    unchanged unless its target was removed, in which case that field becomes the
    fallback and all its other fields stay as they are. *)
Theorem PruneEmptyProxyGroups_closed (groups gs' : list node) (rules rs' : list string) (pg fb : string)
    (res : PruneResult) :
  Forall (fun g => wf_named g = true) groups -> NoDup (names_of groups) -> plainTarget fb = true ->
  PruneEmptyProxyGroups groups rules pg fb = (gs', rs', res) ->
  (fb ∉ RemovedGroups res)
  /\ names_of gs' = filter (fun x => x ∉ RemovedGroups res) (names_of groups)
  /\ (forall g', g' ∈ gs' -> exists g, g ∈ groups /\ getMappingField g "name" = getMappingField g' "name" /\
        mappingMembers g' "proxies" = filter (fun m => m ∉ RemovedGroups res) (mappingMembers g "proxies"))
  /\ Forall2 (fun r r' =>
       match ruleTarget r with
       | Some (t, _, _) =>
           if decide (t ∈ RemovedGroups res) then
             Split r comma !! pruneTargetIdx (Split r comma) = Some t
             /\ Split r' comma = <[pruneTargetIdx (Split r comma) := fb]> (Split r comma)
             /\ exists st en, ruleTarget r' = Some (fb, st, en)
           else r' = r
       | None => r' = r
       end) rules rs'.
Proof.
  intros Hwf Hnd Hfb Heq. pose proof (Prune_unfold groups rules pg fb Hwf) as H. cbv zeta in H. rewrite Heq in H.
  destruct H as (-> & HG & HR). set (protected := protectedNames _ _ _) in *. set (removed := names_of (filter _ _)) in *.
  split_and!.
  - intros [_ H]%removed_unprotected. done.
  - transitivity (names_of (filter (fun g => isPruned protected g = false) groups)).
    { unfold names_of. clear -HG. by induction HG as [|g g' l l' [E _] _ IH]; [|simpl; rewrite E, IH]. }
    unfold removed. clear -Hnd. apply pruned_names, Hnd.
  - intros g' Hg'. apply list_elem_of_lookup in Hg' as [i Hi].
    destruct (Forall2_lookup_r _ _ _ _ _ HG Hi) as (g & Hg & Hn & Hm). exists g. split_and!; [|done|].
    + by apply list_elem_of_lookup_2, list_elem_of_filter in Hg as [_ ?].
    + rewrite Hm. apply list_filter_iff. intros m. by rewrite elem_of_list_to_set.
  - eapply Forall2_impl; [exact HR|]. intros r r' Hr. cbv beta in Hr |- *.
    destruct (ruleTarget r) as [[[t st] en]|] eqn:Et; [|done].
    destruct (decide (t ∈ removed)) as [Hd|Hd]; [rewrite bool_decide_eq_true_2 in Hr by (by rewrite elem_of_list_to_set)
                       |rewrite bool_decide_eq_false_2 in Hr by (by rewrite elem_of_list_to_set); done].
    subst r'. unfold plainTarget in Hfb. string_eqb. split_and!.
    + pose proof (ruleTarget_fields r) as Hf. cbv zeta in Hf. rewrite Et in Hf. apply Hf.
    + by eapply Split_retarget.
    + apply (ruleTarget_replace r t); [done|done|]. by eapply bool_decide_eq_false_1.
Qed.

Definition demo_prune_groups : list node :=
  [demo_group "a_E" []; demo_group "a_G" ["a_E"; "a_HK"]; demo_group "Proxies" []].
Definition demo_prune_rules : list string :=
  ["DOMAIN,x.com,a_E"; "IP-CIDR,1.0.0.0/8,a_E,no-resolve"; "MATCH,Proxies"].

Lemma PruneEmptyProxyGroups_closed_witness :
  names_of (PruneEmptyProxyGroups demo_prune_groups demo_prune_rules "" "Proxies").1.1 = ["a_G"; "Proxies"]
  /\ (PruneEmptyProxyGroups demo_prune_groups demo_prune_rules "" "Proxies").1.2
     = ["DOMAIN,x.com,Proxies"; "IP-CIDR,1.0.0.0/8,Proxies,no-resolve"; "MATCH,Proxies"].
Proof.
  assert (NoDup (names_of demo_prune_groups)) as Hnd by (by apply (bool_decide_unpack _)).
  destruct (PruneEmptyProxyGroups demo_prune_groups demo_prune_rules "" "Proxies") as [[gs' rs'] res] eqn:E.
  destruct (PruneEmptyProxyGroups_closed demo_prune_groups gs' demo_prune_rules rs' "" "Proxies" res
    ltac:(by repeat constructor) Hnd eq_refl E) as (_ & Hn & _).
  vm_compute in E. injection E as <- <- <-. split; [exact Hn|reflexivity].
Defined.

(** A rule of a removed group that ends in a [src] or [dport] modifier, which
    [rewriteRuleTarget] skips over when it qualifies the target, keeps naming
    the removed group: [ruleTarget] only knows the option [no-resolve]. *)
Theorem prune_misses_src_modifier :
  let rule := rewriteRuleTarget "IP-CIDR,10.0.0.0/8,Empty,src" "a" in
  rule = "IP-CIDR,10.0.0.0/8,a_Empty,src"
  /\ PruneEmptyProxyGroups [demo_group "a_Empty" []; demo_group "Proxies" ["a_HK"]] [rule] "Proxies" "Proxies"
     = ([demo_group "Proxies" ["a_HK"]], [rule], MkPruneResult ["a_Empty"] []).
Proof. by vm_compute. Qed.
