(* ===== verification/Region.v ===== *)
(** * internal/merge/region_table.go and region.go: region and continent groups

    Every upstream proxy gets a country from its display name: a flag emoji, a
    Chinese or an English country name.  [AppendRegionGroups] emits a url-test
    and a load-balance group per country, [AppendContinentGroups] one pair per
    continent.  A map that the code ranges over and then sorts is read with
    [map_to_list]; the order is fixed by the sort. *)
From stdpp Require Import base gmap sets list strings sorting.
From Stdlib Require Import ZArith Lia Ascii.
From S2P Require Import Prelude GoStrings GoSort Yaml Namespace Proxies ProxyGroups.

(** ** region_table.go *)
Record regionEntry := MkRegion { Indicator : string; Code : string; Lang : string }.
Record countryContinentEntry := MkCC { Country : string; Continent : string }.

Definition countryToContinent : list countryContinentEntry :=
  [
   MkCC "CN" "AS"; MkCC "JP" "AS"; MkCC "KR" "AS"; MkCC "HK" "AS"; MkCC "TW" "AS";
   MkCC "MO" "AS"; MkCC "SG" "AS"; MkCC "IN" "AS"; MkCC "VN" "AS"; MkCC "TH" "AS";
   MkCC "MY" "AS"; MkCC "PH" "AS"; MkCC "ID" "AS"; MkCC "AE" "AS"; MkCC "SA" "AS";
   MkCC "IL" "AS"; MkCC "TR" "AS"; MkCC "GB" "EU"; MkCC "DE" "EU"; MkCC "FR" "EU";
   MkCC "NL" "EU"; MkCC "CH" "EU"; MkCC "SE" "EU"; MkCC "NO" "EU"; MkCC "DK" "EU";
   MkCC "FI" "EU"; MkCC "ES" "EU"; MkCC "IT" "EU"; MkCC "IE" "EU"; MkCC "PL" "EU";
   MkCC "UA" "EU"; MkCC "RU" "EU"; MkCC "US" "NA"; MkCC "CA" "NA"; MkCC "MX" "NA";
   MkCC "BR" "SA"; MkCC "AR" "SA"; MkCC "CL" "SA"; MkCC "CO" "SA"; MkCC "PE" "SA";
   MkCC "VE" "SA"; MkCC "AU" "OC"; MkCC "NZ" "OC"; MkCC "ZA" "AF"; MkCC "EG" "AF";
   MkCC "NG" "AF"; MkCC "KE" "AF"; MkCC "MA" "AF"; MkCC "TN" "AF"
  ].

Fixpoint continentOf_in (table : list countryContinentEntry) (cc : string) : option string :=
  match table with
  | [] => None
  | e :: table' => if String.eqb (Country e) cc then Some (Continent e) else continentOf_in table' cc
  end.
Definition continentOf (cc : string) : option string := continentOf_in countryToContinent cc.

Definition regionTable : list regionEntry :=
  [
   MkRegion "中国香港" "HK" "zh"; MkRegion "中国台湾" "TW" "zh"; MkRegion "中国澳门" "MO" "zh";
   MkRegion "中国" "CN" "zh"; MkRegion "美国" "US" "zh"; MkRegion "日本" "JP" "zh";
   MkRegion "韩国" "KR" "zh"; MkRegion "香港" "HK" "zh"; MkRegion "台湾" "TW" "zh";
   MkRegion "臺灣" "TW" "zh"; MkRegion "新加坡" "SG" "zh"; MkRegion "英国" "GB" "zh";
   MkRegion "德国" "DE" "zh"; MkRegion "法国" "FR" "zh"; MkRegion "加拿大" "CA" "zh";
   MkRegion "澳大利亚" "AU" "zh"; MkRegion "俄罗斯" "RU" "zh"; MkRegion "印度" "IN" "zh";
   MkRegion "越南" "VN" "zh"; MkRegion "泰国" "TH" "zh"; MkRegion "马来西亚" "MY" "zh";
   MkRegion "菲律宾" "PH" "zh"; MkRegion "印度尼西亚" "ID" "zh"; MkRegion "巴西" "BR" "zh";
   MkRegion "阿根廷" "AR" "zh"; MkRegion "土耳其" "TR" "zh"; MkRegion "沙特阿拉伯" "SA" "zh";
   MkRegion "阿联酋" "AE" "zh"; MkRegion "以色列" "IL" "zh"; MkRegion "乌克兰" "UA" "zh";
   MkRegion "波兰" "PL" "zh"; MkRegion "荷兰" "NL" "zh"; MkRegion "瑞士" "CH" "zh";
   MkRegion "瑞典" "SE" "zh"; MkRegion "挪威" "NO" "zh"; MkRegion "丹麦" "DK" "zh";
   MkRegion "芬兰" "FI" "zh"; MkRegion "西班牙" "ES" "zh"; MkRegion "意大利" "IT" "zh";
   MkRegion "爱尔兰" "IE" "zh"; MkRegion "hong kong" "HK" "en"; MkRegion "singapore" "SG" "en";
   MkRegion "united states" "US" "en"; MkRegion "united kingdom" "GB" "en"; MkRegion "japan" "JP" "en";
   MkRegion "germany" "DE" "en"; MkRegion "france" "FR" "en"; MkRegion "taiwan" "TW" "en";
   MkRegion "south korea" "KR" "en"; MkRegion "canada" "CA" "en"; MkRegion "australia" "AU" "en";
   MkRegion "russia" "RU" "en"; MkRegion "india" "IN" "en"; MkRegion "vietnam" "VN" "en";
   MkRegion "thailand" "TH" "en"; MkRegion "malaysia" "MY" "en"; MkRegion "philippines" "PH" "en";
   MkRegion "indonesia" "ID" "en"; MkRegion "brazil" "BR" "en"; MkRegion "argentina" "AR" "en";
   MkRegion "turkey" "TR" "en"; MkRegion "netherlands" "NL" "en"; MkRegion "switzerland" "CH" "en";
   MkRegion "sweden" "SE" "en"; MkRegion "norway" "NO" "en"; MkRegion "denmark" "DK" "en";
   MkRegion "finland" "FI" "en"; MkRegion "spain" "ES" "en"; MkRegion "italy" "IT" "en";
   MkRegion "ireland" "IE" "en"; MkRegion "ukraine" "UA" "en"; MkRegion "poland" "PL" "en";
   MkRegion "israel" "IL" "en"
  ].

(** A regional-indicator symbol, U+1F1E6..U+1F1FF. *)
Definition isRegionalIndicator (r : Z) : bool := in_rng 127462 r 127487.

(** The loop over the runes; [s] is the string from position [i] on. *)
Fixpoint decodePair_fuel (fuel : nat) (s : string) : option string :=
  match fuel, s with
  | 0, _ | _, EmptyString => None
  | S fuel', _ =>
      let '(r1, sz1) := DecodeRune s in
      let rest := str_drop sz1 s in
      if isRegionalIndicator r1 && negb (String.eqb rest "") && isRegionalIndicator (DecodeRune rest).1
      then Some (bytes_of [r1 - 127462 + 65; (DecodeRune rest).1 - 127462 + 65]%Z)
      else decodePair_fuel fuel' rest
  end.

(** Every rune takes at least one byte, so [len(s)] rounds are enough. *)
Definition decodeRegionalIndicatorPair (s : string) : option string := decodePair_fuel (String.length s) s.

(** *** init: the panics *)
Inductive initPanic :=
  | BadCode (i : nat) | BadLang (i : nat) | DuplicateIndicator (i j : nat)
  | BadCountry (i : nat) | BadContinent (i : nat) | DuplicateCountry (i prev : nat).

Definition twoUpper (s : string) : bool :=
  match s with
  | String a (String b EmptyString) => in_rng 65 (byte_val a) 90 && in_rng 65 (byte_val b) 90
  | _ => false
  end.

(** The first index [j < i] with the same indicator. *)
Fixpoint earlierIndicator (seen : list regionEntry) (ind : string) (j : nat) : option nat :=
  match seen with
  | [] => None
  | e :: seen' => if String.eqb (Indicator e) ind then Some j else earlierIndicator seen' ind (S j)
  end.

Fixpoint checkRegions (seen todo : list regionEntry) : option initPanic :=
  match todo with
  | [] => None
  | e :: todo' =>
      let i := length seen in
      if negb (twoUpper (Code e)) then Some (BadCode i)
      else if negb (String.eqb (Lang e) "zh") && negb (String.eqb (Lang e) "en") then Some (BadLang i)
      else match earlierIndicator seen (Indicator e) 0 with
           | Some j => Some (DuplicateIndicator i j)
           | None => checkRegions (seen ++ [e]) todo'
           end
  end.

Definition validContinents : gset string := {["AF"; "AS"; "EU"; "NA"; "SA"; "OC"; "AN"]}.

Fixpoint checkContinents (seen : gmap string nat) (i : nat) (todo : list countryContinentEntry) : option initPanic :=
  match todo with
  | [] => None
  | e :: todo' =>
      if negb (twoUpper (Country e)) then Some (BadCountry i)
      else if negb (bool_decide (Continent e ∈ validContinents)) then Some (BadContinent i)
      else match seen !! Country e with
           | Some prev => Some (DuplicateCountry i prev)
           | None => checkContinents (<[Country e := i]> seen) (S i) todo'
           end
  end.

Definition init (regions : list regionEntry) (countries : list countryContinentEntry) : option initPanic :=
  match checkRegions [] regions with
  | Some p => Some p
  | None => checkContinents ∅ 0 countries
  end.

(** *** inferCountry *)
Fixpoint firstMatch (lang text : string) (table : list regionEntry) : option string :=
  match table with
  | [] => None
  | e :: table' =>
      if negb (String.eqb (Lang e) lang) then firstMatch lang text table'
      else if Contains text (Indicator e) then Some (Code e)
      else firstMatch lang text table'
  end.

Definition inferCountry {U : UnicodeTables} (name : string) : option string :=
  match decodeRegionalIndicatorPair name with
  | Some code => Some code
  | None =>
      match firstMatch "zh" name regionTable with
      | Some code => Some code
      | None => firstMatch "en" (ToLower name) regionTable
      end
  end.

(** ** region.go *)
Record URLTestParams := MkURLTest {
  utURL : string; utIntervalSeconds : Z; utTimeoutMS : Z; utMaxFailedTimes : Z; utLazy : bool
}.
Record LoadBalanceParams := MkLoadBalance {
  lbURL : string; lbIntervalSeconds : Z; lbTimeoutMS : Z; lbMaxFailedTimes : Z; lbLazy : bool; lbStrategy : string
}.

Definition newURLTestGroup (name : string) (members : list string) (params : URLTestParams) : node :=
  let g := lit MappingNode "" "" [] in
  let g := setMappingValue g "name" (scalar name "") in
  let g := setMappingValue g "type" (scalar "url-test" "") in
  let g := setMappingMembers g "proxies" members in
  let g := setMappingValue g "url" (scalar (utURL params) "") in
  let g := setMappingValue g "interval" (scalar (Itoa (utIntervalSeconds params)) "!!int") in
  let g := setMappingValue g "timeout" (scalar (Itoa (utTimeoutMS params)) "!!int") in
  let g := setMappingValue g "max-failed-times" (scalar (Itoa (utMaxFailedTimes params)) "!!int") in
  setMappingValue g "lazy" (scalar (FormatBool (utLazy params)) "!!bool").

Definition newLoadBalanceGroup (name : string) (members : list string) (params : LoadBalanceParams) : node :=
  let g := lit MappingNode "" "" [] in
  let g := setMappingValue g "name" (scalar name "") in
  let g := setMappingValue g "type" (scalar "load-balance" "") in
  let g := setMappingMembers g "proxies" members in
  let g := setMappingValue g "url" (scalar (lbURL params) "") in
  let g := setMappingValue g "interval" (scalar (Itoa (lbIntervalSeconds params)) "!!int") in
  let g := setMappingValue g "lazy" (scalar (FormatBool (lbLazy params)) "!!bool") in
  let g := setMappingValue g "strategy" (scalar (lbStrategy params) "") in
  let g := setMappingValue g "timeout" (scalar (Itoa (lbTimeoutMS params)) "!!int") in
  setMappingValue g "max-failed-times" (scalar (Itoa (lbMaxFailedTimes params)) "!!int").

Definition stripSourcePrefix (prefixedName : string) : string :=
  match IndexByte prefixedName underscore with
  | None => prefixedName
  | Some idx => str_drop (S idx) prefixedName
  end.

Definition contains (slice : list string) (s : string) : bool := existsb (fun v => String.eqb v s) slice.

(** [m[k] = append(m[k], xs...)] *)
Definition append_at (m : gmap string (list string)) (k : string) (xs : list string) : gmap string (list string) :=
  <[k := default [] (m !! k) ++ xs]> m.

(** The names of a map, sorted. *)
Definition sortedCodes (m : gmap string (list string)) : list string := Strings (map fst (map_to_list m)).

(** The url-test group and its load-balance sibling. *)
Definition groupPair (kind code : string) (members : list string) (ut : URLTestParams) (lb : LoadBalanceParams)
    : list node :=
  [newURLTestGroup ("_" +:+ kind +:+ "_" +:+ code) members ut;
   newLoadBalanceGroup ("_lb_" +:+ kind +:+ "_" +:+ code) members lb].
Definition pairNames (kind code : string) : list string :=
  ["_" +:+ kind +:+ "_" +:+ code; "_lb_" +:+ kind +:+ "_" +:+ code].

(** The last block of both functions. *)
Definition addToSelector (groups : list node) (proxiesGroupName : string) (names : list string) : list node :=
  if (0 <? length names) && negb (String.eqb proxiesGroupName "")
  then default groups (augmentGroup groups proxiesGroupName names) else groups.

Section region_groups.
Context {U : UnicodeTables}.

(** One step of the classification loop: [ccToProxies], [unclassifiedProxies]
    and the fragments given to [unmappedLogger]. *)
Definition classify (acc : gmap string (list string) * list string * list string) (p : node)
    : gmap string (list string) * list string * list string :=
  let '(ccToProxies, unclassified, log) := acc in
  let name := getMappingField p "name" in
  if String.eqb name "" || HasPrefix name "_" then acc
  else
    let originalDisplayName := stripSourcePrefix name in
    match inferCountry originalDisplayName with
    | Some code => (append_at ccToProxies code [name], unclassified, log)
    | None => (ccToProxies, unclassified ++ [name], log ++ [originalDisplayName])
    end.

(** The groups, and the calls of [unmappedLogger]. *)
Definition AppendRegionGroups (groups upstreamPrefixedProxies : list node) (proxiesGroupName : string)
    (ut : URLTestParams) (lb : LoadBalanceParams) : list node * list string :=
  let '(ccToProxies, unclassified, log) := foldl classify (∅, [], []) upstreamPrefixedProxies in
  let ccs := sortedCodes ccToProxies in
  let groups := groups ++ mjoin (map (fun cc => groupPair "region" cc (default [] (ccToProxies !! cc)) ut lb) ccs) in
  let names := mjoin (map (pairNames "region") ccs) in
  let '(groups, names) :=
    if 0 <? length unclassified
    then (groups ++ groupPair "region" "UNKNOWN" unclassified ut lb, names ++ pairNames "region" "UNKNOWN")
    else (groups, names) in
  (addToSelector groups proxiesGroupName names, log).
End region_groups.

(** One step of the rollup loop: [contToProxies], [contToRegions] and the calls
    of [unmappedContinentLogger]. *)
Definition rollup (regionGroupMembers : gmap string (list string))
    (acc : gmap string (list string) * gmap string (list string) * list string) (regionName : string)
    : gmap string (list string) * gmap string (list string) * list string :=
  let '(contToProxies, contToRegions, log) := acc in
  if (String.length regionName <? 8) || negb (String.eqb (str_take 8 regionName) "_region_") then acc
  else
    let cc := str_drop 8 regionName in
    if String.eqb cc "UNKNOWN" then acc
    else
      let members := default [] (regionGroupMembers !! regionName) in
      match continentOf cc with
      | None => (contToProxies, contToRegions, log ++ [cc])
      | Some cont =>
          (append_at contToProxies cont members,
           (if contains (default [] (contToRegions !! cont)) cc then contToRegions
            else append_at contToRegions cont [cc]), log)
      end.

Definition AppendContinentGroups (groups : list node) (regionGroupNames : list string)
    (regionGroupMembers : gmap string (list string)) (proxiesGroupName : string)
    (ut : URLTestParams) (lb : LoadBalanceParams) : list node * list string :=
  let '(contToProxies, contToRegions, log) := foldl (rollup regionGroupMembers) (∅, ∅, []) regionGroupNames in
  let conts := sortedCodes contToProxies in
  let membersOrdered cont :=
    mjoin (map (fun cc => default [] (regionGroupMembers !! ("_region_" +:+ cc)))
             (Strings (default [] (contToRegions !! cont)))) in
  let groups := groups ++ mjoin (map (fun cont => groupPair "continent" cont (membersOrdered cont) ut lb) conts) in
  (addToSelector groups proxiesGroupName (mjoin (map (pairNames "continent") conts)), log).

(** * Lemmas *)

(** ** Flags *)
Lemma DecodeRune_progress (s : string) : s <> "" -> 1 <= (DecodeRune s).2.
Proof.
  destruct s as [|c s]; [done|]. intros _. unfold DecodeRune. cbv zeta.
  repeat case_if; simpl; try lia; repeat (case_match; simpl; try lia).
Qed.

Lemma length_str_drop (n : nat) (s : string) : String.length (str_drop n s) = String.length s - n.
Proof. revert s. induction n as [|n IH]; intros [|c s]; simpl; auto. Qed.

Lemma drop_rune_shorter (s : string) : s <> "" -> String.length (str_drop (DecodeRune s).2 s) < String.length s.
Proof.
  intros H. rewrite length_str_drop. pose proof (DecodeRune_progress s H). destruct s; [done|]. simpl in *. lia.
Qed.

(** The first two adjacent regional indicators of a rune sequence. *)
Fixpoint firstFlag (rs : list Z) : option string :=
  match rs with
  | r1 :: ((r2 :: _) as rest) =>
      if isRegionalIndicator r1 && isRegionalIndicator r2
      then Some (bytes_of [r1 - 127462 + 65; r2 - 127462 + 65]%Z) else firstFlag rest
  | _ => None
  end.

Lemma runes_fuel_cons (fuel : nat) (s : string) :
  s <> "" -> runes_fuel (S fuel) s = (DecodeRune s).1 :: runes_fuel fuel (str_drop (DecodeRune s).2 s).
Proof. destruct s; [done|]. intros _. cbn [runes_fuel]. by destruct (DecodeRune _). Qed.

(** [decodeRegionalIndicatorPair] is the first flag of the rune sequence. *)
Lemma decodePair_firstFlag (fuel : nat) (s : string) :
  String.length s <= fuel -> decodePair_fuel fuel s = firstFlag (runes_fuel fuel s).
Proof.
  revert s. induction fuel as [|fuel IH]; intros s Hf; [done|].
  destruct (String.eqb_spec s "") as [->|Hs]; [done|].
  rewrite runes_fuel_cons by done. pose proof (drop_rune_shorter s Hs) as Hlt.
  assert (decodePair_fuel (S fuel) s =
    let rest := str_drop (DecodeRune s).2 s in
    if isRegionalIndicator (DecodeRune s).1 && negb (String.eqb rest "") && isRegionalIndicator (DecodeRune rest).1
    then Some (bytes_of [(DecodeRune s).1 - 127462 + 65; (DecodeRune rest).1 - 127462 + 65]%Z)
    else decodePair_fuel fuel rest) as ->.
  { destruct s as [|c s']; [done|]. cbn [decodePair_fuel]. by destruct (DecodeRune (String c s')). }
  cbv zeta. set (rest := str_drop _ s) in *. rewrite IH by lia.
  destruct (String.eqb_spec rest "") as [->|Hr].
  - rewrite andb_false_r. simpl. by destruct fuel.
  - rewrite andb_true_r. destruct fuel as [|fuel]; [destruct rest; [done|simpl in *; lia]|].
    by rewrite (runes_fuel_cons fuel rest Hr).
Qed.

Lemma twoUpper_bytes (x y : Z) :
  (65 <= x <= 90)%Z -> (65 <= y <= 90)%Z -> twoUpper (bytes_of [x; y]) = true.
Proof. intros Hx Hy. unfold bytes_of, in_rng. simpl. rewrite !byte_val_chr by lia. unfold in_rng. lia. Qed.

Lemma firstFlag_code (rs : list Z) (c : string) : firstFlag rs = Some c -> twoUpper c = true.
Proof.
  induction rs as [|r1 [|r2 rs] IH]; [done|done|]. cbn [firstFlag].
  destruct (isRegionalIndicator r1 && isRegionalIndicator r2) eqn:E; [|exact IH].
  intros [= <-]. unfold isRegionalIndicator, in_rng in E. apply twoUpper_bytes; lia.
Qed.

Lemma firstMatch_entry (lang text : string) (table : list regionEntry) (c : string) :
  firstMatch lang text table = Some c ->
  exists e, e ∈ table /\ Lang e = lang /\ Contains text (Indicator e) = true /\ Code e = c.
Proof.
  induction table as [|e table IH]; [done|]. simpl. intros H.
  destruct (String.eqb (Lang e) lang) eqn:El; simpl in H; string_eqb.
  - destruct (Contains text (Indicator e)) eqn:Ec.
    + simplify_eq. exists e. split_and!; [left|done|done|done].
    + destruct (IH H) as (e' & ? & ?). exists e'. split; [by right|done].
  - destruct (IH H) as (e' & ? & ?). exists e'. split; [by right|done].
Qed.

Lemma regionTable_codes : Forall (fun e => twoUpper (Code e) = true) regionTable.
Proof. apply (bool_decide_unpack _). by vm_compute. Qed.

Lemma inferCountry_code {U : UnicodeTables} (name c : string) : inferCountry name = Some c -> twoUpper c = true.
Proof.
  unfold inferCountry, decodeRegionalIndicatorPair. rewrite decodePair_firstFlag by done. intros H.
  destruct (firstFlag _) as [c'|] eqn:Ef; [simplify_eq; by eapply firstFlag_code|].
  pose proof regionTable_codes as HT. rewrite Forall_forall in HT.
  destruct (firstMatch "zh" name regionTable) as [c'|] eqn:Ez.
  - simplify_eq. apply firstMatch_entry in Ez as (e & He & _ & _ & <-). by apply HT.
  - apply firstMatch_entry in H as (e & He & _ & _ & <-). by apply HT.
Qed.

(** ** The tables are checked *)
Definition regionOk (e : regionEntry) : Prop :=
  twoUpper (Code e) = true /\ (Lang e = "zh" \/ Lang e = "en").
Definition countryOk (e : countryContinentEntry) : Prop :=
  twoUpper (Country e) = true /\ Continent e ∈ validContinents.

Lemma earlierIndicator_None (seen : list regionEntry) (ind : string) (j : nat) :
  earlierIndicator seen ind j = None <-> ind ∉ map Indicator seen.
Proof.
  revert j. induction seen as [|e seen IH]; intros j; simpl; [set_solver|].
  destruct (String.eqb_spec (Indicator e) ind); [set_solver|]. rewrite IH. set_solver.
Qed.

Lemma fresh_cons {A : Type} (f : A -> string) (e : A) (todo : list A) (S : list string) :
  f e ∉ S ->
  (forall x, x ∈ todo -> f x ∉ S ++ [f e]) <-> (f e ∉ map f todo) /\ (forall x, x ∈ e :: todo -> f x ∉ S).
Proof.
  intros He. rewrite list_elem_of_fmap. setoid_rewrite elem_of_cons. setoid_rewrite elem_of_app.
  setoid_rewrite list_elem_of_singleton. split.
  - intros H. split; [|naive_solver]. intros (x & E & Hx). apply (H x Hx). by right.
  - intros [H1 H2] x Hx [H|H]; [exact (H2 x (or_intror Hx) H)|]. apply H1. by exists x.
Qed.

Lemma checkRegions_None (seen todo : list regionEntry) :
  checkRegions seen todo = None <->
  Forall regionOk todo /\ NoDup (map Indicator todo) /\ (forall e, e ∈ todo -> Indicator e ∉ map Indicator seen).
Proof.
  revert seen. induction todo as [|e todo IH]; intros seen; simpl.
  { split; [|done]. intros _. split_and!; [constructor|constructor|set_solver]. }
  rewrite Forall_cons, NoDup_cons. unfold regionOk at 1.
  destruct (twoUpper (Code e)) eqn:Ec; simpl; [|naive_solver].
  destruct (String.eqb_spec (Lang e) "zh") as [|Hz]; destruct (String.eqb_spec (Lang e) "en") as [|He]; simpl; try naive_solver.
  all: destruct (earlierIndicator seen (Indicator e) 0) eqn:Ee; [|apply earlierIndicator_None in Ee].
  all: try (split; [done|]; intros (_ & _ & H); exfalso; specialize (H e ltac:(left));
            apply earlierIndicator_None with (j := 0) in H; congruence).
  all: rewrite IH, map_app; cbn [map]; rewrite (fresh_cons Indicator e todo) by done; naive_solver.
Qed.

Lemma checkContinents_None (seen : gmap string nat) (i : nat) (todo : list countryContinentEntry) :
  checkContinents seen i todo = None <->
  Forall countryOk todo /\ NoDup (map Country todo) /\ (forall e, e ∈ todo -> seen !! Country e = None).
Proof.
  revert seen i. induction todo as [|e todo IH]; intros seen i; simpl.
  { split; [|done]. intros _. split_and!; [constructor|constructor|set_solver]. }
  rewrite Forall_cons, NoDup_cons. unfold countryOk at 1.
  destruct (twoUpper (Country e)) eqn:Ec; simpl; [|naive_solver].
  case_bool_decide as Hv; simpl; [|naive_solver].
  destruct (seen !! Country e) as [prev|] eqn:Es.
  { split; [done|]. intros (_ & _ & H). specialize (H e ltac:(left)). congruence. }
  rewrite IH. setoid_rewrite elem_of_cons. setoid_rewrite lookup_insert_None. rewrite list_elem_of_fmap.
  split; [intros (Hok & Hnd & H)|intros ((_ & Hok) & (Hn & Hnd) & H)].
  - split; [done|]. split; [split; [|done]|naive_solver]. intros (x & E & Hx). by apply (proj2 (H x Hx)).
  - split_and!; [done|done|]. intros x Hx. split; [naive_solver|]. intros E. apply Hn. by exists x.
Qed.

(** The start-up check accepts exactly the tables whose entries are well
    formed (two-letter codes, known language, known continent) and whose
    indicators and countries are unique; the program's tables pass it. *)
Theorem init_spec :
  (forall regions countries, init regions countries = None <->
    Forall regionOk regions /\ NoDup (map Indicator regions) /\ Forall countryOk countries
    /\ NoDup (map Country countries))
  /\ init regionTable countryToContinent = None.
Proof.
  split; [|by vm_compute]. intros regions countries. unfold init.
  destruct (checkRegions [] regions) as [p|] eqn:Er.
  - split; [done|]. intros (Hr & Hn & _). exfalso.
    assert (checkRegions [] regions = None) as H; [|congruence].
    apply checkRegions_None. split_and!; [done|done|]. set_solver.
  - apply checkRegions_None in Er as (Hr & Hn & _). rewrite checkContinents_None. split; [naive_solver|].
    intros (_ & _ & Hc & Hcn). split_and!; [done|done|]. intros e _. apply lookup_empty.
Qed.

(** ** Emitted groups *)
Lemma newURLTestGroup_facts (name : string) (ms : list string) (ut : URLTestParams) :
  let g := newURLTestGroup name ms ut in
  wf_named g = true /\ getMappingField g "name" = name /\ getMappingField g "type" = "url-test"
  /\ mappingMembers g "proxies" = ms.
Proof.
  cbv zeta. split_and!; [done..|]. unfold mappingMembers. simpl. induction ms as [|m ms IH]; [done|]. csimpl. by f_equal.
Qed.

Lemma newLoadBalanceGroup_facts (name : string) (ms : list string) (lb : LoadBalanceParams) :
  let g := newLoadBalanceGroup name ms lb in
  wf_named g = true /\ getMappingField g "name" = name /\ getMappingField g "type" = "load-balance"
  /\ mappingMembers g "proxies" = ms.
Proof.
  cbv zeta. split_and!; [done..|]. unfold mappingMembers. simpl. induction ms as [|m ms IH]; [done|]. csimpl. by f_equal.
Qed.

Lemma groupPair_names (k c : string) (ms : list string) (ut : URLTestParams) (lb : LoadBalanceParams) :
  names_of (groupPair k c ms ut lb) = pairNames k c.
Proof.
  unfold names_of, groupPair, pairNames. cbn [map].
  by rewrite (proj1 (proj2 (newURLTestGroup_facts _ _ _))), (proj1 (proj2 (newLoadBalanceGroup_facts _ _ _))).
Qed.

(** Augmenting the selector when it is in the first part of the list. *)
Lemma augmentGroup_app (groups more groups' : list node) (pg : string) (names : list string) :
  augmentGroup groups pg names = Some groups' -> augmentGroup (groups ++ more) pg names = Some (groups' ++ more).
Proof.
  revert groups'. induction groups as [|g gs IH]; intros groups'; [done|]. cbn [augmentGroup app].
  destruct (String.eqb _ pg); [intros [= <-]; done|].
  destruct (augmentGroup gs pg names) as [r|] eqn:E; [|done]. intros [= <-]. by rewrite (IH r eq_refl).
Qed.

Lemma addToSelector_app (groups more : list node) (pg : string) (names : list string) :
  pg ∈ names_of groups -> addToSelector (groups ++ more) pg names = addToSelector groups pg names ++ more.
Proof.
  intros Hpg. unfold addToSelector. case_if; [|done].
  destruct (augmentGroup groups pg names) as [r|] eqn:E; [by rewrite (augmentGroup_app _ _ r)|].
  by apply augmentGroup_None in E.
Qed.

Lemma append_at_lookup (m : gmap string (list string)) (k k' : string) (xs : list string) :
  append_at m k xs !! k' = if decide (k = k') then Some (default [] (m !! k) ++ xs) else m !! k'.
Proof.
  unfold append_at. case_decide; subst; [by rewrite lookup_insert_eq|by rewrite lookup_insert_ne].
Qed.

Lemma elem_of_sortedCodes (m : gmap string (list string)) (k : string) : k ∈ sortedCodes m <-> is_Some (m !! k).
Proof.
  unfold sortedCodes. rewrite elem_of_Strings, list_elem_of_fmap. split.
  - intros ([k' v] & -> & H). apply elem_of_map_to_list in H. by exists v.
  - intros [v H]. exists (k, v). split; [done|]. by apply elem_of_map_to_list.
Qed.

Lemma NoDup_sortedCodes (m : gmap string (list string)) : NoDup (sortedCodes m).
Proof. unfold sortedCodes. apply NoDup_Strings, NoDup_fst_map_to_list. Qed.

Lemma sortedCodes_sorted (m : gmap string (list string)) : StronglySorted String.le (sortedCodes m).
Proof. apply Strings_sorted. Qed.

(** Two sorted duplicate-free lists with the same elements are equal. *)
Lemma sorted_set_eq (l1 l2 : list string) :
  NoDup l1 -> NoDup l2 -> StronglySorted String.le l1 -> StronglySorted String.le l2 ->
  (forall x, x ∈ l1 <-> x ∈ l2) -> l1 = l2.
Proof. intros. apply (StronglySorted_unique String.le); [done|done|]. by apply NoDup_Permutation. Qed.

Section region_spec.
Context {U : UnicodeTables}.

(** The upstream names that are classified, and the region of each. *)
Definition classifiable (name : string) : bool := negb (String.eqb name "" || HasPrefix name "_").
Definition upNames (ups : list node) : list string := filter (fun n => classifiable n = true) (names_of ups).
Definition countryOf (name : string) : option string := inferCountry (stripSourcePrefix name).
Definition regionOf (name : string) : string := default "UNKNOWN" (countryOf name).

(** The regions of a proxy list: the countries in order, UNKNOWN last. *)
Definition regionsOf (ups : list node) : list string :=
  Strings (remove_dups (omap countryOf (upNames ups)))
  ++ (if bool_decide (None ∈ map countryOf (upNames ups)) then ["UNKNOWN"] else []).
Definition regionMembers (ups : list node) (cc : string) : list string :=
  filter (fun n => regionOf n = cc) (upNames ups).

Lemma regionOf_known (name cc : string) : cc <> "UNKNOWN" -> regionOf name = cc <-> countryOf name = Some cc.
Proof. unfold regionOf. destruct (countryOf name); simpl; naive_solver. Qed.

Lemma countryOf_UNKNOWN (name : string) : countryOf name <> Some "UNKNOWN".
Proof. intros H. by apply inferCountry_code in H. Qed.

Lemma regionOf_unknown (name : string) : regionOf name = "UNKNOWN" <-> countryOf name = None.
Proof.
  unfold regionOf. destruct (countryOf name) as [c|] eqn:E; simpl; [|done]. split; [|done].
  intros ->. by apply countryOf_UNKNOWN in E.
Qed.

Lemma classify_foldl (ups : list node) (m : gmap string (list string)) (u log : list string) :
  exists m', foldl classify (m, u, log) ups
    = (m', u ++ filter (fun n => countryOf n = None) (upNames ups),
       log ++ map stripSourcePrefix (filter (fun n => countryOf n = None) (upNames ups)))
  /\ forall cc, m' !! cc =
       match filter (fun n => countryOf n = Some cc) (upNames ups) with
       | [] => m !! cc
       | l => Some (default [] (m !! cc) ++ l)
       end.
Proof.
  revert m u log. induction ups as [|p ups IH]; intros m u log.
  { exists m. unfold upNames. simpl. by rewrite !app_nil_r. }
  cbn [foldl]. unfold classify at 2. unfold upNames in *. cbn [names_of map]. fold (names_of ups).
  set (n := getMappingField p "name") in *. rewrite filter_cons.
  assert (String.eqb n "" || HasPrefix n "_" = negb (classifiable n)) as -> by (unfold classifiable; by rewrite negb_involutive).
  destruct (decide (classifiable n = true)) as [Hd|Hd]; [rewrite Hd|apply not_true_is_false in Hd; rewrite Hd; apply IH].
  cbn [negb].
  fold (countryOf n). destruct (countryOf n) as [code|] eqn:Ec.
  - destruct (IH (append_at m code [n]) u log) as (m' & -> & Hm'). exists m'.
    rewrite filter_cons. case_decide; [congruence|]. split; [done|]. intros cc. rewrite Hm', append_at_lookup, filter_cons.
    rewrite Ec. destruct (decide (code = cc)) as [->|Hne]; case_decide; try congruence; case_match; try done.
    simpl. by rewrite <- app_assoc.
  - destruct (IH m (u ++ [n]) (log ++ [stripSourcePrefix n])) as (m' & -> & Hm'). exists m'.
    rewrite filter_cons. case_decide; [|congruence]. rewrite <- !app_assoc. split; [done|]. intros cc.
    rewrite Hm', (filter_cons (fun n => countryOf n = Some cc)). case_decide; congruence.
Qed.

Lemma None_unknown (ups : list node) :
  filter (fun n => countryOf n = None) (upNames ups) = regionMembers ups "UNKNOWN"
  /\ (None ∈ map countryOf (upNames ups) <-> regionMembers ups "UNKNOWN" <> []).
Proof.
  assert (filter (fun n => countryOf n = None) (upNames ups) = regionMembers ups "UNKNOWN") as E.
  { apply list_filter_iff. intros n. symmetry. apply regionOf_unknown. }
  split; [done|]. rewrite <- E, list_elem_of_fmap. split.
  - intros (n & Hn & Hin) H. assert (n ∈ filter (fun n => countryOf n = None) (upNames ups)) as Hf
      by (by apply list_elem_of_filter). rewrite H in Hf. by apply elem_of_nil in Hf.
  - intros H. destruct (filter _ _) as [|n l] eqn:Ef; [done|]. exists n.
    assert (n ∈ filter (fun n => countryOf n = None) (upNames ups)) as Hf by (rewrite Ef; left).
    by apply list_elem_of_filter in Hf as [-> ?].
Qed.

(** Membership in [regionsOf] is having members. *)
Lemma elem_of_regionsOf (ups : list node) (cc : string) : cc ∈ regionsOf ups <-> regionMembers ups cc <> [].
Proof.
  unfold regionsOf. rewrite elem_of_app, elem_of_Strings, elem_of_remove_dups, list_elem_of_omap.
  destruct (decide (cc = "UNKNOWN")) as [->|Hne].
  - rewrite <- (proj2 (None_unknown ups)). split.
    + intros [(n & _ & H)|H]; [by apply countryOf_UNKNOWN in H|]. case_bool_decide; [done|by apply elem_of_nil in H].
    + intros H. right. by rewrite bool_decide_eq_true_2 by done; left.
  - assert (cc ∉ (if bool_decide (None ∈ map countryOf (upNames ups)) then ["UNKNOWN"] else [])) as Hno
      by (case_if; set_solver).
    split.
    + intros [(n & Hn & H)|H]; [|done]. intros E. assert (n ∈ regionMembers ups cc) as Hm.
      { apply list_elem_of_filter. split; [by apply regionOf_known|done]. }
      rewrite E in Hm. by apply elem_of_nil in Hm.
    + intros H. left. destruct (regionMembers ups cc) as [|n l] eqn:E; [done|]. exists n.
      assert (n ∈ regionMembers ups cc) as Hm by (rewrite E; left).
      apply list_elem_of_filter in Hm as [Hr Hin]. split; [done|]. by apply regionOf_known.
Qed.

Lemma NoDup_regionsOf (ups : list node) : NoDup (regionsOf ups).
Proof.
  unfold regionsOf. apply NoDup_app. split_and!.
  - apply NoDup_Strings, NoDup_remove_dups.
  - intros cc Hcc. rewrite elem_of_Strings, elem_of_remove_dups, list_elem_of_omap in Hcc.
    destruct Hcc as (n & _ & H). case_if; [|set_solver]. intros ->%list_elem_of_singleton.
    by apply countryOf_UNKNOWN in H.
  - case_if; [apply NoDup_singleton|constructor].
Qed.

(** The groups [AppendRegionGroups] adds. *)
Definition regionGroups (ups : list node) (ut : URLTestParams) (lb : LoadBalanceParams) : list node :=
  mjoin (map (fun cc => groupPair "region" cc (regionMembers ups cc) ut lb) (regionsOf ups)).

Lemma AppendRegionGroups_eq (groups ups : list node) (pg : string) (ut : URLTestParams) (lb : LoadBalanceParams) :
  pg ∈ names_of groups ->
  (AppendRegionGroups groups ups pg ut lb).1 =
    addToSelector groups pg (mjoin (map (pairNames "region") (regionsOf ups))) ++ regionGroups ups ut lb.
Proof.
  intros Hpg. unfold regionGroups, AppendRegionGroups. destruct (classify_foldl ups ∅ [] []) as (m & -> & Hm).
  rewrite (proj1 (None_unknown ups)). simpl app.
  assert (sortedCodes m = Strings (remove_dups (omap countryOf (upNames ups)))) as Ek.
  { apply sorted_set_eq; [apply NoDup_sortedCodes|apply NoDup_Strings, NoDup_remove_dups|apply sortedCodes_sorted
      |apply Strings_sorted|]. intros cc.
    rewrite elem_of_sortedCodes, elem_of_Strings, elem_of_remove_dups, list_elem_of_omap, Hm, lookup_empty.
    destruct (filter _ _) as [|n l] eqn:Ef.
    - split; [by intros []|]. intros (n & Hn & Hc). exfalso.
      assert (n ∈ filter (fun n => countryOf n = Some cc) (upNames ups)) as H by (by apply list_elem_of_filter).
      rewrite Ef in H. by apply elem_of_nil in H.
    - split; [|by eexists]. intros _. exists n.
      assert (n ∈ filter (fun n => countryOf n = Some cc) (upNames ups)) as H by (rewrite Ef; left).
      by apply list_elem_of_filter in H as [? ?]. }
  assert (map (fun cc => groupPair "region" cc (default [] (m !! cc)) ut lb) (sortedCodes m)
          = map (fun cc => groupPair "region" cc (regionMembers ups cc) ut lb) (sortedCodes m)) as ->.
  { apply map_ext_in. intros cc Hcc%list_elem_of_In. f_equal. rewrite Hm, lookup_empty.
    assert (cc <> "UNKNOWN") as Hne.
    { intros ->. rewrite Ek, elem_of_Strings, elem_of_remove_dups, list_elem_of_omap in Hcc.
      destruct Hcc as (n & _ & H). by apply countryOf_UNKNOWN in H. }
    assert (filter (fun n => countryOf n = Some cc) (upNames ups) = regionMembers ups cc) as ->
      by (apply list_filter_iff; intros n; symmetry; by apply regionOf_known).
    by destruct (regionMembers ups cc). }
  rewrite Ek. clear m Hm Ek. unfold regionsOf. set (cs := Strings _).
  assert ((0 <? length (regionMembers ups "UNKNOWN")) = bool_decide (None ∈ map countryOf (upNames ups))) as ->.
  { apply eq_true_iff_eq. rewrite bool_decide_eq_true, (proj2 (None_unknown ups)), Nat.ltb_lt.
    destruct (regionMembers ups "UNKNOWN"); simpl; [|split; [done|lia]]. split; [lia|done]. }
  case_bool_decide; simpl fst; rewrite ?map_app, ?join_app; cbn [map mjoin list_join];
    rewrite ?app_nil_r, <- ?app_assoc; by apply addToSelector_app.
Qed.


Lemma names_of_pairs (kd : string) (members : string -> list string) (ut : URLTestParams) (lb : LoadBalanceParams)
    (codes : list string) :
  names_of (mjoin (map (fun c => groupPair kd c (members c) ut lb) codes)) = mjoin (map (pairNames kd) codes).
Proof.
  induction codes as [|c codes IH]; [done|]. cbn [map]. change (mjoin (?x :: ?l)) with (x ++ mjoin l).
  rewrite <- IH, <- (groupPair_names kd c (members c) ut lb). unfold names_of. apply map_app.
Qed.

Lemma elem_of_pairs (kd x : string) (codes : list string) :
  x ∈ mjoin (map (pairNames kd) codes) <->
  exists c, c ∈ codes /\ (x = "_" +:+ kd +:+ "_" +:+ c \/ x = "_lb_" +:+ kd +:+ "_" +:+ c).
Proof.
  rewrite list_elem_of_join. unfold pairNames. change (map ?f ?l) with (f <$> l). split.
  - intros (l & Hx & (c & -> & Hc)%list_elem_of_fmap). exists c. set_solver.
  - intros (c & Hc & Hx). eexists. split; [|apply list_elem_of_fmap; by eexists]. set_solver.
Qed.

Lemma lb_prefix (kd c c' : string) :
  HasPrefix kd "l" = false -> "_" +:+ kd +:+ "_" +:+ c <> "_lb_" +:+ kd +:+ "_" +:+ c'.
Proof. intros Hkd H. destruct kd as [|a kd]; simpl in H; [done|]. injection H as -> _. done. Qed.

Lemma NoDup_pairs (kd : string) (codes : list string) :
  HasPrefix kd "l" = false -> NoDup codes -> NoDup (mjoin (map (pairNames kd) codes)).
Proof.
  intros Hkd. induction 1 as [|c codes Hc _ IH]; [constructor|].
  cbn [map]. change (mjoin (?x :: ?l)) with (x ++ mjoin l). apply NoDup_app. split_and!; [| |done].
  - unfold pairNames. apply NoDup_cons. split; [|apply NoDup_singleton]. rewrite list_elem_of_singleton.
    intros H. by apply lb_prefix in H.
  - intros x Hx (c' & Hc' & Hx')%elem_of_pairs. unfold pairNames in Hx.
    assert (c = c'); [|by subst].
    apply elem_of_cons in Hx as [->|Hx]; [|apply list_elem_of_singleton in Hx as ->]; destruct Hx' as [E|E];
      try (by apply str_app_inj_l, str_app_inj_l, str_app_inj_l in E); [|symmetry in E]; by apply lb_prefix in E.
Qed.

(** The selector after the call. *)
Lemma addToSelector_spec (groups : list node) (pg : string) (names : list string) :
  all_named groups -> pg ∈ names_of groups -> pg <> "" ->
  all_named (addToSelector groups pg names) /\ names_of (addToSelector groups pg names) = names_of groups
  /\ exists sel, sel ∈ addToSelector groups pg names /\ getMappingField sel "name" = pg
       /\ forall x, x ∈ names -> x ∈ mappingMembers sel "proxies".
Proof.
  intros Hw Hpg Hne. unfold addToSelector. apply String.eqb_neq in Hne. rewrite Hne, andb_true_r.
  destruct names as [|x names]; simpl.
  { split_and!; [done|done|]. unfold names_of in Hpg. apply list_elem_of_fmap in Hpg as (g & -> & Hg).
    exists g. split_and!; [done|done|set_solver]. }
  destruct (augmentGroup groups pg (x :: names)) as [r|] eqn:E; [|by apply augmentGroup_None in E].
  simpl. destruct (augmentGroup_names _ _ _ _ Hw E) as [Hn Hw']. split_and!; [done|done|].
  apply augmentGroup_Some in E as (pre & g & post & -> & Hg & _ & ->).
  unfold all_named in Hw. rewrite Forall_app, Forall_cons in Hw. destruct Hw as (_ & (Hk & Hp & _)%wf_named_spec & _).
  eexists. split; [apply elem_of_app; right; left|]. split.
  - by rewrite getMappingField_setMembers_other.
  - intros y Hy. rewrite mappingMembers_set_same by done. apply elem_of_unionMembers. by right.
Qed.

Lemma elem_of_regionGroups (ups : list node) (ut : URLTestParams) (lb : LoadBalanceParams) (g : node) :
  g ∈ regionGroups ups ut lb -> exists cc, cc ∈ regionsOf ups /\
    wf_named g = true /\ mappingMembers g "proxies" = regionMembers ups cc.
Proof.
  unfold regionGroups. rewrite list_elem_of_join. intros (l & Hg & Hl). apply list_elem_of_fmap in Hl as (cc & -> & Hcc).
  exists cc. split; [done|]. unfold groupPair in Hg. apply elem_of_cons in Hg as [->|Hg]; [|apply list_elem_of_singleton in Hg as ->].
  - destruct (newURLTestGroup_facts ("_" +:+ "region" +:+ "_" +:+ cc) (regionMembers ups cc) ut) as (? & _ & _ & ?). done.
  - destruct (newLoadBalanceGroup_facts ("_lb_" +:+ "region" +:+ "_" +:+ cc) (regionMembers ups cc) lb) as (? & _ & _ & ?). done.
Qed.

(** (C22) [AppendRegionGroups] keeps the groups it is given and adds, in this
    order, one url-test group and its load-balance sibling per country that
    occurs, countries sorted, and a last pair for the proxies without a country.
    Each pair lists, in input order, the upstream proxies of its region: every
    upstream proxy is in exactly one region, no emitted group is empty, the
    emitted names are distinct, and all of them are added to the selector. *)
Theorem AppendRegionGroups_spec (groups ups : list node) (pg : string) (ut : URLTestParams) (lb : LoadBalanceParams) :
  all_named groups -> pg ∈ names_of groups -> pg <> "" ->
  exists old, (AppendRegionGroups groups ups pg ut lb).1 = old ++ regionGroups ups ut lb
    /\ names_of old = names_of groups
    /\ (exists sel, sel ∈ old /\ getMappingField sel "name" = pg /\
          forall x, x ∈ names_of (regionGroups ups ut lb) -> x ∈ mappingMembers sel "proxies")
    /\ NoDup (names_of (regionGroups ups ut lb))
    /\ Forall (fun g => mappingMembers g "proxies" <> []) (regionGroups ups ut lb)
    /\ mjoin (map (regionMembers ups) (regionsOf ups)) ≡ₚ upNames ups.
Proof.
  intros Hw Hpg Hne. rewrite AppendRegionGroups_eq by done. eexists. split; [reflexivity|].
  destruct (addToSelector_spec groups pg (mjoin (map (pairNames "region") (regionsOf ups))) Hw Hpg Hne)
    as (_ & Hn & Hsel).
  assert (names_of (regionGroups ups ut lb) = mjoin (map (pairNames "region") (regionsOf ups))) as ->
    by apply names_of_pairs.
  split_and!; [done|done| | |].
  - apply NoDup_pairs; [done|apply NoDup_regionsOf].
  - apply Forall_forall. intros g (cc & Hcc & _ & ->)%elem_of_regionGroups. by apply elem_of_regionsOf.
  - apply (partition_by_key regionOf); [apply NoDup_regionsOf|]. apply Forall_forall. intros n Hn'.
    apply elem_of_regionsOf. intros E. assert (n ∈ regionMembers ups (regionOf n)) as H by (by apply list_elem_of_filter).
    rewrite E in H. by apply elem_of_nil in H.
Qed.
End region_spec.

Definition demo_ut : URLTestParams := MkURLTest "http://t" 300 2000 3 true.
Definition demo_lb : LoadBalanceParams := MkLoadBalance "http://t" 300 2000 3 true "round-robin".
Definition demo_ups : list node := [demo_proxy "a_🇭🇰 01"; demo_proxy "a_Tokyo Japan"; demo_proxy "b_香港 02"; demo_proxy "b_?"].

Lemma AppendRegionGroups_spec_witness :
  map (regionMembers demo_ups) (regionsOf demo_ups) = [["a_🇭🇰 01"; "b_香港 02"]; ["a_Tokyo Japan"]; ["b_?"]]
  /\ exists old, (AppendRegionGroups [demo_group "Proxies" []] demo_ups "Proxies" demo_ut demo_lb).1
       = old ++ regionGroups demo_ups demo_ut demo_lb /\ names_of old = ["Proxies"].
Proof.
  destruct (AppendRegionGroups_spec [demo_group "Proxies" []] demo_ups "Proxies" demo_ut demo_lb
    ltac:(by repeat constructor) ltac:(by left) ltac:(done)) as (old & H1 & H2 & _).
  split; [by vm_compute|]. exists old. split; [exact H1|exact H2].
Defined.

(** ** Continents *)

(** The country a region group name stands for. *)
Definition regionCountry (regionName : string) : option string :=
  if (String.length regionName <? 8) || negb (String.eqb (str_take 8 regionName) "_region_") then None
  else if String.eqb (str_drop 8 regionName) "UNKNOWN" then None else Some (str_drop 8 regionName).

Definition countriesIn (names : list string) (cont : string) : list string :=
  Strings (remove_dups (filter (fun cc => continentOf cc = Some cont) (omap regionCountry names))).
Definition continentsIn (names : list string) : list string :=
  Strings (remove_dups (omap continentOf (omap regionCountry names))).
Definition continentMembers (names : list string) (members : gmap string (list string)) (cont : string) : list string :=
  mjoin (map (fun cc => default [] (members !! ("_region_" +:+ cc))) (countriesIn names cont)).

Lemma contains_spec (l : list string) (s : string) : contains l s = true <-> s ∈ l.
Proof.
  unfold contains. rewrite existsb_exists. setoid_rewrite String.eqb_eq. setoid_rewrite <- list_elem_of_In. naive_solver.
Qed.

(** The state of the rollup after the names [seen]. *)
Definition rollup_inv (seen : list string) (acc : gmap string (list string) * gmap string (list string) * list string) : Prop :=
  let ccs := omap regionCountry seen in
  (forall cont, is_Some (acc.1.1 !! cont) <-> cont ∈ omap continentOf ccs)
  /\ (forall cont, NoDup (default [] (acc.1.2 !! cont)))
  /\ (forall cont cc, cc ∈ default [] (acc.1.2 !! cont) <-> cc ∈ ccs /\ continentOf cc = Some cont)
  /\ acc.2 = filter (fun cc => continentOf cc = None) ccs.

Lemma rollup_step (members : gmap string (list string)) (seen : list string) acc (name : string) :
  rollup_inv seen acc -> rollup_inv (seen ++ [name]) (rollup members acc name).
Proof.
  destruct acc as [[P R] log]. intros (HP & Hnd & HR & HL). simpl in HP, Hnd, HR, HL.
  unfold rollup_inv. rewrite !omap_app.
  assert (rollup members (P, R, log) name = match regionCountry name with
    | None => (P, R, log)
    | Some cc => match continentOf cc with
        | None => (P, R, log ++ [cc])
        | Some cont => (append_at P cont (default [] (members !! name)),
            (if contains (default [] (R !! cont)) cc then R else append_at R cont [cc]), log)
        end
    end) as -> by (unfold rollup, regionCountry; by repeat case_if).
  cbn [omap list_omap]. destruct (regionCountry name) as [cc|]; [|by rewrite !app_nil_r].
  destruct (continentOf cc) as [cont|] eqn:Ec; simpl.
  - rewrite Ec. split_and!.
    + intros c. rewrite append_at_lookup, elem_of_app, list_elem_of_singleton, <- HP. case_decide; naive_solver.
    + intros c. destruct (contains _ cc) eqn:Et; [apply Hnd|]. rewrite append_at_lookup. case_decide as Hd; [|apply Hnd].
      simpl. apply NoDup_app. split_and!; [apply Hnd| |apply NoDup_singleton].
      intros x Hx ->%list_elem_of_singleton. apply contains_spec in Hx. congruence.
    + intros c x. rewrite elem_of_app, list_elem_of_singleton. destruct (contains _ cc) eqn:Et.
      * apply contains_spec, HR in Et. rewrite HR. naive_solver.
      * rewrite append_at_lookup. case_decide as Hd; subst; simpl; rewrite ?elem_of_app, ?list_elem_of_singleton, HR; naive_solver.
    + rewrite filter_app, HL. rewrite (filter_cons_False _ cc); [|congruence]. by rewrite filter_nil, app_nil_r.
  - rewrite Ec, !app_nil_r. split_and!; [done|done| |].
    + intros c x. rewrite HR, elem_of_app, list_elem_of_singleton. naive_solver.
    + rewrite filter_app, HL. by rewrite filter_cons_True.
Qed.

Lemma rollup_foldl (members : gmap string (list string)) (names : list string) :
  rollup_inv names (foldl (rollup members) (∅, ∅, []) names).
Proof.
  cut (forall seen acc, rollup_inv seen acc -> rollup_inv (seen ++ names) (foldl (rollup members) acc names)).
  { intros H. apply (H []). split_and!; simpl.
    - intros cont. rewrite lookup_empty. split; [by intros []|]. by intros ?%elem_of_nil.
    - intros cont. rewrite lookup_empty. constructor.
    - intros cont cc. rewrite lookup_empty. simpl. set_solver.
    - done. }
  induction names as [|n names IH]; intros seen acc H; [by rewrite app_nil_r|].
  cbn [foldl]. rewrite (cons_middle n seen names), app_assoc. by apply IH, rollup_step.
Qed.

(** The groups [AppendContinentGroups] adds. *)
Definition continentGroups (names : list string) (members : gmap string (list string)) (ut : URLTestParams)
    (lb : LoadBalanceParams) : list node :=
  mjoin (map (fun cont => groupPair "continent" cont (continentMembers names members cont) ut lb) (continentsIn names)).

Lemma AppendContinentGroups_eq (groups : list node) (names : list string) (members : gmap string (list string))
    (pg : string) (ut : URLTestParams) (lb : LoadBalanceParams) :
  pg ∈ names_of groups ->
  AppendContinentGroups groups names members pg ut lb =
    (addToSelector groups pg (mjoin (map (pairNames "continent") (continentsIn names)))
       ++ continentGroups names members ut lb,
     filter (fun cc => continentOf cc = None) (omap regionCountry names)).
Proof.
  intros Hpg. unfold AppendContinentGroups.
  pose proof (rollup_foldl members names) as H. destruct (foldl _ _ _) as [[P R] log].
  destruct H as (HP & Hnd & HR & HL). simpl in HP, Hnd, HR, HL.
  assert (sortedCodes P = continentsIn names) as ->.
  { apply sorted_set_eq; [apply NoDup_sortedCodes|apply NoDup_Strings, NoDup_remove_dups|apply sortedCodes_sorted
      |apply Strings_sorted|]. intros cont. unfold continentsIn.
    by rewrite elem_of_sortedCodes, elem_of_Strings, elem_of_remove_dups. }
  assert (map (fun cont => groupPair "continent" cont
            (mjoin (map (fun cc => default [] (members !! ("_region_" +:+ cc))) (Strings (default [] (R !! cont))))) ut lb)
            (continentsIn names)
          = map (fun cont => groupPair "continent" cont (continentMembers names members cont) ut lb) (continentsIn names)) as ->.
  { apply map_ext. intros cont. unfold continentMembers, countriesIn. do 3 f_equal. apply Strings_perm_eq, NoDup_Permutation;
      [apply Hnd|apply NoDup_remove_dups|]. intros cc. rewrite elem_of_remove_dups, list_elem_of_filter, HR. tauto. }
  fold (continentGroups names members ut lb). by rewrite addToSelector_app, HL by done.
Qed.

(** [AppendContinentGroups] adds one url-test and one load-balance group
    per continent that has a region, continents sorted; both list the members
    of the continent's regions, regions sorted by country and each taken once;
    it keeps the other groups, adds every emitted name to the selector, and
    reports the countries without a continent. *)
Theorem AppendContinentGroups_spec (groups : list node) (names : list string) (members : gmap string (list string))
    (pg : string) (ut : URLTestParams) (lb : LoadBalanceParams) :
  all_named groups -> pg ∈ names_of groups -> pg <> "" ->
  let new := continentGroups names members ut lb in
  exists old, AppendContinentGroups groups names members pg ut lb
      = (old ++ new, filter (fun cc => continentOf cc = None) (omap regionCountry names))
    /\ names_of old = names_of groups
    /\ (exists sel, sel ∈ old /\ getMappingField sel "name" = pg /\
          forall x, x ∈ names_of new -> x ∈ mappingMembers sel "proxies")
    /\ NoDup (names_of new).
Proof.
  intros Hw Hpg Hne new. rewrite AppendContinentGroups_eq by done. eexists. split; [reflexivity|].
  destruct (addToSelector_spec groups pg (mjoin (map (pairNames "continent") (continentsIn names))) Hw Hpg Hne)
    as (_ & Hn & Hsel).
  assert (names_of new = mjoin (map (pairNames "continent") (continentsIn names))) as -> by apply names_of_pairs.
  split_and!; [done|done|]. apply NoDup_pairs; [done|apply NoDup_Strings, NoDup_remove_dups].
Qed.

Lemma AppendContinentGroups_spec_witness :
  let members : gmap string (list string) :=
    {["_region_HK" := ["a"; "b"]; "_region_JP" := ["c"]; "_region_US" := ["d"]; "_region_QQ" := ["e"]]} in
  let names := ["_region_JP"; "_region_US"; "_region_QQ"; "_lb_region_JP"; "_region_HK"] in
  map (continentMembers names members) (continentsIn names) = [["a"; "b"; "c"]; ["d"]]
  /\ (AppendContinentGroups [demo_group "Proxies" []] names members "Proxies" demo_ut demo_lb).2 = ["QQ"].
Proof.
  intros members names.
  destruct (AppendContinentGroups_spec [demo_group "Proxies" []] names members "Proxies" demo_ut demo_lb
    ltac:(by repeat constructor) ltac:(by left) ltac:(done)) as (old & H & _).
  split; [by vm_compute|]. exact (f_equal snd H).
Defined.
