(* ===== verification/Pipeline.v ===== *)
(** * internal/merge/pipeline.go: Build

    [Build] composes every step of the package.  The cache and the snapshot
    store are interfaces: the cache is read in two passes, between which a
    background refresh may replace an entry, so it is given as one function per
    pass; the snapshot store is a state with a load and a save.  Structured
    logging is left out. *)
From stdpp Require Import base gmap sets list strings sorting.
From Stdlib Require Import ZArith Lia Ascii.
From S2P Require Import Prelude GoStrings GoSort GoTime GoFloat Headers DailySpend Traffic.
From S2P Require Import Yaml Namespace Subscriptions CustomRules Proxies Rules ProxyGroups Fanout.
From S2P Require Import RuleSet Prune Region.

(** ** The interfaces *)

(** What the pipeline reads of a [*fetcher.UpstreamCachedPayload]: the parsed
    document (an error as [None]) and the captured headers. *)
Record payload := MkPayload {
  plParse : option node;
  plUserinfo : option SubscriptionUserinfo;
  plInterval : option Z
}.
Definition CacheReader : Type := string -> option payload.

(** A store that can be loaded (an error loads as nothing) and saved to. *)
Class Snapshotter (St : Type) := {
  snLoad : St -> option Snapshot;
  snSave : St -> Snapshot -> St
}.

(** [dailyspend.MapSnapshotter] *)
#[export] Instance MapSnapshotter_Snapshotter : Snapshotter MapSnapshotter := {|
  snLoad := MapLoad;
  snSave m s := (MapSave m (Some s)).1
|}.

(** [dailyspend.FileSnapshotter], on a disk whose calls succeed. *)
#[export] Instance FileSnapshotter : Snapshotter snapshotFS := {|
  snLoad fs := (DailySpend.Load fs false).1;
  snSave fs s := (DailySpend.Save fs (Some s) None).1
|}.

(** ** Pipeline *)
Record Pipeline := MkPipeline {
  subscriptions : list SubscriptionRow;
  ownProxies : list node;
  ownGroups : list node;
  defaultProfileUpdateIntervalHours : Z;
  customRules : list CustomRuleSet;
  proxiesGroupName : string;
  fallbackRuleTarget : string;
  urlTestParams : URLTestParams;
  loadBalanceParams : LoadBalanceParams;
  budgetLocation : option Location
}.

Definition NewPipeline (subs : list SubscriptionRow) (ownP ownG : list node) (interval : Z) : Pipeline :=
  MkPipeline subs ownP ownG interval [] "Proxies" "auto"
    (MkURLTest "" 0 0 0 false) (MkLoadBalance "" 0 0 0 false "") None.

Definition WithProxiesGroupName (p : Pipeline) (name : string) : Pipeline :=
  if String.eqb name "" then p
  else MkPipeline (subscriptions p) (ownProxies p) (ownGroups p) (defaultProfileUpdateIntervalHours p)
         (customRules p) name (fallbackRuleTarget p) (urlTestParams p) (loadBalanceParams p) (budgetLocation p).
Definition WithCustomRules (p : Pipeline) (rules : list CustomRuleSet) : Pipeline :=
  MkPipeline (subscriptions p) (ownProxies p) (ownGroups p) (defaultProfileUpdateIntervalHours p)
    rules (proxiesGroupName p) (fallbackRuleTarget p) (urlTestParams p) (loadBalanceParams p) (budgetLocation p).
Definition WithFallbackRuleTarget (p : Pipeline) (target : string) : Pipeline :=
  if String.eqb target "" then p
  else MkPipeline (subscriptions p) (ownProxies p) (ownGroups p) (defaultProfileUpdateIntervalHours p)
         (customRules p) (proxiesGroupName p) target (urlTestParams p) (loadBalanceParams p) (budgetLocation p).
Definition WithURLTestParams (p : Pipeline) (params : URLTestParams) : Pipeline :=
  MkPipeline (subscriptions p) (ownProxies p) (ownGroups p) (defaultProfileUpdateIntervalHours p)
    (customRules p) (proxiesGroupName p) (fallbackRuleTarget p) params (loadBalanceParams p) (budgetLocation p).
Definition WithLoadBalanceParams (p : Pipeline) (params : LoadBalanceParams) : Pipeline :=
  MkPipeline (subscriptions p) (ownProxies p) (ownGroups p) (defaultProfileUpdateIntervalHours p)
    (customRules p) (proxiesGroupName p) (fallbackRuleTarget p) (urlTestParams p) params (budgetLocation p).
Definition WithBudgetLocation (p : Pipeline) (loc : option Location) : Pipeline :=
  MkPipeline (subscriptions p) (ownProxies p) (ownGroups p) (defaultProfileUpdateIntervalHours p)
    (customRules p) (proxiesGroupName p) (fallbackRuleTarget p) (urlTestParams p) (loadBalanceParams p) loc.

Record MergedConfig := MkMerged {
  mcProxies : list node;
  mcProxyGroups : list node;
  mcRuleProviders : option node;
  mcRules : list string;
  mcRulePriorities : list Z;
  mcRuleContributors : list string;
  mcContributingSources : list string;
  mcCollisions : list ProxyCollision;
  mcGroupConflicts : list GroupConflict;
  mcAggregatedSubscriptionUserinfo : SubscriptionUserinfo;
  mcAggregatedProfileUpdateIntervalHours : Z;
  mcServedTrafficHeader : option ServedTrafficHeader
}.

(** ** sortSourcesByPriority *)
Definition rowLess (a b : SubscriptionRow) : bool := (Priority b <? Priority a)%Z.
Definition sortSourcesByPriority (rows : list SubscriptionRow) : list SubscriptionRow :=
  SliceStable rowLess (filter (fun r => Enable r = true) rows).

(** ** The first pass over the cache *)
Record sourceMaps := MkSourceMaps {
  smProxies : gmap string (list node);
  smGroups : gmap string (list node);
  smRules : gmap string (list string);
  smProviders : gmap string node;    (* ruleProvidersPerSource: as fetched *)
  smNsProviders : gmap string node;  (* nsRuleProviders: namespaced *)
  smContributing : list string
}.

Definition scalarValues (content : list node) : list string :=
  map Value (filter (fun n => is_kind ScalarNode n = true) content).

(** [if seq := find(root); seq != nil { m[name] = f(seq) }] *)
Definition insert_some {A B : Type} (name : string) (o : option A) (f : A -> B) (m : gmap string B) : gmap string B :=
  match o with Some x => <[name := f x]> m | None => m end.

(** One row; the error is the name of the source that does not parse. *)
Definition readSource (cache : CacheReader) (acc : sourceMaps) (row : SubscriptionRow) : string + sourceMaps :=
  match cache (Name row) with
  | None => inr acc
  | Some pl =>
      match plParse pl with
      | None => inl (Name row)
      | Some root =>
          let root := docRoot (Some root) in
          inr (MkSourceMaps
            (insert_some (Name row) (findChildSequence root "proxies") Content (smProxies acc))
            (insert_some (Name row) (findChildSequence root "proxy-groups") Content (smGroups acc))
            (insert_some (Name row) (findChildSequence root "rules") (fun seq => scalarValues (Content seq)) (smRules acc))
            (insert_some (Name row) (findChildMapping root "rule-providers") id (smProviders acc))
            (smNsProviders acc)
            (smContributing acc ++ [Name row]))
      end
  end.

Fixpoint readSources (cache : CacheReader) (acc : sourceMaps) (rows : list SubscriptionRow) : string + sourceMaps :=
  match rows with
  | [] => inr acc
  | row :: rows' =>
      match readSource cache acc row with
      | inl e => inl e
      | inr acc' => readSources cache acc' rows'
      end
  end.

(** ** The second pass: headers *)
Definition readHeaders (cache : CacheReader)
    (acc : gmap string SubscriptionUserinfo * gmap string (option Z)) (name : string)
    : gmap string SubscriptionUserinfo * gmap string (option Z) :=
  match cache name with
  | None => acc
  | Some pl => (insert_some name (plUserinfo pl) id acc.1, <[name := plInterval pl]> acc.2)
  end.

(** ** Namespacing of every contributing source *)
Definition namespaceSource (sm : sourceMaps) (name : string) : sourceMaps :=
  let '(ps, gs, rs) := RewriteSource name (lookup_nodes (smProxies sm) name) (lookup_nodes (smGroups sm) name)
                         (lookup_rules (smRules sm) name) in
  let nsProviders :=
    match smProviders sm !! name with
    | Some raw =>
        match (RewriteSourceRuleProviders name (Some raw)).1 with
        | Some ns => <[name := ns]> (smNsProviders sm)
        | None => delete name (smNsProviders sm)
        end
    | None => smNsProviders sm
    end in
  MkSourceMaps (<[name := ps]> (smProxies sm)) (<[name := gs]> (smGroups sm)) (<[name := rs]> (smRules sm))
    (smProviders sm) nsProviders (smContributing sm).

(** Dropping the RULE-SET rules without a provider. *)
Definition dropUnbacked (sm : sourceMaps) (name : string) : sourceMaps :=
  let kept := (DropUnbackedRuleSetRules (lookup_rules (smRules sm) name) (ruleProviderKeys (smNsProviders sm !! name))).1 in
  MkSourceMaps (smProxies sm) (smGroups sm) (<[name := kept]> (smRules sm)) (smProviders sm) (smNsProviders sm)
    (smContributing sm).

(** ** Region and continent groups, as [Build] feeds them *)
Definition startsUnderscore (name : string) : bool := HasPrefix name "_".
Definition upstreamNamed (n : node) : bool :=
  let name := getMappingField n "name" in negb (String.eqb name "") && negb (startsUnderscore name).

(** The region groups present, in order, and their members (the last of two
    groups of one name counts). *)
Definition isRegionGroup (g : node) : bool :=
  let name := getMappingField g "name" in (8 <? String.length name) && String.eqb (str_take 8 name) "_region_".
Definition regionGroupNamesOf (groups : list node) : list string :=
  names_of (filter (fun g => isRegionGroup g = true) groups).
Definition regionGroupMembersOf (groups : list node) : gmap string (list string) :=
  foldl (fun m g => if isRegionGroup g then <[getMappingField g "name" := mappingMembers g "proxies"]> m else m) ∅ groups.

Section build.
Context {U : UnicodeTables} {F : FloatConversion} {St : Type} `{!Snapshotter St}.

(** Groups: merge, selector, regions, continents. *)
Definition buildGroups (p : Pipeline) (groupsPerSource : gmap string (list node)) (contributing : list string)
    (rewrittenOwnGroups mergedProxies : list node) : list node * list GroupConflict :=
  let '(mergedGroups, conflicts) := MergeProxyGroups groupsPerSource contributing rewrittenOwnGroups in
  let allNames := names_of (filter (fun n => upstreamNamed n = true) mergedProxies) in
  let mergedGroups := AppendProxiesGroup mergedGroups allNames (proxiesGroupName p) in
  let upstreamProxies := filter (fun n => upstreamNamed n = true) mergedProxies in
  let mergedGroups := (AppendRegionGroups mergedGroups upstreamProxies (proxiesGroupName p)
                         (urlTestParams p) (loadBalanceParams p)).1 in
  ((AppendContinentGroups mergedGroups (regionGroupNamesOf mergedGroups) (regionGroupMembersOf mergedGroups)
      (proxiesGroupName p) (urlTestParams p) (loadBalanceParams p)).1, conflicts).

(** The traffic header and the store afterwards; [newSnapshot != loadedSnapshot]
    compares pointers: they differ exactly when a snapshot was captured. *)
Definition buildTraffic (p : Pipeline) (userinfo : gmap string SubscriptionUserinfo)
    (order : list (string * SubscriptionUserinfo)) (nowA now : Time) (store : option St)
    : option ServedTrafficHeader * option St :=
  match store with
  | None => (ComposeServedTrafficHeader userinfo order nowA now, None)
  | Some st =>
      let '(header, newSnapshot) :=
        ComposeServedTrafficHeaderWithSpend userinfo order nowA now (snLoad st) (budgetLocation p) in
      match header, newSnapshot with
      | Some h, Some s => (header, Some (if RolloverFired h then snSave st s else st))
      | _, _ => (header, Some st)
      end
  end.

(** [Build]: the parse error of a source, or the merged configuration and the
    snapshot store. *)
Definition Build (p : Pipeline) (cache1 cache2 : CacheReader)
    (order : list (string * SubscriptionUserinfo)) (nowA now : Time) (store : option St)
    : string + MergedConfig * option St :=
  let rows := sortSourcesByPriority (subscriptions p) in
  match readSources cache1 (MkSourceMaps ∅ ∅ ∅ ∅ ∅ []) rows with
  | inl e => inl e
  | inr sm =>
      let contributing := smContributing sm in
      let '(userinfo, intervals) := foldl (readHeaders cache2) (∅, ∅) contributing in
      let sm := foldl namespaceSource sm contributing in
      let sm := foldl dropUnbacked sm contributing in
      let '(ownP, ownG) := RewriteOwn (ownProxies p) (ownGroups p) in
      let '(mergedProxies, collisions) := MergeProxies (smProxies sm) contributing ownP in
      let mergedRules := MergeUnifiedRules (smRules sm) rows (customRules p) (fallbackRuleTarget p) in
      let '(mergedGroups, conflicts) := buildGroups p (smGroups sm) contributing ownG mergedProxies in
      let fanoutProxies := (AppendFanoutProxies ownP mergedGroups (proxiesGroupName p)).1 in
      let '(header, store') := buildTraffic p userinfo order nowA now store in
      let '(prunedGroups, prunedRules, _) :=
        PruneEmptyProxyGroups mergedGroups (mrRules mergedRules) (proxiesGroupName p) (fallbackRuleTarget p) in
      let orderedProviders := map (fun name => smNsProviders sm !! name) contributing in
      let ruleProviders := MergeRuleProviders orderedProviders (ReferencedRuleProviders prunedRules) in
      inr (MkMerged (mergedProxies ++ fanoutProxies) prunedGroups ruleProviders prunedRules
             (mrPriorities mergedRules) (mrContributors mergedRules) contributing collisions conflicts
             (AggregateSubscriptionUserinfo userinfo)
             (AggregateProfileUpdateInterval intervals (defaultProfileUpdateIntervalHours p)) header, store')
  end.

(** ** The traffic views of /health *)
Definition CollectPerSourceUserinfo (p : Pipeline) (cache : CacheReader) : gmap string SubscriptionUserinfo :=
  foldl (fun out row =>
    if Enable row then
      match cache (Name row) with
      | Some pl => insert_some (Name row) (plUserinfo pl) id out
      | None => out
      end
    else out) ∅ (subscriptions p).

Definition Pipeline_ComputeDailyAllowance (p : Pipeline) (cache : CacheReader) (now : Time) : DailyAllowance :=
  ComputeDailyAllowance (CollectPerSourceUserinfo p cache) now.
End build.
