(* ===== verification/Output.v ===== *)
(** * internal/output/subscription_mode.go: rendering the served configuration

    The template is decoded anew for each render, the merged entries replace
    its placeholders, styles, field order and comments are normalised, and the
    encoder's escapes of supplementary-plane runes are undone on the bytes.  The
    YAML decoder and encoder are parameters; [docRoot] and [setMappingValue] of
    this package are those of the merge package ([Yaml]). *)
From stdpp Require Import base gmap sets list strings sorting.
From Stdlib Require Import ZArith Lia Ascii.
From S2P Require Import Prelude GoStrings GoSort Yaml Headers Http Traffic Pipeline.

(** [yaml.NewEncoder] with an indent of two: the error's text, or the bytes. *)
Class YamlEncoder := { yaml_Encode : node -> string + string }.

Record Rendered := MkRendered { Body : string; RenderedHeaders : gmap string string }.

Record SubscriptionMode := MkMode { templateBytes : string }.

Inductive outputError :=
| TemplateUnreadable (e : string)
| TemplateUnparseable (e : string)
| NilConfig
| RootNotAMapping
| EncodeFailed (e : string).

Section construct.
Context {Y : YamlDecoder}.

Definition NewSubscriptionModeFromBytes (template : string) : outputError + SubscriptionMode :=
  match yaml_Unmarshal template with
  | inl e => inl (TemplateUnparseable e)
  | inr _ => inr (MkMode template)
  end.

(** [file] is what reading the template's file gives. *)
Definition NewSubscriptionMode (file : string + string) : outputError + SubscriptionMode :=
  match file with
  | inl e => inl (TemplateUnreadable e)
  | inr b => match yaml_Unmarshal b with inl e => inl (TemplateUnparseable e) | inr _ => inr (MkMode b) end
  end.
End construct.

(** ** Styles and comments *)
Definition set_style (a : attrs) (s : Z) : attrs :=
  match a with MkAttrs k _ t v an al h l f ln co => MkAttrs k s t v an al h l f ln co end.
Definition set_comments (a : attrs) (h l f : string) : attrs :=
  match a with MkAttrs k s t v an al _ _ _ ln co => MkAttrs k s t v an al h l f ln co end.

Fixpoint setFlowStyleRecursive (n : node) : node :=
  match n with
  | Node a c =>
      Node (match aKind a with MappingNode | SequenceNode => set_style a FlowStyle | _ => a end)
        (map setFlowStyleRecursive c)
  end.

Fixpoint resetScalarStyles (n : node) : node :=
  match n with
  | Node a c => Node (match aKind a with ScalarNode => set_style a 0 | _ => a end) (map resetScalarStyles c)
  end.

Fixpoint stripComments (n : node) : node :=
  match n with Node a c => Node (set_comments a "" "" "") (map stripComments c) end.

(** ** Field order *)

(** The position in the slice of the first pair whose key is [key]. *)
Fixpoint keyIndex (key : string) (content : list node) : option nat :=
  match content with
  | k :: _ :: rest => if String.eqb (Value k) key then Some 0 else (fun i => S (S i)) <$> keyIndex key rest
  | _ => None
  end.

(** The search of [reorderNameFirst] passes over the first pair. *)
Definition reorderNameFirst (n : node) : node :=
  if negb (is_kind MappingNode n) then n
  else
    let c := Content n in
    match keyIndex "name" (drop 2 c) with
    | None => n
    | Some j =>
        let i := S (S j) in
        match c !! i, c !! S i with
        | Some key, Some val => set_content n (key :: val :: take i c ++ drop (i + 2) c)
        | _, _ => n
        end
    end.

(** Pairs are exchanged; the slice is never extended. *)
Definition moveFieldToPosition (c : list node) (key : string) (targetPos : nat) : list node :=
  match keyIndex key c with
  | None => c
  | Some i =>
      if i =? targetPos then c
      else if length c <=? targetPos + 1 then c
      else match c !! i, c !! S i, c !! targetPos, c !! S targetPos with
           | Some k, Some v, Some targetKey, Some targetVal =>
               <[S i := targetVal]> (<[i := targetKey]> (<[S targetPos := v]> (<[targetPos := k]> c)))
           | _, _, _, _ => c
           end
  end.

Definition moveFields (c : list node) (moves : list (string * nat)) : list node :=
  foldl (fun c kp => moveFieldToPosition c kp.1 kp.2) c moves.

Definition leadingFields : list (string * nat) := [("name", 0); ("type", 2); ("proxies", 4)].
Definition loadBalanceFields : list (string * nat) :=
  [("url", 6); ("interval", 8); ("lazy", 10); ("strategy", 12); ("timeout", 14); ("max-failed-times", 16)].
Definition urlTestFields : list (string * nat) :=
  [("url", 6); ("interval", 8); ("timeout", 10); ("max-failed-times", 12); ("lazy", 14)].

Definition reorderProxyGroupFields (n : node) : node :=
  if negb (is_kind MappingNode n) || (length (Content n) <? 2) then n
  else
    let c := moveFields (Content n) leadingFields in
    let typeValue := match c !! 3 with Some v => if is_kind ScalarNode v then Value v else "" | None => "" end in
    set_content n (moveFields c (if String.eqb typeValue "load-balance" then loadBalanceFields else urlTestFields)).

(** The node under the first top-level key [key], changed by [f]. *)
Definition onField (key : string) (f : node -> node) (root : node) : node :=
  match update_pair key f (Content root) with Some c => set_content root c | None => root end.

Definition eachProxy (seq : node) : node :=
  if is_kind SequenceNode seq
  then set_content seq (map (fun proxy => reorderNameFirst (setFlowStyleRecursive proxy)) (Content seq))
  else seq.
Definition normalizeProxyStyle (root : node) : node := onField "proxies" eachProxy root.

Definition normalizeGroup (group : node) : node :=
  if is_kind MappingNode group
  then reorderProxyGroupFields (Node (set_style (node_attrs group) 0) (Content group))
  else group.

Definition eachGroup (seq : node) : node :=
  if is_kind SequenceNode seq then set_content seq (map normalizeGroup (Content seq)) else seq.
Definition normalizeProxyGroupStyle (root : node) : node := onField "proxy-groups" eachGroup root.

(** ** Sequences *)
Definition sequenceOfNodes (items : list node) : node := lit SequenceNode "" "!!seq" items.
Definition sequenceOfStrings (items : list string) : node := lit SequenceNode "" "!!seq" (map str_scalar items).

(** ** Priority comments *)

(** How many of the priorities from here on equal [p]. *)
Fixpoint runLength (p : Z) (priorities : list Z) : nat :=
  match priorities with
  | q :: rest => if Z.eqb q p then S (runLength p rest) else 0
  | [] => 0
  end.

(** The names other than the empty one, each once. *)
Fixpoint uniqueNames (seen : gset string) (contributors : list string) : list string :=
  match contributors with
  | [] => []
  | c :: rest =>
      if String.eqb c "" || bool_decide (c ∈ seen) then uniqueNames seen rest
      else c :: uniqueNames ({[c]} ∪ seen) rest
  end.

Definition bucketComment (priority : Z) (contributors : list string) : string :=
  "# --- priority " +:+ Itoa priority +:+ " (" +:+ Join (Strings (uniqueNames ∅ contributors)) ", " +:+ ") ---".

Definition set_head (comment : string) (n : node) : node :=
  match n with Node a c => Node (set_comments a comment (aLineComment a) (aFootComment a)) c end.

(** The loop over the buckets, from the first rule not yet seen; [priorities]
    and [contributors] are cut to the same length. *)
Fixpoint commentBuckets (fuel : nat) (rules : list node) (priorities : list Z) (contributors : list string) : list node :=
  match fuel, rules, priorities with
  | S fuel, r :: rules', p :: priorities' =>
      if Z.eqb p 0 then r :: commentBuckets fuel rules' priorities' (drop 1 contributors)
      else
        let k := runLength p priorities' in
        set_head (bucketComment p (take (S k) contributors)) r
          :: take k rules' ++ commentBuckets fuel (drop k rules') (drop k priorities') (drop (S k) contributors)
  | _, _, _ => rules
  end.

Definition annotateRules (priorities : list Z) (contributors : list string) (seq : node) : node :=
  if negb (is_kind SequenceNode seq) || (length (Content seq) =? 0) then seq
  else
    let n := Nat.min (Nat.min (length (Content seq)) (length priorities)) (length contributors) in
    set_content seq (commentBuckets n (Content seq) (take n priorities) (take n contributors)).
Definition normalizeRulesPriorityComments (priorities : list Z) (contributors : list string) (root : node) : node :=
  onField "rules" (annotateRules priorities contributors) root.

(** ** unescapeSupplementaryPlane *)
Definition backslash : ascii := "\"%char.
Definition dq : ascii := ascii_of_nat 34.

(** The value of a hexadecimal digit. *)
Definition hexVal (b : ascii) : option Z :=
  let z := byte_val b in
  if in_rng 48 z 57 then Some (z - 48)%Z
  else if in_rng 97 z 102 then Some (z - 87)%Z
  else if in_rng 65 z 70 then Some (z - 55)%Z
  else None.

Definition allHex (p : list ascii) : bool := forallb (fun b => match hexVal b with Some _ => true | None => false end) p.

(** [strconv.ParseInt(_, 16, 32)] of hexadecimal digits *)
Definition parseHex32 (p : list ascii) : option Z :=
  let z := foldl (fun acc b => acc * 16 + default 0 (hexVal b))%Z 0%Z p in
  if (z <? 2 ^ 31)%Z then Some z else None.

(** The bytes an escape is replaced by; [None] when it stays. *)
Definition unescaped (p : list ascii) : option string :=
  if allHex p then EncodeRune <$> parseHex32 p else None.

Fixpoint unescapeFrom (inDQ : bool) (body : string) : string :=
  match body with
  | "" => ""
  | String b rest =>
      if negb inDQ then String b (unescapeFrom (Ascii.eqb b dq) rest)
      else if negb (Ascii.eqb b backslash) then String b (unescapeFrom (negb (Ascii.eqb b dq)) rest)
      else match rest with
           | "" => String b ""
           | String next rest' =>
               let verbatim := String b (String next (unescapeFrom true rest')) in
               match rest' with
               | String h1 (String h2 (String h3 (String h4 (String h5 (String h6 (String h7 (String h8 rest''))))))) =>
                   if Ascii.eqb next "U"
                   then match unescaped [h1; h2; h3; h4; h5; h6; h7; h8] with
                        | Some s => s +:+ unescapeFrom true rest''
                        | None => verbatim
                        end
                   else verbatim
               | _ => verbatim
               end
           end
  end.
Definition unescapeSupplementaryPlane (body : string) : string := unescapeFrom false body.

(** ** Render *)
Definition onRoot (f : node -> node) (doc : node) : node :=
  match Kind doc, Content doc with
  | DocumentNode, r :: rest => set_content doc (f r :: rest)
  | _, _ => f doc
  end.

Definition fillTemplate (merged : MergedConfig) (root : node) : node :=
  let root := setMappingValue root "proxies" (sequenceOfNodes (mcProxies merged)) in
  let root := setMappingValue root "proxy-groups" (sequenceOfNodes (mcProxyGroups merged)) in
  let root := setMappingValue root "rules" (sequenceOfStrings (mcRules merged)) in
  match mcRuleProviders merged with
  | Some rp => setMappingValue root "rule-providers" rp
  | None => root
  end.

(** The document given to the encoder. *)
Definition renderDoc (merged : MergedConfig) (doc : node) : node :=
  let doc := onRoot (fillTemplate merged) doc in
  let doc := stripComments doc in
  let doc := onRoot normalizeProxyStyle doc in
  let doc := onRoot normalizeProxyGroupStyle doc in
  let doc := onRoot (normalizeRulesPriorityComments (mcRulePriorities merged) (mcRuleContributors merged)) doc in
  resetScalarStyles doc.

Definition renderHeaders (merged : MergedConfig) : gmap string string :=
  let h := <["Cache-Control" := "no-store, no-cache, must-revalidate"]>
             (<["Content-Type" := "application/yaml; charset=utf-8"]> (∅ : gmap string string)) in
  let h := match mcServedTrafficHeader merged with
           | Some s =>
               let total := if (TotalBytes s =? 0)%Z then DailyAllowanceBytes s else TotalBytes s in
               <["Subscription-Userinfo" := userinfoHeader (MkUserinfo (UploadBytes s) (DownloadBytes s) total (ExpireUnix s))]> h
           | None => h
           end in
  let hours := mcAggregatedProfileUpdateIntervalHours merged in
  if (0 <? hours)%Z then <["Profile-Update-Interval" := Itoa hours]> h else h.

Definition Render {Y : YamlDecoder} {E : YamlEncoder} (s : SubscriptionMode) (merged : option MergedConfig)
    : outputError + Rendered :=
  match merged with
  | None => inl NilConfig
  | Some merged =>
      match yaml_Unmarshal (templateBytes s) with
      | inl e => inl (TemplateUnparseable e)
      | inr doc =>
          match docRoot (Some doc) with
          | Some root =>
              if negb (is_kind MappingNode root) then inl RootNotAMapping
              else match yaml_Encode (renderDoc merged doc) with
                   | inl e => inl (EncodeFailed e)
                   | inr bytes => inr (MkRendered (unescapeSupplementaryPlane bytes) (renderHeaders merged))
                   end
          | None => inl RootNotAMapping
          end
      end
  end.
