(* ===== verification/OutputProofs.v ===== *)
(** * The served document: fields, comments, escapes

    Field order of proxies and groups as permutations of key-value pairs, the
    bucket comments against a reference definition, the escapes against a
    grammar of double-quoted text, and what the rendered document holds. *)
From stdpp Require Import base gmap sets list strings sorting.
From Stdlib Require Import ZArith Lia Ascii.
From S2P Require Import Prelude GoStrings GoSort Yaml Headers Http Traffic Pipeline Output.

Lemma NewSubscriptionMode_parses {Y : YamlDecoder} (file : string + string) (m : SubscriptionMode) :
  NewSubscriptionMode file = inr m -> exists doc, yaml_Unmarshal (templateBytes m) = inr doc.
Proof. unfold NewSubscriptionMode. destruct file as [|b]; [done|]. destruct (yaml_Unmarshal b) as [|doc] eqn:E; [done|]. intros [= <-]. by exists doc. Qed.

(** ** Key-value pairs of a slice *)
Fixpoint pairs_of (c : list node) : list (node * node) :=
  match c with k :: v :: rest => (k, v) :: pairs_of rest | _ => [] end.
Fixpoint unpairs (ps : list (node * node)) : list node :=
  match ps with (k, v) :: ps' => k :: v :: unpairs ps' | [] => [] end.
Definition keysOf (ps : list (node * node)) : list string := map (fun kv => Value kv.1) ps.
(** The fields of a mapping, and their keys. *)
Definition fields (n : node) : list (node * node) := pairs_of (Content n).
Definition keys (n : node) : list string := keysOf (fields n).

Lemma pairs_unpairs (ps : list (node * node)) : pairs_of (unpairs ps) = ps.
Proof. induction ps as [|[k v] ps IH]; [done|]. simpl. by rewrite IH. Qed.

Lemma unpairs_pairs (c : list node) : Nat.even (length c) = true -> unpairs (pairs_of c) = c.
Proof. induction c as [|x|k v rest IH] using pairs_ind; simpl; intros H; [done|done|]. by rewrite IH. Qed.

Lemma unpairs_length (ps : list (node * node)) : length (unpairs ps) = 2 * length ps.
Proof. induction ps as [|[k v] ps IH]; simpl; [done|]. lia. Qed.

Lemma unpairs_app (ps qs : list (node * node)) : unpairs (ps ++ qs) = unpairs ps ++ unpairs qs.
Proof. induction ps as [|[k v] ps IH]; [done|]. simpl. by rewrite IH. Qed.

Lemma unpairs_lookup (ps : list (node * node)) (j : nat) :
  unpairs ps !! (2 * j) = fst <$> ps !! j /\ unpairs ps !! S (2 * j) = snd <$> ps !! j.
Proof.
  revert j. induction ps as [|[k v] ps IH]; intros [|j]; try done.
  replace (2 * S j) with (S (S (2 * j))) by lia. apply IH.
Qed.

Lemma unpairs_insert (ps : list (node * node)) (j : nat) (k v : node) :
  unpairs (<[j := (k, v)]> ps) = <[S (2 * j) := v]> (<[2 * j := k]> (unpairs ps)).
Proof.
  revert j. induction ps as [|[k' v'] ps IH]; intros [|j]; try done.
  replace (2 * S j) with (S (S (2 * j))) by lia. simpl in *. by rewrite IH.
Qed.

(** The index of the first pair with the key. *)
Fixpoint pairIndex (key : string) (ps : list (node * node)) : option nat :=
  match ps with
  | [] => None
  | (k, _) :: ps' => if String.eqb (Value k) key then Some 0 else S <$> pairIndex key ps'
  end.

Lemma keyIndex_unpairs (key : string) (ps : list (node * node)) :
  keyIndex key (unpairs ps) = (fun i => 2 * i) <$> pairIndex key ps.
Proof.
  induction ps as [|[k v] ps IH]; [done|]. simpl. destruct (String.eqb (Value k) key); [done|]. rewrite IH.
  destruct (pairIndex key ps); simpl; f_equal; lia.
Qed.

Lemma pairIndex_Some (key : string) (ps : list (node * node)) (i : nat) :
  pairIndex key ps = Some i -> exists k v, ps !! i = Some (k, v) /\ Value k = key.
Proof.
  revert i. induction ps as [|[k v] ps IH]; intros i; [done|]. simpl. destruct (String.eqb_spec (Value k) key).
  - intros [= <-]. by exists k, v.
  - destruct (pairIndex key ps) as [j|]; [|done]. intros [= <-]. by apply IH.
Qed.

Lemma pairIndex_None (key : string) (ps : list (node * node)) : pairIndex key ps = None <-> key ∉ keysOf ps.
Proof.
  induction ps as [|[k v] ps IH]; [split; [by intros _ ?%elem_of_nil|done]|]. simpl. rewrite not_elem_of_cons.
  destruct (String.eqb_spec (Value k) key) as [E|E]; simpl.
  - split; [done|]. intros [? _]. by rewrite E in *.
  - rewrite fmap_None, IH. split; [intros ?; split; [congruence|done]|by intros [_ ?]].
Qed.

(** ** Exchanging pairs *)
Lemma insert_swap_cons {A : Type} (l : list A) (i : nat) (x y : A) : l !! i = Some x -> x :: <[i := y]> l ≡ₚ y :: l.
Proof.
  revert i. induction l as [|z l IH]; intros [|i] H; try done.
  - injection H as ->. simpl. apply Permutation_swap.
  - simpl. rewrite Permutation_swap, (IH i) by done. apply Permutation_swap.
Qed.

Lemma swap_perm {A : Type} (l : list A) (i j : nat) (x y : A) :
  i <> j -> l !! i = Some x -> l !! j = Some y -> <[i := y]> (<[j := x]> l) ≡ₚ l.
Proof.
  intros Hne Hi Hj. apply (Permutation_cons_inv (a := x)).
  rewrite insert_swap_cons by (by rewrite list_lookup_insert_ne). symmetry. by rewrite <- (insert_swap_cons l j y x).
Qed.

(** [moveFieldToPosition] on pairs. *)
Definition movePair (ps : list (node * node)) (key : string) (j : nat) : list (node * node) :=
  match pairIndex key ps with
  | None => ps
  | Some i =>
      if i =? j then ps
      else match ps !! i, ps !! j with Some a, Some b => <[i := b]> (<[j := a]> ps) | _, _ => ps end
  end.

Lemma move_unpairs (ps : list (node * node)) (key : string) (j : nat) :
  moveFieldToPosition (unpairs ps) key (2 * j) = unpairs (movePair ps key j).
Proof.
  unfold moveFieldToPosition, movePair. rewrite keyIndex_unpairs. destruct (pairIndex key ps) as [i|] eqn:Hi; [|done].
  cbn [fmap option_fmap option_map]. destruct (Nat.eqb_spec i j) as [->|Hne]; [by rewrite Nat.eqb_refl|].
  destruct (Nat.eqb_spec (2 * i) (2 * j)) as [|_]; [lia|]. rewrite unpairs_length.
  destruct (pairIndex_Some _ _ _ Hi) as (k & v & Hk & _). rewrite Hk.
  destruct (unpairs_lookup ps i) as [-> ->], (unpairs_lookup ps j) as [-> ->]. rewrite Hk.
  destruct (ps !! j) as [[k' v']|] eqn:Hj.
  - apply lookup_lt_Some in Hj as Hl. destruct (Nat.leb_spec (2 * length ps) (2 * j + 1)); [lia|]. cbn [fmap option_fmap option_map fst snd].
    by rewrite !unpairs_insert.
  - by case_if.
Qed.

Lemma movePair_perm (ps : list (node * node)) (key : string) (j : nat) : movePair ps key j ≡ₚ ps.
Proof.
  unfold movePair. destruct (pairIndex key ps) as [i|]; [|done]. destruct (Nat.eqb_spec i j); [done|].
  destruct (ps !! i) eqn:Hi; [|done]. destruct (ps !! j) eqn:Hj; [|done]. by apply swap_perm.
Qed.

(** A move brings the key to its position and touches only the key's old one. *)
Lemma movePair_keys (ps : list (node * node)) (key : string) (j : nat) :
  (key ∈ keysOf ps -> j < length ps -> keysOf (movePair ps key j) !! j = Some key)
  /\ forall m k', m <> j -> keysOf ps !! m = Some k' -> k' <> key -> keysOf (movePair ps key j) !! m = Some k'.
Proof.
  unfold movePair. destruct (pairIndex key ps) as [i|] eqn:Hp; [|split; [by apply pairIndex_None in Hp|done]].
  destruct (pairIndex_Some _ _ _ Hp) as (k & v & Hk & Hv).
  assert (keysOf ps !! i = Some key) as Hki by (unfold keysOf; by rewrite list_lookup_fmap, Hk, <- Hv).
  destruct (Nat.eqb_spec i j) as [->|Hne]; [done|]. rewrite Hk. destruct (ps !! j) as [b|] eqn:Hj.
  - apply lookup_lt_Some in Hj as Hl. unfold keysOf in *. rewrite list_fmap_insert. split.
    + intros _ _. rewrite list_lookup_insert_ne, list_fmap_insert by done. rewrite list_lookup_insert_eq by (by rewrite length_fmap). by rewrite <- Hv.
    + intros m k' Hm Hk' Hneq. destruct (decide (m = i)) as [->|Hmi]; [congruence|].
      rewrite list_lookup_insert_ne, list_fmap_insert, list_lookup_insert_ne by congruence. done.
  - split; [|done]. intros _ Hl. apply lookup_ge_None in Hj. lia.
Qed.

(** A sequence of moves. *)
Definition movePairs (ps : list (node * node)) (moves : list (string * nat)) : list (node * node) :=
  foldl (fun ps kj => movePair ps kj.1 kj.2) ps moves.
Definition doubled (moves : list (string * nat)) : list (string * nat) := map (fun kj => (kj.1, 2 * kj.2)) moves.
(** The keys at consecutive positions from [p] on. *)
Definition placed (p : nat) (ks : list string) : list (string * nat) := imap (fun i k => (k, p + i)) ks.

Lemma moveFields_unpairs (ps : list (node * node)) (moves : list (string * nat)) :
  moveFields (unpairs ps) (doubled moves) = unpairs (movePairs ps moves).
Proof. revert ps. induction moves as [|[k j] ms IH]; intros ps; [done|]. cbn [doubled moveFields map foldl fst snd]. rewrite move_unpairs. apply IH. Qed.

Lemma movePairs_perm (ps : list (node * node)) (moves : list (string * nat)) : movePairs ps moves ≡ₚ ps.
Proof. revert ps. induction moves as [|[k j] ms IH]; intros ps; [done|]. simpl. by rewrite IH, movePair_perm. Qed.

Lemma keysOf_perm (ps qs : list (node * node)) : ps ≡ₚ qs -> keysOf ps ≡ₚ keysOf qs.
Proof. apply Permutation_map. Qed.

Lemma length_keysOf (ps : list (node * node)) : length (keysOf ps) = length ps.
Proof. apply length_map. Qed.

(** A prefix of the keys that a move neither names nor aims at stays. *)
Lemma movePair_prefix (ps : list (node * node)) (key : string) (j p : nat) :
  p <= j -> key ∉ take p (keysOf ps) -> take p (keysOf (movePair ps key j)) = take p (keysOf ps).
Proof.
  intros Hj Hk. apply list_eq. intros m. destruct (Nat.lt_ge_cases m p) as [Hm|Hm]; [|by rewrite !lookup_take_ge].
  rewrite !lookup_take_lt by done.
  destruct (keysOf ps !! m) as [k'|] eqn:E.
  - apply (movePair_keys ps key j); [lia|done|]. intros ->. apply Hk, (list_elem_of_lookup_2 _ m). by rewrite lookup_take_lt.
  - apply lookup_ge_None in E. apply lookup_ge_None. rewrite length_keysOf in *. by rewrite movePair_perm.
Qed.

Lemma movePairs_prefix (ps : list (node * node)) (moves : list (string * nat)) (p : nat) :
  Forall (fun kj => p <= kj.2 /\ kj.1 ∉ take p (keysOf ps)) moves ->
  take p (keysOf (movePairs ps moves)) = take p (keysOf ps).
Proof.
  revert ps. induction moves as [|[k j] ms IH]; intros ps; [done|]. intros [[Hj Hk] Hms]%Forall_cons. cbn in Hj, Hk.
  simpl. pose proof (movePair_prefix ps k j p Hj Hk) as E. rewrite IH; [exact E|]. by rewrite E.
Qed.

(** Moving keys to consecutive positions lays them out in that order. *)
Lemma movePairs_layout (ks pre : list string) (ps : list (node * node)) :
  NoDup (keysOf ps) -> NoDup (pre ++ ks) -> take (length pre) (keysOf ps) = pre -> Forall (fun k => k ∈ keysOf ps) ks ->
  take (length (pre ++ ks)) (keysOf (movePairs ps (placed (length pre) ks))) = pre ++ ks.
Proof.
  revert pre ps. induction ks as [|k ks IH]; intros pre ps Hnd Hks Hpre Hin.
  - by rewrite app_nil_r.
  - apply Forall_cons in Hin as [Hk Hin]. unfold placed. cbn [imap]. rewrite Nat.add_0_r. cbn [movePairs foldl fst snd].
    set (ps' := movePair ps k (length pre)).
    assert (keysOf ps' ≡ₚ keysOf ps) as Hperm by apply keysOf_perm, movePair_perm.
    assert (k ∉ pre) as Hkpre.
    { intros H. apply NoDup_app in Hks as (_ & H2 & _). apply (H2 k H). left. }
    assert (length pre < length ps) as Hl.
    { apply list_elem_of_lookup in Hk as [m Hm]. destruct (Nat.lt_ge_cases m (length pre)) as [Hlt|Hge].
      - exfalso. apply Hkpre. rewrite <- Hpre. apply (list_elem_of_lookup_2 _ m). by rewrite lookup_take_lt.
      - apply lookup_lt_Some in Hm. rewrite length_keysOf in Hm. lia. }
    assert (take (length (pre ++ [k])) (keysOf ps') = pre ++ [k]) as Hpre'.
    { rewrite length_app. simpl. rewrite Nat.add_1_r, (take_S_r _ _ k).
      - unfold ps'. rewrite movePair_prefix, Hpre; [done|done|by rewrite Hpre].
      - by apply (proj1 (movePair_keys ps k (length pre))). }
    assert (imap ((fun i x => (x, length pre + i)) ∘ S) ks = placed (length (pre ++ [k])) ks) as ->.
    { apply imap_ext. intros i x _. rewrite length_app. simpl. f_equal. lia. }
    pose proof (IH (pre ++ [k]) ps') as H. rewrite <- app_assoc in H. simpl app in H. apply H; [by rewrite Hperm|done|done|].
    eapply Forall_impl; [exact Hin|]. intros x. simpl. by rewrite Hperm.
Qed.

Lemma find_pair_not_in (key : string) (ok : node -> bool) (ps : list (node * node)) :
  key ∉ keysOf ps -> find_pair key ok (unpairs ps) = None.
Proof.
  induction ps as [|[k v] ps IH]; [done|]. simpl. rewrite not_elem_of_cons. intros [Hne Hin].
  destruct (String.eqb_spec (Value k) key); [congruence|]. by apply IH.
Qed.

Lemma find_pair_unique (key : string) (ok : node -> bool) (ps : list (node * node)) (k v : node) :
  NoDup (keysOf ps) -> (k, v) ∈ ps -> Value k = key ->
  find_pair key ok (unpairs ps) = if ok v then Some v else None.
Proof.
  induction ps as [|[k' v'] ps IH]; [by intros _ ?%elem_of_nil|]. simpl. intros Hnd Hin Hk.
  inversion Hnd as [|? ? Hn Hnd']; subst. apply elem_of_cons in Hin as [[= <- <-]|Hin].
  - rewrite String.eqb_refl. simpl. destruct (ok v); [done|]. by apply find_pair_not_in.
  - destruct (String.eqb_spec (Value k') (Value k)) as [E|_]; [|by apply IH].
    destruct Hn. rewrite E. apply (list_elem_of_fmap_2 (fun kv : node * node => Value kv.1) ps _ Hin).
Qed.

Lemma fields_set (n : node) (ps : list (node * node)) : fields (set_content n (unpairs ps)) = ps.
Proof. apply pairs_unpairs. Qed.

(** ** Proxy groups *)
Definition leadingKeys : list string := ["name"; "type"; "proxies"].
Definition tailKeys (typeValue : string) : list string :=
  if String.eqb typeValue "load-balance"
  then ["url"; "interval"; "lazy"; "strategy"; "timeout"; "max-failed-times"]
  else ["url"; "interval"; "timeout"; "max-failed-times"; "lazy"].

Lemma tail_moves (typeValue : string) :
  (if String.eqb typeValue "load-balance" then loadBalanceFields else urlTestFields) = doubled (placed 3 (tailKeys typeValue)).
Proof. unfold tailKeys. by destruct (String.eqb typeValue "load-balance"). Qed.

Lemma tail_keys (typeValue : string) :
  NoDup (leadingKeys ++ tailKeys typeValue) /\ Forall (fun k => k ∉ leadingKeys) (tailKeys typeValue).
Proof. unfold tailKeys. destruct (String.eqb typeValue "load-balance"); split; apply (bool_decide_unpack _); by vm_compute. Qed.

(** (C24) Rendering a group moves its fields and loses none: the pairs are
    permuted.  When the keys are distinct and name, type and proxies are among
    them, these come first, in that order; when the fields of a load-balance or
    url-test group are all there too, they follow in the order of its type. *)
Theorem reorderProxyGroupFields_spec (g : node) :
  Kind g = MappingNode -> paired g = true ->
  let g' := reorderProxyGroupFields g in
  node_attrs g' = node_attrs g /\ paired g' = true /\ fields g' ≡ₚ fields g
  /\ (NoDup (keys g) -> Forall (fun k => k ∈ keys g) leadingKeys ->
      take 3 (keys g') = leadingKeys
      /\ let order := leadingKeys ++ tailKeys (getMappingField g "type") in
         (Forall (fun k => k ∈ keys g) order -> take (length order) (keys g') = order)).
Proof.
  intros Hk Hp g'. unfold g', reorderProxyGroupFields. rewrite (proj2 (is_kind_true _ _) Hk). cbn [negb orb].
  set (ps := fields g). assert (Content g = unpairs ps) as Hc by (symmetry; by apply unpairs_pairs).
  destruct (Nat.ltb_spec (length (Content g)) 2) as [Hl|_].
  { split_and!; [done..|]. intros _ Hin. exfalso. rewrite Hc, unpairs_length in Hl.
    destruct ps eqn:Eps; [|simpl in Hl; lia]. apply Forall_cons in Hin as [Hin _].
    unfold keys in Hin. fold ps in Hin. rewrite Eps in Hin. by apply elem_of_nil in Hin. }
  rewrite Hc. change leadingFields with (doubled (placed 0 leadingKeys)). rewrite moveFields_unpairs.
  set (ps1 := movePairs ps (placed 0 leadingKeys)).
  set (tv := match unpairs ps1 !! 3 with Some v => if is_kind ScalarNode v then Value v else "" | None => "" end).
  rewrite tail_moves, moveFields_unpairs. set (ps2 := movePairs ps1 (placed 3 (tailKeys tv))).
  assert (ps1 ≡ₚ ps) as H1 by apply movePairs_perm. assert (ps2 ≡ₚ ps1) as H2 by apply movePairs_perm.
  split_and!; [done| |rewrite fields_set; by rewrite H2, H1|].
  { unfold paired. cbn [set_content Content]. rewrite unpairs_length. by rewrite Nat.even_mul. }
  unfold keys. rewrite fields_set. intros Hnd Hin.
  assert (take 3 (keysOf ps1) = leadingKeys) as Hlead.
  { apply (movePairs_layout leadingKeys [] ps); [done| |done|done]. apply (bool_decide_unpack _); by vm_compute. }
  assert (keysOf ps1 ≡ₚ keysOf ps) as Hks1 by by apply keysOf_perm.
  destruct (tail_keys tv) as [Hnd2 Hnot]. split.
  - unfold ps2. rewrite movePairs_prefix; [done|]. rewrite Hlead. unfold placed. apply Forall_forall.
    intros kj (i & k & -> & Hi)%elem_of_lookup_imap. cbn [fst snd]. split; [lia|].
    apply (Forall_lookup_1 _ _ _ _ Hnot Hi).
  - assert (getMappingField g "type" = tv) as ->.
    { unfold getMappingField. rewrite (proj2 (is_kind_true _ _) Hk), Hc.
      assert (keysOf ps1 !! 1 = Some "type") as Ht by (rewrite <- (lookup_take_lt _ 3) by lia; by rewrite Hlead).
      unfold keysOf in Ht. rewrite list_lookup_fmap in Ht. destruct (ps1 !! 1) as [[k v]|] eqn:E1; [|done]. injection Ht as Ht.
      rewrite (find_pair_unique "type" _ ps k v); [|done|rewrite <- H1; by eapply list_elem_of_lookup_2|done].
      unfold tv. destruct (unpairs_lookup ps1 1) as [_ H3]. change (S (2 * 1)) with 3 in H3. rewrite H3, E1. simpl. by destruct (is_kind ScalarNode v). }
    intros Hall. apply Forall_app in Hall as [_ Hall].
    apply (movePairs_layout (tailKeys tv) leadingKeys ps1); [by rewrite Hks1|done|done|].
    apply Forall_forall. intros k Hin2. rewrite Hks1. by apply (proj1 (Forall_forall _ _) Hall).
Qed.

Definition demo_urltest_group : node :=
  lit MappingNode "" "!!map"
    [str_scalar "lazy"; scalar "true" "!!bool"; str_scalar "type"; str_scalar "url-test"; str_scalar "icon"; str_scalar "x";
     str_scalar "name"; str_scalar "Auto"; str_scalar "timeout"; scalar "3000" "!!int"; str_scalar "url"; str_scalar "http://up.example";
     str_scalar "proxies"; lit SequenceNode "" "!!seq" []; str_scalar "max-failed-times"; scalar "3" "!!int";
     str_scalar "interval"; scalar "300" "!!int"].

Lemma reorderProxyGroupFields_spec_witness :
  take 8 (keys (reorderProxyGroupFields demo_urltest_group))
  = ["name"; "type"; "proxies"; "url"; "interval"; "timeout"; "max-failed-times"; "lazy"].
Proof.
  destruct (reorderProxyGroupFields_spec demo_urltest_group eq_refl eq_refl) as (_ & _ & _ & H).
  apply H; apply (bool_decide_unpack _); vm_compute; exact I.
Defined.

(** ** Proxies *)
Lemma pairIndex_bound (key : string) (ps : list (node * node)) (i : nat) : pairIndex key ps = Some i -> i < length ps.
Proof. intros (k & v & H & _)%pairIndex_Some. by eapply lookup_lt_Some. Qed.

Lemma unpairs_take_drop (ps : list (node * node)) (i : nat) :
  take (2 * i) (unpairs ps) = unpairs (take i ps) /\ drop (2 * i) (unpairs ps) = unpairs (drop i ps).
Proof.
  revert i. induction ps as [|[k v] ps IH]; intros [|i]; try done.
  replace (2 * S i) with (S (S (2 * i))) by lia. destruct (IH i) as [H1 H2]. simpl in *. by rewrite H1, H2.
Qed.

(** Rendering a proxy puts its name first and keeps the order of the rest. *)
Lemma reorderNameFirst_spec (p : node) :
  Kind p = MappingNode -> paired p = true ->
  let p' := reorderNameFirst p in
  node_attrs p' = node_attrs p /\ fields p' ≡ₚ fields p
  /\ ("name" ∈ keys p -> exists v rest, fields p' = v :: rest /\ Value v.1 = "name")
  /\ exists l v r, fields p = l ++ v ++ r /\ fields p' = v ++ l ++ r.
Proof.
  intros Hk Hp p'. unfold p', reorderNameFirst. rewrite (proj2 (is_kind_true _ _) Hk). cbn [negb].
  unfold keys. set (ps := fields p). assert (Content p = unpairs ps) as Hc by (symmetry; by apply unpairs_pairs).
  rewrite Hc. destruct (unpairs_take_drop ps 1) as [_ Hd]. change (2 * 1) with 2 in Hd. rewrite Hd, keyIndex_unpairs.
  destruct (pairIndex "name" (drop 1 ps)) as [j|] eqn:Hj; cbn [fmap option_fmap option_map].
  - destruct (pairIndex_Some _ _ _ Hj) as (k & v & Hkv & Hname). rewrite lookup_drop in Hkv.
    replace (S (S (2 * j))) with (2 * (1 + j)) by lia. destruct (unpairs_lookup ps (1 + j)) as [-> ->]. rewrite Hkv.
    cbn [fmap option_fmap option_map fst snd]. replace (2 * (1 + j) + 2) with (2 * (2 + j)) by lia.
    destruct (unpairs_take_drop ps (1 + j)) as [-> _], (unpairs_take_drop ps (2 + j)) as [_ ->].
    change (k :: v :: unpairs (take (1 + j) ps) ++ unpairs (drop (2 + j) ps))
      with (unpairs [(k, v)] ++ unpairs (take (1 + j) ps) ++ unpairs (drop (2 + j) ps)).
    rewrite <- !unpairs_app, fields_set. assert (ps = take (1 + j) ps ++ [(k, v)] ++ drop (2 + j) ps) as Hsplit.
    { rewrite <- (take_drop_middle ps (1 + j) (k, v)) at 1 by done. done. }
    split_and!; [done| |by intros _; exists (k, v); eexists|by exists (take (1 + j) ps), [(k, v)], (drop (2 + j) ps)].
    rewrite Hsplit at 3. rewrite Permutation_app_comm, <- app_assoc. apply Permutation_app_head, Permutation_app_comm.
  - split_and!; [done|done| |by exists [], [], ps]. intros Hin. fold ps. destruct ps as [|[k v] rest] eqn:Eps; [by apply elem_of_nil in Hin|].
    apply pairIndex_None in Hj. simpl in Hin. apply elem_of_cons in Hin as [Hin|Hin]; [|done]. by exists (k, v), rest.
Qed.

(** ** Priority comments *)
Lemma runLength_spec (p : Z) (l : list Z) :
  runLength p l <= length l /\ (forall i, i < runLength p l -> l !! i = Some p) /\ l !! runLength p l <> Some p.
Proof.
  induction l as [|q l (H1 & H2 & H3)]; simpl; [split_and!; [lia|lia|done]|].
  destruct (Z.eqb_spec q p) as [->|Hne]; split_and!; [lia| |done|lia|lia|simpl; congruence].
  intros [|i] Hi; [done|]. simpl. apply H2. lia.
Qed.

Lemma uniqueNames_spec (seen : gset string) (l : list string) :
  NoDup (uniqueNames seen l) /\ forall x, x ∈ uniqueNames seen l <-> x ∈ l /\ x <> "" /\ x ∉ seen.
Proof.
  revert seen. induction l as [|c l IH]; intros seen; simpl.
  - split; [constructor|]. intros x. split; [by intros ?%elem_of_nil|by intros [?%elem_of_nil _]].
  - destruct (String.eqb_spec c "") as [->|Hc]; cbn [orb].
    + destruct (IH seen) as [Hnd H]. split; [done|]. intros x. rewrite H. set_solver.
    + case_bool_decide as Hs.
      * destruct (IH seen) as [Hnd H]. split; [done|]. intros x. rewrite H. set_solver.
      * destruct (IH ({[c]} ∪ seen)) as [Hnd H]. split.
        -- constructor; [|done]. rewrite H. set_solver.
        -- intros x. rewrite elem_of_cons, H. destruct (decide (x = c)); set_solver.
Qed.

(** The reference definition: a rule starts a bucket when its priority is not
    zero and differs from that of the rule before it; its comment then names the
    contributors of the run of rules of that priority. *)
Definition annotated (priorities : list Z) (contributors : list string) (i : nat) (r : node) : node :=
  match priorities !! i with
  | None => r
  | Some p =>
      if (p =? 0)%Z || match i with O => false | S j => bool_decide (priorities !! j = Some p) end then r
      else set_head (bucketComment p (take (S (runLength p (drop (S i) priorities))) (drop i contributors))) r
  end.

(** Past the end of a run, the annotations are those of the rest. *)
Lemma annotated_drop (p : Z) (ps : list Z) (cs : list string) (k i : nat) (r : node) :
  (forall j, j < k -> ps !! j = Some p) -> (ps !! k <> Some p \/ p = 0%Z) ->
  annotated (p :: ps) cs (S (k + i)) r = annotated (drop k ps) (drop (S k) cs) i r.
Proof.
  intros Hrun Hend. unfold annotated. cbn [lookup list_lookup]. fold (ps !! (k + i)). rewrite lookup_drop.
  destruct (ps !! (k + i)) as [q|] eqn:Hq; [|done]. destruct i as [|i].
  - rewrite Nat.add_0_r in *. assert (bool_decide ((p :: ps) !! k = Some q) && negb (q =? 0)%Z = false) as Hb.
    { destruct (decide ((p :: ps) !! k = Some q)) as [E|E]; [|by rewrite bool_decide_false].
      assert (p = q) as -> by (destruct k; [by injection E|]; change (ps !! k = Some q) in E; rewrite (Hrun k) in E by lia; by injection E).
      destruct Hend as [Hne| ->]; [by destruct Hne|]. by rewrite andb_false_r. }
    destruct (q =? 0)%Z; [done|]. cbn [negb] in Hb. rewrite andb_true_r in Hb. rewrite Hb.
    cbn [orb drop]. rewrite !drop_drop. by rewrite Nat.add_0_r, Nat.add_1_r.
  - replace (k + S i) with (S (k + i)) in * by lia. cbn [lookup list_lookup]. fold (ps !! (k + i)). rewrite lookup_drop.
    cbn [drop]. rewrite !drop_drop. replace (k + S (S i)) with (S (S (k + i))) by lia.
    by replace (S k + S i) with (S (S (k + i))) by lia.
Qed.

Lemma annotated_run (p : Z) (ps : list Z) (cs : list string) (i : nat) (r : node) :
  i < runLength p ps -> annotated (p :: ps) cs (S i) r = r.
Proof.
  intros Hi. destruct (runLength_spec p ps) as (_ & Hrun & _). unfold annotated. cbn [lookup list_lookup]. fold (ps !! i).
  rewrite Hrun by done. rewrite bool_decide_true; [by rewrite orb_true_r|]. destruct i; [done|]. apply Hrun. lia.
Qed.

Lemma imap_id {A : Type} (f : nat -> A -> A) (l : list A) : (forall i x, l !! i = Some x -> f i x = x) -> imap f l = l.
Proof.
  revert f. induction l as [|x l IH]; intros f H; [done|]. cbn [imap]. rewrite (H 0 x) by done. f_equal. apply IH.
  intros i y Hy. by apply (H (S i)).
Qed.

(** (C25) The loop over the priority buckets computes the reference annotation:
    the first rule of every run of equal non-zero priorities, and no other rule,
    gets a head comment, and it names the contributors of exactly that run. *)
Theorem commentBuckets_spec (fuel : nat) (rules : list node) (priorities : list Z) (contributors : list string) :
  length priorities <= fuel -> length priorities <= length rules ->
  commentBuckets fuel rules priorities contributors = imap (annotated priorities contributors) rules.
Proof.
  revert rules priorities contributors. induction fuel as [|fuel IH]; intros rules ps cs Hf Hl.
  { destruct ps; [|simpl in Hf; lia]. symmetry. by apply imap_id. }
  destruct ps as [|p ps]; [destruct rules; symmetry; by apply imap_id|]. destruct rules as [|r rules]; [simpl in Hl; lia|].
  cbn [length] in Hf, Hl. cbn [commentBuckets imap]. destruct (Z.eqb_spec p 0) as [->|Hp].
  - rewrite IH by lia. f_equal. apply imap_ext. intros i x _. symmetry.
    apply (annotated_drop 0 ps cs 0 i x); [lia|by right].
  - destruct (runLength_spec p ps) as (Hk & Hrun & Hend). set (k := runLength p ps) in *.
    rewrite IH by (rewrite !length_drop; lia). f_equal.
    { unfold annotated. cbn [lookup list_lookup]. by destruct (Z.eqb_spec p 0). }
    rewrite <- (take_drop k rules) at 3. rewrite imap_app, length_take_le by lia. f_equal.
    + symmetry. apply imap_id. intros i x Hi. apply annotated_run. apply lookup_lt_Some in Hi. rewrite length_take_le in Hi; lia.
    + apply imap_ext. intros i x _. symmetry. apply (annotated_drop p ps cs k i x); [done|by left].
Qed.

Lemma commentBuckets_spec_witness :
  map HeadComment (commentBuckets 4 (map str_scalar ["a"; "b"; "c"; "MATCH"]) [7; 7; 5; 0]%Z ["two"; "one"; "two"; ""])
  = ["# --- priority 7 (one, two) ---"; ""; "# --- priority 5 (two) ---"; ""].
Proof.
  rewrite (commentBuckets_spec 4 (map str_scalar ["a"; "b"; "c"; "MATCH"]) [7; 7; 5; 0]%Z ["two"; "one"; "two"; ""]);
    [vm_compute; reflexivity|simpl; lia|simpl; lia].
Defined.

(** ** Escapes *)

(** The text of a double-quoted scalar, item by item. *)
Inductive dqItem :=
| DqByte (b : ascii)              (** a byte that is neither a quote nor a backslash *)
| DqEscape (next : ascii)         (** an escape other than [\U] *)
| DqRune (hex : list ascii).      (** [\U] and eight hexadecimal digits *)

Definition item_ok (i : dqItem) : Prop :=
  match i with
  | DqByte b => b <> dq /\ b <> backslash
  | DqEscape next => next <> "U"%char
  | DqRune hex => length hex = 8 /\ allHex hex = true /\ parseHex32 hex <> None
  end.
Definition bytesOf (l : list ascii) : string := foldr String "" l.
Definition emitted (i : dqItem) : string :=
  match i with
  | DqByte b => String b ""
  | DqEscape next => String backslash (String next "")
  | DqRune hex => String backslash (String "U" (bytesOf hex))
  end.
Definition readable (i : dqItem) : string :=
  match i with
  | DqByte b => String b ""
  | DqEscape next => String backslash (String next "")
  | DqRune hex => EncodeRune (default 0%Z (parseHex32 hex))
  end.

(** A document: text without quotes, double-quoted scalars, a last text. *)
Definition segments := list (string * list dqItem).
Definition printed (item : dqItem -> string) (segs : segments) (last : string) : string :=
  foldr (fun seg s => seg.1 +:+ String dq (foldr (fun i s => item i +:+ s) (String dq s) seg.2)) last segs.

Lemma unescape_plain (plain s : string) :
  byte_free dq plain = true ->
  unescapeFrom false plain = plain
  /\ unescapeFrom false (plain +:+ String dq s) = plain +:+ String dq (unescapeFrom true s).
Proof.
  induction plain as [|c plain IH]; intros Hf; [done|].
  change (byte_free dq (String c plain)) with (negb (Ascii.eqb c dq) && byte_free dq plain) in Hf.
  apply andb_true_iff in Hf as [Hc Hf]. apply negb_true_iff in Hc. destruct (IH Hf) as [H1 H2]. rewrite str_app_cons.
  cbn [unescapeFrom negb]. rewrite Hc, H1, H2. done.
Qed.

Lemma unescape_pair (next : ascii) (rest : string) :
  next <> "U"%char ->
  unescapeFrom true (String backslash (String next rest)) = String backslash (String next (unescapeFrom true rest)).
Proof.
  intros Hn. cbn [unescapeFrom negb]. rewrite Ascii.eqb_refl. cbn [negb].
  destruct (Ascii.eqb_spec next "U"); [done|]. do 8 (destruct rest as [|? rest]; [done|]). done.
Qed.

Lemma unescape_rune (h1 h2 h3 h4 h5 h6 h7 h8 : ascii) (t rest : string) :
  unescaped [h1; h2; h3; h4; h5; h6; h7; h8] = Some t ->
  unescapeFrom true (String backslash (String "U" (bytesOf [h1; h2; h3; h4; h5; h6; h7; h8] +:+ rest)))
  = t +:+ unescapeFrom true rest.
Proof.
  intros H. transitivity (match unescaped [h1; h2; h3; h4; h5; h6; h7; h8] with
    | Some s => s +:+ unescapeFrom true rest
    | None => String backslash (String "U" (unescapeFrom true (bytesOf [h1; h2; h3; h4; h5; h6; h7; h8] +:+ rest)))
    end); [reflexivity|by rewrite H].
Qed.

Lemma unescape_item (i : dqItem) (s : string) :
  item_ok i -> unescapeFrom true (emitted i +:+ s) = readable i +:+ unescapeFrom true s.
Proof.
  destruct i as [b|next|hex]; cbn [item_ok emitted readable]; rewrite ?str_app_cons.
  - intros [Hq Hb]. cbn [unescapeFrom negb]. destruct (Ascii.eqb_spec b backslash); [done|]. destruct (Ascii.eqb_spec b dq); done.
  - apply unescape_pair.
  - intros (Hl & Hh & Hp). do 8 (destruct hex as [|? hex]; [done|]). destruct hex; [|done].
    apply unescape_rune. unfold unescaped. rewrite Hh. destruct (parseHex32 _); done.
Qed.

Lemma unescape_quoted (items : list dqItem) (s : string) :
  Forall item_ok items ->
  unescapeFrom true (foldr (fun i s => emitted i +:+ s) (String dq s) items)
  = foldr (fun i s => readable i +:+ s) (String dq (unescapeFrom false s)) items.
Proof. induction 1 as [|i items Hi _ IH]; [done|]. cbn [foldr]. by rewrite unescape_item, IH. Qed.

(** (C26) On a document whose quotes are those of double-quoted scalars, the
    supplementary-plane escapes of these scalars, and nothing else, are replaced
    by the UTF-8 bytes of the rune: other text and other escapes, an escaped
    backslash before a [U] included, come out byte for byte. *)
Theorem unescapeSupplementaryPlane_spec (segs : segments) (last : string) :
  Forall (fun seg => byte_free dq seg.1 = true /\ Forall item_ok seg.2) segs -> byte_free dq last = true ->
  unescapeSupplementaryPlane (printed emitted segs last) = printed readable segs last.
Proof.
  intros Hs Hl. unfold unescapeSupplementaryPlane. induction Hs as [|[plain items] segs [Hp Hi] _ IH]; cbn [printed foldr fst snd].
  - by apply (unescape_plain last "").
  - fold (printed emitted segs last). fold (printed readable segs last).
    rewrite (proj2 (unescape_plain plain _ Hp)), unescape_quoted by done. by rewrite IH.
Qed.

Lemma unescapeSupplementaryPlane_spec_witness :
  unescapeSupplementaryPlane
    (printed emitted [("name: ", [DqEscape backslash; DqByte "U"; DqRune (["0";"0";"0";"1";"F";"6";"8";"0"]%char)])] " end")
  = printed readable [("name: ", [DqEscape backslash; DqByte "U"; DqRune (["0";"0";"0";"1";"F";"6";"8";"0"]%char)])] " end".
Proof.
  apply (unescapeSupplementaryPlane_spec [("name: ", [DqEscape backslash; DqByte "U"; DqRune (["0";"0";"0";"1";"F";"6";"8";"0"]%char)])] " end");
    [|reflexivity].
  repeat constructor; vm_compute; congruence.
Defined.

(** A quote in a plain scalar is taken for the start of a double-quoted one:
    text after it that looks like an escape is rewritten. *)
Example unescape_plain_quote :
  unescapeSupplementaryPlane ("- a" +:+ String dq "b\U0001F680") = "- a" +:+ String dq ("b" +:+ EncodeRune 128640).
Proof. reflexivity. Qed.

(** ** The rendered document *)
Lemma keys_content (n m : node) : Content n = Content m -> keys n = keys m.
Proof. intros H. unfold keys, fields. by rewrite H. Qed.

Lemma find_pair_map (f : node -> node) (key : string) (c : list node) :
  (forall n, Value (f n) = Value n) -> find_pair key (fun _ => true) (map f c) = f <$> find_pair key (fun _ => true) c.
Proof.
  intros Hf. induction c as [|x|k v c IH] using pairs_ind; [done|done|]. simpl. rewrite Hf.
  destruct (String.eqb (Value k) key); simpl; done.
Qed.

Lemma keysOf_map (f : node -> node) (c : list node) :
  (forall n, Value (f n) = Value n) -> keysOf (pairs_of (map f c)) = keysOf (pairs_of c).
Proof. intros Hf. induction c as [|x|k v c IH] using pairs_ind; [done|done|]. simpl. by rewrite Hf, IH. Qed.

Lemma keysOf_update (key : string) (f : node -> node) (c c' : list node) :
  update_pair key f c = Some c' -> keysOf (pairs_of c') = keysOf (pairs_of c).
Proof.
  revert c'. induction c as [|x|k v c IH] using pairs_ind; intros c'; simpl; try done.
  destruct (String.eqb (Value k) key); [by intros [= <-]|]. destruct (update_pair key f c); [|done].
  intros [= <-]. simpl. by rewrite IH.
Qed.

Lemma onField_spec (key : string) (f : node -> node) (n : node) :
  Kind (onField key f n) = Kind n /\ keys (onField key f n) = keys n
  /\ forall k, getMappingNode (onField key f n) k = if decide (k = key) then f <$> getMappingNode n k else getMappingNode n k.
Proof.
  unfold onField. destruct (update_pair key f (Content n)) as [c|] eqn:E.
  - split_and!; [done|by eapply keysOf_update|]. intros k. unfold getMappingNode.
    change (is_kind MappingNode (set_content n c)) with (is_kind MappingNode n). cbn [set_content Content].
    destruct (is_kind MappingNode n); [|by case_decide]. case_decide as H.
    + subst k. by rewrite (find_pair_update_same _ _ _ _ E).
    + by rewrite (find_pair_update_other key k _ f _ _ ltac:(congruence) E).
  - split_and!; [done|done|]. intros k. case_decide as H; [subst k|done]. apply update_pair_None in E.
    unfold getMappingNode. rewrite E. by destruct (is_kind MappingNode n).
Qed.

(** A change of every node that keeps kinds and values. *)
Definition treeMap (g : attrs -> attrs) (f : node -> node) : Prop :=
  (forall a, aKind (g a) = aKind a /\ aValue (g a) = aValue a) /\ forall n, f n = Node (g (node_attrs n)) (map f (Content n)).

Lemma treeMap_spec (g : attrs -> attrs) (f : node -> node) (n : node) :
  treeMap g f ->
  Kind (f n) = Kind n /\ Value (f n) = Value n /\ keys (f n) = keys n
  /\ forall k, getMappingNode (f n) k = f <$> getMappingNode n k.
Proof.
  intros [Hg Hf]. assert (forall m, Kind (f m) = Kind m /\ Value (f m) = Value m) as Hkv.
  { intros m. rewrite Hf. unfold Kind, Value. cbn [node_attrs]. apply Hg. }
  split_and!; [apply Hkv|apply Hkv| |].
  - unfold keys, fields. rewrite Hf. cbn [Content]. apply keysOf_map. apply Hkv.
  - intros k. unfold getMappingNode, is_kind. rewrite (proj1 (Hkv n)). case_bool_decide; [|done]. rewrite Hf at 1.
    cbn [Content]. apply find_pair_map. apply Hkv.
Qed.

Lemma stripComments_tree : treeMap (fun a => set_comments a "" "" "") stripComments.
Proof. split; [by intros []|by intros []]. Qed.
Lemma resetScalarStyles_tree :
  treeMap (fun a => match aKind a with ScalarNode => set_style a 0 | _ => a end) resetScalarStyles.
Proof. split; [by intros [[] ? ? ? ? ? ? ? ? ? ?]|by intros []]. Qed.

(** The template's entries that [fillTemplate] sets, in order. *)
Definition entries (merged : MergedConfig) : list (string * node) :=
  [("proxies", sequenceOfNodes (mcProxies merged)); ("proxy-groups", sequenceOfNodes (mcProxyGroups merged));
   ("rules", sequenceOfStrings (mcRules merged))]
  ++ match mcRuleProviders merged with Some rp => [("rule-providers", rp)] | None => [] end.

Lemma fillTemplate_entries (merged : MergedConfig) (root : node) :
  fillTemplate merged root = foldl (fun n kv => setMappingValue n kv.1 kv.2) root (entries merged).
Proof. unfold fillTemplate, entries. by destruct (mcRuleProviders merged). Qed.

Lemma entries_distinct (merged : MergedConfig) : NoDup (entries merged).*1.
Proof. unfold entries. destruct (mcRuleProviders merged); apply (bool_decide_unpack _); by vm_compute. Qed.

Lemma keys_setMappingValue (n : node) (key : string) (v : node) :
  Kind n = MappingNode -> paired n = true ->
  keys (setMappingValue n key v) = keys n ++ (if decide (key ∈ keys n) then [] else [key]).
Proof.
  intros Hk Hp. unfold setMappingValue. rewrite (proj2 (is_kind_true _ _) Hk).
  assert (forall c, Nat.even (length c) = true ->
    match update_pair key (fun _ => v) c with
    | Some c' => keysOf (pairs_of c') = keysOf (pairs_of c) /\ key ∈ keysOf (pairs_of c)
    | None => keysOf (pairs_of (c ++ [str_scalar key; v])) = keysOf (pairs_of c) ++ [key] /\ key ∉ keysOf (pairs_of c)
    end) as H.
  { induction c as [|x|k w c IH] using pairs_ind; intros Hc; [by split; [|apply not_elem_of_nil]|done|]. specialize (IH Hc).
    simpl. destruct (String.eqb_spec (Value k) key) as [E|E]; simpl; [rewrite E; split; [done|left]|].
    destruct (update_pair key _ c); simpl; destruct IH as [IH1 IH2]; rewrite IH1.
    - split; [done|by right].
    - split; [done|]. rewrite not_elem_of_cons. split; [congruence|done]. }
  specialize (H (Content n) Hp). destruct (update_pair key (fun _ => v) (Content n)) as [c'|]; destruct H as [H1 H2].
  - rewrite decide_True by exact H2. rewrite app_nil_r. exact H1.
  - rewrite decide_False by exact H2. exact H1.
Qed.

Lemma filter_ext_in {A : Type} (P Q : A -> Prop) `{!forall x, Decision (P x), !forall x, Decision (Q x)} (l : list A) :
  (forall x, x ∈ l -> P x <-> Q x) -> filter P l = filter Q l.
Proof.
  induction l as [|x l IH]; intros Hpq; [done|]. rewrite !filter_cons. rewrite IH by (intros y Hy; apply Hpq; by right).
  pose proof (Hpq x ltac:(left)). case_decide; case_decide; tauto.
Qed.

Lemma setMappingValues_spec (kvs : list (string * node)) (n : node) :
  Kind n = MappingNode -> paired n = true -> NoDup kvs.*1 ->
  let n' := foldl (fun n kv => setMappingValue n kv.1 kv.2) n kvs in
  Kind n' = MappingNode /\ paired n' = true
  /\ keys n' = keys n ++ filter (fun k => k ∉ keys n) kvs.*1
  /\ (forall k v, (k, v) ∈ kvs -> getMappingNode n' k = Some v)
  /\ (forall k, k ∉ kvs.*1 -> getMappingNode n' k = getMappingNode n k).
Proof.
  revert n. induction kvs as [|[key v] kvs IH]; intros n Hk Hp Hnd; cbn [foldl fst snd].
  { split_and!; [done|done|by rewrite app_nil_r|by intros ? ? ?%elem_of_nil|done]. }
  cbn [fmap list_fmap] in *. inversion Hnd as [|? ? Hn Hnd']; subst.
  destruct (IH (setMappingValue n key v)) as (H1 & H2 & H3 & H4 & H5);
    [by rewrite Kind_setMappingValue|by rewrite paired_setMappingValue|done|].
  split_and!; [done|done| | |].
  - rewrite H3, keys_setMappingValue by done. rewrite filter_cons, <- app_assoc. f_equal.
    assert (filter (fun k => k ∉ keys n ++ (if decide (key ∈ keys n) then [] else [key])) kvs.*1 = filter (fun k => k ∉ keys n) kvs.*1) as ->.
    { apply filter_ext_in. intros k Hin. rewrite elem_of_app. case_decide; [set_solver|].
      assert (k <> key) by (by intros ->). set_solver. }
    case_decide; case_decide; set_solver.
  - intros k w [[= -> ->]|Hin]%elem_of_cons; [|by apply H4].
    rewrite H5 by done. by apply getMappingNode_setValue_same.
  - intros k [Hne Hin]%not_elem_of_cons. rewrite H5 by done. by apply getMappingNode_setValue_other; [cbn in Hne; congruence|].
Qed.

Lemma onRoot_root (f : node -> node) (doc root : node) :
  docRoot (Some doc) = Some root -> Kind root = MappingNode -> Kind (f root) = MappingNode ->
  docRoot (Some (onRoot f doc)) = Some (f root).
Proof.
  intros Hd Hk Hf. assert (docRoot (Some (f root)) = Some (f root)) as Hfr by (unfold docRoot; by rewrite Hf).
  unfold docRoot, onRoot in *. destruct (Kind doc) eqn:Hkd; try (by injection Hd as ->).
  destruct (Content doc) as [|r rest] eqn:Hc; injection Hd as ->; [congruence|].
  change (Kind (set_content doc (f root :: rest))) with (Kind doc). by rewrite Hkd.
Qed.

Lemma treeMap_root (g : attrs -> attrs) (f : node -> node) (doc root : node) :
  treeMap g f -> docRoot (Some doc) = Some root -> docRoot (Some (f doc)) = Some (f root).
Proof.
  intros Hf. unfold docRoot. rewrite (proj1 (treeMap_spec _ _ doc Hf)).
  assert (Content (f doc) = map f (Content doc)) as -> by (by rewrite (proj2 Hf doc)).
  destruct (Kind doc), (Content doc); cbn [map]; by intros [= <-].
Qed.

(** The root of the rendered document. *)
Definition renderRoot (merged : MergedConfig) (root : node) : node :=
  resetScalarStyles (normalizeRulesPriorityComments (mcRulePriorities merged) (mcRuleContributors merged)
    (normalizeProxyGroupStyle (normalizeProxyStyle (stripComments (fillTemplate merged root))))).

Lemma renderDoc_root (merged : MergedConfig) (doc root : node) :
  docRoot (Some doc) = Some root -> Kind root = MappingNode -> paired root = true ->
  docRoot (Some (renderDoc merged doc)) = Some (renderRoot merged root).
Proof.
  intros Hd Hk Hp. unfold renderDoc, renderRoot.
  assert (Kind (fillTemplate merged root) = MappingNode) as H1.
  { rewrite fillTemplate_entries. by apply setMappingValues_spec; [done|done|apply entries_distinct]. }
  assert (Kind (stripComments (fillTemplate merged root)) = MappingNode) as H2 by (by rewrite (proj1 (treeMap_spec _ _ _ stripComments_tree))).
  assert (forall n, Kind n = MappingNode -> Kind (normalizeProxyStyle n) = MappingNode) as H3 by (intros n Hn; unfold normalizeProxyStyle; by rewrite (proj1 (onField_spec _ _ _))).
  assert (forall n, Kind n = MappingNode -> Kind (normalizeProxyGroupStyle n) = MappingNode) as H4 by (intros n Hn; unfold normalizeProxyGroupStyle; by rewrite (proj1 (onField_spec _ _ _))).
  assert (forall a b n, Kind n = MappingNode -> Kind (normalizeRulesPriorityComments a b n) = MappingNode) as H5
    by (intros a b n Hn; unfold normalizeRulesPriorityComments; by rewrite (proj1 (onField_spec _ _ _))).
  eapply treeMap_root; [apply resetScalarStyles_tree|]. repeat (apply onRoot_root; [|by auto|by auto]).
  eapply treeMap_root; [apply stripComments_tree|]. by apply onRoot_root.
Qed.

Lemma map_imap {A B C : Type} (f : B -> C) (g : nat -> A -> B) (l : list A) : map f (imap g l) = imap (fun i x => f (g i x)) l.
Proof. revert g. induction l as [|x l IH]; intros g; [done|]. simpl. f_equal. apply IH. Qed.

Lemma strip_rules (rules : list string) : stripComments (sequenceOfStrings rules) = sequenceOfStrings rules.
Proof. unfold sequenceOfStrings, lit. cbn [stripComments]. f_equal. rewrite map_map. apply map_ext. done. Qed.

Lemma reset_annotated (ps : list Z) (cs : list string) (i : nat) (r : string) :
  resetScalarStyles (annotated ps cs i (str_scalar r)) = annotated ps cs i (str_scalar r).
Proof. unfold annotated. repeat case_match; done. Qed.

Lemma entries_elem (merged : MergedConfig) :
  ("proxies", sequenceOfNodes (mcProxies merged)) ∈ entries merged
  /\ ("proxy-groups", sequenceOfNodes (mcProxyGroups merged)) ∈ entries merged
  /\ ("rules", sequenceOfStrings (mcRules merged)) ∈ entries merged
  /\ forall rp, mcRuleProviders merged = Some rp -> ("rule-providers", rp) ∈ entries merged.
Proof.
  unfold entries. cbn [app]. split_and!; [left|right; left|right; right; left|].
  intros rp ->. right. right. right. left.
Qed.

Lemma entries_keys (merged : MergedConfig) (k : string) :
  k ∉ ["proxies"; "proxy-groups"; "rules"] -> (k = "rule-providers" -> mcRuleProviders merged = None) -> k ∉ (entries merged).*1.
Proof.
  intros Hk Hrp. unfold entries. rewrite fmap_app, elem_of_app. intros [H|H]; [by apply Hk|].
  destruct (mcRuleProviders merged) as [rp|]; [|by apply elem_of_nil in H].
  apply list_elem_of_singleton in H as ->. by specialize (Hrp eq_refl).
Qed.

(** The rules of a fresh sequence, annotated. *)
Lemma annotateRules_strings (ps : list Z) (cs : list string) (rules : list string) :
  length ps = length rules -> length cs = length rules ->
  resetScalarStyles (annotateRules ps cs (sequenceOfStrings rules)) = sequenceOfNodes (imap (annotated ps cs) (map str_scalar rules)).
Proof.
  intros Hps Hcs. unfold annotateRules. change (Content (sequenceOfStrings rules)) with (map str_scalar rules).
  change (is_kind SequenceNode (sequenceOfStrings rules)) with true. rewrite length_map.
  destruct rules as [|r rs] eqn:Er; [done|]. rewrite <- Er in *. replace (length rules =? 0) with false by (by rewrite Er).
  cbn [negb orb]. rewrite Hps, Hcs, !Nat.min_id. rewrite (take_ge ps) by lia. rewrite (take_ge cs) by lia.
  rewrite commentBuckets_spec by (rewrite ?length_map; lia).
  cbn [sequenceOfStrings set_content lit node_attrs resetScalarStyles aKind]. unfold sequenceOfNodes, lit. f_equal.
  rewrite map_imap. clear. apply list_eq. intros i. rewrite !list_lookup_imap, list_lookup_fmap.
  destruct (rules !! i); simpl; [|done]. by rewrite reset_annotated.
Qed.

(** (C23) What is served.  The top-level keys of the template keep their order,
    those of the merged parts that it lacks follow.  Under proxies, proxy-groups
    and rule-providers are the merged entries, in order, normalised; under rules
    the merged rules in order with the bucket comments of their priorities and
    contributors; every other key keeps the template's value. *)
Theorem renderDoc_spec (merged : MergedConfig) (doc root : node) :
  docRoot (Some doc) = Some root -> Kind root = MappingNode -> paired root = true ->
  length (mcRulePriorities merged) = length (mcRules merged) -> length (mcRuleContributors merged) = length (mcRules merged) ->
  exists served, docRoot (Some (renderDoc merged doc)) = Some served
  /\ keys served = keys root ++ filter (fun k => k ∉ keys root)
       (["proxies"; "proxy-groups"; "rules"] ++ match mcRuleProviders merged with Some _ => ["rule-providers"] | None => [] end)
  /\ getMappingNode served "proxies"
     = Some (sequenceOfNodes (map (fun p => resetScalarStyles (reorderNameFirst (setFlowStyleRecursive (stripComments p)))) (mcProxies merged)))
  /\ getMappingNode served "proxy-groups"
     = Some (sequenceOfNodes (map (fun g => resetScalarStyles (normalizeGroup (stripComments g))) (mcProxyGroups merged)))
  /\ getMappingNode served "rules"
     = Some (sequenceOfNodes (imap (annotated (mcRulePriorities merged) (mcRuleContributors merged)) (map str_scalar (mcRules merged))))
  /\ (forall rp, mcRuleProviders merged = Some rp ->
        getMappingNode served "rule-providers" = Some (resetScalarStyles (stripComments rp)))
  /\ forall k, k ∉ ["proxies"; "proxy-groups"; "rules"] -> (k = "rule-providers" -> mcRuleProviders merged = None) ->
       getMappingNode served k = (fun n => resetScalarStyles (stripComments n)) <$> getMappingNode root k.
Proof.
  intros Hd Hk Hp Hpr Hco. exists (renderRoot merged root). split; [by apply renderDoc_root|].
  destruct (setMappingValues_spec (entries merged) root Hk Hp (entries_distinct merged)) as (_ & _ & Hkeys & Hset & Hother).
  rewrite <- fillTemplate_entries in Hkeys, Hset, Hother.
  assert (forall k, getMappingNode (renderRoot merged root) k
    = resetScalarStyles <$> ((if decide (k = "rules") then annotateRules (mcRulePriorities merged) (mcRuleContributors merged) else id)
        <$> ((if decide (k = "proxy-groups") then eachGroup else id) <$> ((if decide (k = "proxies") then eachProxy else id)
          <$> (stripComments <$> getMappingNode (fillTemplate merged root) k))))) as Hget.
  { intros k. unfold renderRoot. rewrite (proj2 (proj2 (proj2 (treeMap_spec _ _ _ resetScalarStyles_tree)))).
    unfold normalizeRulesPriorityComments, normalizeProxyGroupStyle, normalizeProxyStyle.
    rewrite !(proj2 (proj2 (onField_spec _ _ _))), (proj2 (proj2 (proj2 (treeMap_spec _ _ _ stripComments_tree)))).
    repeat case_decide; by rewrite ?option_fmap_id. }
  split.
  { unfold renderRoot, normalizeRulesPriorityComments, normalizeProxyGroupStyle, normalizeProxyStyle.
    rewrite (proj1 (proj2 (proj2 (treeMap_spec _ _ _ resetScalarStyles_tree)))).
    rewrite !(proj1 (proj2 (onField_spec _ _ _))), (proj1 (proj2 (proj2 (treeMap_spec _ _ _ stripComments_tree)))).
    rewrite Hkeys. unfold entries. by destruct (mcRuleProviders merged). }
  split_and!; [| | |intros rp Hrp|intros k Hk1 Hk2]; rewrite Hget.
  - rewrite (Hset "proxies" (sequenceOfNodes (mcProxies merged))) by by apply entries_elem.
    repeat case_decide; try congruence. simpl. unfold id. by rewrite !map_map.
  - rewrite (Hset "proxy-groups" (sequenceOfNodes (mcProxyGroups merged))) by by apply entries_elem.
    repeat case_decide; try congruence. simpl. unfold id. by rewrite !map_map.
  - rewrite (Hset "rules" (sequenceOfStrings (mcRules merged))) by by apply entries_elem.
    repeat case_decide; try congruence. cbn [fmap option_fmap option_map]. unfold id. rewrite strip_rules. f_equal. by apply annotateRules_strings.
  - rewrite (Hset "rule-providers" rp) by by apply entries_elem. by repeat case_decide; try congruence.
  - rewrite Hother; [|by apply entries_keys].
    rewrite !decide_False by (intros ->; apply Hk1, (bool_decide_unpack _); by vm_compute).
    by destruct (getMappingNode root k).
Qed.

Definition demo_template : node :=
  lit DocumentNode "" "" [lit MappingNode "" "!!map"
    [str_scalar "mixed-port"; scalar "7890" "!!int"; str_scalar "rules"; str_scalar "__MERGED_RULES__"; str_scalar "proxies"; str_scalar ""]].
Definition demo_merged : MergedConfig :=
  MkMerged [lit MappingNode "" "!!map" [str_scalar "type"; str_scalar "ss"; str_scalar "name"; str_scalar "a"]] [] None
    ["DOMAIN,x,a"; "MATCH,DIRECT"] [3; 0]%Z ["alpha"; ""] ["alpha"] [] [] (MkUserinfo 0 0 0 0) 24%Z None.

Lemma renderDoc_spec_witness :
  exists served, docRoot (Some (renderDoc demo_merged demo_template)) = Some served
    /\ keys served = ["mixed-port"; "rules"; "proxies"; "proxy-groups"]
    /\ getMappingNode served "mixed-port" = Some (scalar "7890" "!!int").
Proof.
  destruct (renderDoc_spec demo_merged demo_template (default demo_template (docRoot (Some demo_template))) eq_refl eq_refl eq_refl eq_refl eq_refl)
    as (served & Hs & Hk & _ & _ & _ & _ & Hother).
  exists served. split_and!; [exact Hs|rewrite Hk; vm_compute; reflexivity|].
  rewrite Hother; [vm_compute; reflexivity|apply (bool_decide_unpack _); vm_compute; exact I|discriminate].
Defined.

(** ** No comment of upstream or template is served *)

(** Every node of the tree satisfies [P]. *)
#[warnings="-register-all"]
Inductive NodeAll (P : attrs -> Prop) : node -> Prop :=
| NodeAll_intro a c : P a -> Forall (NodeAll P) c -> NodeAll P (Node a c).

Section comments.
Context (merged : MergedConfig).

(** The comments of a served node: none, or the header of a bucket made of one
    of the merged priorities and of merged contributors. *)
Definition own_comments (a : attrs) : Prop :=
  aLineComment a = "" /\ aFootComment a = ""
  /\ (aHeadComment a = ""
      \/ exists p names, p ∈ mcRulePriorities merged /\ names ⊆ mcRuleContributors merged /\ aHeadComment a = bucketComment p names).

Local Notation "'clean'" := (NodeAll own_comments).

Lemma clean_inv (n : node) : clean n <-> own_comments (node_attrs n) /\ Forall clean (Content n).
Proof. split; [by intros []|]. destruct n as [a c]. intros [? ?]. by constructor. Qed.

Lemma clean_tree (g : attrs -> attrs) (f : node -> node) (n : node) :
  treeMap g f -> (forall a, own_comments a -> own_comments (g a)) -> clean n -> clean (f n).
Proof.
  intros [_ Hf] Hg. induction n as [a c IH] using node_ind'. intros [Ha Hc]%clean_inv. rewrite Hf. constructor; [by apply Hg|].
  apply Forall_map. cbn in Hc. induction IH as [|x l Hx _ IHl]; [done|]. apply Forall_cons in Hc as [? ?].
  constructor; [by apply Hx|by apply IHl].
Qed.

Lemma clean_strip (n : node) : clean (stripComments n).
Proof.
  induction n as [a c IH] using node_ind'. constructor; [by destruct a; repeat split; left|]. by apply Forall_map.
Qed.

Lemma own_set_style (a : attrs) (s : Z) : own_comments (set_style a s) <-> own_comments a.
Proof. by destruct a. Qed.

Lemma clean_set_content (n : node) (c : list node) : clean n -> Forall clean c -> clean (set_content n c).
Proof. intros [? _]%clean_inv Hc. by constructor. Qed.

Lemma clean_update (key : string) (f : node -> node) (c c' : list node) :
  (forall n, clean n -> clean (f n)) -> Forall clean c -> update_pair key f c = Some c' -> Forall clean c'.
Proof.
  intros Hf. revert c'. induction c as [|x|k v c IH] using pairs_ind; intros c' Hc; simpl; try done.
  apply Forall_cons in Hc as [Hk [Hv Hc]%Forall_cons]. destruct (String.eqb (Value k) key).
  - intros [= <-]. auto.
  - destruct (update_pair key f c) as [r|]; [|done]. intros [= <-]. auto.
Qed.

Lemma clean_onField (key : string) (f : node -> node) (n : node) :
  (forall n, clean n -> clean (f n)) -> clean n -> clean (onField key f n).
Proof.
  intros Hf Hn. unfold onField. destruct (update_pair key f (Content n)) as [c|] eqn:E; [|done].
  apply clean_set_content; [done|]. eapply clean_update; [exact Hf| |exact E]. by apply clean_inv in Hn as [_ ?].
Qed.

Lemma clean_onRoot (f : node -> node) (doc : node) : (forall n, clean n -> clean (f n)) -> clean doc -> clean (onRoot f doc).
Proof.
  intros Hf Hd. unfold onRoot. pose proof Hd as [_ Hc]%clean_inv.
  destruct (Kind doc); try by apply Hf. destruct (Content doc) as [|r rest]; [by apply Hf|].
  apply Forall_cons in Hc as [? ?]. apply clean_set_content; [done|]. constructor; [by apply Hf|done].
Qed.

Lemma clean_reorderNameFirst (n : node) : clean n -> clean (reorderNameFirst n).
Proof.
  intros Hn. pose proof Hn as [_ Hc]%clean_inv. unfold reorderNameFirst. case_if; [done|].
  destruct (keyIndex "name" (drop 2 (Content n))) as [j|]; [|done].
  destruct (Content n !! S (S j)) eqn:H1; [|done]. destruct (Content n !! S (S (S j))) eqn:H2; [|done].
  apply clean_set_content; [done|]. repeat constructor; [by eapply Forall_lookup_1|by eapply Forall_lookup_1|].
  apply Forall_app. split; [by apply Forall_take|by apply Forall_drop].
Qed.

Lemma clean_move (c : list node) (key : string) (pos : nat) : Forall clean c -> Forall clean (moveFieldToPosition c key pos).
Proof.
  intros Hc. unfold moveFieldToPosition. destruct (keyIndex key c); [|done]. case_if; [done|]. case_if; [done|].
  repeat (case_match; [|done]). by repeat (apply Forall_insert; [|by eapply Forall_lookup_1]).
Qed.

Lemma clean_moves (moves : list (string * nat)) (c : list node) : Forall clean c -> Forall clean (moveFields c moves).
Proof. revert c. induction moves as [|[k j] ms IH]; intros c Hc; [done|]. apply IH. by apply clean_move. Qed.

Lemma clean_normalizeGroup (n : node) : clean n -> clean (normalizeGroup n).
Proof.
  intros Hn. unfold normalizeGroup. case_if; [|done]. unfold reorderProxyGroupFields.
  assert (clean (Node (set_style (node_attrs n) 0) (Content n))) as Hs.
  { apply clean_inv in Hn as [? ?]. constructor; [by apply own_set_style|done]. }
  case_if; [done|]. apply clean_set_content; [done|]. by apply clean_moves, clean_moves, clean_inv.
Qed.

Lemma Forall_clean_map (f : node -> node) (c : list node) :
  (forall n, clean n -> clean (f n)) -> Forall clean c -> Forall clean (map f c).
Proof. intros Hf Hc. apply Forall_map. eapply Forall_impl; [exact Hc|exact Hf]. Qed.

Lemma clean_buckets (fuel : nat) (rules : list node) (ps : list Z) (cs : list string) :
  ps ⊆ mcRulePriorities merged -> cs ⊆ mcRuleContributors merged -> Forall clean rules ->
  Forall clean (commentBuckets fuel rules ps cs).
Proof.
  assert (forall n (l m : list string), l ⊆ m -> take n l ⊆ m /\ drop n l ⊆ m) as Htd.
  { intros n l m Hl. split; intros x Hx; apply Hl; [by apply elem_of_take in Hx as (? & ? & _); eapply list_elem_of_lookup_2|].
    by apply list_elem_of_lookup in Hx as [i Hx]; rewrite lookup_drop in Hx; eapply list_elem_of_lookup_2. }
  revert rules ps cs. induction fuel as [|fuel IH]; intros rules ps cs Hps Hcs Hr; [done|].
  destruct rules as [|r rules], ps as [|p ps]; try done. apply Forall_cons in Hr as [Hr Hrs]. cbn [commentBuckets].
  assert (ps ⊆ mcRulePriorities merged) as Hps' by set_solver. case_if.
  - constructor; [done|]. apply IH; [done|by apply Htd|done].
  - constructor; [|apply Forall_app; split; [by apply Forall_take|apply IH; [|by apply Htd|by apply Forall_drop]]].
    + destruct r as [a c]. apply clean_inv in Hr as [(Hl & Hf & _) Hc]. constructor; [|done]. destruct a. repeat split; [done|done|].
      right. eexists p, _. split_and!; [set_solver| |reflexivity]. by apply (Htd (S (runLength p ps)) cs).
    + intros x [i Hx]%list_elem_of_lookup. rewrite lookup_drop in Hx. by eapply Hps', list_elem_of_lookup_2.
Qed.

(** No comment of an upstream payload or of the template is served: in the
    document given to the encoder every node is without comments, except for
    head comments that name a priority and contributors of the merge. *)
Theorem renderDoc_comments (doc : node) : clean (renderDoc merged doc).
Proof.
  unfold renderDoc. apply (clean_tree _ _ _ resetScalarStyles_tree); [by intros [[]]|].
  apply clean_onRoot.
  { intros n. apply clean_onField. clear n. intros n Hn. unfold annotateRules. case_if; [done|]. apply clean_set_content; [done|].
    apply clean_buckets; [| |by apply clean_inv in Hn as [_ ?]]; intros x (i & Hx & _)%elem_of_take; by eapply list_elem_of_lookup_2. }
  apply clean_onRoot.
  { intros n. apply clean_onField. clear n. intros n Hn. unfold eachGroup. case_if; [|done]. apply clean_set_content; [done|].
    apply Forall_clean_map; [apply clean_normalizeGroup|by apply clean_inv in Hn as [_ ?]]. }
  apply clean_onRoot; [|apply clean_strip]. intros n. apply clean_onField. clear n. intros n Hn. unfold eachProxy. case_if; [|done].
  apply clean_set_content; [done|]. apply Forall_clean_map; [|by apply clean_inv in Hn as [_ ?]]. intros p Hp.
  apply clean_reorderNameFirst, (clean_tree (fun a => match aKind a with MappingNode | SequenceNode => set_style a FlowStyle | _ => a end));
    [split; [by intros [[] ? ? ? ? ? ? ? ? ? ?]|by intros []]|by intros [[]]|done].
Qed.
End comments.

(** ** Headers *)

(** (C27) The traffic header a client reads is the served one: it parses, with no
    field missing, to the upload, download and expiry of the header in force and
    to its total, or to the daily allowance when there is no snapshot; without a
    header in force none is sent, and the update interval is sent when positive. *)
Theorem renderHeaders_spec {U : UnicodeTables} (merged : MergedConfig) :
  (mcServedTrafficHeader merged = None -> renderHeaders merged !! "Subscription-Userinfo" = None)
  /\ (forall h, mcServedTrafficHeader merged = Some h ->
        in_int64 (UploadBytes h) -> in_int64 (DownloadBytes h) -> in_int64 (TotalBytes h) -> in_int64 (DailyAllowanceBytes h) ->
        in_int64 (ExpireUnix h) ->
        exists v, renderHeaders merged !! "Subscription-Userinfo" = Some v
        /\ ParseSubscriptionUserinfo v = inr (MkUserinfo (UploadBytes h) (DownloadBytes h)
             (if (TotalBytes h =? 0)%Z then DailyAllowanceBytes h else TotalBytes h) (ExpireUnix h), []))
  /\ renderHeaders merged !! "Profile-Update-Interval"
     = (if (0 <? mcAggregatedProfileUpdateIntervalHours merged)%Z then Some (Itoa (mcAggregatedProfileUpdateIntervalHours merged)) else None)
  /\ renderHeaders merged !! "Content-Type" = Some "application/yaml; charset=utf-8".
Proof.
  unfold renderHeaders. split_and!.
  - intros ->. by case_if.
  - intros h -> Hu Hd Ht Ha He. eexists. split; [by case_if|]. apply userinfoHeader_parses.
    unfold ui_in_range. cbn. by case_if.
  - destruct (mcServedTrafficHeader merged); by case_if.
  - destruct (mcServedTrafficHeader merged); by case_if.
Qed.
