(* ===== verification/Server.v ===== *)
(** * internal/auth, internal/server: the HTTP surface

    A handler maps a request and the snapshot store to an outcome: the reply,
    the log lines and the store afterwards.  SHA-256 and the connection are
    parameters; a handler that wraps another gets it as an argument.  Of
    [http.ServeMux] what the patterns of [buildMux] use is modelled: all of them
    are exact paths, unless the configured prefix has wildcards, which is left
    out. *)
From stdpp Require Import base gmap sets list strings sorting.
From Stdlib Require Import ZArith Lia Ascii.
From S2P Require Import Prelude GoStrings GoTime GoFloat Yaml Subscriptions Headers DailySpend Traffic Region Pipeline.
From S2P Require Import ServerConfig Tokens Http Cache Scheduler Output.

Local Open Scope Z_scope.

(** [hex(sha256(token))] *)
Class TokenHash := { sha256_hex : string -> string }.

Definition SanitizeToken {H : TokenHash} (token : string) : string :=
  if String.eqb token "" then "sha256:empty" else "sha256:" +:+ str_take 12 (sha256_hex token).

Record request := MkRequest {
  rqMethod : string;
  rqPath : string;         (** [URL.Path], with [URL.RawPath] empty *)
  rqToken : string;        (** [URL.Query().Get("token")] *)
  rqUserAgent : string;
  rqRemote : string
}.

Record reply := MkReply { rpStatus : Z; rpHeader : gmap string string; rpBody : string }.

Inductive fieldValue := FString (s : string) | FInt (z : Z) | FBool (b : bool) | FStrings (l : list string).
Record logEntry := MkLog { lgMessage : string; lgFields : list (string * fieldValue) }.

Record outcome (S : Type) := MkOutcome { oReply : reply; oLog : list logEntry; oStore : S }.
Arguments MkOutcome {S}. Arguments oReply {S}. Arguments oLog {S}. Arguments oStore {S}.

(** The record the context carries, once the token middleware has run. *)
Definition Handler (S : Type) : Type := request -> option TokenRecord -> S -> outcome S.

Definition statusOnly (status : Z) : reply := MkReply status ∅ "".

(** ** auth *)
Section auth.
Context {S : Type} {H : TokenHash}.

Definition RequireToken (store : TokenStore) (now : Time) (next : Handler S) : Handler S := fun r ctx s =>
  if String.eqb (rqToken r) "" then
    MkOutcome (statusOnly 401)
      [MkLog "auth rejected: missing token" [("remote", FString (rqRemote r)); ("path", FString (rqPath r))]] s
  else match Lookup store now (rqToken r) with
       | None =>
           MkOutcome (statusOnly 401)
             [MkLog "auth rejected: invalid/revoked/expired token"
                [("token_hash", FString (SanitizeToken (rqToken r))); ("remote", FString (rqRemote r)); ("path", FString (rqPath r))]] s
       | Some rec => next r (Some rec) s
       end.

Definition RequireUserAgent (prefixes : list string) (next : Handler S) : Handler S := fun r ctx s =>
  let rejected := MkOutcome (statusOnly 403)
    [MkLog "ua-rejected" [("user_agent", FString (rqUserAgent r)); ("remote", FString (rqRemote r)); ("path", FString (rqPath r))]] s in
  match prefixes with
  | [] => next r ctx s
  | _ =>
      if String.eqb (rqUserAgent r) "" then rejected
      else if existsb (fun p => HasPrefix (rqUserAgent r) p) prefixes then next r ctx s
      else rejected
  end.
End auth.

(** ** routes/subscription.go *)
Definition servedTrafficLogFields (h : option ServedTrafficHeader) : Z * Z :=
  match h with None => (-1, -1) | Some h => (DailyAllowanceBytes h, ExpireUnix h) end.

Definition servedSpendLogFields (h : option ServedTrafficHeader) : Z * Z * string * bool :=
  match h with
  | None => (-1, -1, "", false)
  | Some h => (UsedTodayBytes h, TotalBytes h, SnapshotLocalDate h, RolloverFired h)
  end.

(** [http.Error] *)
Definition httpError (msg : string) (status : Z) : reply :=
  MkReply status (<["Content-Type" := "text/plain; charset=utf-8"]> (<["X-Content-Type-Options" := "nosniff"]> (∅ : gmap string string)))
    (msg +:+ String (ascii_of_nat 10) "").

(** The JSON object of one error. *)
Definition jsonError (e : string) : string :=
  "{" +:+ dquote +:+ "error" +:+ dquote +:+ ":" +:+ dquote +:+ e +:+ dquote +:+ "}".

(** The payloads as the pipeline sees them. *)
Definition reader {Y : YamlDecoder} (c : Cache) : CacheReader := fun name =>
  (fun p => Pipeline.MkPayload (match (Http.Parse p).1 with inr n => Some n | inl _ => None end)
              (uhUserinfo (uHeaders p)) (uhIntervalHours (uHeaders p))) <$> Cache.Get c name.

(** What a build reads while it runs: the cache in two passes, the clock twice,
    an iteration order of the user-info map; the last two are those of the
    breakdown logged at debug level. *)
Record buildInput := MkBuildInput {
  biCache1 : Cache;
  biCache2 : Cache;
  biOrder : list (string * SubscriptionUserinfo);
  biNow1 : Time;
  biNow2 : Time;
  biCache3 : Cache;
  biNow3 : Time
}.

Section routes.
Context {U : UnicodeTables} {F : FloatConversion} {Y : YamlDecoder} {E : YamlEncoder} {St : Type} `{!Snapshotter St}.

Definition buildWith (p : Pipeline) (i : buildInput) (store : option St) : string + MergedConfig * option St :=
  Build p (reader (biCache1 i)) (reader (biCache2 i)) (biOrder i) (biNow1 i) (biNow2 i) store.

Definition servedLog (r : request) (ctx : option TokenRecord) (merged : MergedConfig) (rendered : Rendered) : logEntry :=
  let '(allowance, expireUnix) := servedTrafficLogFields (mcServedTrafficHeader merged) in
  let '(usedToday, totalBytes, snapDate, rolloverFired) := servedSpendLogFields (mcServedTrafficHeader merged) in
  MkLog "served subscription"
    ([("path", FString (rqPath r)); ("contributingSources", FStrings (mcContributingSources merged));
      ("proxies", FInt (Z.of_nat (length (mcProxies merged)))); ("groups", FInt (Z.of_nat (length (mcProxyGroups merged))));
      ("rules", FInt (Z.of_nat (length (mcRules merged)))); ("bytes", FInt (Z.of_nat (String.length (Body rendered))));
      ("served_daily_allowance_bytes", FInt allowance); ("served_expire_unix", FInt expireUnix);
      ("served_used_today_bytes", FInt usedToday); ("served_total_bytes", FInt totalBytes);
      ("snapshot_local_date", FString snapDate); ("rollover_fired", FBool rolloverFired)]
     ++ match ctx with Some rec => [("token_label", FString (Label rec))] | None => [] end).

(** [writeErr] is the error of writing the body, [debug] whether that level is
    logged. *)
Definition Subscription (c : Coordinator) (p : Pipeline) (adapter : SubscriptionMode) (i : buildInput) (debug : bool)
    (writeErr : option string) : Handler (option St) := fun r ctx s =>
  let json := <["Content-Type" := "application/json"]> (∅ : gmap string string) in
  if negb (coReady c) then
    MkOutcome (MkReply 503 (<["Retry-After" := "5"]> json) (jsonError "warming_up")) [] s
  else if negb (AllSucceeded c) then MkOutcome (MkReply 503 json (jsonError "bootstrap_failed")) [] s
  else
    match buildWith p i s with
    | inl e => MkOutcome (httpError "internal server error" 500) [MkLog "pipeline build failed" [("err", FString e)]] s
    | inr (merged, s') =>
        match Render adapter (Some merged) with
        | inl e => MkOutcome (httpError "internal server error" 500) [MkLog "output render failed" []] s'
        | inr rendered =>
            let resp := MkReply 200 (RenderedHeaders rendered) (Body rendered) in
            match writeErr with
            | Some e => MkOutcome resp [MkLog "write body failed" [("err", FString e)]] s'
            | None =>
                let da := Pipeline_ComputeDailyAllowance p (reader (biCache3 i)) (biNow3 i) in
                MkOutcome resp
                  (servedLog r ctx merged rendered
                   :: if debug
                      then [MkLog "served daily allowance breakdown"
                              [("per_day_rate_bytes", FInt (PerDayRateBytes da));
                               ("no_expiry_remaining_bytes", FInt (NoExpiryRemainingBytes da));
                               ("expired_source_flags", FStrings (ExpiredSourceFlags da))]]
                      else []) s'
            end
        end
    end.

(** ** routes/health.go *)
Record HealthResponse := MkHealth {
  hrBootstrap : string;
  hrSources : list SourceState;
  hrDailyAllowance : DailyAllowance
}.

(** The status and the object that is encoded. *)
Definition Health (c : Coordinator) (p : Pipeline) (clock : string -> Time) (now : Time) : Z * HealthResponse :=
  let bootstrap := if coReady c then if AllSucceeded c then "succeeded" else "failed" else "warming_up" in
  (if String.eqb bootstrap "succeeded" then 200 else 503,
   MkHealth bootstrap (SourceStates c clock) (Pipeline_ComputeDailyAllowance p (reader (coCache c)) now)).
End routes.

(** ** app.go *)

(** The [http.Server] of [Run]; [Address] is its [Addr] once it exists. *)
Record httpServer := MkHttpServer { srvAddr : string; srvReadHeaderTimeout : Duration; srvIdleTimeout : Duration }.
Definition newServer (cfg : ServerConfig) : httpServer := MkHttpServer (":" +:+ Itoa (Port cfg)) (5 * Second) (60 * Second).
Definition Address (srv : option httpServer) : string := match srv with None => "" | Some s => srvAddr s end.

Inductive route := SubscriptionRoute | HealthRoute.

(** A path that [path.Clean], keeping a final slash, leaves as it is. *)
Definition cleanSegment (s : string) : bool := negb (String.eqb s "" || String.eqb s "." || String.eqb s "..").
Definition cleanPath (p : string) : bool :=
  match Split p slash with
  | root :: segs =>
      String.eqb root "" && forallb cleanSegment (removelast segs)
      && match last segs with Some s => String.eqb s "" || cleanSegment s | None => false end
  | [] => false
  end.

(** A pattern without wildcards and without percent-encoding. *)
Definition literalPattern (p : string) : bool := byte_free "{"%char p && byte_free "%"%char p.

(** What registering the routes gives: [RegisterPanics] when a pattern is not
    clean or registered twice; what a prefix with wildcards matches is left
    out. *)
Inductive mux := Routes (l : list (string * route)) | RegisterPanics | WildcardPrefix.

Definition buildMux (cfg : ServerConfig) : mux :=
  let p := URLPathPrefix cfg in
  let health := [("/health", HealthRoute)] in
  if String.eqb p "" then Routes (("/", SubscriptionRoute) :: health)
  else if negb (literalPattern p) then WildcardPrefix
  else if negb (cleanPath p) then RegisterPanics
  else
    let routes := (p, SubscriptionRoute) :: (p +:+ "/", SubscriptionRoute) :: health in
    if decide (NoDup (map fst routes)) then Routes routes else RegisterPanics.

(** [StripPrefix] *)
Definition stripped (cfg : ServerConfig) (r : request) : request :=
  MkRequest (rqMethod r) (str_drop (String.length (URLPathPrefix cfg)) (rqPath r)) (rqToken r) (rqUserAgent r) (rqRemote r).

Section app.
Context {U : UnicodeTables} {F : FloatConversion} {Y : YamlDecoder} {E : YamlEncoder} {St : Type} `{!Snapshotter St} {H : TokenHash}.

Record App := MkApp {
  appCfg : ServerConfig;
  appTokens : TokenStore;
  appPipeline : Pipeline;
  appAdapter : SubscriptionMode
}.

(** The wrapped subscription handler. *)
Definition subHandler (a : App) (c : Coordinator) (now : Time) (i : buildInput) (debug : bool) (writeErr : option string)
    : Handler (option St) :=
  let h := RequireToken (appTokens a) now (Subscription c (appPipeline a) (appAdapter a) i debug writeErr) in
  match AllowedUserAgentPrefixes (appCfg a) with [] => h | prefixes => RequireUserAgent prefixes h end.

(** Dispatch; what /health answers is given by [Health]. *)
Inductive dispatched := ToSubscription (r : request) | ToHealth | MethodNotAllowed | NotFound | MovedToCleanPath.

Definition dispatch (cfg : ServerConfig) (routes : list (string * route)) (r : request) : dispatched :=
  if negb (String.eqb (rqMethod r) "CONNECT") && negb (cleanPath (rqPath r)) then MovedToCleanPath
  else match (list_to_map routes : gmap string route) !! rqPath r with
  | None => NotFound
  | Some route =>
      if String.eqb (rqMethod r) "GET" || String.eqb (rqMethod r) "HEAD"
      then match route with SubscriptionRoute => ToSubscription (stripped cfg r) | HealthRoute => ToHealth end
      else MethodNotAllowed
  end.
End app.

(** ** Run *)

(** Which case of the final select fires: the context is cancelled, and the
    shutdown fails or not within its ten seconds; or the listener ends, with an
    error other than [ErrServerClosed] or not. *)
Inductive runEvent := ContextDone (shutdown : option string) | ListenerEnded (err : option string).
Inductive runResult := RunPanics | RunReturns (err : option string).

(** A prefix with wildcards is taken to be a valid pattern. *)
Definition Run (cfg : ServerConfig) (e : runEvent) : runResult :=
  match buildMux cfg with
  | RegisterPanics => RunPanics
  | Routes _ | WildcardPrefix =>
      RunReturns match e with
                 | ContextDone (Some err) => Some ("http shutdown: " +:+ err)
                 | ContextDone None => None
                 | ListenerEnded (Some err) => Some ("http listen: " +:+ err)
                 | ListenerEnded None => None
                 end
  end.
