(* ===== verification/ServerProofs.v ===== *)
(** * The HTTP surface: who is served, what, and what is logged *)
From stdpp Require Import base gmap sets list strings sorting.
From Stdlib Require Import ZArith Lia Ascii.
From S2P Require Import Prelude GoStrings GoTime GoFloat Yaml Subscriptions Headers DailySpend Traffic Region Pipeline.
From S2P Require Import ServerConfig Tokens Http Cache Scheduler SchedulerProofs Output Server.

Local Open Scope Z_scope.

Section auth_lemmas.
Context {S : Type} {H : TokenHash}.
Implicit Types (next : Handler S) (r : request) (s : S).

(** The client filter lets a request through. *)
Definition agent_allowed (prefixes : list string) (agent : string) : Prop :=
  prefixes = [] \/ agent <> "" /\ exists p, p ∈ prefixes /\ HasPrefix agent p = true.

#[export] Instance agent_allowed_dec (prefixes : list string) (agent : string) : Decision (agent_allowed prefixes agent).
Proof.
  refine (cast_if (decide (prefixes = [] \/ agent <> "" /\ Exists (fun p => HasPrefix agent p = true) prefixes)));
    unfold agent_allowed; rewrite ?Exists_exists in *; naive_solver.
Defined.

Lemma RequireUserAgent_spec (prefixes : list string) (next : Handler S) (r : request) (ctx : option TokenRecord) (s : S) :
  RequireUserAgent prefixes next r ctx s
  = if decide (agent_allowed prefixes (rqUserAgent r)) then next r ctx s
    else MkOutcome (statusOnly 403)
      [MkLog "ua-rejected" [("user_agent", FString (rqUserAgent r)); ("remote", FString (rqRemote r)); ("path", FString (rqPath r))]] s.
Proof.
  unfold RequireUserAgent. destruct prefixes as [|p ps]; [by rewrite decide_True by (by left)|]. case_decide as Ha.
  - destruct Ha as [|[Hne (q & Hq & Hp)]]; [done|]. rewrite (proj2 (String.eqb_neq _ _) Hne).
    assert (existsb (fun p => HasPrefix (rqUserAgent r) p) (p :: ps) = true) as ->; [|done].
    apply existsb_exists. exists q. by rewrite <- list_elem_of_In.
  - destruct (String.eqb_spec (rqUserAgent r) ""); [done|]. destruct (existsb _ (p :: ps)) eqn:E; [|done].
    apply existsb_exists in E as (q & Hq & Hp). destruct Ha. right. split; [done|]. exists q. by rewrite list_elem_of_In.
Qed.
End auth_lemmas.

Section route_lemmas.
Context {U : UnicodeTables} {F : FloatConversion} {P : UrlParser} {Y : YamlDecoder} {E : YamlEncoder} {St : Type} `{!Snapshotter St}.
Context {H : TokenHash}.

Lemma subHandler_spec (a : App) (c : Coordinator) (now : Time) (i : buildInput) (debug : bool) (err : option string)
    (r : request) (ctx : option TokenRecord) (s : option St) :
  subHandler a c now i debug err r ctx s
  = RequireUserAgent (AllowedUserAgentPrefixes (appCfg a))
      (RequireToken (appTokens a) now (Subscription c (appPipeline a) (appAdapter a) i debug err)) r ctx s.
Proof. unfold subHandler. by destruct (AllowedUserAgentPrefixes (appCfg a)). Qed.

(** (C11) Access.  A request reaches the subscription handler only when its user
    agent has an allowed prefix and its token is that of a record neither revoked
    nor expired, and then with that record; any other one is answered 403 or 401
    with an empty body and no header, and the store of snapshots is untouched. *)
Theorem subscription_access (a : App) (c : Coordinator) (now : Time) (i : buildInput) (debug : bool) (err : option string)
    (r : request) (ctx : option TokenRecord) (s : option St) :
  let out := subHandler a c now i debug err r ctx s in
  if decide (agent_allowed (AllowedUserAgentPrefixes (appCfg a)) (rqUserAgent r)) then
    match (if String.eqb (rqToken r) "" then None else Lookup (appTokens a) now (rqToken r)) with
    | Some rec => out = Subscription c (appPipeline a) (appAdapter a) i debug err r (Some rec) s
                  /\ byToken (appTokens a) !! rqToken r = Some rec /\ Revoked rec = false /\ expired rec now = false
    | None => oReply out = MkReply 401 ∅ "" /\ oStore out = s
    end
  else oReply out = MkReply 403 ∅ "" /\ oStore out = s.
Proof.
  intros out. unfold out. rewrite subHandler_spec, RequireUserAgent_spec. case_decide; [|done]. unfold RequireToken.
  destruct (String.eqb (rqToken r) ""); [done|]. unfold Lookup. destruct (byToken (appTokens a) !! rqToken r) as [rec|]; [|done].
  destruct (Revoked rec) eqn:Hr; [done|]. by destruct (expired rec now) eqn:He.
Qed.

(** What two requests may differ in without showing it: rejected tokens share
    their fingerprint, accepted ones the label of their records. *)
Definition same_observer (ts ts' : TokenStore) (now : Time) (token token' : string) : Prop :=
  match Lookup ts now token, Lookup ts' now token' with
  | None, None => SanitizeToken token = SanitizeToken token'
  | Some rec, Some rec' => Label rec = Label rec'
  | _, _ => False
  end.

(** (C30) Tokens stay out of the replies and the logs.  Take two requests alike
    but for their non-empty tokens, possibly checked against different token
    stores.  When both tokens are accepted, under records with the same label
    whatever their secrets, dates and other fields, or both are rejected and have
    the same fingerprint, the outcomes are equal: the reply, every log line and
    the store of snapshots.  So an accepted token shows only as its record's
    label and a rejected one only as its fingerprint. *)
Theorem token_secrecy (a : App) (ts' : TokenStore) (c : Coordinator) (now : Time) (i : buildInput) (debug : bool)
    (err : option string) (method path agent remote token token' : string) (ctx : option TokenRecord) (s : option St) :
  token <> "" -> token' <> "" -> same_observer (appTokens a) ts' now token token' ->
  subHandler a c now i debug err (MkRequest method path token agent remote) ctx s
  = subHandler (MkApp (appCfg a) ts' (appPipeline a) (appAdapter a)) c now i debug err
      (MkRequest method path token' agent remote) ctx s.
Proof.
  intros H1 H2 Hs. rewrite !subHandler_spec, !RequireUserAgent_spec. cbn [rqUserAgent rqRemote rqPath appCfg appTokens appPipeline appAdapter].
  case_decide; [|done]. unfold RequireToken. cbn [rqToken rqRemote rqPath].
  rewrite (proj2 (String.eqb_neq _ _) H1), (proj2 (String.eqb_neq _ _) H2). unfold same_observer in Hs.
  destruct (Lookup (appTokens a) now token) as [rec|], (Lookup ts' now token') as [rec'|]; try done; [|by rewrite Hs].
  unfold Subscription, servedLog. cbn [rqPath]. by rewrite Hs.
Qed.

(** ** The subscription handler *)
Lemma readSources_total (cache : CacheReader) (acc : sourceMaps) (rows : list SubscriptionRow) :
  (forall n pl, cache n = Some pl -> plParse pl <> None) -> exists sm, readSources cache acc rows = inr sm.
Proof.
  intros Hc. revert acc. induction rows as [|row rows IH]; intros acc; cbn [readSources]; [by eexists|].
  unfold readSource. destruct (cache (Name row)) as [pl|] eqn:Hn; [|apply IH].
  specialize (Hc _ _ Hn). destruct (plParse pl); [apply IH|done].
Qed.

Lemma Build_total (p : Pipeline) (cache1 cache2 : CacheReader) (order : list (string * SubscriptionUserinfo)) (t1 t2 : Time)
    (store : option St) :
  (forall n pl, cache1 n = Some pl -> plParse pl <> None) ->
  exists merged store', Build p cache1 cache2 order t1 t2 store = inr (merged, store').
Proof.
  intros Hc. unfold Build. destruct (readSources_total cache1 (MkSourceMaps ∅ ∅ ∅ ∅ ∅ []) (sortSourcesByPriority (subscriptions p)) Hc) as [sm ->].
  repeat case_match; by eexists _, _.
Qed.

Lemma reader_parsed (c : Cache) : all_parsed c -> forall n pl, reader c n = Some pl -> plParse pl <> None.
Proof.
  intros Hc n pl. unfold reader. destruct (Cache.Get c n) as [p|] eqn:Hg; [|done]. cbn. intros [= <-]. cbn.
  destruct (Hc n p Hg) as [doc Hd]. unfold Http.Parse. by rewrite Hd.
Qed.

(** The template is a document whose root is a mapping. *)
Definition mapping_root (doc : node) : Prop := exists root, docRoot (Some doc) = Some root /\ Kind root = MappingNode.

Lemma Render_parsed (adapter : SubscriptionMode) (merged : MergedConfig) (doc : node) :
  yaml_Unmarshal (templateBytes adapter) = inr doc ->
  (exists bytes, mapping_root doc /\ yaml_Encode (renderDoc merged doc) = inr bytes
     /\ Render adapter (Some merged) = inr (MkRendered (unescapeSupplementaryPlane bytes) (renderHeaders merged)))
  \/ ((~ mapping_root doc \/ exists e, yaml_Encode (renderDoc merged doc) = inl e)
      /\ exists e, Render adapter (Some merged) = inl e).
Proof.
  intros Hy. unfold Render, mapping_root. rewrite Hy. destruct (docRoot_Some doc) as [root Hr]. rewrite Hr.
  destruct (is_kind MappingNode root) eqn:Hk; cbn [negb].
  - apply is_kind_true in Hk. destruct (yaml_Encode (renderDoc merged doc)) as [e|bytes].
    + right. split; [right; by exists e|by eexists].
    + left. exists bytes. split_and!; [by exists root|done|done].
  - right. split; [left|by eexists]. intros (root' & [= <-] & Hk'). apply is_kind_true in Hk'. congruence.
Qed.

(** (C10) What a request that is let through gets, in a process whose template
    parsed at start-up and whose cache was loaded from disk and is kept by the
    scheduler: 503 exactly when bootstrap is not over or a source has failed,
    which is when /health is not 200 either.  Otherwise the build succeeds, and
    the answer is 200 with the rendered build and its headers or, exactly when
    the template's root is not a mapping or the encoder refuses the document,
    500. *)
Theorem subscription_served (files : gmap string diskFile) (dir : bool) (listing : dirListing) (cfg : SchedulerConfig)
    (rows : list SubscriptionRow) (w w1 : world) (p : Pipeline) (adapter : SubscriptionMode) (doc : node) (i : buildInput)
    (debug : bool) (err : option string) (r : request) (ctx : option TokenRecord) (s : option St)
    (clock : string -> Time) (now : Time) :
  let cache := (LoadFromDisk (NewCache dir files) listing).1 in
  wreachable cache cfg rows w -> wreachable cache cfg rows w1 -> biCache1 i = coCache (wCo w1) ->
  yaml_Unmarshal (templateBytes adapter) = inr doc ->
  let out := Subscription (wCo w) p adapter i debug err r ctx s in
  let ready := coReady (wCo w) && AllSucceeded (wCo w) in
  (rpStatus (oReply out) = 503 <-> ready = false)
  /\ ((Health (wCo w) p clock now).1 = 200 <-> ready = true)
  /\ (ready = true -> exists merged s', buildWith p i s = inr (merged, s') /\ oStore out = s'
        /\ (rpStatus (oReply out) = 500 <-> ~ mapping_root doc \/ exists e, yaml_Encode (renderDoc merged doc) = inl e)
        /\ (rpStatus (oReply out) <> 500 -> exists bytes, yaml_Encode (renderDoc merged doc) = inr bytes
              /\ oReply out = MkReply 200 (renderHeaders merged) (unescapeSupplementaryPlane bytes))).
Proof.
  intros cache Hw Hw1 Hi Hy out ready.
  assert (all_parsed (biCache1 i)) as Hall.
  { rewrite Hi. eapply all_parsed_reachable; [|exact Hw1]. apply LoadFromDisk_parsed, NewCache_parsed. }
  destruct (Build_total p (reader (biCache1 i)) (reader (biCache2 i)) (biOrder i) (biNow1 i) (biNow2 i) s (reader_parsed _ Hall))
    as (merged & s' & Hb). change (buildWith p i s = inr (merged, s')) in Hb.
  unfold out, ready, Subscription, Health.
  destruct (coReady (wCo w)); cbn [negb andb]; [|by split_and!].
  destruct (AllSucceeded (wCo w)); cbn [negb]; [|by split_and!]. rewrite Hb.
  destruct (Render_parsed adapter merged doc Hy) as [(bytes & Hk & He & Hr)|(Hbad & e & Hr)]; rewrite Hr.
  - split_and!; [split; [|done]; by destruct err|done|]. intros _. exists merged, s'.
    split_and!; [done|by destruct err| |].
    + split; [by destruct err|]. intros [Hn|[e He']]; [done|congruence].
    + intros _. exists bytes. by destruct err.
  - split_and!; [done|done|]. intros _. exists merged, s'. by split_and!.
Qed.
End route_lemmas.

(** ** Routing *)
Lemma prefix_slash (p : string) : p <> p +:+ "/" /\ p +:+ "/" <> "/health".
Proof.
  split; intros Heq; pose proof (f_equal String.length Heq) as Hl; rewrite str_length_app in Hl; simpl in Hl; [lia|].
  pose proof (str_drop_app p "/") as Hd. rewrite Heq in Hd. replace (String.length p) with 6%nat in Hd by lia. discriminate.
Qed.

Definition reads (r : request) : Prop := rqMethod r = "GET" \/ rqMethod r = "HEAD".

Lemma reads_b (r : request) : String.eqb (rqMethod r) "GET" || String.eqb (rqMethod r) "HEAD" = bool_decide (reads r).
Proof.
  unfold reads. destruct (String.eqb_spec (rqMethod r) "GET") as [->|]; [by rewrite bool_decide_true by (by left)|].
  destruct (String.eqb_spec (rqMethod r) "HEAD") as [->|]; [by rewrite bool_decide_true by (by right)|].
  symmetry. apply bool_decide_false. tauto.
Qed.

Lemma dispatch_paths (cfg : ServerConfig) (routes : list (string * route)) (r : request) :
  NoDup routes.*1 -> (forall path x, (path, x) ∈ routes -> cleanPath path = true) ->
  (dispatch cfg routes r = ToSubscription (stripped cfg r) <-> reads r /\ (rqPath r, SubscriptionRoute) ∈ routes)
  /\ (dispatch cfg routes r = ToHealth <-> reads r /\ (rqPath r, HealthRoute) ∈ routes)
  /\ (forall r', dispatch cfg routes r = ToSubscription r' -> r' = stripped cfg r).
Proof.
  intros Hnd Hclean. unfold dispatch. destruct (cleanPath (rqPath r)) eqn:Hc.
  - rewrite andb_false_r, reads_b.
    pose proof (fun x => elem_of_list_to_map (M := gmap string) routes (rqPath r) x Hnd) as Hel. rewrite !Hel.
    destruct (_ !! rqPath r) as [[|]|]; try case_bool_decide; split_and!; try (split; naive_solver); naive_solver.
  - assert (forall x, (rqPath r, x) ∉ routes) as Hno by (intros x Hx; apply Hclean in Hx; congruence).
    rewrite andb_true_r. destruct (String.eqb_spec (rqMethod r) "CONNECT") as [Em|_]; cbn [negb].
    + rewrite reads_b, bool_decide_false by (unfold reads; rewrite Em; by intros [|]).
      destruct (_ !! rqPath r); split_and!; naive_solver.
    + split_and!; naive_solver.
Qed.

(** A clean path stays clean with a slash at its end. *)
Lemma cleanPath_slash (p : string) :
  p <> "" -> cleanPath p = true -> HasSuffix p "/" = false -> cleanPath (p +:+ "/") = true.
Proof.
  intros Hne Hc Hs. unfold cleanPath in *. change "/" with (String slash "") in *. rewrite Split_snoc.
  pose proof (Split_last_empty p slash) as Hl. destruct (Split p slash) as [|root segs]; [done|].
  apply andb_true_iff in Hc as [[Hr Hf]%andb_true_iff Hlast]. cbn [app]. rewrite Hr. cbn [andb].
  destruct segs as [|s segs _] using rev_ind; [done|]. rewrite removelast_last in Hf. rewrite last_snoc in Hlast.
  rewrite removelast_last, last_snoc, forallb_app, Hf. cbn [andb forallb]. rewrite andb_true_r.
  destruct (String.eqb_spec s "") as [->|_]; [|by rewrite andb_true_r].
  destruct Hl as [|[q ->]]; [by rewrite app_comm_cons, last_snoc|done|]. by rewrite HasSuffix_app in Hs.
Qed.

(** The registered paths. *)
Lemma buildMux_routes (cfg : ServerConfig) (routes : list (string * route)) :
  HasSuffix (URLPathPrefix cfg) "/" = false -> buildMux cfg = Routes routes ->
  NoDup routes.*1 /\ (forall path x, (path, x) ∈ routes -> cleanPath path = true)
  /\ (forall path x, (path, x) ∈ routes <->
       x = SubscriptionRoute /\ (path = URLPathPrefix cfg +:+ "/" \/ URLPathPrefix cfg <> "" /\ path = URLPathPrefix cfg)
       \/ x = HealthRoute /\ path = "/health").
Proof.
  unfold buildMux. set (p := URLPathPrefix cfg). intros Hsuf. destruct (String.eqb_spec p "") as [->|Hne].
  - intros [= <-]. split_and!; [apply (bool_decide_unpack _); by vm_compute| |].
    + intros path x. rewrite !elem_of_cons, elem_of_nil. intros [[= -> ->]|[[= -> ->]|[]]]; done.
    + intros path x. rewrite !elem_of_cons, elem_of_nil. cbn. naive_solver.
  - destruct (literalPattern p); [|done]. destruct (cleanPath p) eqn:Hc; [|done]. cbn [negb]. case_decide as Hnd; [|done].
    intros [= <-]. split_and!; [exact Hnd| |].
    + intros path x. rewrite !elem_of_cons, elem_of_nil. intros [[= -> ->]|[[= -> ->]|[[= -> ->]|[]]]]; [done| |done].
      by apply cleanPath_slash.
    + intros path x. rewrite !elem_of_cons, elem_of_nil. naive_solver.
Qed.

(** When registering the routes panics. *)
Lemma buildMux_panics (cfg : ServerConfig) :
  buildMux cfg = RegisterPanics <->
  URLPathPrefix cfg <> "" /\ literalPattern (URLPathPrefix cfg) = true
  /\ (cleanPath (URLPathPrefix cfg) = false \/ URLPathPrefix cfg = "/health").
Proof.
  unfold buildMux. set (p := URLPathPrefix cfg). destruct (prefix_slash p) as [Hp1 Hp2].
  destruct (String.eqb_spec p "") as [Ep|Ep]; [by split; [|intros [? _]]|].
  destruct (literalPattern p); [|by split; [|intros (_ & ? & _)]]. destruct (cleanPath p); cbn [negb]; [|naive_solver].
  case_decide as Hnd; cbn in Hnd; rewrite !NoDup_cons, !elem_of_cons, !elem_of_nil in Hnd; (split; [done || intros _|]).
  - naive_solver.
  - split_and!; [done|done|]. right. destruct (decide (p = "/health")); [done|]. destruct Hnd. split_and!; try tauto. apply NoDup_nil_2.
  - done.
Qed.

(** (C31) Routing.  For a prefix without wildcards, registering the routes panics
    exactly when the prefix is not a clean path or is /health, the path of the
    health route.  Otherwise the subscription handler gets exactly the GET and
    HEAD requests for the mount point with and without its final slash, under
    the path with the prefix cut off, and /health keeps its place next to it. *)
Theorem dispatch_spec (cfg : ServerConfig) (r : request) :
  HasSuffix (URLPathPrefix cfg) "/" = false -> literalPattern (URLPathPrefix cfg) = true ->
  (buildMux cfg = RegisterPanics <-> URLPathPrefix cfg <> "" /\ cleanPath (URLPathPrefix cfg) = false \/ URLPathPrefix cfg = "/health")
  /\ forall routes, buildMux cfg = Routes routes ->
     ((exists r', dispatch cfg routes r = ToSubscription r')
        <-> reads r /\ (rqPath r = URLPathPrefix cfg +:+ "/" \/ URLPathPrefix cfg <> "" /\ rqPath r = URLPathPrefix cfg))
     /\ (forall r', dispatch cfg routes r = ToSubscription r' -> rqPath r' = "/" \/ rqPath r' = "")
     /\ (dispatch cfg routes r = ToHealth <-> reads r /\ rqPath r = "/health").
Proof.
  intros Hsuf Hlit. split.
  { rewrite buildMux_panics. split; [naive_solver|]. intros [[? ?]|E]; [naive_solver|]. rewrite E. split_and!; [done|done|by right]. }
  intros routes Hm. destruct (buildMux_routes cfg routes Hsuf Hm) as (Hnd & Hcl & Hin).
  destruct (dispatch_paths cfg routes r Hnd Hcl) as (H1 & H2 & H3).
  assert ((exists r', dispatch cfg routes r = ToSubscription r')
    <-> reads r /\ (rqPath r = URLPathPrefix cfg +:+ "/" \/ URLPathPrefix cfg <> "" /\ rqPath r = URLPathPrefix cfg)) as Hsub.
  { split.
    - intros [r' Hr']. pose proof (H3 _ Hr') as ->. apply H1 in Hr' as [Hr Hp]. split; [done|]. apply Hin in Hp. naive_solver.
    - intros [Hr Hp]. exists (stripped cfg r). apply H1. split; [done|]. apply Hin. by left. }
  split_and!; [exact Hsub| |].
  - intros r' Hr'. rewrite (H3 _ Hr'). cbn [stripped rqPath].
    destruct (proj1 Hsub (ex_intro _ r' Hr')) as [_ [->|[_ ->]]]; [left; apply str_drop_app|right].
    rewrite <- (str_app_nil_r (URLPathPrefix cfg)) at 2. apply str_drop_app.
  - rewrite H2, Hin. naive_solver.
Qed.

(** * Concrete requests *)
Section demo.
#[local] Existing Instances demo_decoder demo_secret_parser.
Definition demo_encoder : YamlEncoder := {| yaml_Encode _ := inr "served" |}.
(** A hash with collisions. *)
Definition demo_hash : TokenHash := {| sha256_hex _ := "0123456789abcdef" |}.
#[local] Existing Instances demo_encoder demo_hash.

Definition demo_config : ServerConfig :=
  MkServerConfig "s" "o" "t" "x" "c" 3600 86400 12 3 5 8080 LevelInfo "Proxies" "auto" "" "r" ["clash"] "/abc" "z" "UTC" UTC
    (ServerConfig.MkURLTestParams "u" 10 3000 3 true) (ServerConfig.MkLoadBalanceParams "u" 300 1500 3 true "round-robin").
Definition demo_input : buildInput := MkBuildInput (NewCache false ∅) (NewCache false ∅) [] 0 0 (NewCache false ∅) 0.
Definition demo_coordinator : Coordinator := NewCoordinator (NewCache false ∅) demo_cfg [].

Lemma dispatch_spec_witness :
  (exists r', dispatch demo_config [("/abc", SubscriptionRoute); ("/abc/", SubscriptionRoute); ("/health", HealthRoute)]
                (MkRequest "GET" "/abc/" "t" "clash" "r") = ToSubscription r')
  /\ buildMux demo_config <> RegisterPanics.
Proof.
  destruct (dispatch_spec demo_config (MkRequest "GET" "/abc/" "t" "clash" "r") eq_refl eq_refl) as [H1 H2]. split.
  - apply (H2 [("/abc", SubscriptionRoute); ("/abc/", SubscriptionRoute); ("/health", HealthRoute)]); [vm_compute; reflexivity|].
    split; left; reflexivity.
  - intros E. apply H1 in E as [[_ E]|E]; vm_compute in E; discriminate.
Defined.

(** A ready coordinator without sources, and two stores whose one record has the
    same label and nothing else in common. *)
Definition demo_world : option world :=
  wruns (Start (NewCoordinator (NewCache false ∅) demo_cfg []) 0 false) [EvReady].
Definition demo_ready : Coordinator := default demo_coordinator (wCo <$> demo_world).
Definition demo_store1 : TokenStore := MkStore {["secret-1" := MkToken "secret-1" "bob" 0 false None]}.
Definition demo_store2 : TokenStore := MkStore {["secret-2" := MkToken "secret-2" "bob" 7 false (Some 99)]}.
Definition demo_app_with (ts : TokenStore) : App := MkApp demo_config ts (NewPipeline [] [] [] 12) (MkMode "proxies: []").
Definition demo_get (c : Coordinator) (ts : TokenStore) (token : string) : outcome (option MapSnapshotter) :=
  subHandler (demo_app_with ts) c 0 demo_input false None (MkRequest "GET" "/" token "clash" "r") None None.

Lemma token_secrecy_witness :
  demo_get demo_ready demo_store1 "secret-1" = demo_get demo_ready demo_store2 "secret-2"
  /\ rpStatus (oReply (demo_get demo_ready demo_store1 "secret-1")) = 200
  /\ oLog (demo_get demo_ready demo_store1 "secret-2") = oLog (demo_get demo_ready demo_store2 "secret-1").
Proof.
  split_and!.
  - apply (token_secrecy (demo_app_with demo_store1) demo_store2); [discriminate|discriminate|by vm_compute].
  - vm_compute. reflexivity.
  - apply (f_equal (@oLog _)), (token_secrecy (demo_app_with demo_store1) demo_store2); [discriminate|discriminate|by vm_compute].
Defined.

(** No source, bootstrap over: the served document is that of the template.  A
    template whose root is a list is answered 500. *)
Definition list_decoder : YamlDecoder := {| yaml_Unmarshal _ := inr (lit SequenceNode "" "!!seq" []) |}.

Lemma subscription_served_witness :
  exists w, demo_world = Some w
    /\ rpStatus (oReply (Subscription (St := MapSnapshotter) (wCo w) (NewPipeline [] [] [] 12) (MkMode "proxies: []") demo_input false None
                           (MkRequest "GET" "/" "t" "clash" "r") None None)) = 200
    /\ rpStatus (oReply (Subscription (Y := list_decoder) (St := MapSnapshotter) (wCo w) (NewPipeline [] [] [] 12) (MkMode "[]") demo_input false None
                           (MkRequest "GET" "/" "t" "clash" "r") None None)) = 500.
Proof.
  destruct demo_world as [w|] eqn:Ew; [|vm_compute in Ew; discriminate].
  assert (coReady (wCo w) && AllSucceeded (wCo w) = true /\ demo_input = MkBuildInput (coCache (wCo w)) (NewCache false ∅) [] 0 0 (NewCache false ∅) 0)
    as [Hr Hi] by (vm_compute in Ew; injection Ew as <-; split; reflexivity).
  exists w. split; [reflexivity|]. rewrite Hi. split.
  - destruct (subscription_served (St := MapSnapshotter) ∅ false DirMissing demo_cfg [] w w (NewPipeline [] [] [] 12) (MkMode "proxies: []")
      demo_parsed (MkBuildInput (coCache (wCo w)) (NewCache false ∅) [] 0 0 (NewCache false ∅) 0) false None
      (MkRequest "GET" "/" "t" "clash" "r") None None (fun _ => 0) 0) as (_ & _ & H); try (do 3 eexists; exact Ew); try reflexivity.
    destruct (H Hr) as (merged & s' & _ & _ & H500 & H200). destruct H200 as (bytes & _ & ->); [|reflexivity].
    intros E500. apply H500 in E500 as [Hm|[e He]]; [|discriminate]. apply Hm. eexists. split; reflexivity.
  - destruct (subscription_served (Y := list_decoder) (St := MapSnapshotter) ∅ false DirMissing demo_cfg [] w w (NewPipeline [] [] [] 12) (MkMode "[]")
      (lit SequenceNode "" "!!seq" []) (MkBuildInput (coCache (wCo w)) (NewCache false ∅) [] 0 0 (NewCache false ∅) 0) false None
      (MkRequest "GET" "/" "t" "clash" "r") None None (fun _ => 0) 0) as (_ & _ & H); try (exists 0, false, [EvReady]; rewrite <- Ew; vm_compute; reflexivity); try reflexivity.
    destruct (H Hr) as (merged & s' & _ & _ & H500 & _). apply H500. left. intros (root & [= <-] & Hk). discriminate.
Defined.
End demo.
