(* ===== verification/Main.v ===== *)
(** * cmd/server/main.go: the wiring of the process

    Everything read at start-up is an argument: the environment, the files and
    what reading them yields.  The steps run in the order of [run], the first
    error ends them. *)
From stdpp Require Import base gmap sets list strings sorting.
From Stdlib Require Import ZArith Lia Ascii.
From S2P Require Import Prelude GoStrings GoTime GoFloat Yaml Subscriptions Headers CustomRules DailySpend Traffic Region Pipeline.
From S2P Require Import ServerConfig Tokens Http OwnProxies Cache Scheduler SchedulerProofs Output OutputProofs Server ServerProofs.

Local Open Scope Z_scope.

Definition splitEnabled (rows : list SubscriptionRow) : list SubscriptionRow * list SubscriptionRow :=
  (filter (fun r => Enable r = true) rows, filter (fun r => Enable r = false) rows).
Definition names (rows : list SubscriptionRow) : list string := map Name rows.

Inductive startupError :=
| ConfigInvalid (e : configError)
| SubscriptionsUnreadable
| SubscriptionsInvalid (e : csvError)
| TokensInvalid (e : Tokens.loadError)
| WatcherFailed
| OwnProxiesInvalid (e : OwnProxies.loadError)
| TemplateInvalid (e : outputError).

Record process := MkProcess {
  prConfig : ServerConfig;
  prRows : list SubscriptionRow;
  prTokens : TokenStore;
  prCache : Cache;
  prFetcher : UpstreamFetcher;
  prPipeline : Pipeline;
  prAdapter : SubscriptionMode
}.

Record inputs := MkInputs {
  inEnv : Env;
  inSubscriptions : option (list (unit + list string));   (** the CSV records; [None]: the file does not open *)
  inTokens : tokenFile;
  inWatchFails : bool;
  inCacheFiles : gmap string diskFile;
  inCacheDir : dirListing;
  inOwnProxies : string + string;
  inCustomRules : option (list dirEntry);
  inTemplate : string + string
}.

Definition schedulerConfig (cfg : ServerConfig) : SchedulerConfig :=
  MkSchedulerConfig (seconds (DefaultTTLSeconds cfg)) (seconds (DefaultStaleOnErrorSeconds cfg)) (BootstrapMaxAttempts cfg)
    (seconds (BootstrapAttemptDelaySeconds cfg)).

(** The parameters of the groups, copied field by field. *)
Definition groupURLTest (cfg : ServerConfig) : Region.URLTestParams :=
  let u := cfgURLTest cfg in
  Region.MkURLTest (utURL u) (utIntervalSeconds u) (utTimeoutMS u) (utMaxFailedTimes u) (utLazy u).
Definition groupLoadBalance (cfg : ServerConfig) : Region.LoadBalanceParams :=
  let l := cfgLoadBalance cfg in
  Region.MkLoadBalance (lbURL l) (lbIntervalSeconds l) (lbTimeoutMS l) (lbMaxFailedTimes l) (lbLazy l) (lbStrategy l).

Definition wirePipeline (cfg : ServerConfig) (subs : list SubscriptionRow) (own : OwnProxiesFile) (rules : list CustomRuleSet) : Pipeline :=
  let p := NewPipeline subs (OwnProxies.Proxies own) (OwnProxies.ProxyGroups own) (DefaultProfileUpdateIntervalHours cfg) in
  let p := WithProxiesGroupName p (ProxiesGroupName cfg) in
  let p := WithFallbackRuleTarget p (FallbackRuleTarget cfg) in
  let p := WithURLTestParams p (groupURLTest cfg) in
  let p := WithLoadBalanceParams p (groupLoadBalance cfg) in
  let p := WithBudgetLocation p (Some (BudgetLocation cfg)) in
  WithCustomRules p rules.

(** The upstream fetcher, with the configured user agent when there is one. *)
Definition wireFetcher (cfg : ServerConfig) : UpstreamFetcher :=
  let f := NewUpstreamFetcher (30 * Second) in
  if String.eqb (UpstreamUserAgent cfg) "" then f else MkFetcher (ufClientTimeout f) (ufTimeout f) (UpstreamUserAgent cfg).

Section run.
Context {U : UnicodeTables} {P : UrlParser} {T : TimeZones} {Y : YamlDecoder} {D : NodeDecoder}.

(** [run] up to the start of the coordinator and of the adapter. *)
Definition setup (i : inputs) : startupError + process :=
  match ServerConfig.Load (inEnv i) with
  | inl e => inl (ConfigInvalid e)
  | inr cfg =>
      match inSubscriptions i with
      | None => inl SubscriptionsUnreadable
      | Some reads =>
          match parseSubscriptions reads with
          | inl e => inl (SubscriptionsInvalid e)
          | inr subs =>
              match Tokens.Load NewTokenStore (inTokens i) with
              | (_, Some e) => inl (TokensInvalid e)
              | (tokens, None) =>
                  if inWatchFails i then inl WatcherFailed
                  else
                    (* CacheDir is required, so persistence is on; a rehydration error is only logged. *)
                    let cache := (LoadFromDisk (NewCache (negb (String.eqb (CacheDir cfg) "")) (inCacheFiles i)) (inCacheDir i)).1 in
                    let fetcher := wireFetcher cfg in
                    match LoadOwnProxies (inOwnProxies i) with
                    | inl e => inl (OwnProxiesInvalid e)
                    | inr own =>
                        match NewSubscriptionMode (inTemplate i) with
                        | inl e => inl (TemplateInvalid e)
                        | inr adapter =>
                            inr (MkProcess cfg subs tokens cache fetcher (wirePipeline cfg subs own (CustomRules.Load (inCustomRules i))) adapter)
                        end
                    end
              end
          end
      end
  end.
End run.

(** ** Opening the listener *)
Inductive opening := OpenReady (someFailed : bool) | OpenAtDeadline | NotOpened.

Definition bootstrapWait (cfg : ServerConfig) : Duration :=
  seconds (wrap64 (wrap64 (BootstrapMaxAttempts cfg * BootstrapAttemptDelaySeconds cfg) + 30)).

(** The select: which case is chosen among those that can be. *)
Definition waitStep (w : world) (started : Time) (cfg : ServerConfig) (o : opening) : Prop :=
  match o with
  | OpenReady failed => coReady (wCo w) = true /\ failed = negb (AllSucceeded (wCo w))
  | OpenAtDeadline => started + bootstrapWait cfg <= wNow w
  | NotOpened => wCancelled w = true
  end.

(** ** The process *)
Inductive exitStatus := ExitOK | ExitStartup (e : startupError) | ExitCancelled | ExitServing (err : string) | ExitPanic.

(** The exit code; a panic's is 2. *)
Definition exitCode (e : exitStatus) : Z :=
  match e with ExitOK => 0 | ExitStartup _ | ExitCancelled | ExitServing _ => 1 | ExitPanic => 2 end.

(** [main] over [run], given how the wait ends and what happens to the server. *)
Definition run {U : UnicodeTables} {P : UrlParser} {T : TimeZones} {Y : YamlDecoder} {D : NodeDecoder}
    (i : inputs) (o : opening) (e : runEvent) : exitStatus :=
  match setup i with
  | inl (TokensInvalid NilDereference) => ExitPanic
  | inl err => ExitStartup err
  | inr pr =>
      match o with
      | NotOpened => ExitCancelled
      | OpenReady _ | OpenAtDeadline =>
          match Run (prConfig pr) e with
          | RunPanics => ExitPanic
          | RunReturns None => ExitOK
          | RunReturns (Some err) => ExitServing err
          end
      end
  end.

Section main_lemmas.
Context {U : UnicodeTables} {P : UrlParser} {T : TimeZones} {Y : YamlDecoder} {D : NodeDecoder}.

Lemma seconds_exact (n : Z) : 0 <= n <= 9223372036 -> seconds n = n * Second.
Proof. intros Hn. unfold seconds, wrap64, Second. rewrite Z.mod_small; lia. Qed.

Lemma seconds_pos (n : Z) : 0 < n <= 9223372036 -> 0 < seconds n.
Proof. intros Hn. rewrite seconds_exact by lia. unfold Second. lia. Qed.

Lemma no_panic (cache : Cache) (cfg : SchedulerConfig) (rows : list SubscriptionRow) (w : world) :
  wreachable cache cfg rows w -> 0 < DefaultTTL cfg ->
  (forall row, row ∈ rows -> RefreshSeconds row <= 9223372036) -> ~ panicked w.
Proof.
  intros Hw%life_reachable Hd Hrows [Hneg|(n & row & Hg)]; [pose proof (w_wg _ (l_ok _ _ _ Hw)); lia|].
  pose proof (l_panic _ _ _ Hw _ _ Hg) as Hp. pose proof (Hrows row (l_rows _ _ _ Hw _ _ _ Hg)) as Hr.
  unfold ttlFor in Hp. destruct (refreshDisabled row); [by vm_compute in Hp|].
  destruct (Z.ltb_spec 0 (RefreshSeconds row)); [|lia]. pose proof (seconds_pos (RefreshSeconds row)). lia.
Qed.

(** Every setting of the configuration reaches the pipeline: the options that
    ignore an empty name never see one. *)
Lemma wirePipeline_eq (env : Env) (cfg : ServerConfig) (subs : list SubscriptionRow) (own : OwnProxiesFile) (rules : list CustomRuleSet) :
  config_ok env cfg ->
  wirePipeline cfg subs own rules =
    MkPipeline subs (OwnProxies.Proxies own) (OwnProxies.ProxyGroups own) (DefaultProfileUpdateIntervalHours cfg) rules
      (ProxiesGroupName cfg) (FallbackRuleTarget cfg) (groupURLTest cfg) (groupLoadBalance cfg) (Some (BudgetLocation cfg)).
Proof.
  intros Hok. pose proof (config_ok_groupName _ _ Hok) as Hg%String.eqb_neq. pose proof (config_ok_fallback _ _ Hok) as Hf%String.eqb_neq.
  unfold wirePipeline, WithProxiesGroupName, WithFallbackRuleTarget. by rewrite Hg, Hf.
Qed.

(** Every upstream is asked by GET, within thirty seconds, under the configured
    user agent or else the default one, never under none. *)
Lemma wireFetcher_request (cfg : ServerConfig) (row : SubscriptionRow) (start : Time) :
  upstreamRequest (wireFetcher cfg) row start
  = MkHttpRequest "GET" (Link row) (if String.eqb (UpstreamUserAgent cfg) "" then DefaultUserAgent else UpstreamUserAgent cfg)
      (start + 30 * Second).
Proof. unfold wireFetcher, upstreamRequest. destruct (String.eqb (UpstreamUserAgent cfg) "") eqn:E; cbn [ufUserAgent ufTimeout]; [done|by rewrite E]. Qed.

(** A started process, part by part: what each of its fields is in terms of the
    environment and the files it was started with. *)
Record wired (i : inputs) (pr : process) : Prop := {
  wd_loaded : ServerConfig.Load (inEnv i) = inr (prConfig pr);
  wd_config : config_ok (inEnv i) (prConfig pr);
  wd_parsed : exists reads, inSubscriptions i = Some reads /\ parseSubscriptions reads = inr (prRows pr);
  wd_names : NoDup (map Name (prRows pr));
  wd_rows : Forall row_ok (prRows pr);
  wd_tokens : Tokens.Load NewTokenStore (inTokens i) = (prTokens pr, None);
  wd_cache : prCache pr = (LoadFromDisk (NewCache true (inCacheFiles i)) (inCacheDir i)).1;
  wd_fetcher : forall row start, upstreamRequest (prFetcher pr) row start
    = MkHttpRequest "GET" (Link row)
        (if String.eqb (UpstreamUserAgent (prConfig pr)) "" then DefaultUserAgent else UpstreamUserAgent (prConfig pr))
        (start + 30 * Second);
  wd_pipeline : exists own, LoadOwnProxies (inOwnProxies i) = inr own
    /\ prPipeline pr = MkPipeline (prRows pr) (OwnProxies.Proxies own) (OwnProxies.ProxyGroups own)
         (DefaultProfileUpdateIntervalHours (prConfig pr)) (CustomRules.Load (inCustomRules i)) (ProxiesGroupName (prConfig pr))
         (FallbackRuleTarget (prConfig pr)) (groupURLTest (prConfig pr)) (groupLoadBalance (prConfig pr)) (Some (BudgetLocation (prConfig pr)));
  wd_template : inTemplate i = inr (templateBytes (prAdapter pr)) /\ exists doc, yaml_Unmarshal (templateBytes (prAdapter pr)) = inr doc
}.

Lemma NewSubscriptionMode_bytes (file : string + string) (m : SubscriptionMode) :
  NewSubscriptionMode file = inr m -> file = inr (templateBytes m).
Proof. unfold NewSubscriptionMode. destruct file as [|b]; [done|]. destruct (yaml_Unmarshal b); [done|]. by intros [= <-]. Qed.

Lemma setup_wired (i : inputs) (pr : process) : setup i = inr pr -> wired i pr.
Proof.
  unfold setup. intros H.
  destruct (ServerConfig.Load (inEnv i)) as [|cfg] eqn:Hl; [done|]. pose proof (Load_config_ok _ _ Hl) as Hc.
  destruct (inSubscriptions i) as [reads|] eqn:Hi; [|done].
  destruct (parseSubscriptions reads) as [|subs] eqn:Hp; [done|]. pose proof (parseSubscriptions_rows _ _ Hp) as [Hnd Hok].
  destruct (Tokens.Load NewTokenStore (inTokens i)) as [tokens [|]] eqn:Htk; [done|]. destruct (inWatchFails i); [done|].
  destruct (LoadOwnProxies (inOwnProxies i)) as [|own] eqn:Ho; [done|].
  destruct (NewSubscriptionMode (inTemplate i)) as [|adapter] eqn:Ht; [done|]. injection H as <-.
  split; cbn [prConfig prRows prTokens prCache prFetcher prPipeline prAdapter]; try done.
  - by exists reads.
  - pose proof (config_ok_CacheDir _ _ Hc) as Hd%String.eqb_neq. by rewrite Hd.
  - apply wireFetcher_request.
  - exists own. split; [done|]. by eapply wirePipeline_eq.
  - split; [by apply NewSubscriptionMode_bytes|by eapply NewSubscriptionMode_parses].
Qed.

(** The settings of the scheduler are those of the configuration, in
    nanoseconds, as long as these fit 64 bits. *)
Lemma schedulerConfig_exact (env : Env) (cfg : ServerConfig) :
  config_ok env cfg ->
  Forall (fun n => n <= 9223372036) [DefaultTTLSeconds cfg; DefaultStaleOnErrorSeconds cfg; BootstrapAttemptDelaySeconds cfg] ->
  schedulerConfig cfg = MkSchedulerConfig (DefaultTTLSeconds cfg * Second) (DefaultStaleOnErrorSeconds cfg * Second)
    (BootstrapMaxAttempts cfg) (BootstrapAttemptDelaySeconds cfg * Second).
Proof.
  intros Hok Hle. pose proof (ok_ints _ _ Hok) as Hpos. repeat rewrite Forall_cons in Hle; repeat rewrite Forall_cons in Hpos.
  unfold schedulerConfig. by rewrite !seconds_exact by lia.
Qed.

(** The process exits with 0 only after a start without errors and an orderly
    end of the server. *)
Lemma run_exit_ok (i : inputs) (o : opening) (e : runEvent) :
  exitCode (run i o e) = 0 <->
  exists pr, setup i = inr pr /\ o <> NotOpened /\ buildMux (prConfig pr) <> RegisterPanics
    /\ (e = ContextDone None \/ e = ListenerEnded None).
Proof.
  unfold run. destruct (setup i) as [err|pr].
  - split; [|by intros (pr & ? & _)]. destruct err as [| | |[]| | |]; done.
  - unfold Run. split.
    + intros H. exists pr. destruct o, (buildMux (prConfig pr)), e as [[|]|[|]]; try done; split_and!; first [done | by left | by right].
    + intros (pr' & [= <-] & Ho & Hm & He). destruct o, (buildMux (prConfig pr)); try done; by destruct He as [->| ->].
Qed.

(** (C12) A process that starts is wired as its environment and files say: the
    configuration, the rows, the tokens, the cache, the upstream request with its
    user agent, the pipeline, the template and the settings of the scheduler.
    Its configuration and rows are valid, and every cached payload is parsed.
    Provided the default interval and the refresh column stay below 2^63
    nanoseconds, no interleaving of the scheduler's goroutines panics; the
    token watcher panics exactly when a reload reads a null record; and the
    routes register when the prefix is a clean path other than /health. *)
Theorem setup_safe (i : inputs) (pr : process) :
  setup i = inr pr ->
  wired i pr /\ persistent (prCache pr) = true /\ all_parsed (prCache pr)
  /\ (Forall (fun n => n <= 9223372036)
        [DefaultTTLSeconds (prConfig pr); DefaultStaleOnErrorSeconds (prConfig pr); BootstrapAttemptDelaySeconds (prConfig pr)] ->
      schedulerConfig (prConfig pr)
      = MkSchedulerConfig (DefaultTTLSeconds (prConfig pr) * Second) (DefaultStaleOnErrorSeconds (prConfig pr) * Second)
          (BootstrapMaxAttempts (prConfig pr)) (BootstrapAttemptDelaySeconds (prConfig pr) * Second))
  /\ (DefaultTTLSeconds (prConfig pr) <= 9223372036 -> (forall row, row ∈ prRows pr -> RefreshSeconds row <= 9223372036) ->
      forall w, wreachable (prCache pr) (schedulerConfig (prConfig pr)) (prRows pr) w -> ~ panicked w)
  /\ (forall base now es w, watchRuns base (Watch (prTokens pr) now) es = Some w ->
      (wPanicked w = true <-> exists file rest, wTrace w = Reloaded file :: rest /\ null_record file))
  /\ (cleanPath (URLPathPrefix (prConfig pr)) = true -> URLPathPrefix (prConfig pr) <> "/health" ->
      buildMux (prConfig pr) <> RegisterPanics).
Proof.
  intros H%setup_wired. pose proof (wd_config _ _ H) as Hok. split; [done|].
  rewrite (wd_cache _ _ H). split_and!.
  - by rewrite LoadFromDisk_persistent.
  - apply LoadFromDisk_parsed, NewCache_parsed.
  - by apply (schedulerConfig_exact (inEnv i)).
  - intros Hd Hr w Hw. eapply no_panic; [exact Hw| |exact Hr]. apply seconds_pos. by split; [apply (config_ok_DefaultTTL _ _ Hok)|].
  - intros base now es w Hw. by eapply watch_panics.
  - intros Hc Hh (_ & _ & [|])%buildMux_panics; congruence.
Qed.
End main_lemmas.

(** ** A start-up *)
Definition demo_names (p : string) (l : list string) : list node :=
  [str_scalar p; lit SequenceNode "" "!!seq" (map str_scalar l)].
Definition demo_own_group : node :=
  lit MappingNode "" "!!map" ([str_scalar "name"; str_scalar "mine"; str_scalar "type"; str_scalar "select"] ++ demo_names "proxies" ["home"; "DIRECT"]).
Definition demo_own_file : OwnProxiesFile := MkOwnFile [demo_own_proxy] [demo_own_group].
Definition demo_main_decoder : YamlDecoder := {| yaml_Unmarshal _ :=
  inr (lit MappingNode "" "!!map" [str_scalar "proxies"; lit SequenceNode "" "!!seq" [demo_own_proxy];
                                   str_scalar "proxy-groups"; lit SequenceNode "" "!!seq" [demo_own_group]]) |}.
Definition demo_inputs : inputs :=
  MkInputs demo_env (Some [inr ["name"; "link"; "priority"; "enable"]; inr ["alpha"; "https://x.example"; "10"; "disable"]])
    demo_file false ∅ DirMissing (inr "") None (inr "").

Section demo.
#[local] Existing Instances demo_main_decoder demo_node_decoder demo_zones.
#[local] Instance demo_urls : UrlParser := {| url_Parse := demo_url_Parse |}.

Lemma setup_safe_witness : exists pr, setup demo_inputs = inr pr /\ map Name (prRows pr) = ["alpha"]
  /\ schedulerConfig (prConfig pr) = MkSchedulerConfig 3600000000000 86400000000000 3 5000000000
  /\ (forall w, wreachable (prCache pr) (schedulerConfig (prConfig pr)) (prRows pr) w -> ~ panicked w)
  /\ exists w, watchRuns "t.json" (Watch (prTokens pr) 0)
       [WNotify "t.json" true; WAdvance tokenReloadDebounce; WFire 0; WRead 0 (Decoded [None]); WSwap 0] = Some w /\ wPanicked w = true.
Proof.
  destruct (setup demo_inputs) as [e|pr] eqn:E; [vm_compute in E; discriminate|]. exists pr. split; [reflexivity|].
  pose proof (setup_safe demo_inputs pr E) as (_ & _ & _ & Hs & Hw & Ht & _).
  vm_compute in E. injection E as <-. split; [reflexivity|]. split; [|split].
  - rewrite Hs; [vm_compute; reflexivity|]. repeat constructor; vm_compute; congruence.
  - apply Hw; [vm_compute; congruence|]. intros row ->%list_elem_of_singleton. vm_compute. congruence.
  - destruct (watchRuns "t.json" (Watch _ 0) _) as [w|] eqn:Ew; [|vm_compute in Ew; discriminate]. exists w. split; [reflexivity|].
    apply (Ht _ _ _ _ Ew). exists (Decoded [None]). eexists. split; [vm_compute in Ew; injection Ew as <-; reflexivity|].
    exists [], []. repeat split; constructor.
Defined.
End demo.
