(* ===== verification/BuildProofs.v ===== *)
(** * Properties of [Build]

    What the served configuration guarantees, whatever the cache holds: the
    rule slices, the rule providers, the selector group and the references
    between groups and proxies. *)
From stdpp Require Import base gmap sets list strings sorting.
From Stdlib Require Import ZArith Lia Ascii.
From S2P Require Import Prelude GoStrings GoSort GoTime GoFloat Headers DailySpend Traffic.
From S2P Require Import Yaml Namespace Subscriptions CustomRules Proxies Rules ProxyGroups Fanout.
From S2P Require Import RuleSet Prune Region Pipeline.

(** ** The source order *)
Lemma rowLess_trans (a b c : SubscriptionRow) : sort_le rowLess a b -> sort_le rowLess b c -> sort_le rowLess a c.
Proof. unfold sort_le, rowLess. rewrite !Z.ltb_ge. lia. Qed.

Lemma rowLess_asym (a b : SubscriptionRow) : rowLess a b = true -> rowLess b a = false.
Proof. unfold rowLess. rewrite Z.ltb_lt, Z.ltb_ge. lia. Qed.

(** The sources are processed in descending priority; rows of equal
    priority keep their order in the CSV file; exactly the enabled rows take
    part. *)
Theorem sortSourcesByPriority_spec (rows : list SubscriptionRow) :
  let sorted := sortSourcesByPriority rows in
  sorted ≡ₚ filter (fun r => Enable r = true) rows
  /\ StronglySorted (fun a b => (Priority b <= Priority a)%Z) sorted
  /\ forall p, filter (fun r => Priority r = p) sorted = filter (fun r => Priority r = p /\ Enable r = true) rows.
Proof.
  intros sorted. split_and!.
  - apply SliceStable_perm.
  - pose proof (SliceStable_sorted rowLess rowLess_trans rowLess_asym (filter (fun r => Enable r = true) rows)) as H.
    change (SliceStable rowLess _) with sorted in H. clearbody sorted. revert H. induction 1 as [|r l _ IH Hr]; constructor; [done|].
    eapply Forall_impl; [exact Hr|]. intros r'. unfold sort_le, rowLess. rewrite Z.ltb_ge. done.
  - intros p. set (k := MkRow "" "" p true 0 0).
    pose proof (SliceStable_stable rowLess rowLess_trans rowLess_asym k (filter (fun r => Enable r = true) rows)) as H.
    change (SliceStable rowLess (filter (fun r => Enable r = true) rows)) with sorted in H.
    assert (forall l : list SubscriptionRow, filter (fun y => sort_equiv rowLess k y = true) l = filter (fun r => Priority r = p) l) as E.
    { intros l. apply list_filter_iff. intros r. unfold sort_equiv, rowLess. simpl. lia. }
    rewrite !E in H. rewrite H, list_filter_filter. done.
Qed.

Section build.
Context {U : UnicodeTables} {F : FloatConversion} {St : Type} `{!Snapshotter St}.

(** ** What a successful [Build] computed *)
Record build_trace (p : Pipeline) (cache1 : CacheReader) (mc : MergedConfig) := {
  bt_sm0 : sourceMaps;
  bt_read : readSources cache1 (MkSourceMaps ∅ ∅ ∅ ∅ ∅ []) (sortSourcesByPriority (subscriptions p)) = inr bt_sm0;
  bt_sm : sourceMaps := foldl dropUnbacked (foldl namespaceSource bt_sm0 (smContributing bt_sm0)) (smContributing bt_sm0);
  bt_ownP : list node := (RewriteOwn (ownProxies p) (ownGroups p)).1;
  bt_ownG : list node := (RewriteOwn (ownProxies p) (ownGroups p)).2;
  bt_merged : list node := (MergeProxies (smProxies bt_sm) (smContributing bt_sm0) bt_ownP).1;
  bt_groups : list node := (buildGroups p (smGroups bt_sm) (smContributing bt_sm0) bt_ownG bt_merged).1;
  bt_rules : MergeResult :=
    MergeUnifiedRules (smRules bt_sm) (sortSourcesByPriority (subscriptions p)) (customRules p) (fallbackRuleTarget p);
  bt_proxies_eq : mcProxies mc = bt_merged ++ (AppendFanoutProxies bt_ownP bt_groups (proxiesGroupName p)).1;
  bt_pruned : (mcProxyGroups mc, mcRules mc)
    = (PruneEmptyProxyGroups bt_groups (mrRules bt_rules) (proxiesGroupName p) (fallbackRuleTarget p)).1;
  bt_providers : mcRuleProviders mc = MergeRuleProviders (map (fun name => smNsProviders bt_sm !! name) (smContributing bt_sm0))
    (ReferencedRuleProviders (mcRules mc));
  bt_priorities : mcRulePriorities mc = mrPriorities bt_rules;
  bt_contributors : mcRuleContributors mc = mrContributors bt_rules;
  bt_contributing : mcContributingSources mc = smContributing bt_sm0
}.

Lemma Build_trace (p : Pipeline) (cache1 cache2 : CacheReader) (order : list (string * SubscriptionUserinfo))
    (nowA now : Time) (store st' : option St) (mc : MergedConfig) :
  Build p cache1 cache2 order nowA now store = inr (mc, st') -> inhabited (build_trace p cache1 mc).
Proof.
  unfold Build. intros H. destruct (readSources _ _ _) as [e|sm] eqn:Er; [done|].
  destruct (foldl (readHeaders cache2) _ _) as [userinfo intervals].
  destruct (RewriteOwn (ownProxies p) (ownGroups p)) as [oP oG] eqn:Eo.
  destruct (MergeProxies _ _ _) as [mp coll] eqn:Em.
  destruct (buildGroups _ _ _ _ _) as [gs conf] eqn:Eg.
  destruct (buildTraffic _ _ _ _ _ _) as [hd st''].
  destruct (PruneEmptyProxyGroups _ _ _ _) as [[pg pr] res] eqn:Ep. simplify_eq. constructor.
  refine (Build_build_trace _ _ _ sm Er _ _ _ _ _ _); cbv zeta; rewrite ?Eo; cbn [fst snd]; rewrite ?Em; cbn [fst snd];
    rewrite ?Eg; cbn [fst snd]; rewrite ?Ep; done.
Qed.

(** ** Rules *)

(** The MATCH fallback is not redirected: its target is never removed. *)
Lemma match_fallback_kept (groups : list node) (pg fb : string) :
  byte_free comma fb = true ->
  match ruleTarget ("MATCH," +:+ fb) with
  | Some (t, _, _) => t ∉ names_of (filter (fun g => isPruned (protectedNames groups pg fb) g = true) groups)
  | None => True
  end.
Proof.
  intros Hfb. pose proof (ruleTarget_fields ("MATCH," +:+ fb)) as H. cbv zeta in H.
  change ("MATCH," +:+ fb) with ("MATCH" +:+ String comma fb) in *.
  rewrite (Split_app_sep "MATCH" fb comma), (Split_free fb comma) in H by done.
  destruct (ruleTarget _) as [[[t st] en]|]; [|done]. destruct H as (_ & H & _).
  unfold pruneTargetIdx in H. simpl in H. injection H as <-. intros [_ H]%removed_unprotected. done.
Qed.

(** (C3) The three rule slices of a served configuration have equal length, and
    the last rule is the MATCH fallback to the configured target, with priority
    0 and no contributor. *)
Theorem Build_rules (p : Pipeline) (cache1 cache2 : CacheReader) (order : list (string * SubscriptionUserinfo))
    (nowA now : Time) (store st' : option St) (mc : MergedConfig) :
  Build p cache1 cache2 order nowA now store = inr (mc, st') ->
  byte_free comma (fallbackRuleTarget p) = true ->
  length (mcRulePriorities mc) = length (mcRules mc) /\ length (mcRuleContributors mc) = length (mcRules mc)
  /\ last (mcRules mc) = Some ("MATCH," +:+ fallbackRuleTarget p)
  /\ last (mcRulePriorities mc) = Some 0%Z /\ last (mcRuleContributors mc) = Some "".
Proof.
  intros H Hfb. destruct (Build_trace _ _ _ _ _ _ _ _ _ H) as [T].
  rewrite (bt_priorities _ _ _ T), (bt_contributors _ _ _ T). pose proof (bt_pruned _ _ _ T) as Hp.
  set (mr := bt_rules _ _ _ T) in *. set (gs := bt_groups _ _ _ T) in *.
  pose proof (Prune_rules gs (mrRules mr) (proxiesGroupName p) (fallbackRuleTarget p)) as HF. cbv zeta in HF.
  destruct (PruneEmptyProxyGroups _ _ _ _) as [[gs' rs'] res]. simpl in Hp, HF. injection Hp as _ ->.
  assert (parallel mr) as [L1 L2] by apply MergeUnifiedRules_parallel.
  assert (length (mrRules mr) = length rs') as L by exact (Forall2_length _ _ _ HF). rewrite L in L1, L2. split_and!; [done|done| |unfold mr, bt_rules, MergeUnifiedRules;
    cbn [mrPriorities mrContributors]; by rewrite last_snoc..].
  unfold mr, bt_rules, MergeUnifiedRules in HF. cbn [mrRules] in HF.
  apply Forall2_app_inv_l in HF as (l1 & l2 & _ & H2 & ->).
  apply Forall2_cons_inv_l in H2 as (r' & l2' & Hr & H2 & ->). apply Forall2_nil_inv_l in H2 as ->.
  rewrite last_snoc. f_equal.
  pose proof (match_fallback_kept gs (if String.eqb (proxiesGroupName p) "" then "Proxies" else proxiesGroupName p)
    (fallbackRuleTarget p) Hfb) as Hk.
  destruct (ruleTarget _) as [[[t st] en]|]; [|done].
  rewrite bool_decide_eq_false_2 in Hr; [done|]. by rewrite elem_of_list_to_set.
Qed.

(** ** Rule sets *)

(** Writing over a target that comes after the provider keeps the provider. *)
Lemma ruleSetProvider_retarget (r t fb : string) (st en : nat) :
  ruleTarget r = Some (t, st, en) -> plainTarget fb = true ->
  let r' := str_take st r +:+ fb +:+ str_drop en r in
  2 <= pruneTargetIdx (Split r' comma) -> ruleSetProvider r' = ruleSetProvider r.
Proof.
  intros Ht Hfb r'. unfold plainTarget in Hfb. apply andb_true_iff in Hfb as [Hfree Hopt].
  apply negb_true_iff, bool_decide_eq_false in Hopt.
  destruct (Split_retarget _ _ _ _ _ Ht Hfree) as [Es Hlen]. fold r' in Es. unfold ruleSetProvider. rewrite Es.
  destruct (pruneTargetIdx_insert _ fb Hlen Hopt) as (_ & _ & ->). intros Hi.
  set (i := pruneTargetIdx (Split r comma)) in *. clearbody i.
  destruct (Split r comma) as [|ty [|pr rest]]; [by destruct i|by destruct i|]. by destruct i as [|[|i]]; [lia|lia|].
Qed.

(** After the drop every rule of a contributing source is backed. *)
Lemma dropUnbacked_foldl (names : list string) (sm : sourceMaps) :
  let sm' := foldl dropUnbacked sm names in
  smNsProviders sm' = smNsProviders sm /\ smProxies sm' = smProxies sm /\ smGroups sm' = smGroups sm
  /\ (forall s r, r ∈ lookup_rules (smRules sm') s -> r ∈ lookup_rules (smRules sm) s)
  /\ (forall s r, s ∈ names -> r ∈ lookup_rules (smRules sm') s -> backed (ruleProviderKeys (smNsProviders sm !! s)) r).
Proof.
  revert sm. induction names as [|n names IH]; intros sm; [by split_and!; try done; intros s r ?%elem_of_nil|].
  cbn [foldl]. destruct (IH (dropUnbacked sm n)) as (H1 & H2 & H3 & H4 & H5). cbv zeta.
  assert (forall s r, r ∈ lookup_rules (smRules (dropUnbacked sm n)) s ->
    r ∈ lookup_rules (smRules sm) s /\ (s = n -> backed (ruleProviderKeys (smNsProviders sm !! s)) r)) as Hd.
  { intros s r. unfold dropUnbacked, lookup_rules. cbn [smRules]. rewrite (proj1 (DropUnbacked_kept _ _)).
    rewrite lookup_insert. case_decide as Hs; [|by intros Hr; split].
    subst s. cbn [default]. intros [Hb Hr]%list_elem_of_filter. done. }
  split_and!; [by rewrite H1|by rewrite H2|by rewrite H3| |].
  - intros s r Hr. apply Hd, H4, Hr.
  - intros s r Hs Hr. destruct (decide (s ∈ names)) as [Hin|Hin]; [by apply (H5 s r)|].
    apply elem_of_cons in Hs as [->|Hs]; [|done]. apply H4, Hd in Hr as [_ Hb]. by apply Hb.
Qed.

(** ** What the sources contribute *)

(** The parsed document of a cached source. *)
Definition docOf (cache : CacheReader) (s : string) : option node :=
  pl ← cache s; root ← plParse pl; docRoot (Some root).
Definition docProxies (cache : CacheReader) (s : string) : option (list node) :=
  Content <$> findChildSequence (docOf cache s) "proxies".
Definition docGroups (cache : CacheReader) (s : string) : option (list node) :=
  Content <$> findChildSequence (docOf cache s) "proxy-groups".
Definition docRules (cache : CacheReader) (s : string) : option (list string) :=
  (fun seq => scalarValues (Content seq)) <$> findChildSequence (docOf cache s) "rules".
Definition docProviders (cache : CacheReader) (s : string) : option node :=
  findChildMapping (docOf cache s) "rule-providers".

Definition orElse {A : Type} (a b : option A) : option A := match a with Some _ => a | None => b end.

Lemma orElse_idemp {A : Type} (a b : option A) : orElse a (orElse a b) = orElse a b.
Proof. by destruct a. Qed.

Lemma orElse_step {A : Type} (x s : string) (names : list string) (a b : option A) :
  (if decide (s ∈ names) then orElse a (if decide (x = s) then orElse a b else b) else if decide (x = s) then orElse a b else b)
  = if decide (s ∈ x :: names) then orElse a b else b.
Proof.
  destruct (decide (x = s)) as [->|Hne]; [rewrite (decide_True (P := s ∈ s :: names)) by left|].
  - case_decide; [apply orElse_idemp|done].
  - destruct (decide (s ∈ names)); [rewrite decide_True by (by right)|rewrite decide_False by (rewrite elem_of_cons; naive_solver)]; done.
Qed.

Lemma insert_some_lookup {A B : Type} (name s : string) (o : option A) (f : A -> B) (m : gmap string B) :
  insert_some name o f m !! s = if decide (name = s) then orElse (f <$> o) (m !! s) else m !! s.
Proof.
  unfold insert_some. destruct o as [x|]; case_decide; subst; simpl;
    [by rewrite lookup_insert_eq|by rewrite lookup_insert_ne|done|done].
Qed.

Lemma readSource_spec (cache : CacheReader) (acc sm : sourceMaps) (row : SubscriptionRow) :
  readSource cache acc row = inr sm ->
  smNsProviders sm = smNsProviders acc
  /\ smContributing sm = smContributing acc ++ (if bool_decide (is_Some (docOf cache (Name row))) then [Name row] else [])
  /\ (forall s, smProxies sm !! s = if decide (Name row = s) then orElse (docProxies cache s) (smProxies acc !! s) else smProxies acc !! s)
  /\ (forall s, smGroups sm !! s = if decide (Name row = s) then orElse (docGroups cache s) (smGroups acc !! s) else smGroups acc !! s)
  /\ (forall s, smRules sm !! s = if decide (Name row = s) then orElse (docRules cache s) (smRules acc !! s) else smRules acc !! s)
  /\ (forall s, smProviders sm !! s = if decide (Name row = s) then orElse (docProviders cache s) (smProviders acc !! s) else smProviders acc !! s).
Proof.
  unfold readSource, docProxies, docGroups, docRules, docProviders. intros H.
  destruct (cache (Name row)) as [pl|] eqn:Ec; [destruct (plParse pl) as [root|] eqn:Ep; [|done]|].
  - cbv zeta in H. destruct (docRoot (Some root)) as [r|] eqn:Hr; [|by destruct (docRoot_Some root) as [? ?]; congruence].
    injection H as <-. cbn [smNsProviders smContributing smProxies smGroups smRules smProviders].
    assert (docOf cache (Name row) = docRoot (Some root)) as Hd by (unfold docOf; by rewrite Ec; simpl; rewrite Ep).
    rewrite Hd, Hr, bool_decide_eq_true_2 by (by eexists).
    split_and!; [done|done|..]; intros s; rewrite insert_some_lookup; case_decide; subst; rewrite ?Hd, ?Hr, ?option_fmap_id; done.
  - injection H as <-. assert (docOf cache (Name row) = None) as Hd by (unfold docOf; by rewrite Ec).
    rewrite Hd, bool_decide_eq_false_2, app_nil_r by (by intros []).
    split_and!; [done|done|..]; intros s; case_decide; subst; rewrite ?Hd; done.
Qed.

Lemma readSources_spec (cache : CacheReader) (acc sm : sourceMaps) (rows : list SubscriptionRow) :
  readSources cache acc rows = inr sm ->
  smNsProviders sm = smNsProviders acc
  /\ smContributing sm = smContributing acc ++ filter (fun s => is_Some (docOf cache s)) (map Name rows)
  /\ (forall s, smProxies sm !! s = if decide (s ∈ map Name rows) then orElse (docProxies cache s) (smProxies acc !! s) else smProxies acc !! s)
  /\ (forall s, smGroups sm !! s = if decide (s ∈ map Name rows) then orElse (docGroups cache s) (smGroups acc !! s) else smGroups acc !! s)
  /\ (forall s, smRules sm !! s = if decide (s ∈ map Name rows) then orElse (docRules cache s) (smRules acc !! s) else smRules acc !! s)
  /\ (forall s, smProviders sm !! s = if decide (s ∈ map Name rows) then orElse (docProviders cache s) (smProviders acc !! s) else smProviders acc !! s).
Proof.
  revert acc. induction rows as [|row rows IH]; intros acc H; cbn [readSources] in H.
  { injection H as <-. cbn [map]. rewrite filter_nil, app_nil_r. split_and!; [done|done|..]; intros s; case_decide as Hd; try done; by apply elem_of_nil in Hd. }
  destruct (readSource cache acc row) as [e|acc'] eqn:E; [done|].
  destruct (readSource_spec _ _ _ _ E) as (A1 & A2 & A3 & A4 & A5 & A6). destruct (IH acc' H) as (B1 & B2 & B3 & B4 & B5 & B6).
  split_and!.
  - by rewrite B1.
  - rewrite B2, A2, <- app_assoc. f_equal. cbn [map]. rewrite filter_cons. case_bool_decide; case_decide; done.
  - intros s. rewrite B3, A3. apply orElse_step.
  - intros s. rewrite B4, A4. apply orElse_step.
  - intros s. rewrite B5, A5. apply orElse_step.
  - intros s. rewrite B6, A6. apply orElse_step.
Qed.

(** The namespaced lists of one source. *)
Definition nsGroup (s : string) (g : node) : node := rewriteGroupMembers (renameNode (s +:+ "_") g) s.
Definition nsProviders (s : string) (raw ns : option node) : option node :=
  match raw with Some raw => (RewriteSourceRuleProviders s (Some raw)).1 | None => ns end.

Lemma namespace_foldl (names : list string) (sm : sourceMaps) :
  NoDup names ->
  let sm' := foldl namespaceSource sm names in
  smContributing sm' = smContributing sm
  /\ (forall s, smProxies sm' !! s = if decide (s ∈ names)
        then Some (map (renameNode (s +:+ "_")) (lookup_nodes (smProxies sm) s)) else smProxies sm !! s)
  /\ (forall s, smGroups sm' !! s = if decide (s ∈ names)
        then Some (map (nsGroup s) (lookup_nodes (smGroups sm) s)) else smGroups sm !! s)
  /\ (forall s, smRules sm' !! s = if decide (s ∈ names)
        then Some (map (fun r => rewriteRuleTarget r s) (lookup_rules (smRules sm) s)) else smRules sm !! s)
  /\ (forall s, smNsProviders sm' !! s = if decide (s ∈ names)
        then nsProviders s (smProviders sm !! s) (smNsProviders sm !! s) else smNsProviders sm !! s).
Proof.
  intros Hnd. revert sm. induction Hnd as [|n names Hn Hnd IH]; intros sm; cbv zeta.
  { split_and!; [done|..]; intros s; by rewrite decide_False by (by intros ?%elem_of_nil). }
  cbn [foldl]. destruct (IH (namespaceSource sm n)) as (H0 & H1 & H2 & H3 & H4).
  assert (smContributing (namespaceSource sm n) = smContributing sm /\ smProviders (namespaceSource sm n) = smProviders sm) as [E0 Ep] by (split; reflexivity).
  assert (forall s, smNsProviders (namespaceSource sm n) !! s
    = if decide (n = s) then nsProviders s (smProviders sm !! s) (smNsProviders sm !! s) else smNsProviders sm !! s) as E4.
  { intros s. change (smNsProviders (namespaceSource sm n)) with (match smProviders sm !! n with
      | Some raw => match (RewriteSourceRuleProviders n (Some raw)).1 with
                    | Some ns => <[n := ns]> (smNsProviders sm) | None => delete n (smNsProviders sm) end
      | None => smNsProviders sm end). destruct (smProviders sm !! n) as [raw|] eqn:Er.
    - destruct (RewriteSourceRuleProviders n (Some raw)).1 as [ns|] eqn:Ens; case_decide; subst; unfold nsProviders;
        rewrite ?Er, ?Ens, ?lookup_insert_eq, ?lookup_delete_eq; [done|by rewrite lookup_insert_ne|done|by rewrite lookup_delete_ne].
    - case_decide; subst; unfold nsProviders; by rewrite ?Er. }
  rewrite H0, E0. split_and!; [done|..]; intros s; rewrite ?H1, ?H2, ?H3, ?H4, ?E4, ?Ep;
    unfold namespaceSource, RewriteSource; cbn [smProxies smGroups smRules]; unfold lookup_nodes, lookup_rules;
    (destruct (decide (n = s)) as [->|Hne];
      [rewrite (decide_True (P := s ∈ s :: names)) by left; rewrite decide_False by done; by rewrite ?lookup_insert_eq
      |destruct (decide (s ∈ names)); [rewrite decide_True by (by right)|rewrite decide_False by (rewrite elem_of_cons; naive_solver)];
       by rewrite ?lookup_insert_ne]).
Qed.

(** ** The state before the merge, in one place *)
Lemma sorted_names_NoDup (rows : list SubscriptionRow) :
  NoDup (map Name rows) -> NoDup (map Name (sortSourcesByPriority rows)).
Proof.
  intros H. assert (map Name (sortSourcesByPriority rows) ≡ₚ map Name (filter (fun r => Enable r = true) rows)) as ->
    by (apply Permutation_map, SliceStable_perm).
  change (map Name ?l) with (Name <$> l) in *. eapply sublist_NoDup; [exact H|]. apply fmap_sublist, sublist_filter.
Qed.

Lemma RewriteSourceRuleProviders_kind (s : string) (raw ns : node) :
  (RewriteSourceRuleProviders s (Some raw)).1 = Some ns -> Kind ns = MappingNode.
Proof.
  unfold RewriteSourceRuleProviders. case_if; [|done].
  destruct (rewriteProviders s (Content raw)) as [out sk]. simpl. by intros [= <-].
Qed.

Record prepared (cache : CacheReader) (C : list string) (sm : sourceMaps) := {
  pr_nodup : NoDup C;
  pr_doc : forall s, s ∈ C -> is_Some (docOf cache s);
  pr_proxies : forall s, lookup_nodes (smProxies sm) s
    = if decide (s ∈ C) then map (renameNode (s +:+ "_")) (default [] (docProxies cache s)) else [];
  pr_groups : forall s, lookup_nodes (smGroups sm) s
    = if decide (s ∈ C) then map (nsGroup s) (default [] (docGroups cache s)) else [];
  pr_rules : forall s r, r ∈ lookup_rules (smRules sm) s ->
    s ∈ C /\ backed (ruleProviderKeys (smNsProviders sm !! s)) r
    /\ exists r0, r0 ∈ default [] (docRules cache s) /\ r = rewriteRuleTarget r0 s;
  pr_providers : forall s, smNsProviders sm !! s
    = if decide (s ∈ C) then nsProviders s (docProviders cache s) None else None
}.

Lemma prepared_of_Build (p : Pipeline) (cache : CacheReader) (mc : MergedConfig) (T : build_trace p cache mc) :
  NoDup (map Name (subscriptions p)) -> prepared cache (smContributing (bt_sm0 _ _ _ T)) (bt_sm _ _ _ T).
Proof.
  intros Hnd. pose proof (sorted_names_NoDup _ Hnd) as Hnd'.
  destruct (readSources_spec _ _ _ _ (bt_read _ _ _ T)) as (R1 & R2 & R3 & R4 & R5 & R6).
  unfold bt_sm. set (sm0 := bt_sm0 _ _ _ T) in *. cbn [smNsProviders smContributing smProxies smGroups smRules smProviders app] in *.
  set (rows := sortSourcesByPriority (subscriptions p)) in *. rewrite R2 in *.
  set (C := filter (fun s => is_Some (docOf cache s)) (map Name rows)) in *.
  assert (NoDup C) as HC by (by apply NoDup_filter).
  assert (forall s, s ∈ C <-> s ∈ map Name rows /\ is_Some (docOf cache s)) as HCs
    by (intros s; unfold C; rewrite list_elem_of_filter; tauto).
  destruct (namespace_foldl C sm0 HC) as (_ & N1 & N2 & N3 & N4). set (sm1 := foldl namespaceSource sm0 C) in *.
  destruct (dropUnbacked_foldl C sm1) as (D1 & D2 & D3 & D4 & D5). cbv zeta in *.
  assert (forall s, s ∉ C -> docProxies cache s = None /\ docGroups cache s = None /\ docRules cache s = None
    /\ docProviders cache s = None \/ s ∉ map Name rows) as Hout.
  { intros s Hs. destruct (decide (s ∈ map Name rows)) as [Hin|]; [left|by right].
    destruct (docOf cache s) as [d|] eqn:Ed; [exfalso; apply Hs, HCs; split; [done|rewrite Ed; by eexists]|].
    unfold docProxies, docGroups, docRules, docProviders. by rewrite Ed. }
  assert (forall {A} (m : gmap string A) (s : string) (o : option A),
    m !! s = (if decide (s ∈ map Name rows) then orElse o ((∅ : gmap string A) !! s) else (∅ : gmap string A) !! s) ->
    m !! s = if decide (s ∈ map Name rows) then o else None) as Hm.
  { intros A m s o ->. rewrite lookup_empty. case_decide; [by destruct o|done]. }
  split.
  - done.
  - intros s Hs. by apply HCs.
  - intros s. rewrite D2. unfold lookup_nodes at 1. rewrite N1. destruct (decide (s ∈ C)) as [Hs|Hs].
    + unfold lookup_nodes. rewrite (Hm _ _ _ _ (R3 s)), decide_True by (by apply HCs). done.
    + rewrite (Hm _ _ _ _ (R3 s)). destruct (Hout s Hs) as [(-> & _)|Hn]; [by case_decide|by rewrite decide_False].
  - intros s. rewrite D3. unfold lookup_nodes at 1. rewrite N2. destruct (decide (s ∈ C)) as [Hs|Hs].
    + unfold lookup_nodes. rewrite (Hm _ _ _ _ (R4 s)), decide_True by (by apply HCs). done.
    + rewrite (Hm _ _ _ _ (R4 s)). destruct (Hout s Hs) as [(_ & -> & _)|Hn]; [by case_decide|by rewrite decide_False].
  - intros s r Hr. rewrite D1. pose proof (D4 s r Hr) as Hr1. unfold lookup_rules in Hr1. rewrite N3 in Hr1.
    destruct (decide (s ∈ C)) as [Hs|Hs].
    + split_and!; [done|by apply (D5 s r)|]. simpl in Hr1. apply list_elem_of_fmap in Hr1 as (r0 & -> & Hr0). exists r0.
      split; [|done]. unfold lookup_rules in Hr0. by rewrite (Hm _ _ _ _ (R5 s)), decide_True in Hr0 by (by apply HCs).
    + exfalso. rewrite (Hm _ _ _ _ (R5 s)) in Hr1.
      destruct (Hout s Hs) as [(_ & _ & E & _)|Hn]; [rewrite E in Hr1; case_decide|rewrite decide_False in Hr1 by done];
        by apply elem_of_nil in Hr1.
  - intros s. rewrite D1, N4. rewrite R1, lookup_empty, (Hm _ _ _ _ (R6 s)).
    destruct (decide (s ∈ C)) as [Hs|Hs]; [by rewrite decide_True by (by apply HCs)|done].
Qed.

(** (C2) Every RULE-SET rule served is backed: when its target comes after the
    provider, the provider is defined in the served rule-providers block or the
    rule is one of the operator's custom rules; and the block defines no
    provider that no served rule references. *)
Theorem Build_rulesets_backed (p : Pipeline) (cache1 cache2 : CacheReader) (order : list (string * SubscriptionUserinfo))
    (nowA now : Time) (store st' : option St) (mc : MergedConfig) :
  Build p cache1 cache2 order nowA now store = inr (mc, st') ->
  plainTarget (fallbackRuleTarget p) = true -> NoDup (map Name (subscriptions p)) ->
  (forall r x, r ∈ mcRules mc -> ruleSetProvider r = Some x -> 2 <= pruneTargetIdx (Split r comma) ->
     x ∈ blockKeys (mcRuleProviders mc)
     \/ exists cs r0, cs ∈ customRules p /\ r0 ∈ csRules cs /\ ruleSetProvider r0 = Some x)
  /\ (forall x, x ∈ blockKeys (mcRuleProviders mc) -> exists r, r ∈ mcRules mc /\ ruleSetProvider r = Some x).
Proof.
  intros H Hfb Hnd. destruct (Build_trace _ _ _ _ _ _ _ _ _ H) as [T].
  pose proof (prepared_of_Build _ _ _ T Hnd) as [_ _ _ _ Hrules Hprov]. rewrite (bt_providers _ _ _ T).
  set (sm := bt_sm _ _ _ T) in *. set (C := smContributing (bt_sm0 _ _ _ T)) in *.
  rewrite MergeRuleProviders_keys.
  2: { apply Forall_forall. intros o (s & -> & Hs)%list_elem_of_fmap. rewrite Hprov, decide_True by done.
       unfold nsProviders. destruct (docProviders cache1 s) as [raw|]; [|done].
       destruct (RewriteSourceRuleProviders s (Some raw)).1 as [ns|] eqn:E; [|done].
       by eapply RewriteSourceRuleProviders_kind. }
  split; [|intros x [Hx _]%list_elem_of_filter; by apply ReferencedRuleProviders_spec].
  intros r x Hr Hx Hidx.
  assert (exists r0, r0 ∈ mrRules (bt_rules _ _ _ T) /\ ruleSetProvider r0 = Some x) as (r0 & Hr0 & Hx0).
  { pose proof (Prune_rules (bt_groups _ _ _ T) (mrRules (bt_rules _ _ _ T)) (proxiesGroupName p) (fallbackRuleTarget p)) as HF.
    pose proof (f_equal snd (bt_pruned _ _ _ T)) as Ep. cbn [snd] in Ep. cbv zeta in HF. rewrite <- Ep in HF.
    apply list_elem_of_lookup in Hr as [i Hi]. destruct (Forall2_lookup_r _ _ _ _ _ HF Hi) as (r0 & Hr0 & Hrel).
    exists r0. split; [by eapply list_elem_of_lookup_2|]. destruct (ruleTarget r0) as [[[t st] en]|] eqn:Et; [|by subst r].
    case_if_in Hrel; [|by subst r]. subst r. by rewrite <- (ruleSetProvider_retarget r0 t (fallbackRuleTarget p) st en). }
  apply elem_of_MergeUnifiedRules in Hr0 as [->|[(row & _ & Hr0)|(cs & Hcs & Hr0)]].
  - exfalso. unfold ruleSetProvider in Hx0. change ("MATCH," +:+ fallbackRuleTarget p) with ("MATCH" +:+ String comma (fallbackRuleTarget p)) in Hx0.
    rewrite (Split_app_sep "MATCH" _ comma) in Hx0 by done. by destruct (Split (fallbackRuleTarget p) comma).
  - left. destruct (Hrules _ _ Hr0) as (Hs & Hb & _). unfold backed in Hb. rewrite Hx0 in Hb.
    apply list_elem_of_filter. split; [apply ReferencedRuleProviders_spec; by exists r|].
    apply list_elem_of_join. exists (blockKeys (smNsProviders sm !! Name row)). split.
    + unfold ruleProviderKeys in Hb. destruct (smNsProviders sm !! Name row) as [n|]; [|set_solver].
      case_if_in Hb; [by apply elem_of_list_to_set in Hb|set_solver].
    + apply list_elem_of_fmap. exists (smNsProviders sm !! Name row). split; [done|].
      apply list_elem_of_fmap. by exists (Name row).
  - right. by exists cs, r0.
Qed.
End build.

(** ** A small deployment: one source with an empty group, one custom rule set *)
Definition demo_doc : node :=
  lit MappingNode "" "!!map"
    [str_scalar "proxies"; lit SequenceNode "" "!!seq" [demo_proxy "HK 01"; demo_proxy "Japan"];
     str_scalar "proxy-groups"; lit SequenceNode "" "!!seq" [demo_group "Auto" ["HK 01"; "Empty"; "DIRECT"]; demo_group "Empty" []];
     str_scalar "rules"; lit SequenceNode "" "!!seq" (map str_scalar
       ["DOMAIN,x.com,Empty"; "RULE-SET,cn,Auto"; "RULE-SET,gone,Auto"; "MATCH,Auto"]);
     str_scalar "rule-providers"; lit MappingNode "" "!!map"
       [str_scalar "cn"; demo_proxy "cn"; str_scalar "unused"; demo_proxy "unused"]].
Definition demo_cache : CacheReader := fun s =>
  if String.eqb s "a" then Some (MkPayload (Some demo_doc) (Some (MkUserinfo 1 2 100 0)) (Some 12%Z)) else None.
Definition demo_pipeline : Pipeline :=
  WithCustomRules (NewPipeline [MkRow "a" "https://a" 5 true 0 0; MkRow "b" "https://b" 9 true 0 0]
    [demo_proxy "home"] [demo_group "mine" ["home"; "REJECT"]] 24)
    [MkCustomRuleSet "c" 3 ["RULE-SET,operator,DIRECT"]].
Definition demo_build : string + MergedConfig * option MapSnapshotter :=
  Build demo_pipeline demo_cache demo_cache [("a", MkUserinfo 1 2 100 0)] 0%Z 0%Z (Some (NewMapSnapshotter None)).

Lemma Build_rules_witness :
  exists mc st', demo_build = inr (mc, st') /\ last (mcRules mc) = Some "MATCH,auto"
    /\ mcRules mc = ["RULE-SET,operator,DIRECT"; "DOMAIN,x.com,auto"; "RULE-SET,a_cn,a_Auto"; "MATCH,auto"].
Proof.
  destruct demo_build as [e|[mc st']] eqn:E; [vm_compute in E; discriminate|]. exists mc, st'. split; [done|].
  destruct (Build_rules demo_pipeline demo_cache demo_cache [("a", MkUserinfo 1 2 100 0)] 0%Z 0%Z (Some (NewMapSnapshotter None)) st' mc E eq_refl)
    as (_ & _ & H & _).
  split; [exact H|]. vm_compute in E. injection E as <- _. reflexivity.
Defined.

Lemma Build_rulesets_backed_witness :
  exists mc st', demo_build = inr (mc, st') /\ blockKeys (mcRuleProviders mc) = ["a_cn"]
    /\ forall x, x ∈ blockKeys (mcRuleProviders mc) -> exists r, r ∈ mcRules mc /\ ruleSetProvider r = Some x.
Proof.
  destruct demo_build as [e|[mc st']] eqn:E; [vm_compute in E; discriminate|]. exists mc, st'. split; [done|].
  destruct (Build_rulesets_backed demo_pipeline demo_cache demo_cache [("a", MkUserinfo 1 2 100 0)] 0%Z 0%Z (Some (NewMapSnapshotter None)) st' mc E
    eq_refl ltac:(by apply (bool_decide_unpack _))) as [_ H].
  split; [|exact H]. vm_compute in E. injection E as <- _. reflexivity.
Defined.
