(* ===== verification/BuildLog.v ===== *)
(** * What a build reports

    The events [Build] (internal/merge/pipeline.go) logs next to the
    configuration it returns, and what they account for: a rule that a source
    defines is served under that source's name, or announced as dropped or
    redirected, or is the source's trailing rule. *)
From stdpp Require Import base gmap sets list strings sorting.
From Stdlib Require Import ZArith Lia Ascii.
From S2P Require Import Prelude GoStrings GoSort GoTime GoFloat Headers DailySpend Traffic.
From S2P Require Import Yaml Namespace Subscriptions CustomRules Proxies Rules ProxyGroups Fanout.
From S2P Require Import RuleSet Prune Region Pipeline BuildProofs.

Inductive buildEvent :=
| RegionUnmapped (fragment : string)
| ContinentUnmapped (country : string)
| FanoutEmitted (own skipped targets emitted : nat)
| SpendSaveFailed (err : string)
| GroupsPruned (count : nat) (removed : list string) (retargeted : nat)
| RuleRetargeted (index : nat) (oldTarget newTarget : string)
| RulesetRuleDropped (source provider rule : string)
| RulesetProviderSkipped (source provider : string)
| RulesetMerged (providers dropped skipped : nat).

#[export] Instance buildEvent_eq_dec : EqDecision buildEvent.
Proof. solve_decision. Defined.

(** A logger that reports each string once. *)
Definition firstSeen (calls : list string) : list string :=
  foldl (fun seen x => if bool_decide (x ∈ seen) then seen else seen ++ [x]) [] calls.

(** The rule providers skipped while the sources are namespaced. *)
Definition skippedProviders (sm : sourceMaps) (contributing : list string) : list buildEvent :=
  mjoin (map (fun name =>
    match smProviders sm !! name with
    | Some raw => map (fun s => RulesetProviderSkipped name (srpProvider s)) (RewriteSourceRuleProviders name (Some raw)).2
    | None => []
    end) contributing).

(** The loop that drops the RULE-SET rules without a provider, and its records. *)
Definition dropStep (acc : sourceMaps * list buildEvent) (name : string) : sourceMaps * list buildEvent :=
  let '(sm, events) := acc in
  let dropped := (DropUnbackedRuleSetRules (lookup_rules (smRules sm) name) (ruleProviderKeys (smNsProviders sm !! name))).2 in
  (dropUnbacked sm name, events ++ map (fun d => RulesetRuleDropped name (drProvider d) (drRule d)) dropped).

(** The events of [buildGroups]. *)
Definition groupEvents (p : Pipeline) {U : UnicodeTables} (groupsPerSource : gmap string (list node)) (contributing : list string)
    (rewrittenOwnGroups mergedProxies : list node) : list buildEvent :=
  let mergedGroups := (MergeProxyGroups groupsPerSource contributing rewrittenOwnGroups).1 in
  let upstreamProxies := filter (fun n => upstreamNamed n = true) mergedProxies in
  let mergedGroups := AppendProxiesGroup mergedGroups (names_of upstreamProxies) (proxiesGroupName p) in
  let '(mergedGroups, unmapped) :=
    AppendRegionGroups mergedGroups upstreamProxies (proxiesGroupName p) (urlTestParams p) (loadBalanceParams p) in
  let unmappedContinents :=
    (AppendContinentGroups mergedGroups (regionGroupNamesOf mergedGroups) (regionGroupMembersOf mergedGroups)
       (proxiesGroupName p) (urlTestParams p) (loadBalanceParams p)).2 in
  map RegionUnmapped (firstSeen unmapped) ++ map ContinentUnmapped (firstSeen unmappedContinents).

Definition fanoutEvent (ownP mergedGroups : list node) (pg : string) : buildEvent :=
  let '(fanout, skipped) := AppendFanoutProxies ownP mergedGroups pg in
  FanoutEmitted (length ownP) skipped (length (targetGroupNames mergedGroups)) (length fanout).

Definition pruneEvents (res : PruneResult) : list buildEvent :=
  if (0 <? length (RemovedGroups res)) || (0 <? length (Retargets res))
  then GroupsPruned (length (RemovedGroups res)) (RemovedGroups res) (length (Retargets res))
       :: map (fun rt => RuleRetargeted (RuleIndex rt) (OldTarget rt) (NewTarget rt)) (Retargets res)
  else [].

Definition rulesetEvents (dropped skipped : list buildEvent) (ruleProviders : option node) : list buildEvent :=
  let '(merged, some) := match ruleProviders with Some n => (length (Content n) / 2, true) | None => (0, false) end in
  dropped ++ skipped
  ++ (if some || (0 <? length dropped) || (0 <? length skipped)
      then [RulesetMerged merged (length dropped) (length skipped)] else []).

Section buildLog.
Context {U : UnicodeTables} {F : FloatConversion} {St : Type} `{!Snapshotter St}.

(** The log of [Build]; [saveErr] is what saving the snapshot returns, if it is
    saved. *)
Definition buildLog (p : Pipeline) (cache1 cache2 : CacheReader) (order : list (string * SubscriptionUserinfo))
    (nowA now : Time) (store : option St) (saveErr : option string) : string + list buildEvent :=
  let rows := sortSourcesByPriority (subscriptions p) in
  match readSources cache1 (MkSourceMaps ∅ ∅ ∅ ∅ ∅ []) rows with
  | inl e => inl e
  | inr sm =>
      let contributing := smContributing sm in
      let userinfo := (foldl (readHeaders cache2) (∅, ∅) contributing).1 in
      let skipped := skippedProviders sm contributing in
      let '(sm, dropped) := foldl dropStep (foldl namespaceSource sm contributing, []) contributing in
      let '(ownP, ownG) := RewriteOwn (ownProxies p) (ownGroups p) in
      let mergedProxies := (MergeProxies (smProxies sm) contributing ownP).1 in
      let mergedRules := MergeUnifiedRules (smRules sm) rows (customRules p) (fallbackRuleTarget p) in
      let mergedGroups := (buildGroups p (smGroups sm) contributing ownG mergedProxies).1 in
      let saved := match (buildTraffic p userinfo order nowA now store).1, store with
                   | Some h, Some _ => RolloverFired h
                   | _, _ => false
                   end in
      let '(_, prunedRules, res) :=
        PruneEmptyProxyGroups mergedGroups (mrRules mergedRules) (proxiesGroupName p) (fallbackRuleTarget p) in
      let ruleProviders :=
        MergeRuleProviders (map (fun name => smNsProviders sm !! name) contributing) (ReferencedRuleProviders prunedRules) in
      inr (groupEvents p (smGroups sm) contributing ownG mergedProxies
           ++ [fanoutEvent ownP mergedGroups (proxiesGroupName p)]
           ++ (match saveErr with Some e => if saved then [SpendSaveFailed e] else [] | None => [] end)
           ++ pruneEvents res
           ++ rulesetEvents dropped skipped ruleProviders)
  end.
End buildLog.

(** * Lemmas *)

(** ** Dropped rules *)

(** The rules a contributing source defines, namespaced. *)
Definition sourceRules (cache : CacheReader) (s : string) : list string :=
  map (fun r => rewriteRuleTarget r s) (default [] (docRules cache s)).

Lemma dropStep_foldl (names : list string) (sm : sourceMaps) (events : list buildEvent) :
  NoDup names ->
  (foldl dropStep (sm, events) names).1 = foldl dropUnbacked sm names
  /\ (forall e, e ∈ events -> e ∈ (foldl dropStep (sm, events) names).2)
  /\ (forall s, s ∉ names -> lookup_rules (smRules (foldl dropUnbacked sm names)) s = lookup_rules (smRules sm) s)
  /\ (forall s, s ∈ names ->
        lookup_rules (smRules (foldl dropUnbacked sm names)) s
          = filter (backed (ruleProviderKeys (smNsProviders sm !! s))) (lookup_rules (smRules sm) s)
        /\ forall r, r ∈ lookup_rules (smRules sm) s -> ~ backed (ruleProviderKeys (smNsProviders sm !! s)) r ->
             exists provider, RulesetRuleDropped s provider r ∈ (foldl dropStep (sm, events) names).2).
Proof.
  intros Hnd. revert sm events. induction Hnd as [|n names Hn Hnd IH]; intros sm events;
    [split_and!; [done|done|done|by intros s ?%elem_of_nil]|].
  set (keys s := ruleProviderKeys (smNsProviders sm !! s)).
  set (dropped := (DropUnbackedRuleSetRules (lookup_rules (smRules sm) n) (keys n)).2).
  set (events' := events ++ map (fun d => RulesetRuleDropped n (drProvider d) (drRule d)) dropped).
  change (foldl dropStep (sm, events) (n :: names)) with (foldl dropStep (dropUnbacked sm n, events') names).
  change (foldl dropUnbacked sm (n :: names)) with (foldl dropUnbacked (dropUnbacked sm n) names).
  destruct (IH (dropUnbacked sm n) events') as (H1 & H2 & H3 & H4).
  assert (forall s, s <> n -> lookup_rules (smRules (dropUnbacked sm n)) s = lookup_rules (smRules sm) s) as Hother.
  { intros s Hs. unfold dropUnbacked, lookup_rules. cbn [smRules]. by rewrite lookup_insert_ne. }
  assert (lookup_rules (smRules (dropUnbacked sm n)) n = filter (backed (keys n)) (lookup_rules (smRules sm) n)) as Hself.
  { unfold dropUnbacked, lookup_rules. cbn [smRules]. rewrite lookup_insert_eq. apply (proj1 (DropUnbacked_kept _ _)). }
  split_and!; [done| | |].
  - intros e He. apply H2. unfold events'. apply elem_of_app. by left.
  - intros s Hs. rewrite elem_of_cons in Hs. rewrite H3, Hother by tauto. done.
  - intros s Hs. destruct (decide (s = n)) as [->|Hne].
    + rewrite H3 by done. split; [done|]. intros r Hr Hb.
      assert (r ∈ map drRule dropped) as Hd.
      { unfold dropped. rewrite (proj2 (DropUnbacked_kept _ _)). by apply list_elem_of_filter. }
      apply list_elem_of_fmap in Hd as (d & -> & Hd). exists (drProvider d). apply H2. unfold events'. apply elem_of_app. right.
      apply list_elem_of_fmap. by exists d.
    + apply elem_of_cons in Hs as [Hs|Hs]; [done|]. destruct (H4 s Hs) as [E G]. rewrite Hother in E, G by done. by split.
Qed.

(** ** Emitted rules *)

(** Every rule of a contributor is emitted under its name. *)
Lemma emitted (cs : list contributor) (c : contributor) (r : string) :
  c ∈ cs -> r ∈ cRules c ->
  exists i, mjoin (map cRules cs) !! i = Some r /\ mjoin (map (fun c => replicate (length (cRules c)) (cName c)) cs) !! i = Some (cName c).
Proof.
  intros Hc Hr. induction cs as [|c' cs IH]; [by apply elem_of_nil in Hc|].
  cbn [map]. change (mjoin (?x :: ?l)) with (x ++ mjoin l). apply elem_of_cons in Hc as [<-|Hc].
  - apply list_elem_of_lookup in Hr as [i Hi]. pose proof (lookup_lt_Some _ _ _ Hi). exists i.
    rewrite !lookup_app_l by (rewrite ?length_replicate; done). by rewrite lookup_replicate.
  - destruct (IH Hc) as (i & H1 & H2). exists (length (cRules c') + i).
    rewrite !lookup_app_r by (rewrite ?length_replicate; lia). rewrite length_replicate, !Nat.add_sub'. done.
Qed.

Lemma merged_rule (ups : gmap string (list string)) (rows : list SubscriptionRow) (customs : list CustomRuleSet) (fallback : string)
    (row : SubscriptionRow) (A B : list string) (r : string) :
  row ∈ rows -> lookup_rules ups (Name row) = A ++ r :: B -> B <> [] ->
  exists i, mrRules (MergeUnifiedRules ups rows customs fallback) !! i = Some r
    /\ mrContributors (MergeUnifiedRules ups rows customs fallback) !! i = Some (Name row).
Proof.
  intros Hrow E HB.
  assert (exists c, c ∈ contributors ups rows customs /\ cName c = Name row /\ r ∈ cRules c) as (c & Hc & Hn & Hr).
  { assert (exists B' b, B = B' ++ [b]) as (B' & b & ->) by (destruct (exists_last HB) as (B' & b & ->); by eexists _, _).
    exists (MkContributor (Name row) (Priority row) (A ++ r :: B')). split_and!; [|done|cbn; apply elem_of_app; right; by left].
    unfold contributors. apply elem_of_app. left. apply list_elem_of_omap. exists row. split; [done|].
    unfold upstreamContributor. rewrite E. change (A ++ r :: B' ++ [b]) with (A ++ (r :: B') ++ [b]). rewrite app_assoc.
    rewrite length_app, Nat.add_sub, take_app_length.
    replace (length (A ++ r :: B') + length [b] =? 0) with false by (symmetry; apply Nat.eqb_neq; cbn; lia).
    replace (length (A ++ r :: B') =? 0) with false by (symmetry; apply Nat.eqb_neq; rewrite length_app; cbn; lia). done. }
  rewrite <- Hn. destruct (emitted (SliceStable contributorLess (contributors ups rows customs)) c r) as (i & H1 & H2);
    [by apply elem_of_SliceStable|done|].
  exists i. unfold MergeUnifiedRules. rewrite emit_all. cbn [mrRules mrContributors app].
  split; (rewrite lookup_app_l; [done|by eapply lookup_lt_Some]).
Qed.

(** ** Redirected rules *)
Lemma retargetRules_log (removed : gset string) (fb : string) (rules : list string) (k i : nat) (r : string) :
  rules !! i = Some r ->
  exists r', (retargetRules removed fb k rules).1 !! i = Some r'
    /\ (r' = r \/ exists t, t ∈ removed /\ MkRuleRetarget (k + i) t fb ∈ (retargetRules removed fb k rules).2).
Proof.
  revert k i. induction rules as [|r0 rules IH]; intros k i Hi; [done|]. cbn [retargetRules].
  destruct (retargetRules removed fb (S k) rules) as [rules' log] eqn:E.
  assert (forall i, rules !! i = Some r -> exists r', rules' !! i = Some r'
    /\ (r' = r \/ exists t, t ∈ removed /\ MkRuleRetarget (S k + i) t fb ∈ log)) as Hrest.
  { intros j Hj. specialize (IH (S k) j Hj). by rewrite E in IH. }
  destruct i as [|i]; [injection Hi as ->; rewrite Nat.add_0_r|
    destruct (Hrest i Hi) as (r' & Hr' & H); replace (k + S i) with (S k + i) by lia];
    destruct (ruleTarget _) as [[[t st] en]|]; try case_if; cbn [fst snd].
  - eexists. split; [reflexivity|]. right. exists t. split; [by eapply bool_decide_eq_true|by left].
  - eexists. split; [reflexivity|by left].
  - eexists. split; [reflexivity|by left].
  - exists r'. split; [done|]. destruct H as [->|(t' & Ht & Hin)]; [by left|right]. exists t'. split; [done|by right].
  - exists r'. by split.
  - exists r'. by split.
Qed.

(** A rule is kept, or its redirection is announced along with the group. *)
Lemma pruned_rule (groups : list node) (rules : list string) (pg fb : string) (i : nat) (r : string) :
  let '(_, rules', res) := PruneEmptyProxyGroups groups rules pg fb in
  rules !! i = Some r ->
  exists r', rules' !! i = Some r'
    /\ (r' = r \/ exists t n, RuleRetargeted i t fb ∈ pruneEvents res /\ t ∈ RemovedGroups res
                     /\ GroupsPruned (length (RemovedGroups res)) (RemovedGroups res) n ∈ pruneEvents res).
Proof.
  unfold PruneEmptyProxyGroups. set (removedGroups := names_of _).
  destruct (Nat.eqb_spec (length removedGroups) 0) as [E0|E0]; [intros Hi; exists r; split; [done|by left]|].
  destruct (retargetRules _ fb 0 rules) as [rules' log] eqn:E. intros Hi.
  destruct (retargetRules_log (list_to_set removedGroups) fb rules 0 i r Hi) as (r' & Hr' & H). rewrite E in Hr', H.
  exists r'. split; [done|]. destruct H as [->|(t & Ht & Hin)]; [by left|right]. exists t, (length log).
  unfold pruneEvents. cbn [RemovedGroups Retargets]. replace (0 <? length removedGroups) with true by (symmetry; apply Nat.ltb_lt; lia).
  cbn [orb]. split_and!; [|by apply elem_of_list_to_set in Ht|by left]. right.
  apply list_elem_of_fmap. by exists (MkRuleRetarget (0 + i) t fb).
Qed.

Section log_lemmas.
Context {U : UnicodeTables} {F : FloatConversion} {St : Type} `{!Snapshotter St}.

(** The rules the sources bring to the merge, and the drop events. *)
Lemma source_rules_logged (cache : CacheReader) (rows : list SubscriptionRow) (sm : sourceMaps) (s : string) :
  NoDup (map Name rows) ->
  readSources cache (MkSourceMaps ∅ ∅ ∅ ∅ ∅ []) rows = inr sm -> s ∈ smContributing sm ->
  let sm1 := foldl namespaceSource sm (smContributing sm) in
  let acc := foldl dropStep (sm1, []) (smContributing sm) in
  s ∈ map Name rows
  /\ exists keys, lookup_rules (smRules acc.1) s = filter (backed keys) (sourceRules cache s)
       /\ forall r, r ∈ sourceRules cache s -> ~ backed keys r -> exists provider, RulesetRuleDropped s provider r ∈ acc.2.
Proof.
  intros Hnd Er Hs. destruct (readSources_spec _ _ _ _ Er) as (_ & R2 & _ & _ & R5 & _).
  cbn [smContributing smRules app] in R2, R5.
  assert (NoDup (smContributing sm)) as HC by (rewrite R2; by apply NoDup_filter).
  assert (s ∈ map Name rows) as Hrow by (rewrite R2 in Hs; by apply list_elem_of_filter in Hs as [_ ?]).
  destruct (namespace_foldl (smContributing sm) sm HC) as (_ & _ & _ & N3 & _).
  assert (lookup_rules (smRules (foldl namespaceSource sm (smContributing sm))) s = sourceRules cache s) as E.
  { unfold lookup_rules at 1. rewrite N3, decide_True by done. cbn [default]. unfold sourceRules, lookup_rules.
    rewrite (R5 s), decide_True, lookup_empty by done. by destruct (docRules cache s). }
  destruct (dropStep_foldl (smContributing sm) (foldl namespaceSource sm (smContributing sm)) [] HC) as (D1 & _ & _ & D4).
  destruct (D4 s Hs) as [D5 D6]. rewrite E in D5, D6. split; [done|]. cbv zeta. rewrite D1. by eexists.
Qed.

(** The log next to a successful build. *)
Lemma buildLog_trace (p : Pipeline) (cache1 cache2 : CacheReader) (order : list (string * SubscriptionUserinfo))
    (nowA now : Time) (store st' : option St) (mc : MergedConfig) (saveErr : option string) :
  Build p cache1 cache2 order nowA now store = inr (mc, st') -> NoDup (map Name (subscriptions p)) ->
  exists sm groups log, let rows := sortSourcesByPriority (subscriptions p) in
    readSources cache1 (MkSourceMaps ∅ ∅ ∅ ∅ ∅ []) rows = inr sm
    /\ buildLog p cache1 cache2 order nowA now store saveErr = inr log
    /\ mcContributingSources mc = smContributing sm
    /\ let acc := foldl dropStep (foldl namespaceSource sm (smContributing sm), []) (smContributing sm) in
       let merged := MergeUnifiedRules (smRules acc.1) rows (customRules p) (fallbackRuleTarget p) in
       let pruned := PruneEmptyProxyGroups groups (mrRules merged) (proxiesGroupName p) (fallbackRuleTarget p) in
       mcRules mc = pruned.1.2 /\ mcRuleContributors mc = mrContributors merged
       /\ (forall e, e ∈ acc.2 -> e ∈ log) /\ (forall e, e ∈ pruneEvents pruned.2 -> e ∈ log).
Proof.
  intros H Hnd. unfold Build in H. unfold buildLog.
  destruct (readSources _ _ _) as [e|sm] eqn:Er; [done|].
  destruct (readSources_spec _ _ _ _ Er) as (_ & R2 & _). cbn [smContributing app] in R2.
  assert (NoDup (smContributing sm)) as HC by (rewrite R2; by apply NoDup_filter, sorted_names_NoDup).
  pose proof (proj1 (dropStep_foldl (smContributing sm) (foldl namespaceSource sm (smContributing sm)) [] HC)) as Hd.
  destruct (foldl dropStep _ _) as [sm' dropped] eqn:Ed. cbn [fst] in Hd. rewrite <- Hd in H. clear Hd.
  destruct (foldl (readHeaders cache2) _ _) as [userinfo intervals]. destruct (RewriteOwn _ _) as [oP oG].
  destruct (MergeProxies _ _ _) as [mp coll]. cbn [fst] in *.
  destruct (buildGroups _ _ _ _ _) as [gs conf] eqn:Eg. cbn [fst] in *.
  destruct (buildTraffic _ _ _ _ _ _) as [hd st''].
  destruct (PruneEmptyProxyGroups gs _ _ _) as [[pg pr] res] eqn:Ep. simplify_eq.
  eexists sm, gs, _. cbv zeta. rewrite Ed. cbn [fst snd]. rewrite Ep. cbn [fst snd mcContributingSources mcRules mcRuleContributors].
  split_and!; try done.
  - intros e He. unfold rulesetEvents. destruct (match MergeRuleProviders _ _ with Some _ => _ | None => _ end) as [merged some].
    rewrite !elem_of_app. tauto.
  - intros e He. rewrite !elem_of_app. tauto.
Qed.
End log_lemmas.

(** * Properties *)
Section properties.
Context {U : UnicodeTables} {F : FloatConversion} {St : Type} `{!Snapshotter St}.

(** (C4) No rule of a source disappears without a trace.  Each rule of a source
    that takes part in a build is, with its names qualified, served under that
    source's name; or served with the fallback for its target, which the log
    announces together with the removal of the group it named; or announced as
    dropped because its provider does not exist; or it is the source's trailing
    rule: all rules after it are announced as dropped. *)
Theorem Build_rules_accounted (p : Pipeline) (cache1 cache2 : CacheReader) (order : list (string * SubscriptionUserinfo))
    (nowA now : Time) (store st' : option St) (mc : MergedConfig) (saveErr : option string) :
  Build p cache1 cache2 order nowA now store = inr (mc, st') -> NoDup (map Name (subscriptions p)) ->
  exists log, buildLog p cache1 cache2 order nowA now store saveErr = inr log
    /\ forall s i r0, s ∈ mcContributingSources mc -> default [] (docRules cache1 s) !! i = Some r0 ->
        let r := rewriteRuleTarget r0 s in
        (exists k r', mcRules mc !! k = Some r' /\ mcRuleContributors mc !! k = Some s
           /\ (r' = r \/ exists t removed n m, RuleRetargeted k t (fallbackRuleTarget p) ∈ log
                            /\ t ∈ removed /\ GroupsPruned n removed m ∈ log))
        \/ (exists provider, RulesetRuleDropped s provider r ∈ log)
        \/ (forall j rj, i < j -> default [] (docRules cache1 s) !! j = Some rj ->
              exists provider, RulesetRuleDropped s provider (rewriteRuleTarget rj s) ∈ log).
Proof.
  intros H Hnd. destruct (buildLog_trace _ _ _ _ _ _ _ _ _ saveErr H Hnd) as (sm & groups & log & Er & Hlog & Hc & Hr & Hcb & Hd & Hp).
  exists log. split; [done|]. intros s i r0 Hs Hi r. rewrite Hc in Hs. pose proof (sorted_names_NoDup _ Hnd) as Hnd'.
  destruct (source_rules_logged cache1 _ sm s Hnd' Er Hs) as (Hrow & keys & Ek & Hdrop). cbv zeta in *.
  set (acc := foldl dropStep _ _) in *. set (L := sourceRules cache1 s) in *.
  assert (L !! i = Some r) as HLi by (unfold L, sourceRules; change (map ?f ?l) with (f <$> l); by rewrite list_lookup_fmap, Hi).
  destruct (decide (backed keys r)) as [Hb|Hb]; [|right; left; destruct (Hdrop r) as [pv Hpv]; [by eapply list_elem_of_lookup_2|done|exists pv; by apply Hd]].
  rewrite <- (take_drop_middle L i r HLi), filter_app, filter_cons, decide_True in Ek by done.
  destruct (filter (backed keys) (drop (S i) L)) as [|b B] eqn:EB.
  - right. right. intros j rj Hj Hrj. destruct (Hdrop (rewriteRuleTarget rj s)) as [pv Hpv]; [..|exists pv; by apply Hd].
    + unfold L, sourceRules. change (map ?f ?l) with (f <$> l). apply list_elem_of_fmap. exists rj. split; [done|by eapply list_elem_of_lookup_2].
    + intros Hbj. assert (rewriteRuleTarget rj s ∈ filter (backed keys) (drop (S i) L)) as Hin; [|rewrite EB in Hin; by apply elem_of_nil in Hin].
      apply list_elem_of_filter. split; [done|]. apply (list_elem_of_lookup_2 _ (j - S i)). rewrite lookup_drop.
      replace (S i + (j - S i)) with j by lia. unfold L, sourceRules. change (map ?f ?l) with (f <$> l). by rewrite list_lookup_fmap, Hrj.
  - left. apply list_elem_of_fmap in Hrow as (row & -> & Hrow).
    destruct (merged_rule (smRules acc.1) _ (customRules p) (fallbackRuleTarget p) row _ (b :: B) r Hrow Ek ltac:(done)) as (k & K1 & K2).
    pose proof (pruned_rule groups (mrRules (MergeUnifiedRules (smRules acc.1) (sortSourcesByPriority (subscriptions p)) (customRules p) (fallbackRuleTarget p)))
      (proxiesGroupName p) (fallbackRuleTarget p) k r) as Hpr.
    destruct (PruneEmptyProxyGroups groups _ _ _) as [[pg pr] res]. cbn [fst snd] in *. destruct (Hpr K1) as (r' & Hr' & Hcase).
    exists k, r'. rewrite Hr, Hcb. split_and!; [done|done|]. destruct Hcase as [->|(t & n & E1 & E2 & E3)]; [by left|right].
    eexists t, _, _, n. split_and!; [by apply Hp|exact E2|by apply Hp].
Qed.
End properties.

(** The small deployment of [BuildProofs]: one rule redirected, one kept, one
    dropped, the trailing one replaced. *)
Lemma Build_rules_accounted_witness :
  exists mc st' log, demo_build = inr (mc, st')
    /\ buildLog demo_pipeline demo_cache demo_cache [("a", MkUserinfo 1 2 100 0)] 0%Z 0%Z (Some (NewMapSnapshotter None)) None = inr log
    /\ RuleRetargeted 1 "a_Empty" "auto" ∈ log /\ RulesetRuleDropped "a" "a_gone" "RULE-SET,a_gone,a_Auto" ∈ log.
Proof.
  destruct demo_build as [e|[mc st']] eqn:E; [vm_compute in E; discriminate|].
  destruct (Build_rules_accounted demo_pipeline demo_cache demo_cache [("a", MkUserinfo 1 2 100 0)] 0%Z 0%Z (Some (NewMapSnapshotter None)) st' mc None E
    ltac:(by apply (bool_decide_unpack _))) as (log & Hlog & _).
  exists mc, st', log. split_and!; [done|exact Hlog|..];
    vm_compute in Hlog; injection Hlog as <-; apply (bool_decide_unpack _); vm_compute; reflexivity.
Defined.
