(* ===== verification/Closure.v ===== *)
(** * References in the served configuration

    Mihomo rejects a configuration in which a proxy group lists a name that is
    neither a built-in, a proxy nor a group.  [Build] adds no such member: what
    dangles in the configuration it serves dangled in a source or in the
    operator's own file, and when their references resolve, so do all of its. *)
From stdpp Require Import base gmap sets list strings sorting.
From Stdlib Require Import ZArith Lia Ascii.
From S2P Require Import Prelude GoStrings GoSort GoTime GoFloat Headers DailySpend Traffic.
From S2P Require Import Yaml Namespace Subscriptions CustomRules Proxies Rules ProxyGroups Fanout.
From S2P Require Import RuleSet Prune Region Pipeline BuildProofs.

(** A name listed by some group. *)
Definition member_of (groups : list node) (m : string) : Prop :=
  exists g, g ∈ groups /\ m ∈ mappingMembers g "proxies".

Lemma member_of_app (gs1 gs2 : list node) (m : string) :
  member_of (gs1 ++ gs2) m <-> member_of gs1 m \/ member_of gs2 m.
Proof. unfold member_of. setoid_rewrite elem_of_app. naive_solver. Qed.

Lemma names_of_app (gs1 gs2 : list node) : names_of (gs1 ++ gs2) = names_of gs1 ++ names_of gs2.
Proof. apply map_app. Qed.

Lemma refs_resolved_members (names : list string) (groups : list node) :
  refs_resolved names groups <-> forall m, member_of groups m -> is_builtin m = true \/ (m <> "" /\ m ∈ names).
Proof. unfold refs_resolved, member_of. naive_solver. Qed.

(** ** The selector *)
Lemma augment_members (groups groups' : list node) (pg : string) (names : list string) :
  all_named groups -> augmentGroup groups pg names = Some groups' ->
  all_named groups' /\ names_of groups' = names_of groups
  /\ (forall m, member_of groups' m -> member_of groups m \/ m ∈ names)
  /\ (forall g m, g ∈ groups -> m ∈ mappingMembers g "proxies" ->
        exists g', g' ∈ groups' /\ getMappingField g' "name" = getMappingField g "name" /\ m ∈ mappingMembers g' "proxies").
Proof.
  intros Hw Ha. destruct (augmentGroup_names _ _ _ _ Hw Ha) as [Hn Hw']. split; [done|]. split; [done|].
  apply augmentGroup_Some in Ha as (pre & g & post & -> & Hg & _ & ->).
  unfold all_named in Hw. rewrite Forall_app, Forall_cons in Hw. destruct Hw as (_ & Hwg & _).
  destruct (setMembers_facts g (unionMembers (mappingMembers g "proxies") names) Hwg) as (_ & Hname & Hmem & _).
  set (g' := setMappingMembers g "proxies" _) in *. split.
  - intros m (h & Hh & Hm). apply elem_of_app in Hh as [Hh|[->|Hh]%elem_of_cons].
    + left. exists h. split; [set_solver|done].
    + rewrite Hmem, elem_of_unionMembers in Hm. destruct Hm as [Hm|Hm]; [left|by right].
      exists g. split; [set_solver|done].
    + left. exists h. split; [set_solver|done].
  - intros h m Hh Hm. apply elem_of_app in Hh as [Hh|[->|Hh]%elem_of_cons].
    + exists h. set_solver.
    + exists g'. split; [set_solver|]. split; [done|]. rewrite Hmem, elem_of_unionMembers. by left.
    + exists h. set_solver.
Qed.

Lemma addToSelector_members (groups : list node) (pg : string) (names : list string) :
  all_named groups ->
  all_named (addToSelector groups pg names) /\ names_of (addToSelector groups pg names) = names_of groups
  /\ (forall m, member_of (addToSelector groups pg names) m -> member_of groups m \/ m ∈ names)
  /\ (forall g m, g ∈ groups -> m ∈ mappingMembers g "proxies" -> exists g', g' ∈ addToSelector groups pg names
        /\ getMappingField g' "name" = getMappingField g "name" /\ m ∈ mappingMembers g' "proxies").
Proof.
  intros Hw. unfold addToSelector. case_if; [|naive_solver].
  destruct (augmentGroup groups pg names) as [r|] eqn:E; [by apply (augment_members groups r pg names)|]. naive_solver.
Qed.

Lemma AppendProxiesGroup_members (groups : list node) (names : list string) (pg : string) :
  all_named groups -> pg <> "" ->
  let groups' := AppendProxiesGroup groups names pg in
  all_named groups' /\ pg ∈ names_of groups' /\ (forall x, x ∈ names_of groups -> x ∈ names_of groups')
  /\ (forall m, member_of groups' m -> member_of groups m \/ m ∈ names).
Proof.
  intros Hw Hpg. cbv zeta. unfold AppendProxiesGroup. apply String.eqb_neq in Hpg. rewrite Hpg.
  destruct (augmentGroup groups pg names) as [r|] eqn:E.
  - destruct (augment_members _ _ _ _ Hw E) as (H1 & H2 & H3 & _). rewrite H2. split_and!; [done| |done|done].
    destruct (decide (pg ∈ names_of groups)) as [|Hn]; [done|]. apply augmentGroup_None with (names := names) in Hn. congruence.
  - destruct (newSelectGroup_facts pg names) as (Hwn & Hn & _ & Hm). split_and!.
    + unfold all_named in *. rewrite Forall_app. split; [done|]. by constructor.
    + rewrite names_of_app, elem_of_app. right. unfold names_of. simpl. rewrite Hn. left.
    + intros x Hx. rewrite names_of_app, elem_of_app. by left.
    + intros m [Hg|(g & ->%list_elem_of_singleton & Hg)]%member_of_app; [by left|right]. by rewrite Hm in Hg.
Qed.

(** ** Region and continent groups *)
Lemma member_of_pairs (kd : string) (members : string -> list string) (ut : URLTestParams) (lb : LoadBalanceParams)
    (codes : list string) :
  all_named (mjoin (map (fun c => groupPair kd c (members c) ut lb) codes))
  /\ forall m, member_of (mjoin (map (fun c => groupPair kd c (members c) ut lb) codes)) m <->
       exists c, c ∈ codes /\ m ∈ members c.
Proof.
  induction codes as [|c codes [IHw IHm]]; [split; [constructor|unfold member_of; set_solver]|].
  cbn [map]. change (mjoin (?x :: ?l)) with (x ++ mjoin l).
  destruct (newURLTestGroup_facts ("_" +:+ kd +:+ "_" +:+ c) (members c) ut) as (W1 & _ & _ & M1).
  destruct (newLoadBalanceGroup_facts ("_lb_" +:+ kd +:+ "_" +:+ c) (members c) lb) as (W2 & _ & _ & M2). split.
  - unfold all_named. rewrite Forall_app. split; [|done]. unfold groupPair. by repeat constructor.
  - intros m. rewrite member_of_app, IHm. setoid_rewrite elem_of_cons. split.
    + intros [(g & Hg & Hm)|(c' & Hc & Hm)]; [exists c|exists c'; tauto]. split; [by left|]. unfold groupPair in Hg.
      apply elem_of_cons in Hg as [->|Hg]; [by rewrite M1 in Hm|]. apply list_elem_of_singleton in Hg as ->. by rewrite M2 in Hm.
    + intros (c' & [->|Hc] & Hm); [left|right; by exists c'].
      exists (newURLTestGroup ("_" +:+ kd +:+ "_" +:+ c) (members c) ut). split; [by left|]. by rewrite M1.
Qed.

Lemma regionGroupMembersOf_spec (groups : list node) (x : string) (ms : list string) :
  regionGroupMembersOf groups !! x = Some ms -> exists g, g ∈ groups /\ ms = mappingMembers g "proxies".
Proof.
  unfold regionGroupMembersOf.
  cut (forall acc : gmap string (list string), (foldl (fun m g => if isRegionGroup g
      then <[getMappingField g "name" := mappingMembers g "proxies"]> m else m) acc groups) !! x = Some ms ->
    acc !! x = Some ms \/ exists g, g ∈ groups /\ ms = mappingMembers g "proxies").
  { intros H Hx. destruct (H ∅ Hx) as [He|He]; [by rewrite lookup_empty in He|done]. }
  induction groups as [|g groups IH]; intros acc Hx; [by left|]. cbn [foldl] in Hx. apply IH in Hx as [Hx|(h & Hh & E)].
  - case_if_in Hx; [|by left]. apply lookup_insert_Some in Hx as [[_ <-]|[_ Hx]]; [right|by left]. exists g. split; [left|done].
  - right. exists h. split; [by right|done].
Qed.

Lemma continentMembers_sub (names : list string) (members : gmap string (list string)) (cont m : string) :
  m ∈ continentMembers names members cont -> exists x ms, members !! x = Some ms /\ m ∈ ms.
Proof.
  unfold continentMembers. rewrite list_elem_of_join. intros (l & Hm & (cc & -> & _)%list_elem_of_fmap).
  destruct (members !! ("_region_" +:+ cc)) as [ms|] eqn:E; [by exists ("_region_" +:+ cc), ms|by apply elem_of_nil in Hm].
Qed.

(** ** Proxies *)

(** Every offered name is emitted: renaming a later duplicate leaves the first. *)
Lemma mergeUpstream_used (cands : list (string * node)) (st : mergeState) :
  used_ok st -> Forall (fun sp => wf_named sp.2 = true) cands ->
  let st' := foldl (fun st sp => mergeUpstream sp.1 st sp.2) st cands in
  used_ok st' /\ (forall x, x ∈ names_of (msMerged st) -> x ∈ names_of (msMerged st'))
  /\ (forall sp, sp ∈ cands -> named sp.2 -> getMappingField sp.2 "name" ∈ names_of (msMerged st')).
Proof.
  intros Hu Hw. revert st Hu. induction Hw as [|[s p] cands Hp _ IH]; intros st Hu; cbv zeta; [naive_solver set_solver|].
  cbn [foldl fst snd] in *. apply wf_named_spec in Hp as (_ & _ & Hd).
  assert (used_ok (mergeUpstream s st p) /\ (forall x, x ∈ names_of (msMerged st) -> x ∈ names_of (msMerged (mergeUpstream s st p)))
    /\ (named p -> getMappingField p "name" ∈ names_of (msMerged (mergeUpstream s st p)))) as (H1 & H2 & H3).
  { unfold mergeUpstream. rewrite cloneNode_id. destruct (String.eqb (getMappingField p "name") "") eqn:E; string_eqb.
    { split_and!; [done|done|]. unfold named. done. }
    case_bool_decide as Hin; cbn [msMerged msUsed]; unfold used_ok; cbn [msMerged msUsed]; setoid_rewrite names_of_app;
      cbn [names_of map]; [rewrite (getMappingField_set_same p "name") by done|].
    - split_and!; [|set_solver|]; [intros x; specialize (Hu x); set_solver|]. intros _. apply elem_of_app. left. by apply Hu.
    - split_and!; [intros x; specialize (Hu x); set_solver|set_solver|set_solver]. }
  destruct (IH (mergeUpstream s st p) H1) as (I1 & I2 & I3). split_and!; [done|by auto|].
  intros sp [->|Hsp]%elem_of_cons Hn; [by apply I2, H3|by apply I3].
Qed.

Lemma MergeProxies_names (perSource : gmap string (list node)) (sources : list string) (own : list node) :
  Forall (fun sp => wf_named sp.2 = true) (candidates perSource sources) ->
  (forall n, n ∈ own -> named n -> getMappingField n "name" ∈ names_of (MergeProxies perSource sources own).1)
  /\ (forall s n, s ∈ sources -> n ∈ lookup_nodes perSource s -> named n ->
        getMappingField n "name" ∈ names_of (MergeProxies perSource sources own).1).
Proof.
  intros Hw. unfold MergeProxies. cbn [fst]. rewrite merge_flat.
  destruct (mergeUpstream_used (candidates perSource sources) (foldl mergeOwn (MkMergeState [] ∅ ∅ []) own))
    as (_ & H2 & H3); [apply mergeOwn_used; intros x; simpl; set_solver|done|]. split.
  - intros n Hn Hne. apply H2. rewrite (proj1 (mergeOwn_merged own _)). cbn [msMerged app].
    apply elem_of_names_of, list_elem_of_filter. done.
  - intros s n Hs Hn Hne. apply (H3 (s, n)); [|done]. unfold candidates. apply list_elem_of_join.
    exists (map (pair s) (lookup_nodes perSource s)). split; apply list_elem_of_fmap; [by exists n|by exists s].
Qed.

(** ** Groups *)
Lemma MergeProxyGroups_members (perSource : gmap string (list node)) (sources : list string) (own : list node) :
  Forall (fun sg => wf_named sg.2 = true) (groupInputs perSource sources own) ->
  let merged := (MergeProxyGroups perSource sources own).1 in
  all_named merged
  /\ (forall g, g ∈ map snd (groupInputs perSource sources own) -> named g -> getMappingField g "name" ∈ names_of merged)
  /\ (forall m, member_of merged m -> member_of (map snd (groupInputs perSource sources own)) m).
Proof.
  intros Hw. cbv zeta. rewrite merge_groups_flat. cbn [fst].
  destruct (group_inv_final _ Hw) as [_ Hnam Hfrom Hall]. split_and!.
  - unfold all_named. apply Forall_forall. intros g Hg. by apply Hnam.
  - exact Hall.
  - intros m (g & Hg & Hm). destruct (Hfrom g Hg) as (g0 & rest & Hin & _ & Hmem). destruct (proj1 (Hmem m) Hm) as (gi & Hgi & Hm').
    exists gi. split; [|exact Hm']. rewrite <- Hin in Hgi. unfold inputs_named in Hgi. by apply list_elem_of_filter in Hgi as [_ ?].
Qed.

Lemma nsGroup_facts (s : string) (g : node) : wf_named g = true -> wf_named (nsGroup s g) = true.
Proof.
  intros Hw. unfold nsGroup, rewriteGroupMembers. pose proof (renameNode_wf (s +:+ "_") g Hw) as Hw'.
  case_match; [done|]. by apply setMembers_facts.
Qed.

Lemma ownGroup_wf (ps gs : list node) : all_named gs -> all_named (RewriteOwn ps gs).2.
Proof.
  unfold all_named, RewriteOwn. cbn [snd]. rewrite !Forall_forall. intros H g' (g & -> & Hg)%list_elem_of_fmap.
  unfold rewriteOwnGroupMembers. pose proof (renameNode_wf "_" g (H g Hg)) as Hw'. case_match; [done|]. by apply setMembers_facts.
Qed.

Section closure.
Context {U : UnicodeTables} {F : FloatConversion} {St : Type} `{!Snapshotter St}.

(** A member resolves among proxies and groups, or is one of the excepted [D]. *)
Definition resolves (D : string -> Prop) (proxies groups : list node) (m : string) : Prop :=
  is_builtin m = true \/ (m <> "" /\ m ∈ names_of proxies ++ names_of groups) \/ D m.

Lemma resolves_mono (D : string -> Prop) (ps gs gs' : list node) (m : string) :
  (forall x, x ∈ names_of gs -> x ∈ names_of gs') -> resolves D ps gs m -> resolves D ps gs' m.
Proof. unfold resolves. intros H [Hb|[[Hne Hm]|HD]]; [by left| |by right; right]. right; left. split; [done|]. set_solver. Qed.

Lemma names_resolve (D : string -> Prop) (ps gs : list node) (m : string) :
  m <> "" -> m ∈ names_of ps \/ m ∈ names_of gs -> resolves D ps gs m.
Proof. intros Hne Hm. right; left. split; [done|]. by apply elem_of_app. Qed.

Lemma pairs_resolve (D : string -> Prop) (ps gs : list node) (kd : string) (codes : list string) (m : string) :
  (forall x, x ∈ mjoin (map (pairNames kd) codes) -> x ∈ names_of gs) ->
  m ∈ mjoin (map (pairNames kd) codes) -> resolves D ps gs m.
Proof.
  intros H Hm. apply names_resolve; [|right; by apply H].
  apply elem_of_pairs in Hm as (c & _ & [->| ->]); done.
Qed.

Lemma upNames_names (ups : list node) (n : string) : n ∈ upNames ups -> n <> "" /\ n ∈ names_of ups.
Proof.
  unfold upNames, classifiable. intros [H Hn]%list_elem_of_filter. split; [|done]. intros ->. done.
Qed.

Lemma names_of_filter (P : node -> Prop) `{!forall x, Decision (P x)} (l : list node) (x : string) :
  x ∈ names_of (filter P l) -> x ∈ names_of l.
Proof.
  unfold names_of. rewrite !list_elem_of_fmap. intros (n & -> & [_ Hn]%list_elem_of_filter). by exists n.
Qed.

Lemma upstreamNamed_nonempty (l : list node) (x : string) :
  x ∈ names_of (filter (fun n => upstreamNamed n = true) l) -> x <> "".
Proof.
  unfold names_of. intros (n & -> & [Hn _]%list_elem_of_filter)%list_elem_of_fmap. unfold upstreamNamed in Hn.
  by string_eqb.
Qed.

(** The groups [Build] makes of the merged groups add no reference that does not
    resolve. *)
Lemma buildGroups_closed (D : string -> Prop) (p : Pipeline) (gps : gmap string (list node)) (C : list string) (ownG MP : list node) :
  let G0 := (MergeProxyGroups gps C ownG).1 in
  let G := (buildGroups p gps C ownG MP).1 in
  all_named G0 -> proxiesGroupName p <> "" -> (forall m, member_of G0 m -> resolves D MP G0 m) ->
  all_named G /\ proxiesGroupName p ∈ names_of G /\ (forall m, member_of G m -> resolves D MP G m).
Proof.
  cbv zeta. unfold buildGroups. destruct (MergeProxyGroups gps C ownG) as [G0 conf]. cbn [fst].
  intros Hw0 Hpg Href0. set (pg := proxiesGroupName p) in *.
  set (allNames := names_of (filter _ MP)).
  destruct (AppendProxiesGroup_members G0 allNames pg Hw0 Hpg) as (Hw1 & Hpg1 & Hsub1 & Hm1).
  set (G1 := AppendProxiesGroup G0 allNames pg) in *.
  set (ups := filter (fun n => upstreamNamed n = true) MP).
  rewrite AppendRegionGroups_eq by done.
  destruct (addToSelector_members G1 pg (mjoin (map (pairNames "region") (regionsOf ups))) Hw1) as (Hw2 & Hn2 & Hm2 & _).
  destruct (member_of_pairs "region" (regionMembers ups) (urlTestParams p) (loadBalanceParams p) (regionsOf ups)) as [Hwr Hmr].
  pose proof (names_of_pairs "region" (regionMembers ups) (urlTestParams p) (loadBalanceParams p) (regionsOf ups)) as Hnr.
  fold (regionGroups ups (urlTestParams p) (loadBalanceParams p)) in Hwr, Hmr, Hnr.
  set (S1 := addToSelector G1 pg _) in *. set (R := regionGroups ups (urlTestParams p) (loadBalanceParams p)) in *.
  assert (all_named (S1 ++ R)) as HwG2 by (by apply Forall_app).
  assert (pg ∈ names_of (S1 ++ R)) as Hpg2 by (rewrite names_of_app, Hn2; set_solver).
  rewrite AppendContinentGroups_eq by done. cbn [fst].
  set (rn := regionGroupNamesOf (S1 ++ R)). set (rm := regionGroupMembersOf (S1 ++ R)).
  destruct (addToSelector_members (S1 ++ R) pg (mjoin (map (pairNames "continent") (continentsIn rn))) HwG2) as (Hw3 & Hn3 & Hm3 & _).
  destruct (member_of_pairs "continent" (continentMembers rn rm) (urlTestParams p) (loadBalanceParams p) (continentsIn rn)) as [Hwc Hmc].
  pose proof (names_of_pairs "continent" (continentMembers rn rm) (urlTestParams p) (loadBalanceParams p) (continentsIn rn)) as Hnc.
  fold (continentGroups rn rm (urlTestParams p) (loadBalanceParams p)) in Hwc, Hmc, Hnc.
  set (S2 := addToSelector (S1 ++ R) pg _) in *. set (CG := continentGroups rn rm _ _) in *.
  assert (forall x, x ∈ names_of (S2 ++ CG) <-> x ∈ names_of G1 \/ x ∈ mjoin (map (pairNames "region") (regionsOf ups))
    \/ x ∈ mjoin (map (pairNames "continent") (continentsIn rn))) as Hnames
    by (intros x; rewrite names_of_app, Hn3, names_of_app, Hn2, Hnr, Hnc, !elem_of_app; tauto).
  assert (forall m, member_of (S1 ++ R) m -> resolves D MP (S2 ++ CG) m) as Href2.
  { intros m [Hm|Hm]%member_of_app.
    - apply Hm2 in Hm as [Hm|Hm].
      + apply Hm1 in Hm as [Hm|Hm].
        * eapply resolves_mono; [|by apply Href0]. intros x Hx. apply Hnames. left. by apply Hsub1.
        * apply names_resolve; [by eapply upstreamNamed_nonempty|left; by eapply names_of_filter].
      + eapply pairs_resolve; [|exact Hm]. intros x Hx. apply Hnames. tauto.
    - apply Hmr in Hm as (cc & _ & Hm). unfold regionMembers in Hm. apply list_elem_of_filter in Hm as [_ Hm].
      apply upNames_names in Hm as [Hne Hm]. apply names_resolve; [done|left; by eapply names_of_filter]. }
  split_and!.
  - by apply Forall_app.
  - apply Hnames. by left.
  - intros m [Hm|Hm]%member_of_app.
    + apply Hm3 in Hm as [Hm|Hm]; [by apply Href2|]. eapply pairs_resolve; [|exact Hm]. intros x Hx. apply Hnames. tauto.
    + apply Hmc in Hm as (cont & _ & Hm). apply continentMembers_sub in Hm as (x & ms & Hx & Hm).
      apply regionGroupMembersOf_spec in Hx as (g & Hg & ->). apply Href2. by exists g.
Qed.

(** Every proxy and group of a cached source is a mapping with a usable name. *)
Definition source_named (cache : CacheReader) (s : string) : Prop :=
  all_named (default [] (docProxies cache s)) /\ all_named (default [] (docGroups cache s)).

(** The references of one cached source resolve within it. *)
Definition source_closed (cache : CacheReader) (s : string) : Prop :=
  let ps := default [] (docProxies cache s) in
  let gs := default [] (docGroups cache s) in
  refs_resolved (names_of ps ++ names_of gs) gs.

(** The served form of a reference that dangles in its own input: a member of a
    source's group that the source defines nowhere, under the source's prefix,
    or a member of an own group that the operator's file defines nowhere. *)
Definition input_dangling (p : Pipeline) (cache : CacheReader) (C : list string) (m : string) : Prop :=
  (exists s m0, s ∈ C /\ m = prefixed s m0
     /\ dangling (names_of (default [] (docProxies cache s)) ++ names_of (default [] (docGroups cache s)))
          (default [] (docGroups cache s)) m0)
  \/ dangling (names_of (ownProxies p) ++ names_of (ownGroups p)) (ownGroups p) m.

Lemma closed_inputs (p : Pipeline) (cache : CacheReader) (C : list string) :
  (forall s, s ∈ C -> source_closed cache s) ->
  refs_resolved (names_of (ownProxies p) ++ names_of (ownGroups p)) (ownGroups p) ->
  forall m, ~ input_dangling p cache C m.
Proof.
  intros Hs Ho m [(s & m0 & HsC & -> & Hd)|Hd]; [|by apply not_dangling with (m := m) in Ho].
  pose proof (Hs s HsC) as Hc. by apply not_dangling with (m := m0) in Hc.
Qed.

Lemma merged_inputs_closed (p : Pipeline) (cache : CacheReader) (C : list string) (sm : sourceMaps) :
  prepared cache C sm -> (forall s, s ∈ C -> source_named cache s) ->
  all_named (ownProxies p) -> all_named (ownGroups p) ->
  let ownP := (RewriteOwn (ownProxies p) (ownGroups p)).1 in
  let ownG := (RewriteOwn (ownProxies p) (ownGroups p)).2 in
  let MP := (MergeProxies (smProxies sm) C ownP).1 in
  let G0 := (MergeProxyGroups (smGroups sm) C ownG).1 in
  all_named G0 /\ forall m, member_of G0 m -> resolves (input_dangling p cache C) MP G0 m.
Proof.
  intros [_ _ Hps Hgs _ _] Hsrc HoP HoG ownP ownG MP G0.
  assert (Forall (fun sp => wf_named sp.2 = true) (candidates (smProxies sm) C)) as Hwp.
  { apply Forall_forall. intros sp (l & Hsp & (s & -> & Hs)%list_elem_of_fmap)%list_elem_of_join.
    apply list_elem_of_fmap in Hsp as (n & -> & Hn). cbn [snd]. rewrite Hps, decide_True in Hn by done.
    apply list_elem_of_fmap in Hn as (n0 & -> & Hn0). apply renameNode_wf. destruct (Hsrc s Hs) as [H _].
    unfold all_named in H. rewrite Forall_forall in H. by apply H. }
  assert (forall g, g ∈ map snd (groupInputs (smGroups sm) C ownG) <->
    g ∈ ownG \/ exists s, s ∈ C /\ g ∈ map (nsGroup s) (default [] (docGroups cache s))) as Hin.
  { intros g. unfold groupInputs. rewrite map_app, map_map, elem_of_app. cbn [snd]. rewrite map_id. f_equiv.
    unfold candidates. split.
    - intros (sg & -> & (l & Hsg & (s & -> & Hs)%list_elem_of_fmap)%list_elem_of_join)%list_elem_of_fmap.
      apply list_elem_of_fmap in Hsg as (g0 & -> & Hg0). exists s. split; [done|]. by rewrite Hgs, decide_True in Hg0.
    - intros (s & Hs & Hg). apply list_elem_of_fmap. exists (s, g). split; [done|]. apply list_elem_of_join.
      exists (map (pair s) (lookup_nodes (smGroups sm) s)). split; apply list_elem_of_fmap; [|by exists s].
      exists g. by rewrite Hgs, decide_True. }
  assert (Forall (fun sg => wf_named sg.2 = true) (groupInputs (smGroups sm) C ownG)) as Hwg.
  { apply Forall_forall. intros sg Hsg. assert (sg.2 ∈ map snd (groupInputs (smGroups sm) C ownG)) as H
      by (apply list_elem_of_fmap; by exists sg). apply Hin in H as [H|(s & Hs & H)].
    - pose proof (ownGroup_wf (ownProxies p) (ownGroups p) HoG) as Ho. unfold all_named in Ho. rewrite Forall_forall in Ho. by apply Ho.
    - apply list_elem_of_fmap in H as (g & -> & Hg). apply nsGroup_facts. destruct (Hsrc s Hs) as [_ H].
      unfold all_named in H. rewrite Forall_forall in H. by apply H. }
  destruct (MergeProxies_names (smProxies sm) C ownP Hwp) as [Nown Nsrc]. fold MP in Nown, Nsrc.
  destruct (MergeProxyGroups_members (smGroups sm) C ownG Hwg) as (HwG & NG & HmG). fold G0 in HwG, NG, HmG.
  split; [done|]. intros m Hm. apply HmG in Hm as (g & Hg & Hm). apply Hin in Hg as [Hg|(s & Hs & Hg)].
  - destruct (RewriteOwn_dangling (ownProxies p) (ownGroups p) g m HoP HoG Hg Hm) as [Hb|[[Hne Hn]|Hd]];
      [by left| |by right; right; right]. apply names_resolve; [done|].
    apply elem_of_app in Hn as [Hn|Hn]; [left|right]; unfold names_of in Hn; apply list_elem_of_fmap in Hn as (n & -> & Hn).
    + by apply Nown.
    + apply NG; [apply Hin; by left|done].
  - destruct (Hsrc s Hs) as [H1 H2].
    destruct (RewriteSource_members s _ _ g m H1 H2 Hg Hm) as [Hb|[[Hne Hn]|(m0 & Hd & ->)]];
      [by left| |right; right; left; by exists s, m0]. apply names_resolve; [done|].
    apply elem_of_app in Hn as [Hn|Hn]; [left|right]; unfold names_of in Hn; apply list_elem_of_fmap in Hn as (n & -> & Hn).
    + apply (Nsrc s n Hs); [by rewrite Hps, decide_True|done].
    + apply NG; [apply Hin; right; by exists s|done].
Qed.

Lemma Build_members_resolve (p : Pipeline) (cache1 cache2 : CacheReader) (order : list (string * SubscriptionUserinfo))
    (nowA now : Time) (store st' : option St) (mc : MergedConfig) :
  Build p cache1 cache2 order nowA now store = inr (mc, st') ->
  NoDup (map Name (subscriptions p)) -> proxiesGroupName p <> "" ->
  (forall s, s ∈ mcContributingSources mc -> source_named cache1 s) ->
  all_named (ownProxies p) -> all_named (ownGroups p) ->
  forall m, member_of (mcProxyGroups mc) m ->
    resolves (input_dangling p cache1 (mcContributingSources mc)) (mcProxies mc) (mcProxyGroups mc) m.
Proof.
  intros H Hnd Hpg Hsrc HoP HoG. destruct (Build_trace _ _ _ _ _ _ _ _ _ H) as [T].
  rewrite (bt_contributing _ _ _ T) in *.
  destruct (merged_inputs_closed p cache1 _ _ (prepared_of_Build _ _ _ T Hnd) Hsrc HoP HoG) as [Hw0 Hr0].
  destruct (buildGroups_closed _ p (smGroups (bt_sm _ _ _ T)) (smContributing (bt_sm0 _ _ _ T)) (bt_ownG _ _ _ T) (bt_merged _ _ _ T)
    Hw0 Hpg Hr0) as (Hw & _ & Hr). fold (bt_groups _ _ _ T) in Hw, Hr. set (G := bt_groups _ _ _ T) in *.
  pose proof (Prune_unfold G (mrRules (bt_rules _ _ _ T)) (proxiesGroupName p) (fallbackRuleTarget p) Hw) as HP. cbv zeta in HP.
  pose proof (bt_pruned _ _ _ T) as Ep. fold G in Ep. destruct (PruneEmptyProxyGroups G _ _ _) as [[gs' rs'] res].
  cbn [fst] in Ep. injection Ep as -> _. destruct HP as (_ & HG & _). set (protected := protectedNames _ _ _) in *.
  set (removed := names_of (filter (fun g => isPruned protected g = true) G)) in *.
  intros m (g' & Hg' & Hm). apply list_elem_of_lookup in Hg' as [i Hi].
  destruct (Forall2_lookup_r _ _ _ _ _ HG Hi) as (g & Hg & _ & Em). rewrite Em in Hm.
  apply list_elem_of_filter in Hm as [Hnr Hm]. rewrite elem_of_list_to_set in Hnr.
  apply list_elem_of_lookup_2, list_elem_of_filter in Hg as [_ Hg].
  destruct (Hr m (ex_intro _ g (conj Hg Hm))) as [Hb|[[Hne Hn]|HD]]; [by left| |by right; right].
  apply names_resolve; [done|].
  rewrite (bt_proxies_eq _ _ _ T). apply elem_of_app in Hn as [Hn|Hn]; [left; rewrite names_of_app; by apply elem_of_app; left|right].
  apply list_elem_of_fmap in Hn as (h & -> & Hh).
  assert (h ∈ filter (fun g => isPruned protected g = false) G) as Hk.
  { apply list_elem_of_filter. split; [|done]. apply not_true_is_false. intros Ht. apply Hnr.
    apply elem_of_names_of, list_elem_of_filter. done. }
  apply list_elem_of_lookup in Hk as [j Hj]. destruct (Forall2_lookup_l _ _ _ _ _ HG Hj) as (h' & Hh' & En & _).
  rewrite <- En. apply elem_of_names_of. by eapply list_elem_of_lookup_2.
Qed.

Lemma contributing_cached (p : Pipeline) (cache1 cache2 : CacheReader) (order : list (string * SubscriptionUserinfo))
    (nowA now : Time) (store st' : option St) (mc : MergedConfig) (n : string) :
  Build p cache1 cache2 order nowA now store = inr (mc, st') -> NoDup (map Name (subscriptions p)) ->
  n ∈ mcContributingSources mc -> is_Some (docOf cache1 n).
Proof.
  intros H Hnd Hn. destruct (Build_trace _ _ _ _ _ _ _ _ _ H) as [T]. rewrite (bt_contributing _ _ _ T) in Hn.
  exact (pr_doc _ _ _ (prepared_of_Build _ _ _ T Hnd) n Hn).
Qed.

End closure.

(** A source and an operator's file that both dangle: the source's [Auto] lists a
    proxy the source does not have, and an own group lists an upstream name,
    which resolves, and one that nobody defines. *)
Definition dangling_doc : node :=
  lit MappingNode "" "!!map"
    [str_scalar "proxies"; lit SequenceNode "" "!!seq" [demo_proxy "HK 01"];
     str_scalar "proxy-groups"; lit SequenceNode "" "!!seq" [demo_group "Auto" ["HK 01"; "Gone"; "DIRECT"]]].
Definition dangling_cache : CacheReader := fun s =>
  if String.eqb s "a" then Some (MkPayload (Some dangling_doc) None None) else None.
Definition dangling_pipeline : Pipeline :=
  NewPipeline [MkRow "a" "https://a" 5 true 0 0] [demo_proxy "home"] [demo_group "mine" ["home"; "a_HK 01"; "Nobody"]] 24.
Definition dangling_build : string + MergedConfig * option MapSnapshotter :=
  Build dangling_pipeline dangling_cache dangling_cache [] 0%Z 0%Z None.

(** The members of the served groups that resolve to nothing. *)
Definition unresolved (mc : MergedConfig) : list string :=
  filter (fun m => is_builtin m || negb (String.eqb m "") && bool_decide (m ∈ names_of (mcProxies mc) ++ names_of (mcProxyGroups mc)) = false)
    (mjoin (map (fun g => mappingMembers g "proxies") (mcProxyGroups mc))).

