(* ===== verification/SpendStore.v ===== *)
(** * The snapshot store behind the traffic header

    What [Build] keeps in the store of daily snapshots is, to the client, a day
    book: the allowance and the readings of the counters a local day was opened
    with.  The day book is specified here without snapshots, stores, floats or
    wrapping integers, and the builds of a process over any store that returns
    the valid snapshots saved to it, as both stores of the program do, refine
    it. *)
From stdpp Require Import base gmap sets list strings sorting.
From Stdlib Require Import ZArith Lia.
From S2P Require Import Prelude GoStrings GoTime GoFloat FloatRatio Headers DailySpend Traffic Yaml Namespace Proxies ProxyGroups Prune Pipeline.

Local Open Scope Z_scope.

(** What a store promises: it returns a valid snapshot that was just saved. *)
Class SnapshotterLaws (St : Type) `{!Snapshotter St} : Prop :=
  snLoad_snSave : forall st s, validateSnapshot (Some s) = true -> snLoad (snSave st s) = Some s.

Lemma deepCopySnapshot_id (s : Snapshot) : deepCopySnapshot s = s.
Proof. destruct s. unfold deepCopySnapshot. cbn. by rewrite !list_to_map_to_list. Qed.

#[export] Instance MapSnapshotter_laws : SnapshotterLaws MapSnapshotter.
Proof. intros st s _. cbn. unfold MapLoad. cbn. by rewrite !deepCopySnapshot_id. Qed.

(** A ratio between 0 and 1 is finite. *)
Lemma valid_finite (x : float64) : negb (flt x fzero || flt fone x || IsNaN x) = true -> finite x = true.
Proof. by destruct x as [| [] | |]. Qed.

(** The encoder refuses no valid snapshot. *)
Lemma valid_encodable (s : Snapshot) : validateSnapshot (Some s) = true -> encodable s = true.
Proof.
  unfold validateSnapshot, encodable. destruct (Parse_date (LocalDate s)); [|done]. intros [_ H]%andb_true_iff.
  rewrite forallb_forall in *. intros kv Hkv. by apply valid_finite, H.
Qed.

#[export] Instance FileSnapshotter_laws : SnapshotterLaws snapshotFS.
Proof.
  intros fs s Hs. cbn [snLoad snSave FileSnapshotter]. unfold Save. rewrite (valid_encodable s Hs).
  rewrite decide_False by done. unfold DailySpend.Load. cbn [negb orb bool_decide decide_rel fst fsTarget].
  rewrite bool_decide_false by done. cbn [fst fsTarget]. by rewrite Hs.
Qed.

(** What one build is given. *)
Record buildRequest := MkBuildRequest {
  brCache1 : CacheReader;
  brCache2 : CacheReader;
  brOrder : list (string * SubscriptionUserinfo);
  brNowA : Time;
  brNow : Time
}.

Section stores.
Context {U : UnicodeTables} {F : FloatConversion}.

Definition buildOne {St : Type} `{!Snapshotter St} (p : Pipeline) (q : buildRequest) (st : option St)
    : string + MergedConfig * option St :=
  Build p (brCache1 q) (brCache2 q) (brOrder q) (brNowA q) (brNow q) st.

(** The requests of a process, one after the other; a failed build leaves the
    store. *)
Fixpoint builds {St : Type} `{!Snapshotter St} (p : Pipeline) (qs : list buildRequest) (st : option St)
    : list (string + MergedConfig) * option St :=
  match qs with
  | [] => ([], st)
  | q :: qs' =>
      match buildOne p q st with
      | inl e => let '(outs, st') := builds p qs' st in (inl e :: outs, st')
      | inr (mc, st1) => let '(outs, st') := builds p qs' st1 in (inr mc :: outs, st')
      end
  end.

Lemma builds_cons {St : Type} `{!Snapshotter St} (p : Pipeline) (q : buildRequest) (qs : list buildRequest) (st : option St) :
  builds p (q :: qs) st =
    let st1 := match buildOne p q st with inl _ => st | inr (_, st1) => st1 end in
    let out := match buildOne p q st with inl e => inl e | inr (mc, _) => inr mc end in
    (out :: (builds p qs st1).1, (builds p qs st1).2).
Proof. cbn [builds]. destruct (buildOne p q st) as [e|[mc st1]]; by destruct (builds p qs _). Qed.

End stores.

(** ** The day's snapshot *)

(** What a well-behaved upstream reports. *)
Definition sane_userinfo (ui : SubscriptionUserinfo) : Prop :=
  0 <= Upload ui /\ 0 <= Download ui /\ Upload ui + Download ui < 2 ^ 63.
Definition usage (ui : SubscriptionUserinfo) : Z := Upload ui + Download ui.
Definition sane_sources (perSource : gmap string SubscriptionUserinfo) : Prop :=
  map_Forall (fun _ ui => sane_userinfo ui) perSource /\ zsum (map remainingOf (map_to_list perSource).*2) < 2 ^ 63
  /\ zsum (map usage (map_to_list perSource).*2) < 2 ^ 63.

Lemma uploadRatio_valid (ui : SubscriptionUserinfo) : sane_userinfo ui ->
  negb (flt (uploadRatio ui) fzero || flt fone (uploadRatio ui) || IsNaN (uploadRatio ui)) = true.
Proof.
  intros (H1 & H2 & H3). unfold uploadRatio. assert (counter ui = Upload ui + Download ui) as -> by (apply wrap64_id; unfold in_int64; lia).
  destruct (Z.ltb_spec 0 (Upload ui + Download ui)); [|done].
  by destruct (float_ratio (Upload ui) (Upload ui + Download ui) ltac:(lia) ltac:(lia)) as (-> & -> & ->).
Qed.

Lemma capture_valid (perSource : gmap string SubscriptionUserinfo) (allowance : Z) (now : Time) (loc : option Location) :
  map_Forall (fun _ ui => sane_userinfo ui) perSource -> 0 <= allowance -> four_digit_year (local_day (loc_or_UTC loc) now) ->
  validateSnapshot (Some (CaptureSnapshot perSource allowance now loc)) = true.
Proof.
  intros Hs Ha Hy. unfold validateSnapshot, CaptureSnapshot, today, local_date. cbn [LocalDate AllowanceTodayBytes BaselineUploadRatios].
  rewrite Parse_Format_day by done. destruct (Z.ltb_spec allowance 0); [lia|]. apply forallb_forall. intros [k r] Hin%list_elem_of_In.
  apply elem_of_map_to_list, lookup_fmap_Some in Hin as (ui & <- & Hui). by apply uploadRatio_valid, (Hs k).
Qed.

Section day.
Context {F : FloatConversion}.

(** The allowance of a reading: the daily rates and the free pools. *)
Definition allowanceOf (perSource : gmap string SubscriptionUserinfo) (now : Time) : Z :=
  zsum (map (fun ui => dailyRate (Unix now) ui + freePool ui) (map_to_list perSource).*2).

Lemma allowance_exact (perSource : gmap string SubscriptionUserinfo) (now : Time) :
  zsum (map remainingOf (map_to_list perSource).*2) < 2 ^ 63 ->
  0 <= allowanceOf perSource now
  /\ wrap64 (PerDayRateBytes (ComputeDailyAllowance perSource now) + NoExpiryRemainingBytes (ComputeDailyAllowance perSource now))
     = allowanceOf perSource now.
Proof.
  intros Hb. destruct (allowance_sums perSource now) as (-> & ->). unfold allowanceOf.
  assert (0 <= zsum (map (dailyRate (Unix now)) (map_to_list perSource).*2) /\ 0 <= zsum (map freePool (map_to_list perSource).*2)
    /\ zsum (map (fun ui => dailyRate (Unix now) ui + freePool ui) (map_to_list perSource).*2)
       = zsum (map (dailyRate (Unix now)) (map_to_list perSource).*2) + zsum (map freePool (map_to_list perSource).*2)
    /\ zsum (map (dailyRate (Unix now)) (map_to_list perSource).*2) + zsum (map freePool (map_to_list perSource).*2)
       <= zsum (map remainingOf (map_to_list perSource).*2)) as (H1 & H2 & -> & H3).
  { clear Hb. induction (map_to_list perSource).*2 as [|ui l IH]; [done|]. cbn [map]. rewrite !zsum_cons.
    pose proof (contribution_bounds ui (Unix now)). lia. }
  rewrite !wrap64_id; unfold in_int64; rewrite ?wrap64_id; unfold in_int64; lia.
Qed.

(** The header composed from a snapshot. *)
Definition header_of (h : ServedTrafficHeader) (s : Snapshot) (order : list (string * SubscriptionUserinfo)) : Prop :=
  DailyAllowanceBytes h = AllowanceTodayBytes s /\ UsedTodayBytes h = ComputeUsedToday order (Some s)
  /\ TotalBytes h = wrap64 (AllowanceTodayBytes s + ComputeUsedToday order (Some s)) /\ SnapshotLocalDate h = LocalDate s.

(** Composing opens a day when there is no snapshot, or one of another day. *)
Lemma compose_opens (perSource : gmap string SubscriptionUserinfo) (order : list (string * SubscriptionUserinfo)) (nowA now : Time)
    (snap : option Snapshot) (loc : option Location) :
  perSource <> ∅ -> sane_sources perSource -> IsRolloverNeeded snap now loc = true ->
  let s := CaptureSnapshot perSource (allowanceOf perSource nowA) now loc in
  exists h, ComposeServedTrafficHeaderWithSpend perSource order nowA now snap loc = (Some h, Some s)
    /\ RolloverFired h = true /\ header_of h s order.
Proof.
  intros Hne (_ & Hb & _) Hr s. unfold ComposeServedTrafficHeaderWithSpend.
  destruct (Nat.eqb_spec (size perSource) 0) as [E|_]; [by apply map_size_empty_inv in E|]. rewrite Hr.
  rewrite (proj2 (allowance_exact perSource nowA Hb)). fold s.
  destruct (SplitUsedToday _ _ _) as [up down]. eexists.
  split; [reflexivity|]. split; [done|]. by split_and!.
Qed.

(** Otherwise it reads the snapshot. *)
Lemma compose_open (perSource : gmap string SubscriptionUserinfo) (order : list (string * SubscriptionUserinfo)) (nowA now : Time)
    (s : Snapshot) (loc : option Location) :
  perSource <> ∅ -> IsRolloverNeeded (Some s) now loc = false ->
  exists h, ComposeServedTrafficHeaderWithSpend perSource order nowA now (Some s) loc = (Some h, Some s)
    /\ RolloverFired h = false /\ header_of h s order.
Proof.
  intros Hne Hr. unfold ComposeServedTrafficHeaderWithSpend.
  destruct (Nat.eqb_spec (size perSource) 0) as [E|_]; [by apply map_size_empty_inv in E|]. rewrite Hr.
  destruct (SplitUsedToday _ _ _) as [up down]. eexists. split; [reflexivity|]. split; [done|]. by split_and!.
Qed.

(** What the sources have used since an earlier reading; one that was not there
    or whose counter went back counts for nothing. *)
Definition spentSince (opening current : gmap string SubscriptionUserinfo) : Z :=
  zsum (map (fun kv => match opening !! kv.1 with
                       | Some ui => Z.max 0 (usage kv.2 - usage ui)
                       | None => 0
                       end) (map_to_list current)).

Lemma spentSince_self (current : gmap string SubscriptionUserinfo) : spentSince current current = 0.
Proof.
  unfold spentSince. assert (forall kv, kv ∈ map_to_list current -> current !! kv.1 = Some kv.2) as H
    by (intros [k ui]; apply elem_of_map_to_list).
  induction (map_to_list current) as [|kv l IH]; [done|]. cbn [map]. rewrite zsum_cons, (H kv) by (by left).
  rewrite IH by (intros kv' ?; apply H; by right). lia.
Qed.

Lemma counter_usage (ui : SubscriptionUserinfo) : sane_userinfo ui -> counter ui = usage ui /\ 0 <= usage ui < 2 ^ 63.
Proof. intros (? & ? & ?). unfold counter, usage. rewrite wrap64_id; unfold in_int64; lia. Qed.

Lemma used_since (opening current : gmap string SubscriptionUserinfo) (order : list (string * SubscriptionUserinfo)) (allowance : Z)
    (now : Time) (loc : option Location) :
  sane_sources opening -> sane_sources current -> order ≡ₚ map_to_list current ->
  ComputeUsedToday order (Some (CaptureSnapshot opening allowance now loc)) = spentSince opening current.
Proof.
  intros [Ho _] (Hc & _ & Hb) Hp. rewrite ComputeUsedToday_sum. unfold spentSince.
  set (f := fun kv : string * SubscriptionUserinfo => match opening !! kv.1 with Some ui => Z.max 0 (usage kv.2 - usage ui) | None => 0 end).
  assert (forall kv, kv ∈ map_to_list current ->
    spent (CaptureSnapshot opening allowance now loc) kv = f kv /\ 0 <= f kv <= usage kv.2) as Hf.
  { intros [k ui] Hkv%elem_of_map_to_list. destruct (counter_usage ui (Hc k ui Hkv)) as [Eu Hu].
    unfold spent, delta, f. cbn. rewrite lookup_fmap. destruct (opening !! k) as [ui0|] eqn:E; cbn; [|lia].
    destruct (counter_usage ui0 (Ho k ui0 E)) as [-> Hu0]. rewrite Eu, wrap64_id by (unfold in_int64; lia). lia. }
  assert (zsum (map (spent (CaptureSnapshot opening allowance now loc)) order) = zsum (map f (map_to_list current))
    /\ 0 <= zsum (map f (map_to_list current)) <= zsum (map usage (map_to_list current).*2)) as [-> Hle].
  { rewrite (zsum_perm _ (map (spent (CaptureSnapshot opening allowance now loc)) (map_to_list current)))
      by (change (map ?g ?l) with (g <$> l); by rewrite Hp).
    clear Hp Hb Hc. revert Hf. induction (map_to_list current) as [|kv l IH]; intros Hf; [done|].
    destruct (Hf kv ltac:(by left)) as [E Hkv]. destruct IH as [IH1 IH2]; [intros kv' ?; apply Hf; by right|].
    change ((kv :: l).*2) with (kv.2 :: l.*2). cbn [map]. rewrite !zsum_cons, E, IH1. lia. }
  rewrite wrap64_id by (unfold in_int64; lia). done.
Qed.
End day.

(** ** The day book *)
Record dayBook := MkBook { bkOpened : Time; bkAllowance : Z; bkOpening : gmap string SubscriptionUserinfo }.

Section book.
Context {U : UnicodeTables} {F : FloatConversion} (p : Pipeline).
Let loc : Location := loc_or_UTC (budgetLocation p).

(** The book of the local day of [now]: the one at hand, or a new one opened
    with this reading. *)
Definition is_open (b : option dayBook) (now : Time) : bool :=
  match b with Some b => local_day loc (bkOpened b) =? local_day loc now | None => false end.
Definition bookAt (b : option dayBook) (sources : gmap string SubscriptionUserinfo) (nowA now : Time) : dayBook :=
  match b with
  | Some b => if is_open (Some b) now then b else MkBook now (allowanceOf sources nowA) sources
  | None => MkBook now (allowanceOf sources nowA) sources
  end.

(** The header a client is entitled to. *)
Definition entitled (b : dayBook) (opened : bool) (sources : gmap string SubscriptionUserinfo) (h : ServedTrafficHeader) : Prop :=
  DailyAllowanceBytes h = bkAllowance b
  /\ UsedTodayBytes h = spentSince (bkOpening b) sources
  /\ TotalBytes h = wrap64 (bkAllowance b + spentSince (bkOpening b) sources)
  /\ SnapshotLocalDate h = today (bkOpened b) (budgetLocation p)
  /\ RolloverFired h = opened.

(** The counters a build has read. *)
Definition reading (q : buildRequest) (mc : MergedConfig) : gmap string SubscriptionUserinfo :=
  (foldl (readHeaders (brCache2 q)) (∅, ∅) (mcContributingSources mc)).1.

(** The book through a sequence of builds and their results. *)
Inductive ledger : option dayBook -> list (buildRequest * (string + MergedConfig)) -> option dayBook -> Prop :=
| ledger_nil b : ledger b [] b
| ledger_error b q e l b' : ledger b l b' -> ledger b ((q, inl e) :: l) b'
| ledger_no_source b q mc l b' :
    reading q mc = ∅ -> mcServedTrafficHeader mc = None -> ledger b l b' -> ledger b ((q, inr mc) :: l) b'
| ledger_served b q mc h l b' :
    reading q mc <> ∅ -> mcServedTrafficHeader mc = Some h ->
    entitled (bookAt b (reading q mc) (brNowA q) (brNow q)) (negb (is_open b (brNow q))) (reading q mc) h ->
    ledger (Some (bookAt b (reading q mc) (brNowA q) (brNow q))) l b' -> ledger b ((q, inr mc) :: l) b'.

(** ** The refinement *)
Definition snapshotOf (b : dayBook) : Snapshot := CaptureSnapshot (bkOpening b) (bkAllowance b) (bkOpened b) (budgetLocation p).
Definition book_ok (b : dayBook) : Prop :=
  sane_sources (bkOpening b) /\ 0 <= bkAllowance b /\ four_digit_year (local_day loc (bkOpened b)).

(** A store stands for a book when it loads its snapshot. *)
Definition represents {St : Type} `{!Snapshotter St} (st : St) (b : option dayBook) : Prop :=
  snLoad st = snapshotOf <$> b /\ match b with Some b => book_ok b | None => True end.

(** What the theorem asks of a request: the iteration order is one of the map
    that was read, the counters are sane and the year has four digits. *)
Definition sane_request (q : buildRequest) (mc : MergedConfig) : Prop :=
  brOrder q ≡ₚ map_to_list (reading q mc) /\ sane_sources (reading q mc) /\ four_digit_year (local_day loc (brNow q)).

Lemma rollover_is_open (b : option dayBook) (now : Time) :
  match b with Some b => book_ok b | None => True end -> four_digit_year (local_day loc now) ->
  IsRolloverNeeded (snapshotOf <$> b) now (budgetLocation p) = negb (is_open b now).
Proof.
  destruct b as [b|]; [|done]. intros (_ & _ & Hy) Hy'. cbn. f_equal. unfold loc.
  pose proof (today_inj (bkOpened b) now (budgetLocation p) Hy Hy') as Ht.
  apply eq_true_iff_eq. by rewrite String.eqb_eq, Z.eqb_eq.
Qed.

Lemma traffic_refines {St : Type} `{!Snapshotter St, !SnapshotterLaws St} (st : St) (b : option dayBook)
    (sources : gmap string SubscriptionUserinfo) (order : list (string * SubscriptionUserinfo)) (nowA now : Time) :
  represents st b -> sources <> ∅ -> order ≡ₚ map_to_list sources -> sane_sources sources -> four_digit_year (local_day loc now) ->
  exists h st', buildTraffic p sources order nowA now (Some st) = (Some h, Some st')
    /\ entitled (bookAt b sources nowA now) (negb (is_open b now)) sources h
    /\ represents st' (Some (bookAt b sources nowA now)).
Proof.
  intros [Hl Hb] Hne Hp Hs Hy. pose proof (rollover_is_open b now Hb Hy) as Hr. rewrite <- Hl in Hr.
  destruct (is_open b now) eqn:Ho; cbn [negb] in *.
  - destruct b as [b|]; [|done]. unfold bookAt. rewrite Ho. cbn in Hl. rewrite Hl in Hr.
    destruct (compose_open sources order nowA now (snapshotOf b) (budgetLocation p) Hne Hr) as (h & E & Hf & Ha & Hu & Ht & Hd).
    exists h, st. split; [unfold buildTraffic; by rewrite Hl, E, Hf|]. unfold snapshotOf in Hu, Ht. rewrite (used_since _ sources) in Hu, Ht by (try apply Hb; done). by split_and!.
  - assert (bookAt b sources nowA now = MkBook now (allowanceOf sources nowA) sources) as Eb
      by (unfold bookAt; destruct b as [b0|]; [|done]; rewrite Ho; done). rewrite Eb.
    destruct (compose_opens sources order nowA now (snLoad st) (budgetLocation p) Hne Hs Hr) as (h & E & Hf & Ha & Hu & Ht & Hd).
    eexists h, _. split; [unfold buildTraffic; by rewrite E, Hf|]. rewrite (used_since _ sources) in Hu, Ht by done. split; [by split_and!|].
    destruct Hs as (Hs1 & Hs2 & Hs3). pose proof (allowance_exact sources nowA Hs2) as [Hpos _]. split; [|by split_and!].
    apply snLoad_snSave. by apply capture_valid.
Qed.

(** The store and the header of a build. *)
Lemma buildOne_traffic {St : Type} `{!Snapshotter St} (q : buildRequest) (st : St) (mc : MergedConfig) (st' : option St) :
  buildOne p q (Some st) = inr (mc, st') ->
  buildTraffic p (reading q mc) (brOrder q) (brNowA q) (brNow q) (Some st) = (mcServedTrafficHeader mc, st').
Proof.
  unfold buildOne, Build, reading. destruct (readSources _ _ _) as [e|sm]; [done|].
  destruct (foldl (readHeaders _) _ _) as [userinfo intervals] eqn:Er. destruct (RewriteOwn _ _). destruct (MergeProxies _ _ _).
  destruct (buildGroups _ _ _ _ _). destruct (buildTraffic _ _ _ _ _ _) as [h st1] eqn:Et.
  destruct (PruneEmptyProxyGroups _ _ _ _) as [[? ?] ?]. intros [= <- <-]. cbn [mcContributingSources mcServedTrafficHeader].
  by rewrite Er.
Qed.

(** (C28) The snapshot store refines the day book.  Take any store that returns
    the valid snapshots saved to it, standing for a day book (an empty store for
    none), and any sequence of builds over it, failing ones included, in which
    the successful ones read counters that are sane (non-negative, their sums
    within int64) in a year of four digits.  Then the served headers are those
    of the day book: a build on a local day that has no book opens one with its
    own allowance and readings and says so; every later build of that day keeps
    the book, serves its allowance, and reports as spent what the counters have
    grown since it was opened, their sum as total and its date; builds that fail
    or read no source leave it alone.  At the end the store stands for the final
    book. *)
Theorem builds_refine {St : Type} `{!Snapshotter St, !SnapshotterLaws St} (qs : list buildRequest) (st : St) (b : option dayBook) :
  represents st b ->
  (forall q mc, (q, inr mc) ∈ zip qs (builds p qs (Some st)).1 -> sane_request q mc) ->
  exists st' b', (builds p qs (Some st)).2 = Some st' /\ ledger b (zip qs (builds p qs (Some st)).1) b' /\ represents st' b'.
Proof.
  revert st b. induction qs as [|q qs IH]; intros st b Hst Hq; [exists st, b; split_and!; [done|constructor|done]|].
  rewrite builds_cons in *. cbv zeta in *. cbn [fst snd] in *. destruct (buildOne p q (Some st)) as [e|[mc st1]] eqn:Eb.
  - destruct (IH st b Hst) as (st' & b' & H1 & H2 & H3); [intros q' mc' Hin; apply Hq; by right|].
    exists st', b'. split_and!; [done|by constructor|done].
  - apply buildOne_traffic in Eb. destruct (Hq q mc ltac:(by left)) as (Hp & Hs & Hy).
    destruct (decide (reading q mc = ∅)) as [He|Hne].
    + rewrite He in Eb. cbn in Eb. injection Eb as Hh <-.
      destruct (IH st b Hst) as (st' & b' & H1 & H2 & H3); [intros q' mc' Hin; apply Hq; by right|].
      exists st', b'. split_and!; [done|by eapply ledger_no_source|done].
    + destruct (traffic_refines st b _ _ (brNowA q) (brNow q) Hst Hne Hp Hs Hy) as (h & st2 & E & Hh & Hst2).
      rewrite E in Eb. injection Eb as Hm <-.
      destruct (IH st2 _ Hst2) as (st' & b' & H1 & H2 & H3); [intros q' mc' Hin; apply Hq; by right|].
      exists st', b'. split_and!; [done|by eapply ledger_served|done].
Qed.
End book.

(** Three builds over the snapshot file: the first opens a day, the second
    reads it, the third comes a day later. *)
Section demo.
Definition demo_store_cache (up : Z) : CacheReader := fun n =>
  if String.eqb n "a" then Some (Pipeline.MkPayload (Some (lit MappingNode "" "!!map" [])) (Some (MkUserinfo up 2 100 0)) None) else None.
Definition demo_store_pipeline : Pipeline :=
  WithBudgetLocation (NewPipeline [Subscriptions.MkRow "a" "https://a" 1 true 0 0] [] [] 12) (Some UTC).
Definition demo_request (up : Z) (now : Time) : buildRequest :=
  MkBuildRequest (demo_store_cache up) (demo_store_cache up) [("a", MkUserinfo up 2 100 0)] now now.
Definition demo_requests : list buildRequest :=
  [demo_request 1 1700000000000000000; demo_request 11 1700000001000000000; demo_request 20 1700090000000000000].

Lemma demo_sane (up : Z) : 0 <= up < 1000 -> sane_sources {["a" := MkUserinfo up 2 100 0]}.
Proof.
  intros Hu. split; [apply map_Forall_singleton; unfold sane_userinfo; cbn; lia|]. rewrite map_to_list_singleton. cbn.
  unfold remainingOf, usage. cbn [Total Upload Download]. split; [|lia].
  rewrite (wrap64_id (100 - up)) by (unfold in_int64; lia). rewrite wrap64_id by (unfold in_int64; lia). case_if; lia.
Qed.

Lemma demo_years (q : buildRequest) : q ∈ demo_requests -> four_digit_year (local_day (loc_or_UTC (budgetLocation demo_store_pipeline)) (brNow q)).
Proof.
  unfold demo_requests. intros [->|[->|[->|H]%elem_of_cons]%elem_of_cons]%elem_of_cons;
    [vm_compute; split; discriminate..|by apply elem_of_nil in H].
Qed.

Lemma builds_refine_witness :
  exists mcs fs b, builds demo_store_pipeline demo_requests (Some (MkFS None None)) = (map inr mcs, Some fs)
    /\ map (fun mc => (fun h => (UsedTodayBytes h, RolloverFired h)) <$> mcServedTrafficHeader mc) mcs
       = [Some (0, true); Some (10, false); Some (0, true)]
    /\ ledger demo_store_pipeline None (zip demo_requests (map inr mcs)) b /\ snLoad fs = snapshotOf demo_store_pipeline <$> b.
Proof.
  destruct (builds demo_store_pipeline demo_requests (Some (MkFS None None))) as [outs st] eqn:E.
  assert (exists mcs, outs = map inr mcs
    /\ map (fun mc => (fun h => (UsedTodayBytes h, RolloverFired h)) <$> mcServedTrafficHeader mc) mcs
       = [Some (0, true); Some (10, false); Some (0, true)]
    /\ Forall2 (fun q mc => exists up, reading q mc = {["a" := MkUserinfo up 2 100 0]} /\ brOrder q = [("a", MkUserinfo up 2 100 0)]
         /\ 0 <= up < 1000) demo_requests mcs) as (mcs & -> & Hh & Hq).
  { vm_compute in E. injection E as <- _. eexists [_; _; _]. split; [reflexivity|]. split; [vm_compute; reflexivity|].
    repeat constructor; eexists; (split; [vm_compute; reflexivity|split; [reflexivity|lia]]). }
  destruct (builds_refine (St := snapshotFS) demo_store_pipeline demo_requests (MkFS None None) None) as (fs & b & H1 & H2 & [H3 _]).
  - split; [reflexivity|exact I].
  - rewrite E. cbn [fst]. intros q mc Hin.
    assert (exists up, reading q mc = {["a" := MkUserinfo up 2 100 0]} /\ brOrder q = [("a", MkUserinfo up 2 100 0)] /\ 0 <= up < 1000)
      as (up & Hr & Ho & Hup).
    { clear E Hh. revert Hin. induction Hq as [|q' mc' l l' Hqm _ IH]; [intros Hin; by apply elem_of_nil in Hin|].
      intros [[= -> ->]|Hin]%elem_of_cons; [exact Hqm|by apply IH]. }
    split; [rewrite Hr, Ho, map_to_list_singleton; reflexivity|]. split; [rewrite Hr; by apply demo_sane|].
    apply demo_years. by eapply elem_of_zip_l.
  - rewrite E in H1, H2. cbn [fst snd] in H1, H2. exists mcs, fs, b. split; [by rewrite H1|]. split; [exact Hh|]. split; [exact H2|exact H3].
Defined.
End demo.
