(* ===== verification/SpendRace.v ===== *)
(** * Concurrent requests over the snapshot file

    Each request loads the snapshot file, composes its header and, when it opens
    the day, saves the snapshot it captured: [Pipeline.Build] over a
    [FileSnapshotter].  Requests run in parallel, so that loads interleave with
    the system calls of saves, which may fail, and with crashes and losses of
    power.  The file and the calls are those of [AtomicFile]; the JSON text of a
    snapshot is a parameter. *)
From stdpp Require Import base gmap sets list strings sorting.
From Stdlib Require Import ZArith Lia Ascii.
From S2P Require Import Prelude GoStrings GoTime GoFloat Headers AtomicFile DailySpend Traffic Pipeline SpendStore.

Local Open Scope Z_scope.

(** What a build composes its header from. *)
Record trafficInput := MkTraffic {
  tiSources : gmap string SubscriptionUserinfo;
  tiOrder : list (string * SubscriptionUserinfo);
  tiNowA : Time;
  tiNow : Time
}.

(** [encoding/json] on snapshots: the text, with its final newline, and what
    decoding a text yields. *)
Class SnapshotCodec := {
  encodeSnapshot : Snapshot -> string;
  decodeSnapshot : string -> option Snapshot
}.

(** Decoding gives back a snapshot without NaN and infinities. *)
Class SnapshotCodecLaws `{SnapshotCodec} : Prop :=
  decode_text : forall s, encodable s = true -> decodeSnapshot (encodeSnapshot s) = Some s.

(** [SpendLoad t q]: build [t] loads the file and composes its header and, when
    it captured a snapshot, enters [Save]; [SpendFile e]: a system call of a
    [Save], a crash or a loss of power. *)
Inductive spendEvent := SpendLoad (t : nat) (q : trafficInput) | SpendFile (e : fevent).

Section race.
Context {F : FloatConversion} `{C : SnapshotCodec} (p : Pipeline) (path : string).

(** [FileSnapshotter.Load], whose reads do not fail; an absent, corrupt or
    invalid file is no snapshot. *)
Definition loadSnapshotFile (d : disk) : option Snapshot :=
  text ← readFile d path; s ← decodeSnapshot text; if validateSnapshot (Some s) then Some s else None.

Definition composeHeader (d : disk) (q : trafficInput) : option ServedTrafficHeader * option Snapshot :=
  ComposeServedTrafficHeaderWithSpend (tiSources q) (tiOrder q) (tiNowA q) (tiNow q) (loadSnapshotFile d) (budgetLocation p).

(** With the header that is served. *)
Definition spendStep (s : fsys) (e : spendEvent) : option (fsys * option ServedTrafficHeader) :=
  match e with
  | SpendLoad t q =>
      match fsWriters s !! t with
      | Some _ => None
      | None =>
          match composeHeader (fsDisk s) q with
          | (Some h, Some snap) =>
              if RolloverFired h
              then s' ← fstep SharedTmp s (FStart t path (encodeSnapshot snap)); Some (s', Some h)
              else Some (s, Some h)
          | (header, _) => Some (s, header)
          end
      end
  | SpendFile (FStart _ _ _) => None
  | SpendFile e => s' ← fstep SharedTmp s e; Some (s', None)
  end.

(** A save opens the temporary file only when no other save has it open. *)
Definition orderly (s : fsys) (e : spendEvent) : Prop :=
  match e with SpendLoad _ _ => True | SpendFile e => admissible SharedTmp s e end.

Inductive spend_run (d0 : disk) : list spendEvent -> fsys -> Prop :=
| spend_boot : spend_run d0 [] (boot d0)
| spend_more es e s s' h : spend_run d0 es s -> orderly s e -> spendStep s e = Some (s', h) -> spend_run d0 (es ++ [e]) s'.

(** The same, computed. *)
Fixpoint spend_runs (s : fsys) (es : list spendEvent) : option fsys :=
  match es with
  | [] => Some s
  | e :: es' =>
      if match e with SpendLoad _ _ => true | SpendFile e => admissibleb SharedTmp s e end
      then '(s', _) ← spendStep s e; spend_runs s' es' else None
  end.

(** * Lemmas *)
Lemma spend_runs_run (d0 : disk) (es0 es : list spendEvent) (s s' : fsys) :
  spend_run d0 es0 s -> spend_runs s es = Some s' -> spend_run d0 (es0 ++ es) s'.
Proof.
  revert es0 s. induction es as [|e es IH]; intros es0 s Hs; cbn; [intros [= <-]; by rewrite app_nil_r|].
  destruct (match e with SpendLoad _ _ => true | SpendFile e => admissibleb SharedTmp s e end) eqn:Ha; [|done].
  destruct (spendStep s e) as [[s1 h]|] eqn:E; [|done]. cbn. intros Hr. replace (es0 ++ e :: es) with ((es0 ++ [e]) ++ es) by by rewrite <- app_assoc.
  apply (IH _ s1); [|done]. eapply spend_more; [exact Hs| |exact E]. destruct e; [done|]. by apply admissibleb_sound.
Qed.

Definition loads (es : list spendEvent) : list trafficInput :=
  omap (fun e => match e with SpendLoad _ q => Some q | SpendFile _ => None end) es.

Lemma loads_app (es es' : list spendEvent) : loads (es ++ es') = loads es ++ loads es'.
Proof. apply omap_app. Qed.

Section one_day.
Context `{!SnapshotCodecLaws} (day : Z).

(** A request of the day: it has a source, and its counters are sane. *)
Definition on_day (q : trafficInput) : Prop :=
  tiSources q <> ∅ /\ tiOrder q ≡ₚ map_to_list (tiSources q) /\ sane_sources (tiSources q)
  /\ local_day (loc_or_UTC (budgetLocation p)) (tiNow q) = day.

(** The snapshot a request captures. *)
Definition captureOf (q : trafficInput) : Snapshot :=
  CaptureSnapshot (tiSources q) (allowanceOf (tiSources q) (tiNowA q)) (tiNow q) (budgetLocation p).

Lemma capture_ok (q : trafficInput) :
  four_digit_year day -> on_day q ->
  validateSnapshot (Some (captureOf q)) = true /\ decodeSnapshot (encodeSnapshot (captureOf q)) = Some (captureOf q).
Proof.
  intros Hy (_ & _ & (Hs & Hb & _) & Hd). destruct (allowance_exact (tiSources q) (tiNowA q) Hb) as [Ha _].
  assert (validateSnapshot (Some (captureOf q)) = true) as Hv by (apply capture_valid; [done|done|by rewrite Hd]).
  split; [done|]. by apply decode_text, valid_encodable.
Qed.

(** A load on a day whose snapshot is in the file reads it. *)
Lemma load_open (s : fsys) (t : nat) (q q' : trafficInput) :
  four_digit_year day -> on_day q -> on_day q' -> readFile (fsDisk s) path = Some (encodeSnapshot (captureOf q)) ->
  fsWriters s !! t = None ->
  loadSnapshotFile (fsDisk s) = Some (captureOf q)
  /\ exists h, spendStep s (SpendLoad t q') = Some (s, Some h) /\ RolloverFired h = false
       /\ DailyAllowanceBytes h = allowanceOf (tiSources q) (tiNowA q)
       /\ UsedTodayBytes h = spentSince (tiSources q) (tiSources q').
Proof.
  intros Hy Hq Hq' Hread Ht. destruct (capture_ok q Hy Hq) as [Hv Hdec].
  assert (loadSnapshotFile (fsDisk s) = Some (captureOf q)) as Hl by (unfold loadSnapshotFile; rewrite Hread; cbn [mbind option_bind]; rewrite Hdec; cbn [mbind option_bind]; by rewrite Hv).
  split; [exact Hl|]. destruct Hq as (_ & _ & Hs & Hd), Hq' as (Hne & Hp & Hs' & Hd').
  assert (IsRolloverNeeded (Some (captureOf q)) (tiNow q') (budgetLocation p) = false) as Hr.
  { cbn. unfold today, local_date. by rewrite Hd, Hd', String.eqb_refl. }
  destruct (compose_open (tiSources q') (tiOrder q') (tiNowA q') (tiNow q') _ _ Hne Hr) as (h & E & Hf & Ha & Hu & _).
  exists h. unfold spendStep, composeHeader. rewrite Ht, Hl, E, Hf. split_and!; [done|done|done|].
  rewrite Hu. by apply used_since.
Qed.

(** A load on a day whose snapshot is not captures one and enters [Save]. *)
Lemma load_opens (s : fsys) (t : nat) (q : trafficInput) :
  on_day q -> IsRolloverNeeded (loadSnapshotFile (fsDisk s)) (tiNow q) (budgetLocation p) = true -> fsWriters s !! t = None ->
  exists h, spendStep s (SpendLoad t q)
      = Some (MkFsys (fsDisk s) (<[t := MkWriter path (encodeSnapshot (captureOf q)) WOpen]> (fsWriters s)) (fsCommits s), Some h)
    /\ RolloverFired h = true /\ DailyAllowanceBytes h = allowanceOf (tiSources q) (tiNowA q) /\ UsedTodayBytes h = 0.
Proof.
  intros (Hne & Hp & Hs & _) Hr Ht.
  destruct (compose_opens (tiSources q) (tiOrder q) (tiNowA q) (tiNow q) _ _ Hne Hs Hr) as (h & E & Hf & Ha & Hu & _).
  exists h. unfold spendStep, composeHeader. rewrite Ht, E, Hf. cbn [fstep]. rewrite Ht. split_and!; [done|done|done|].
  rewrite Hu, (used_since _ (tiSources q)) by done. apply spentSince_self.
Qed.

(** Who captured what is being saved and what was renamed over the file. *)
Record spend_ok (d0 : disk) (es : list spendEvent) (s : fsys) : Prop := {
  so_files : freach SharedTmp d0 s;
  so_writers t w : fsWriters s !! t = Some w ->
    wrTarget w = path /\ exists q, q ∈ loads es /\ wrData w = encodeSnapshot (captureOf q);
  so_commits c : c ∈ fsCommits s -> c.1 = path /\ exists q, q ∈ loads es /\ c.2 = encodeSnapshot (captureOf q)
}.

(** The file holds the capture of a load, once one was renamed over it. *)
Lemma spend_file (d0 : disk) (es : list spendEvent) (s : fsys) :
  disk_start SharedTmp d0 -> is_tmp path = false -> spend_ok d0 es s ->
  match fsCommits s with
  | [] => readFile (fsDisk s) path = readFile d0 path
  | _ => exists q, q ∈ loads es /\ readFile (fsDisk s) path = Some (encodeSnapshot (captureOf q))
  end.
Proof.
  intros H0 Hp [Hf _ Hc]. rewrite (ok_content _ _ _ (fs_ok_reach _ _ _ H0 Hf) path Hp).
  destruct (fsCommits s) as [|[tgt data] rest]; [done|]. destruct (Hc (tgt, data) ltac:(by left)) as [E (q & Hq & Hd)].
  cbn in E, Hd. subst tgt data. exists q. split; [done|]. by rewrite committed_cons, decide_True.
Qed.

Lemma spend_ok_file (d0 : disk) (es : list spendEvent) (e : fevent) (s s' : fsys) :
  match e with FStart _ _ _ => False | _ => True end ->
  spend_ok d0 es s -> admissible SharedTmp s e -> fstep SharedTmp s e = Some s' -> spend_ok d0 (es ++ [SpendFile e]) s'.
Proof.
  intros Hk [Hf Hw Hc] Ha Hst. assert (loads (es ++ [SpendFile e]) = loads es) as El by (rewrite loads_app; apply app_nil_r).
  split; rewrite ?El; [by eapply freach_step|..].
  all: destruct e as [|t a| |garbage]; [done| |injection Hst as <-; cbn..]; try done; try (by intros ? ?; rewrite lookup_empty).
  all: cbn [fstep] in Hst; destruct (fsWriters s !! t) as [w|] eqn:Et; [|done]; cbn in Hst;
    destruct (writerStep SharedTmp (fsDisk s) w a) as [[d w']|] eqn:Es; [|done]; injection Hst as <-;
    apply callsLeft_step in Es as (_ & Etg & Edt); destruct (Hw t w Et) as [H1 (q & H2 & H3)].
  - intros t' w1. cbn. rewrite lookup_insert. case_decide; [|apply Hw]. intros [= <-]. rewrite Etg, Edt. split; [done|by exists q].
  - intros c Hin. cbn in Hin.
    assert (c = (wrTarget w, wrData w) \/ c ∈ fsCommits s) as [->|Hc'] by (destruct (wrPC w') as [| | | | | |[|]]; set_solver);
      [|by apply Hc]. split; [done|by exists q].
Qed.

Lemma spend_ok_run (d0 : disk) (es : list spendEvent) (s : fsys) :
  disk_start SharedTmp d0 -> is_tmp path = false -> four_digit_year day ->
  (forall q, q ∈ loads es -> on_day q /\ IsRolloverNeeded (loadSnapshotFile d0) (tiNow q) (budgetLocation p) = true) ->
  spend_run d0 es s -> spend_ok d0 es s.
Proof.
  intros H0 Hp Hy Hq Hrun. induction Hrun as [|es e s s' h Hrun IH Ha Hst].
  { split; [apply freach_boot|intros ? ?; cbn; by rewrite lookup_empty|by intros ? ?%elem_of_nil]. }
  rewrite loads_app in Hq. assert (spend_ok d0 es s) as Hs by (apply IH; intros q ?; apply Hq, elem_of_app; by left).
  destruct e as [t q|e].
  - assert (fsWriters s !! t = None) as Ht by (unfold spendStep in Hst; by destruct (fsWriters s !! t)).
    destruct (Hq q) as [Hd Hr]; [apply elem_of_app; right; by left|].
    pose proof (spend_file d0 es s H0 Hp Hs) as Hfile. destruct Hs as [Hf Hw Hc].
    assert (forall q0, q0 ∈ loads es -> q0 ∈ loads (es ++ [SpendLoad t q])) as Hmono
      by (intros q0 ?; rewrite loads_app; apply elem_of_app; by left).
    assert (spend_ok d0 (es ++ [SpendLoad t q]) s) as Hkeep.
    { split; [done|intros t' w E; destruct (Hw t' w E) as [? (q0 & ? & ?)]|intros c E; destruct (Hc c E) as [? (q0 & ? & ?)]];
        split; try done; exists q0; auto. }
    destruct (fsCommits s) as [|c cs] eqn:Ec.
    + unfold loadSnapshotFile in Hr. rewrite <- Hfile in Hr. destruct (load_opens s t q Hd Hr Ht) as (h' & E & _).
      rewrite E in Hst. injection Hst as <- _. split; cbn [fsWriters fsCommits].
      * eapply (freach_step _ _ _ (FStart t path (encodeSnapshot (captureOf q)))); [exact Hf|done|]. cbn. by rewrite Ht.
      * intros t' w. rewrite lookup_insert. case_decide; [|apply Hkeep]. intros [= <-]. split; [done|]. exists q.
        split; [rewrite loads_app; apply elem_of_app; right; by left|done].
      * apply Hkeep.
    + destruct Hfile as (q0 & Hq0 & Hread). destruct (Hq q0) as [Hd0 _]; [apply elem_of_app; by left|].
      destruct (load_open s t q0 q Hy Hd0 Hd Hread Ht) as (_ & h' & E & _). rewrite E in Hst. by injection Hst as <- _.
  - destruct e as [| | |]; [done|..]; cbn [spendStep] in Hst;
      (destruct (fstep SharedTmp s _) as [s1|] eqn:E; [|done]); injection Hst as <- _; by eapply spend_ok_file.
Qed.
End one_day.

End race.

(** ** A lossless text of snapshots *)
#[export] Instance spec_float_eq_dec : EqDecision SpecFloat.spec_float.
Proof. solve_decision. Defined.
#[export] Instance spec_float_countable : Countable SpecFloat.spec_float.
Proof.
  refine (inj_countable'
    (fun x => match x with
              | SpecFloat.S754_zero s => inl (inl s) | SpecFloat.S754_infinity s => inl (inr s)
              | SpecFloat.S754_nan => inr (inl tt) | SpecFloat.S754_finite s m e => inr (inr (s, m, e))
              end)
    (fun x => match x with
              | inl (inl s) => SpecFloat.S754_zero s | inl (inr s) => SpecFloat.S754_infinity s
              | inr (inl tt) => SpecFloat.S754_nan | inr (inr (s, m, e)) => SpecFloat.S754_finite s m e
              end) _). by intros [].
Defined.

Definition snapshot_tuple (s : Snapshot) : string * Z * Z * list (string * Z) * list (string * SpecFloat.spec_float) :=
  (LocalDate s, SnapshotUnix s, AllowanceTodayBytes s, map_to_list (Baselines s), map_to_list (BaselineUploadRatios s)).
Definition tuple_snapshot (x : string * Z * Z * list (string * Z) * list (string * SpecFloat.spec_float)) : Snapshot :=
  let '(d, u, a, b, r) := x in MkSnapshot d u a (list_to_map b) (list_to_map r).

Fixpoint positive_text (p : positive) : string :=
  match p with xH => "" | xO p => String "0"%char (positive_text p) | xI p => String "1"%char (positive_text p) end.
Fixpoint text_positive (s : string) : positive :=
  match s with "" => xH | String "0"%char s => xO (text_positive s) | String _ s => xI (text_positive s) end.

Lemma text_positive_text (p : positive) : text_positive (positive_text p) = p.
Proof. induction p; cbn; congruence. Qed.

#[local] Instance demo_codec : SnapshotCodec := {|
  encodeSnapshot s := positive_text (encode (snapshot_tuple s));
  decodeSnapshot t := tuple_snapshot <$> decode (text_positive t)
|}.
#[local] Instance demo_codec_laws : SnapshotCodecLaws.
Proof.
  intros s _. cbn. rewrite text_positive_text, decode_encode. cbn. destruct s as [d u a b r]. cbn. by rewrite !list_to_map_to_list.
Qed.

(** Two requests at midnight both capture; the save of the first fails at its
    sync, that of the second succeeds and the process is restarted; a third
    request counts from there. *)
Definition demo_spend (up : Z) : trafficInput :=
  MkTraffic {["a" := MkUserinfo up 2 100 0]} [("a", MkUserinfo up 2 100 0)] 1700000000000000000 1700000000000000000.
Definition demo_text_size (up : Z) : nat := String.length (encodeSnapshot (captureOf demo_store_pipeline (demo_spend up))).
Definition demo_race : list spendEvent :=
  [SpendLoad 0 (demo_spend 1); SpendLoad 1 (demo_spend 5)]
  ++ map SpendFile
       [FStep 0 (MkArg false "" 1 0); FStep 0 (MkArg false "" 0 (demo_text_size 1)); FStep 0 ioOk; FStep 0 (MkArg true "" 0 0); FStep 0 ioOk;
        FStep 1 (MkArg false "" 2 0); FStep 1 (MkArg false "" 0 (demo_text_size 5)); FStep 1 ioOk; FStep 1 ioOk; FStep 1 ioOk; FStep 1 ioOk;
        FCrash].
Definition emptyDisk : disk := MkDisk ∅ ∅.

Lemma emptyDisk_start : disk_start SharedTmp emptyDisk.
Proof.
  split; [split|]; cbn.
  - intros p q i H. by rewrite lookup_empty in H.
  - intros p i H. by rewrite lookup_empty in H.
  - intros _ p i n _ H. by rewrite lookup_empty in H.
Qed.

