(* ===== verification/Served.v ===== *)
(** * From start-up to a served response

    What a client that is answered 200 by a started process knows: the
    composition of the wiring, the access rules, the bootstrap gate, the build
    and the rendering. *)
From stdpp Require Import base gmap sets list strings sorting.
From Stdlib Require Import ZArith Lia Ascii.
From S2P Require Import Prelude GoStrings GoTime GoFloat Yaml Subscriptions Headers CustomRules DailySpend Traffic Fanout Region Pipeline.
From S2P Require Import ServerConfig Tokens Http OwnProxies Cache Scheduler SchedulerProofs Output OutputProofs Server ServerProofs Main.
From S2P Require Import Namespace Proxies ProxyGroups Prune BuildProofs Closure.

Local Open Scope Z_scope.

Section served.
Context {U : UnicodeTables} {P : UrlParser} {T : TimeZones} {Y : YamlDecoder} {D : NodeDecoder}.
Context {F : FloatConversion} {E : YamlEncoder} {St : Type} `{!Snapshotter St} {H : TokenHash}.

Definition processApp (pr : process) : App := MkApp (prConfig pr) (prTokens pr) (prPipeline pr) (prAdapter pr).

(** Where a 200 comes from. *)
Lemma Subscription_200 (c : Coordinator) (p : Pipeline) (adapter : SubscriptionMode) (i : buildInput) (debug : bool)
    (err : option string) (r : request) (ctx : option TokenRecord) (s : option St) :
  let out := Subscription c p adapter i debug err r ctx s in
  rpStatus (oReply out) = 200 ->
  coReady c = true /\ AllSucceeded c = true /\ exists merged s' rendered, buildWith p i s = inr (merged, s')
    /\ Render adapter (Some merged) = inr rendered /\ oReply out = MkReply 200 (RenderedHeaders rendered) (Body rendered)
    /\ oStore out = s'.
Proof.
  intros out. unfold out, Subscription. destruct (coReady c); [|done]. destruct (AllSucceeded c); [|done]. cbn [negb].
  destruct (buildWith p i s) as [e|[merged s']]; [done|]. destruct (Render adapter (Some merged)) as [e|rendered] eqn:Hr; [done|].
  intros _. split_and!; [done|done|]. exists merged, s', rendered. by destruct err.
Qed.

Lemma Render_inr (adapter : SubscriptionMode) (merged : MergedConfig) (rendered : Rendered) :
  Render adapter (Some merged) = inr rendered ->
  exists doc bytes, yaml_Unmarshal (templateBytes adapter) = inr doc /\ yaml_Encode (renderDoc merged doc) = inr bytes
    /\ Body rendered = unescapeSupplementaryPlane bytes /\ RenderedHeaders rendered = renderHeaders merged.
Proof.
  unfold Render. destruct (yaml_Unmarshal (templateBytes adapter)) as [|doc] eqn:Hd; [done|].
  destruct (docRoot (Some doc)) as [root|]; [|done]. destruct (negb (is_kind MappingNode root)); [done|].
  destruct (yaml_Encode (renderDoc merged doc)) as [|bytes] eqn:Hb; [done|]. intros [= <-]. exists doc, bytes.
  split_and!; try done.
Qed.

Lemma subHandler_200 (a : App) (c : Coordinator) (now : Time) (i : buildInput) (debug : bool) (err : option string)
    (r : request) (ctx : option TokenRecord) (s : option St) :
  rpStatus (oReply (subHandler a c now i debug err r ctx s)) = 200 ->
  exists rec, Lookup (appTokens a) now (rqToken r) = Some rec
    /\ agent_allowed (AllowedUserAgentPrefixes (appCfg a)) (rqUserAgent r)
    /\ subHandler a c now i debug err r ctx s = Subscription c (appPipeline a) (appAdapter a) i debug err r (Some rec) s.
Proof.
  rewrite subHandler_spec, RequireUserAgent_spec. case_decide as Ha; [|done]. unfold RequireToken.
  destruct (String.eqb (rqToken r) ""); [done|]. destruct (Lookup _ now (rqToken r)) as [rec|]; [|done]. intros _. by exists rec.
Qed.

(** (C5) From start-up to the client.  When a process that started answers a
    request 200, the token is one the store accepts, bootstrap is over with every
    source loaded, and the body is the encoding of a configuration built from
    the cache with no dangling reference of its own making: when the entries of
    the operator's file and of every cached source are mappings with scalar
    names, a member of a served group is a built-in, a served proxy or a served
    group, unless it already dangled in the operator's file or in its source. *)
Theorem served_closed (inp : inputs) (pr : process) (own : OwnProxiesFile) (c : Coordinator) (now : Time) (i : buildInput)
    (debug : bool) (err : option string) (r : request) (ctx : option TokenRecord) (s : option St) :
  setup inp = inr pr -> LoadOwnProxies (inOwnProxies inp) = inr own ->
  all_named (OwnProxies.Proxies own) -> all_named (OwnProxies.ProxyGroups own) ->
  (forall name, is_Some (Cache.Get (biCache1 i) name) -> source_named (reader (biCache1 i)) name) ->
  let out := subHandler (processApp pr) c now i debug err r ctx s in
  rpStatus (oReply out) = 200 ->
  is_Some (Lookup (prTokens pr) now (rqToken r)) /\ coReady c = true /\ AllSucceeded c = true
  /\ exists merged doc bytes, buildWith (prPipeline pr) i s = inr (merged, oStore out)
       /\ yaml_Unmarshal (templateBytes (prAdapter pr)) = inr doc
       /\ yaml_Encode (renderDoc merged doc) = inr bytes
       /\ oReply out = MkReply 200 (renderHeaders merged) (unescapeSupplementaryPlane bytes)
       /\ forall g m, g ∈ mcProxyGroups merged -> m ∈ mappingMembers g "proxies" ->
            is_builtin m = true \/ (m <> "" /\ m ∈ names_of (mcProxies merged) ++ names_of (mcProxyGroups merged))
            \/ input_dangling (prPipeline pr) (reader (biCache1 i)) (mcContributingSources merged) m.
Proof.
  intros Hset%setup_wired Hown HoP HoG Hsrc out Hst. unfold out in *.
  destruct (subHandler_200 _ _ _ _ _ _ _ _ _ Hst) as (rec & Hl & _ & Heq). rewrite Heq in *.
  destruct (Subscription_200 _ _ _ _ _ _ _ _ _ Hst) as (Hr & Ha & merged & s' & rendered & Hb & Hren & -> & ->).
  destruct (Render_inr _ _ _ Hren) as (doc & bytes & Hdoc & Henc & -> & ->).
  split; [by exists rec|]. split_and!; [done|done|]. exists merged, doc, bytes. split_and!; [done..|].
  destruct (wd_pipeline _ _ Hset) as (own' & Ho & Hp). assert (own' = own) as -> by congruence.
  cbn [appPipeline processApp] in Hb. rewrite Hp in *.
  intros g m Hg Hm. eapply Build_members_resolve; [exact Hb|..]; cbn [subscriptions proxiesGroupName ownProxies ownGroups]; try done.
  - apply Hset.
  - by apply (config_ok_groupName _ _ (wd_config _ _ Hset)).
  - intros n Hn. apply Hsrc.
    destruct (contributing_cached _ _ _ _ _ _ _ _ _ n Hb (wd_names _ _ Hset) Hn) as [doc' Hd].
    unfold docOf, reader in Hd. by destruct (Cache.Get (biCache1 i) n).
  - by exists g.
Qed.
End served.

(** A started process with one source, fetched at bootstrap: its group lists a
    proxy the provider left out, and that is the one reference of the served
    configuration that does not resolve. *)
Section demo.
Definition demo_served_decoder : YamlDecoder := {| yaml_Unmarshal body :=
  if String.eqb body "upstream" then inr dangling_doc else @yaml_Unmarshal demo_main_decoder body |}.
#[local] Existing Instances demo_served_decoder demo_node_decoder demo_zones demo_urls demo_encoder demo_hash.

Definition served_inputs : inputs :=
  MkInputs demo_env (Some [inr ["name"; "link"; "priority"; "enable"]; inr ["a"; "https://x.example"; "10"; "enable"]])
    demo_file false ∅ DirMissing (inr "") None (inr "").
Definition served_go : wevent := EvGo "a" 0 0 (Responds (MkResponse 200 (fun _ => "") (inr "upstream"))) None.
Definition served_world (pr : process) : option world :=
  wruns (Start (NewCoordinator (prCache pr) (schedulerConfig (prConfig pr)) (prRows pr)) 0 false)
    [served_go; served_go; served_go; served_go; EvReady].
Definition served_input (w : world) : buildInput :=
  MkBuildInput (coCache (wCo w)) (coCache (wCo w)) [] (wNow w) (wNow w) (coCache (wCo w)) (wNow w).
Definition demo_served (pr : process) (w : world) : outcome (option MapSnapshotter) :=
  subHandler (processApp pr) (wCo w) (wNow w) (served_input w) false None (MkRequest "GET" "/" "abc" "clash-verge" "r") None None.

Lemma served_closed_witness :
  exists pr w merged, setup served_inputs = inr pr /\ served_world pr = Some w
    /\ rpBody (oReply (demo_served pr w)) = "served" /\ mcContributingSources merged = ["a"]
    /\ unresolved merged = ["a_Gone"]
    /\ forall g m, g ∈ mcProxyGroups merged -> m ∈ mappingMembers g "proxies" ->
         is_builtin m = true \/ (m <> "" /\ m ∈ names_of (mcProxies merged) ++ names_of (mcProxyGroups merged))
         \/ input_dangling (prPipeline pr) (reader (coCache (wCo w))) ["a"] m.
Proof.
  destruct (setup served_inputs) as [e|pr] eqn:E; [vm_compute in E; discriminate|].
  destruct (served_world pr) as [w|] eqn:Ew; [|exfalso; vm_compute in E; injection E as <-; vm_compute in Ew; discriminate].
  assert (rpStatus (oReply (demo_served pr w)) = 200 /\ rpBody (oReply (demo_served pr w)) = "served") as [H200 Hbody].
  { vm_compute in E. injection E as <-. vm_compute in Ew. injection Ew as <-. split; vm_compute; reflexivity. }
  destruct (served_closed (St := MapSnapshotter) served_inputs pr demo_own_file (wCo w) (wNow w) (served_input w) false None
    (MkRequest "GET" "/" "abc" "clash-verge" "r") None None E) as (_ & _ & _ & merged & doc & bytes & Hb & _ & _ & _ & Hc);
    [reflexivity|apply Forall_singleton; reflexivity|apply Forall_singleton; reflexivity| |exact H200|].
  - intros name [p Hp]. assert (name = "a") as ->.
    { assert (map fst (map_to_list (byName (coCache (wCo w)))) = ["a"]) as Hk
        by (vm_compute in E; injection E as <-; vm_compute in Ew; injection Ew as <-; by vm_compute).
      unfold served_input, Cache.Get in Hp. cbn [biCache1] in Hp.
      destruct (byName (coCache (wCo w)) !! name) as [en|] eqn:El; [|discriminate].
      apply elem_of_map_to_list in El. apply list_elem_of_singleton. rewrite <- Hk. apply list_elem_of_fmap.
      exists (name, en). split; [reflexivity|exact El]. }
    vm_compute in E. injection E as <-. vm_compute in Ew. injection Ew as <-. split; repeat constructor.
  - exists pr, w, merged. assert (mcContributingSources merged = ["a"] /\ unresolved merged = ["a_Gone"]) as [Hs Hu].
    { vm_compute in E. injection E as <-. vm_compute in Ew. injection Ew as <-. vm_compute in Hb. injection Hb as <-. split; by vm_compute. }
    rewrite Hs in Hc. split_and!; [reflexivity|exact Ew|exact Hbody|exact Hs|exact Hu|exact Hc].
Defined.
End demo.
